(* ===== verification/_CoqProject ===== *)
-Q . S2P
Prelude.v
Machine.v
Text.v
Common.v
BTree.v
Ring.v
Store.v
Membership.v
Gossip.v
GossipLoop.v
GossipNetwork.v
Convergence.v
Parser.v
Encoder.v
RespServer.v
NodeService.v
Rebalance.v
NodeMain.v
Health.v
Coordinator.v
RouterGossip.v
Router.v
Replicated.v
LostReplies.v
Overlap.v
Failover.v
RouterMain.v
Float64.v
Demo.v
DemoRun.v
Restart.v
Testing.v
RespTests.v
NodeTests.v
RouterTests.v
IntegrationTest.v
