(* ===== verification/Prelude.v ===== *)
(** * The self-healing distributed cache

    This library models the Rust program of this repository (crates [common],
    [node] and [router] under [src/crates/], the load tool under [src/tools/demo/])
    and proves what makes it correct.  It is a shallow embedding: a function of the
    program is a function of its arguments and of the state it works on, an error is
    a value, a panic is the outcome [Panics], a loop is a [Fixpoint].

    ** The program

    A cluster of nodes keeps key-value pairs with expiry times.  Each node has a
    store, a membership table and a set of tombstones, shared by its tasks: a gRPC
    service, a RESP (Redis) server, a sweeper of expired entries, the gossip
    protocol, and, when it joins, a rebalancer that pulls its keys from its peers.
    Routers take client requests over gRPC, place keys on a consistent-hash ring and
    replicate them; they watch the nodes by heartbeats and by gossip.

    ** The files

    Foundations:
    - [Prelude]: outcomes of Rust code and their notation, list lemmas, tactics,
      invariants along executions.
    - [Machine], [Text], [BTree]: what the program uses of Rust's library: integers
      of 64 and 32 bits, times, bytes and UTF-8 strings, decimal text, the ordered map;
    - [Float64]: floating-point numbers and how they are printed.
    - [Common] ([common/src/lib.rs]): identifiers, and the external crates as
      classes: [UuidLib], [Xxh3], [HashIter] (the order of hash tables).

    The node:
    - [Ring] ([common/src/hashring.rs]), Module [HashRing]: a sorted list of virtual
      nodes and the vector of nodes.
    - [Store] ([node/src/cache/]), Module [CacheStore]: the map of entries, with its
      lazy expiry, and the sweeper.
    - [Membership] ([node/src/gossip/state.rs]), Module [MembershipTable].
    - [Gossip] ([node/src/gossip/protocol.rs], [server.rs]): messages, the exchange,
      a round, the timeout check.
    - [GossipLoop]: the loop of the protocol task.
    - [GossipNetwork]: these handlers at every node of a cluster, over a network that
      loses, delays, repeats and reorders messages, as a step relation; nodes may be
      started again under their old identifiers, with new tables.
    - [Convergence]: the same handlers at nodes that meet pairwise in any order, with
      lost replies, after any history of starts, restarts, crashes, timeouts and meetings.
    - [Parser], [Encoder], [RespServer] ([node/src/resp/]): the RESP2 parser over a
      growing buffer, the encoder, the commands, the connection loop and the accept loop.
    - [NodeService] ([node/src/grpc/service.rs]): the gRPC handlers over the state of
      a node, and what all its tasks do to it, access by access ([handles]).
    - [Rebalance] ([node/src/rebalance/mod.rs]): the rebalancer, with whatever the
      other tasks of the node do between its steps.
    - [NodeMain] ([node/src/main.rs]): the state a node starts in, and what ends it.

    The router:
    - [Health] ([router/src/client.rs], [health/mod.rs]): the client pool, the health
      monitor and its checker.
    - [Coordinator] ([router/src/replication/]): the preference list and the
      replicated operations, against the class [Network] (what the router needs of
      the network); [Cluster.cluster_network] implements it by the handlers of
      [NodeService].
    - [RouterGossip] ([router/src/membership/], [gossip/], the start of [main.rs]):
      the configured nodes, and the ring and health kept up to date by gossip.
    - [Router] ([router/src/router.rs], [grpc/service.rs]): routing with and without
      an explicit target, and the gRPC service.

    The whole:
    - [Replicated]: service, coordinator, network, handlers, sweepers and stores
      together, refining one map.
    - [Overlap]: requests whose accesses interleave with those of other requests, other
      routers, sweepers and gossip: a client of one key sees one cell.
    - [LostReplies]: the same cluster when replies are lost after nodes have handled the
      requests.
    - [Failover]: the health checker at work on such a cluster, and the replicated
      operations while nodes crash, run their tasks and start anew ([meanwhile]), and the
      checker notices.
    - [RouterMain] (the router's [main.rs]): what the tasks of a router are started
      with, how the start can fail, and what a started router does.
    - [Demo], [DemoRun] ([tools/demo/src/main.rs]): the metrics, requests and loops of
      the load workers, composed with the RESP server of a node; the commands of the
      tool, what they print and the verdict.
    - [Restart]: a node that starts again under its old identifier.

    The repository's tests, as programs over these definitions:
    - [Testing]: assertions, time and threads of tests.
    - [RespTests], [NodeTests], [RouterTests]: the unit tests of the modules.
    - [IntegrationTest] ([node/tests/integration_join.rs]): the test of a join, on one
      family of schedules.

    ** What is shown

    - Data.  The cluster under stable membership is one map with expiry times
      ([Replicated.cluster_is_one_map]); what each replicated operation does to each
      node, and what is left when nodes cannot be reached ([Coordinator]); a store
      refines a map of live entries ([Store]); what others do with other keys between two
      accesses of a request does not disturb it, while two overlapping writes of one key
      leave its replicas different ([Overlap]); the operations of a node in every
      state ([NodeService], [NodeMain]); a rebalance transfers the keys the ring
      assigns, undoes no recorded delete, and ends ([Rebalance]).
    - Crashes.  The checker finds out which of the nodes it probes are down; an
      acknowledged write is read while a replica that has it is up, unless a node that is
      up and comes before it in the list missed the write and holds an older copy; three
      ticks after its start a router answers each write by the first of the key's
      candidates that is up, which refuses it if it is joining ([Failover], [RouterMain]).
      No task of a running node copies the keys of a dead one, so successive crashes lose
      acknowledged keys ([Failover.replicas_not_repaired]).  A write that fails because
      replies were lost is stored all the same ([LostReplies]).  A node that restarts is
      not noticed by peers that had not missed it ([Restart]).
    - Membership.  Merging is the maximum of versions, so it converges whatever the
      order ([Membership]); a full exchange makes two nodes agree, crashes are
      detected in time, false suspicions heal ([Gossip]); in the whole cluster nobody
      claims an incarnation its owner has never had, and a refutation wins over
      everything not above it ([GossipNetwork]); once everybody has heard everybody
      twice, all tables agree on every node whose restarts, if any, came after everybody
      had noticed its crash, and no false suspicion of it is left ([Convergence]); a node
      that nobody answers gives everybody up ([GossipLoop]).
    - Placement.  A key belongs to the nearest virtual node clockwise, membership
      changes move no other key, preference lists are the clockwise walk ([Ring]);
      requests go to the first routable nodes of it ([Coordinator]); the router's
      ring and health follow the messages ([RouterGossip], [Health], [Router]).
    - Wire.  Parsing is total, incremental and inverse to encoding; a connection is
      a sequential interpreter whatever way the stream is cut; what the load tool
      sends is what a node executes ([Parser], [Encoder], [RespServer], [Demo]).
    - Tests.  The load tool's report and exit status say what its workers met
      ([Demo], [DemoRun]); the unit tests pass for every hash function, identifier
      library and order of tables they do not depend on, and the integration test on a
      quick enough machine, whatever the interleaving of transfer and deletes; what the tests of
      the ring's balance measure is exact, roundings included ([RouterTests]).
    - Limits.  Theorems also state the behaviour where the program does less than it
      means to: lost writes of overlapping accesses, wrapping incarnations, panics on
      hostile arrays or addresses, partitions that do not heal, joined nodes that are
      never probed, and others.

    Properties are the theorems whose comments start with C and a number; comments
    starting with "Further" mark theorems of the same kind that are not among them.
    A theorem with hypotheses comes with a witness, named after it, that applies it
    to concrete data.

    ** Conventions and bounds

    - Integers are those of the release profile: [+] wraps at the width.  Times are
      nanoseconds; [Instant + Duration] panics beyond the range of [Instant].
    - Each access to a concurrent map, and each operation under a lock, is one atomic
      step.  The removal of an expired entry by the store's [get], and the two accesses of
      a delete at a joining node, are steps of their own in [NodeService.handles] and so
      in [Rebalance], [Overlap] and [Failover] (for [get] see also
      [Store.get_loses_concurrent_write]); in [Cluster.cluster_network] a handler is one
      step.  The gossip handlers interleave message by message in [GossipNetwork]; the
      rebalancer access by access in [Rebalance].
    - [Cluster.cluster_network] loses no replies; [LostReplies.lossy_network] does.
    - What a step reads of its environment (the clock, random choices, network
      answers) is an argument, indexed by the step where several are read.
    - Fuel: [parse_resp] gets one more than the length of the buffer, which
      [parse_total] shows to be enough; the number of polls of [wait_and_rebalance],
      which may wait for ever, is its fuel, and nothing is claimed of a wait that
      goes on; the other recursions are structural or run on a length.
    - A request to the router sees one snapshot of ring and health, and keeps its own
      view of the client pool; its accesses to the network interleave with everything
      else in [Overlap].

    ** Not modelled

    The runtime (tokio, tonic, sockets, timers, signals), command lines, logging and
    the text of JSON files, the generated protobuf code beyond the fields of the
    messages, exhaustion of stack or memory, and panics of the debug profile on overflow;
    and the gossip loops and sweepers that run while the integration test does.
    The hash function is a parameter, so how evenly it spreads keys is not known here. *)

From Stdlib Require Export ZArith Lia.
From Stdlib Require Export Sorting.Permutation Sorting.Sorted.
From stdpp Require Export base tactics list gmap fin_maps strings relations.

(** ** Outcomes of Rust code

    A Rust expression either returns, or panics with a message.  [OutOfFuel] is
    only produced by a fuel-indexed definition whose fuel is exhausted. *)

Inductive outcome (A : Type) : Type :=
  | Returns (a : A)
  | Panics (msg : string)
  | OutOfFuel.
Arguments Returns {A} a.
Arguments Panics {A} msg.
Arguments OutOfFuel {A}.

Definition outcome_bind {A B} (m : outcome A) (k : A → outcome B) : outcome B :=
  match m with
  | Returns a => k a
  | Panics msg => Panics msg
  | OutOfFuel => OutOfFuel
  end.

Definition outcome_map {A B} (f : A → B) (m : outcome A) : outcome B :=
  outcome_bind m (λ a, Returns (f a)).

Declare Scope outcome_scope.
Delimit Scope outcome_scope with outcome.
Notation "'let!' x ':=' m 'in' k" := (outcome_bind m (λ x, k))
  (at level 10, x pattern, m at level 100, k at level 200)
  : outcome_scope.

Lemma Returns_inj {A} (a b : A) : Returns a = Returns b → a = b.
Proof. congruence. Qed.

Lemma outcome_bind_Returns {A B} (m : outcome A) (k : A → outcome B) b :
  outcome_bind m k = Returns b ↔ ∃ a, m = Returns a ∧ k a = Returns b.
Proof. destruct m; simpl; naive_solver. Qed.

Lemma outcome_bind_Panics {A B} (m : outcome A) (k : A → outcome B) msg :
  outcome_bind m k = Panics msg ↔
  m = Panics msg ∨ ∃ a, m = Returns a ∧ k a = Panics msg.
Proof. destruct m; simpl; naive_solver. Qed.

(** ** Automation shared by all the files

    [simp_if] splits the innermost test of the goal or of a hypothesis;
    [bool_facts] turns boolean tests into propositions. *)

Ltac bool_facts :=
  repeat match goal with
  | H : andb _ _ = true |- _ => apply andb_prop in H as [? ?]
  | H : orb _ _ = false |- _ => apply orb_false_elim in H as [? ?]
  | H : negb _ = true |- _ => apply negb_true_iff in H
  | H : negb _ = false |- _ => apply negb_false_iff in H
  | H : Z.leb _ _ = true |- _ => apply Z.leb_le in H
  | H : Z.leb _ _ = false |- _ => apply Z.leb_gt in H
  | H : Z.ltb _ _ = true |- _ => apply Z.ltb_lt in H
  | H : Z.ltb _ _ = false |- _ => apply Z.ltb_ge in H
  | H : Z.eqb _ _ = true |- _ => apply Z.eqb_eq in H
  | H : Z.eqb _ _ = false |- _ => apply Z.eqb_neq in H
  | H : Nat.leb _ _ = true |- _ => apply Nat.leb_le in H
  | H : Nat.leb _ _ = false |- _ => apply Nat.leb_gt in H
  | H : Nat.ltb _ _ = true |- _ => apply Nat.ltb_lt in H
  | H : Nat.ltb _ _ = false |- _ => apply Nat.ltb_ge in H
  | H : Nat.eqb _ _ = true |- _ => apply Nat.eqb_eq in H
  | H : Nat.eqb _ _ = false |- _ => apply Nat.eqb_neq in H
  | H : bool_decide _ = true |- _ => apply bool_decide_eq_true_1 in H
  | H : bool_decide _ = false |- _ => apply bool_decide_eq_false_1 in H
  end.

Ltac simp_if :=
  match goal with
  | |- context [if ?b then _ else _] => destruct b eqn:?
  | H : context [if ?b then _ else _] |- _ => destruct b eqn:?
  end; bool_facts.

(** ** Lists *)

Section lists.
Context {A : Type}.

Lemma find_Some_iff_first (p : A → bool) (l : list A) (x : A) :
  List.find p l = Some x ↔
  ∃ l1 l2, l = l1 ++ x :: l2 ∧ p x = true ∧ Forall (λ y, p y = false) l1.
Proof.
  split.
  - induction l as [|y l IH]; simpl; [done|].
    destruct (p y) eqn:Hp; intros Hf.
    + simplify_eq. exists [], l. by repeat split.
    + destruct (IH Hf) as (l1 & l2 & -> & ? & ?).
      exists (y :: l1), l2. repeat split; auto.
  - intros (l1 & l2 & -> & Hp & Hall).
    induction Hall as [|y l1 Hy _ IH]; simpl; [by rewrite Hp|by rewrite Hy].
Qed.

Lemma find_None_iff (p : A → bool) (l : list A) :
  List.find p l = None ↔ Forall (λ y, p y = false) l.
Proof.
  induction l as [|y l IH]; simpl; [naive_solver|].
  rewrite Forall_cons. destruct (p y); naive_solver.
Qed.

Lemma elem_of_filterb (p : A → bool) (l : list A) (x : A) :
  x ∈ List.filter p l ↔ p x = true ∧ x ∈ l.
Proof. rewrite !list_elem_of_In, List.filter_In. tauto. Qed.

Lemma NoDup_filterb (p : A → bool) (l : list A) : NoDup l → NoDup (List.filter p l).
Proof. rewrite !NoDup_ListNoDup. apply List.NoDup_filter. Qed.

Lemma filterb_perm (p : A → bool) (l l' : list A) : l ≡ₚ l' →
  length (List.filter p l) = length (List.filter p l').
Proof.
  induction 1 as [|x l l' _ IH|x y l|l1 l2 l3 _ IH1 _ IH2]; simpl; [done| | |congruence].
  - destruct (p x); simpl; congruence.
  - by destruct (p x), (p y).
Qed.

Lemma take_S_more k (l : list A) : ∃ more, take (S k) l = take k l ++ more.
Proof.
  destruct (l !! k) as [x|] eqn:E; [exists [x]; by apply take_S_r|].
  exists []. apply lookup_ge_None in E. by rewrite app_nil_r, !take_ge by lia.
Qed.

(** When fewer elements pass a filter, an element of the first [k] that still passes is
    still there, and what comes before it was there. *)
Lemma take_filter_fewer (p p' : A → bool) x l :
  (∀ y, y ∈ l → p' y = true → p y = true) → p' x = true → ∀ k,
  x ∈ take k (List.filter p l) →
  ∃ pre post, take k (List.filter p' l) = pre ++ x :: post ∧
    ∀ y, y ∈ pre → y ∈ take k (List.filter p l).
Proof.
  intros Hp Hx. induction l as [|c l IH]; intros k Hin.
  { destruct k; by apply elem_of_nil in Hin. }
  specialize (IH (λ y Hy, Hp y (list_elem_of_further _ _ _ Hy))).
  pose proof (Hp c (list_elem_of_here _ _)) as Hc. cbn [List.filter] in *.
  destruct (p c), (p' c) eqn:Ec'; try by discriminate Hc.
  - destruct k as [|k]; [by apply elem_of_nil in Hin|]. cbn [take] in *.
    apply elem_of_cons in Hin as [->|Hin].
    { exists [], (take k (List.filter p' l)). split; [done|]. by intros y ?%elem_of_nil. }
    destruct (IH k Hin) as (pre & post & -> & Hpre). exists (c :: pre), post. split; [done|].
    intros y [->|Hy]%elem_of_cons; [by left|right; by apply Hpre].
  - destruct k as [|k]; [by apply elem_of_nil in Hin|]. cbn [take] in Hin.
    apply elem_of_cons in Hin as [->|Hin]; [congruence|].
    destruct (IH k Hin) as (pre & post & Hl & Hpre).
    destruct (take_S_more k (List.filter p' l)) as [more ->]. rewrite Hl.
    exists pre, (post ++ more). split; [by rewrite <- app_assoc|].
    intros y Hy. cbn [take]. right. by apply Hpre.
  - by apply IH.
Qed.

Lemma existsb_filter (p : A → bool) l :
  existsb p l = match List.filter p l with [] => false | _ => true end.
Proof. induction l as [|x l IH]; [done|]. cbn. by destruct (p x). Qed.

Lemma find_filter (p : A → bool) l : List.find p l = head (List.filter p l).
Proof. induction l as [|x l IH]; [done|]. cbn. by destruct (p x). Qed.

Lemma head_omap_prefix {B} (f : A → option B) v x pre post :
  f x = Some v → (∀ y, y ∈ pre → f y = None ∨ f y = Some v) →
  head (omap f (pre ++ x :: post)) = Some v.
Proof.
  intros Hx. induction pre as [|y pre IH]; intros Hpre; cbn [omap list_omap app].
  - by rewrite Hx.
  - destruct (Hpre y) as [-> | ->]; [by left| |done]. apply IH. intros z Hz. apply Hpre. by right.
Qed.

Lemma filterb_all (p : A → bool) (l : list A) : (∀ x, x ∈ l → p x = true) → List.filter p l = l.
Proof.
  induction l as [|x l IH]; intros Hp; simpl; [done|]. rewrite Hp by by left.
  f_equal. apply IH. intros y Hy. apply Hp. by right.
Qed.

Lemma NoDup_take_le (n : nat) (l : list A) : NoDup l → NoDup (take n l).
Proof. intros Hnd. rewrite <- (take_drop n l) in Hnd. by apply NoDup_app in Hnd as [? _]. Qed.

Lemma find_app (p : A → bool) (l1 l2 : list A) :
  List.find p (l1 ++ l2) =
  match List.find p l1 with Some x => Some x | None => List.find p l2 end.
Proof. induction l1 as [|y l1 IH]; simpl; [done|]. by destruct (p y). Qed.

Lemma last_cons_default (l : list A) : ∀ x d, List.last (x :: l) d = List.last l x.
Proof. induction l as [|y l IH]; intros x d; [done|]. rewrite (IH y x). apply (IH y d). Qed.

Lemma take_app_drop_eq (n : nat) (l k : list A) :
  n ≤ length l → take n (l ++ k) = take n l.
Proof. intros. rewrite take_app_le; done. Qed.

Lemma drop_app_keep (n : nat) (l k : list A) :
  n ≤ length l → drop n (l ++ k) = drop n l ++ k.
Proof. intros. by rewrite drop_app_le. Qed.
End lists.

(** ** Invariants of transition systems

    States reachable by a step relation are [rtc step s0 s] of stdpp; an
    invariant that holds initially and that every step preserves holds in all
    of them. *)

Lemma rtc_invariant {S : Type} (step : relation S) (I : S → Prop) :
  (∀ s s', I s → step s s' → I s') →
  ∀ s s', rtc step s s' → I s → I s'.
Proof. intros Hpres s s' Hrtc. induction Hrtc; eauto. Qed.

(** A relation that every step respects, if it is a preorder, relates the two
    ends of every execution; [I] is an invariant the steps may rely on. *)
Lemma rtc_preorder {S : Type} (step : relation S) (I : S → Prop) (R : relation S) :
  PreOrder R →
  (∀ s s', I s → step s s' → I s') →
  (∀ s s', I s → step s s' → R s s') →
  ∀ s s', rtc step s s' → I s → R s s'.
Proof.
  intros HR Hpres Hstep s s' Hrtc. induction Hrtc as [s|s t u Hst _ IH]; intros HI.
  - reflexivity.
  - transitivity t; eauto.
Qed.
