(* ===== verification/Machine.v ===== *)
(** * Machine integers and clock arithmetic

    The part of Rust's core library the program computes with: 64-bit unsigned
    and signed integers (a 64-bit target, release profile, where [+] wraps), and
    [std::time::Instant] / [std::time::Duration].

    Both times are integers of nanoseconds.  A [Duration] is a [u64] of seconds
    and fewer than 10^9 nanoseconds; an [Instant] is, on Unix, an [i64] of
    seconds and fewer than 10^9 nanoseconds, so [Instant + Duration] panics when
    the seconds leave [i64]. *)

From S2P Require Import Prelude.
Local Open Scope Z_scope.

(** ** Integers *)

Definition u64_modulus : Z := 2 ^ 64.
Definition u64_max : Z := 2 ^ 64 - 1.
Definition i64_min : Z := - 2 ^ 63.
Definition i64_max : Z := 2 ^ 63 - 1.
Definition isize_max : Z := 2 ^ 63 - 1.
Definition u32_max : Z := 2 ^ 32 - 1.

Definition is_u64 (z : Z) : Prop := 0 ≤ z ≤ u64_max.
Definition is_i64 (z : Z) : Prop := i64_min ≤ z ≤ i64_max.
Definition is_u32 (z : Z) : Prop := 0 ≤ z ≤ u32_max.

(** [z as u64] *)
Definition as_u64 (z : Z) : Z := z mod u64_modulus.
(** [z as i64] for a [u64] or wider unsigned [z] *)
Definition as_i64 (z : Z) : Z :=
  let r := z mod u64_modulus in if r <=? i64_max then r else r - u64_modulus.

Definition u64_add (a b : Z) : Z := (a + b) mod u64_modulus.
Definition u32_add (a b : Z) : Z := (a + b) mod 2 ^ 32.

Ltac machine_unfold :=
  unfold u64_add, u32_add, as_u64, as_i64, is_u64, is_i64, is_u32,
    u64_modulus, u64_max, i64_min, i64_max, isize_max, u32_max in *.

Lemma u64_add_small a b : 0 ≤ a + b ≤ u64_max → u64_add a b = a + b.
Proof. intros. machine_unfold. apply Z.mod_small. lia. Qed.

Lemma u64_add_range a b : is_u64 (u64_add a b).
Proof. machine_unfold. pose proof (Z.mod_pos_bound (a + b) (2 ^ 64)). lia. Qed.

Lemma u32_add_small a b : 0 ≤ a + b ≤ u32_max → u32_add a b = a + b.
Proof. intros. machine_unfold. apply Z.mod_small. lia. Qed.

Lemma u32_add_range a b : is_u32 (u32_add a b).
Proof. machine_unfold. pose proof (Z.mod_pos_bound (a + b) (2 ^ 32)). lia. Qed.

Lemma as_u64_small z : is_u64 z → as_u64 z = z.
Proof. intros. machine_unfold. apply Z.mod_small. lia. Qed.

Lemma as_u64_range z : is_u64 (as_u64 z).
Proof. machine_unfold. pose proof (Z.mod_pos_bound z (2 ^ 64)). lia. Qed.

Lemma as_i64_small z : 0 ≤ z ≤ i64_max → as_i64 z = z.
Proof.
  intros. unfold as_i64. rewrite Z.mod_small by (machine_unfold; lia).
  destruct (Z.leb_spec z i64_max); lia.
Qed.

Create HintDb machine.
#[export] Hint Resolve u64_add_range as_u64_range u32_add_range : machine.

(** ** Time *)

Abbreviation Instant := Z (only parsing).
Abbreviation Duration := Z (only parsing).

Definition nanos_per_sec : Z := 1000000000.
Definition nanos_per_milli : Z := 1000000.

(** [Duration::from_secs], [Duration::from_millis], [Duration::as_secs],
    [Duration::as_millis] *)
Definition from_secs (secs : Z) : Duration := secs * nanos_per_sec.
Definition from_millis (ms : Z) : Duration := ms * nanos_per_milli.
Definition as_secs (d : Duration) : Z := d / nanos_per_sec.
Definition as_millis (d : Duration) : Z := d / nanos_per_milli.

(** The values a Unix [Instant] can hold. *)
Definition instant_limit : Z := (i64_max + 1) * nanos_per_sec.
Definition is_instant (t : Instant) : Prop := 0 ≤ t < instant_limit.

(** [Instant + Duration] *)
Definition instant_add (t : Instant) (d : Duration) : outcome Instant :=
  if t + d <? instant_limit then Returns (t + d)
  else Panics "overflow when adding duration to instant".

(** [Instant::checked_duration_since], [Instant::saturating_duration_since]
    ([Instant::duration_since] saturates as well) *)
Definition checked_duration_since (t earlier : Instant) : option Duration :=
  if earlier <=? t then Some (t - earlier) else None.
Definition saturating_duration_since (t earlier : Instant) : Duration :=
  Z.max 0 (t - earlier).

Ltac time_unfold :=
  unfold from_secs, from_millis, as_secs, as_millis, is_instant, instant_limit,
    saturating_duration_since, checked_duration_since, nanos_per_sec,
    nanos_per_milli in *.

Lemma instant_add_Returns t d t' :
  instant_add t d = Returns t' ↔ t' = t + d ∧ t + d < instant_limit.
Proof.
  unfold instant_add. destruct (Z.ltb_spec (t + d) instant_limit); split;
    try intros [-> ?]; try (intros; simplify_eq); auto; lia.
Qed.

Lemma instant_add_panics t d :
  instant_limit ≤ t + d ↔ ∃ msg, instant_add t d = Panics msg.
Proof.
  unfold instant_add. destruct (Z.ltb_spec (t + d) instant_limit); split.
  - lia.
  - by intros [msg ?].
  - eauto.
  - lia.
Qed.
