(* ===== verification/Text.v ===== *)
(** * Rust strings and their conversions

    The part of the Rust standard library the program uses on text: bytes,
    [str::from_utf8] with the [Utf8Error] it reports, [str::parse] for [i64] and
    [u64] with [IntErrorKind], decimal [to_string], [{:02x}] and
    [str::to_uppercase].

    A [Vec<u8>] is a [list ascii]; a [String] is a [string] holding its UTF-8
    bytes.  The Unicode case table of the standard library is a parameter
    ([UnicodeUpper]): only what it does to ASCII is fixed by the model. *)

From S2P Require Import Prelude Machine.
From Stdlib Require Export Ascii.
Local Open Scope Z_scope.

Abbreviation byte := ascii (only parsing).
Abbreviation bytes := (list ascii) (only parsing).

Definition as_bytes (s : string) : bytes := String.list_ascii_of_string s.
Definition of_bytes (b : bytes) : string := String.string_of_list_ascii b.
Definition byte_val (c : ascii) : Z := Z.of_N (N_of_ascii c).
Definition byte_of (z : Z) : ascii := ascii_of_N (Z.to_N z).

Definition CR : ascii := "013"%char.
Definition LF : ascii := "010"%char.
Definition CRLF : bytes := [CR; LF].

Lemma of_bytes_as_bytes s : of_bytes (as_bytes s) = s.
Proof. apply String.string_of_list_ascii_of_string. Qed.
Lemma as_bytes_of_bytes b : as_bytes (of_bytes b) = b.
Proof. apply String.list_ascii_of_string_of_list_ascii. Qed.
Lemma as_bytes_app s1 s2 : as_bytes (s1 +:+ s2) = as_bytes s1 ++ as_bytes s2.
Proof. induction s1 as [|c s1 IH]; simpl; [done|by rewrite IH]. Qed.
Lemma byte_val_range c : 0 ≤ byte_val c < 256.
Proof. unfold byte_val. pose proof (N_ascii_bounded c). lia. Qed.
Lemma byte_val_of z : 0 ≤ z < 256 → byte_val (byte_of z) = z.
Proof. intros. unfold byte_val, byte_of. rewrite N_ascii_embedding; lia. Qed.
Lemma byte_of_val c : byte_of (byte_val c) = c.
Proof. unfold byte_val, byte_of. by rewrite N2Z.id, ascii_N_embedding. Qed.

(** ** Decimal printing: [i64::to_string], [usize::to_string] *)

Definition digit (d : Z) : ascii := byte_of (48 + d).

(** The decimal digits of [n ≥ 0], most significant first, in front of [acc];
    [fuel] bounds the number of digits. *)
Fixpoint push_digits (fuel : nat) (n : Z) (acc : bytes) : bytes :=
  match fuel with
  | O => acc
  | S f => if n <? 10 then digit n :: acc
           else push_digits f (n / 10) (digit (n mod 10) :: acc)
  end.

Definition nat_digits (n : Z) : bytes :=
  push_digits (S (Z.to_nat (Z.log2 n))) n [].

Definition int_to_string (z : Z) : bytes :=
  if z <? 0 then "-"%char :: nat_digits (- z) else nat_digits z.

(** [format!("{:02x}", b)] *)
Definition hex_digit (d : Z) : ascii :=
  if d <? 10 then byte_of (48 + d) else byte_of (87 + d).
Definition hex02 (c : ascii) : bytes :=
  [hex_digit (byte_val c / 16); hex_digit (byte_val c mod 16)].

(** ** Integer parsing: [str::parse::<i64>], [str::parse::<u64>] *)

Inductive IntErrorKind := Empty | InvalidDigit | PosOverflow | NegOverflow.

(** [Display for ParseIntError] *)
Definition int_error_string (e : IntErrorKind) : string :=
  match e with
  | Empty => "cannot parse integer from empty string"
  | InvalidDigit => "invalid digit found in string"
  | PosOverflow => "number too large to fit in target type"
  | NegOverflow => "number too small to fit in target type"
  end.

Definition to_digit (c : ascii) : option Z :=
  let d := byte_val c - 48 in
  if (0 <=? d) && (d <=? 9) then Some d else None.

(** The loop of [from_str_radix]: multiply (checked), read the digit, report an
    invalid digit before an overflow of the product, then add or subtract
    (checked).  [neg] selects subtraction. *)
Fixpoint parse_digits (lo hi : Z) (neg : bool) (acc : Z) (ds : bytes) : IntErrorKind + Z :=
  match ds with
  | [] => inr acc
  | c :: ds' =>
      match to_digit c with
      | None => inl InvalidDigit
      | Some d =>
          let overflow := if neg then NegOverflow else PosOverflow in
          let mul := acc * 10 in
          if (lo <=? mul) && (mul <=? hi) then
            let r := if neg then mul - d else mul + d in
            if (lo <=? r) && (r <=? hi) then parse_digits lo hi neg r ds'
            else inl overflow
          else inl overflow
      end
  end.

Definition parse_int (lo hi : Z) (signed : bool) (s : bytes) : IntErrorKind + Z :=
  match s with
  | [] => inl Empty
  | [c] => if bool_decide (c = "+"%char) || bool_decide (c = "-"%char) then inl InvalidDigit else parse_digits lo hi false 0 s
  | c :: rest =>
      if bool_decide (c = "+"%char) then parse_digits lo hi false 0 rest
      else if bool_decide (c = "-"%char) && signed then parse_digits lo hi true 0 rest
      else parse_digits lo hi false 0 s
  end.

Definition parse_i64 (s : string) : IntErrorKind + Z :=
  parse_int i64_min i64_max true (as_bytes s).
Definition parse_u64 (s : string) : IntErrorKind + Z :=
  parse_int 0 u64_max false (as_bytes s).

(** ** UTF-8 validation: [str::from_utf8] *)

Record Utf8Error := mkUtf8Error { valid_up_to : nat; error_len : option nat }.

(** [Display for Utf8Error] *)
Definition utf8_error_string (e : Utf8Error) : string :=
  match error_len e with
  | Some n => "invalid utf-8 sequence of " +:+ of_bytes (int_to_string (Z.of_nat n))
                +:+ " bytes from index " +:+ of_bytes (int_to_string (Z.of_nat (valid_up_to e)))
  | None => "incomplete utf-8 byte sequence from index "
                +:+ of_bytes (int_to_string (Z.of_nat (valid_up_to e)))
  end.

Definition in_range (lo hi : Z) (c : ascii) : bool :=
  (lo <=? byte_val c) && (byte_val c <=? hi).
Definition is_cont (c : ascii) : bool := in_range 128 191 c.

(** The second byte a three- or four-byte sequence starting with [c] may have. *)
Definition second_ok3 (c d : ascii) : bool :=
  let v := byte_val c in
  if v =? 224 then in_range 160 191 d
  else if v =? 237 then in_range 128 159 d
  else in_range 128 191 d.
Definition second_ok4 (c d : ascii) : bool :=
  let v := byte_val c in
  if v =? 240 then in_range 144 191 d
  else if v =? 244 then in_range 128 143 d
  else in_range 128 191 d.

(** One UTF-8 sequence: the number of bytes it takes, or the error length
    ([None]: the buffer ends inside the sequence). *)
Definition utf8_step (l : bytes) : option nat + nat :=
  match l with
  | [] => inr 0%nat
  | c :: r =>
      let v := byte_val c in
      if v <? 128 then inr 1%nat
      else if (194 <=? v) && (v <=? 223) then
        match r with
        | [] => inl None
        | d :: _ => if is_cont d then inr 2%nat else inl (Some 1%nat)
        end
      else if (224 <=? v) && (v <=? 239) then
        match r with
        | [] => inl None
        | d :: r => if second_ok3 c d then
                      match r with
                      | [] => inl None
                      | e :: _ => if is_cont e then inr 3%nat else inl (Some 2%nat)
                      end
                    else inl (Some 1%nat)
        end
      else if (240 <=? v) && (v <=? 244) then
        match r with
        | [] => inl None
        | d :: r => if second_ok4 c d then
                      match r with
                      | [] => inl None
                      | e :: r => if is_cont e then
                                    match r with
                                    | [] => inl None
                                    | f :: _ => if is_cont f then inr 4%nat
                                                else inl (Some 3%nat)
                                    end
                                  else inl (Some 2%nat)
                      end
                    else inl (Some 1%nat)
        end
      else inl (Some 1%nat)
  end.

Fixpoint validate_utf8 (fuel : nat) (pos : nat) (l : bytes) : option Utf8Error :=
  match l with
  | [] => None
  | _ =>
      match fuel with
      | O => None
      | S f =>
          match utf8_step l with
          | inl len => Some (mkUtf8Error pos len)
          | inr n => validate_utf8 f (pos + n) (drop n l)
          end
      end
  end.

(** [str::from_utf8]; every step consumes a byte, so [length b] steps are
    enough. *)
Definition from_utf8 (b : bytes) : Utf8Error + string :=
  match validate_utf8 (length b) 0 b with
  | Some e => inl e
  | None => inr (of_bytes b)
  end.

(** The invariant of the type [String]: its bytes are UTF-8. *)
Definition is_utf8 (s : string) : Prop := from_utf8 (as_bytes s) = inr s.
#[export] Instance is_utf8_dec s : Decision (is_utf8 s).
Proof.
  unfold is_utf8, from_utf8. rewrite of_bytes_as_bytes.
  destruct (validate_utf8 _ _ _); [right; congruence|by left].
Defined.

(** ** Case mapping: [str::to_uppercase] *)

(** The upper-case form the standard library's Unicode table gives to one
    non-ASCII character, as UTF-8 bytes to UTF-8 bytes. *)
Class UnicodeUpper := upper_char : bytes → bytes.

Definition upper_ascii (c : ascii) : ascii :=
  if in_range 97 122 c then byte_of (byte_val c - 32) else c.

Fixpoint upper_bytes `{UnicodeUpper} (fuel : nat) (l : bytes) : bytes :=
  match l with
  | [] => []
  | c :: r =>
      match fuel with
      | O => []
      | S f =>
          if byte_val c <? 128 then upper_ascii c :: upper_bytes f r
          else match utf8_step l with
               | inr n => upper_char (take n l) ++ upper_bytes f (drop n l)
               | inl _ => upper_bytes f r
               end
      end
  end.

Definition to_uppercase `{UnicodeUpper} (s : string) : string :=
  of_bytes (upper_bytes (String.length s) (as_bytes s)).

(** ** Lemmas on decimal text *)

Definition is_digit (c : ascii) : bool := in_range 48 57 c.

(** The number a string of digits denotes after the prefix [a]. *)
Definition digits_val (a : Z) (ds : bytes) : Z :=
  fold_left (λ a c, a * 10 + (byte_val c - 48)) ds a.

Lemma to_digit_Some c : is_digit c = true → to_digit c = Some (byte_val c - 48).
Proof.
  unfold is_digit, in_range, to_digit. intros. bool_facts.
  destruct (Z.leb_spec 0 (byte_val c - 48)), (Z.leb_spec (byte_val c - 48) 9);
    simpl; (done || lia).
Qed.

Lemma is_digit_range c : is_digit c = true → 0 ≤ byte_val c - 48 ≤ 9.
Proof. unfold is_digit, in_range. intros. bool_facts. lia. Qed.

Lemma digit_is_digit d : 0 ≤ d ≤ 9 → is_digit (digit d) = true.
Proof.
  intros. unfold is_digit, in_range, digit. rewrite byte_val_of by lia.
  apply andb_true_intro. split; apply Z.leb_le; lia.
Qed.

Lemma digits_val_ge ds : ∀ a, 0 ≤ a → Forall (λ c, is_digit c = true) ds →
  a ≤ digits_val a ds.
Proof.
  induction ds as [|c ds IH]; intros a Ha Hds; simpl; [unfold digits_val; simpl; lia|].
  inversion Hds as [|? ? Hc Hds']; subst. apply is_digit_range in Hc.
  specialize (IH (a * 10 + (byte_val c - 48))). unfold digits_val in *. simpl.
  etrans; [|apply IH; [lia|done]]. lia.
Qed.

Lemma parse_digits_pos lo hi ds : ∀ a,
  lo ≤ 0 → 0 ≤ a → Forall (λ c, is_digit c = true) ds → digits_val a ds ≤ hi →
  parse_digits lo hi false a ds = inr (digits_val a ds).
Proof.
  induction ds as [|c ds IH]; intros a Hlo Ha Hds Hhi; [done|].
  inversion Hds as [|? ? Hc Hds']; subst. simpl.
  rewrite to_digit_Some by done. pose proof (is_digit_range _ Hc).
  pose proof (digits_val_ge ds (a * 10 + (byte_val c - 48))) as Hge.
  unfold digits_val in Hhi; simpl in Hhi; fold (digits_val (a * 10 + (byte_val c - 48)) ds) in Hhi.
  specialize (Hge ltac:(lia) Hds').
  rewrite (proj2 (Z.leb_le lo (a * 10))), (proj2 (Z.leb_le (a * 10) hi)) by lia. simpl.
  rewrite (proj2 (Z.leb_le lo _)), (proj2 (Z.leb_le _ hi)) by lia. simpl.
  apply IH; auto; lia.
Qed.

Lemma parse_digits_neg lo hi ds : ∀ a,
  0 ≤ hi → 0 ≤ a → Forall (λ c, is_digit c = true) ds → lo ≤ - digits_val a ds →
  parse_digits lo hi true (- a) ds = inr (- digits_val a ds).
Proof.
  induction ds as [|c ds IH]; intros a Hhi Ha Hds Hlo; [done|].
  inversion Hds as [|? ? Hc Hds']; subst. simpl.
  rewrite to_digit_Some by done. pose proof (is_digit_range _ Hc).
  pose proof (digits_val_ge ds (a * 10 + (byte_val c - 48))) as Hge.
  unfold digits_val in Hlo; simpl in Hlo; fold (digits_val (a * 10 + (byte_val c - 48)) ds) in Hlo.
  specialize (Hge ltac:(lia) Hds').
  rewrite (proj2 (Z.leb_le lo _)), (proj2 (Z.leb_le _ hi)) by lia. simpl.
  rewrite (proj2 (Z.leb_le lo _)), (proj2 (Z.leb_le _ hi)) by lia. simpl.
  replace (- a * 10 - (byte_val c - 48)) with (- (a * 10 + (byte_val c - 48))) by lia.
  apply IH; auto; lia.
Qed.

Lemma push_digits_val fuel : ∀ n acc, 0 ≤ n < 2 ^ Z.of_nat fuel →
  digits_val 0 (push_digits fuel n acc) = digits_val n acc.
Proof.
  induction fuel as [|f IH]; intros n acc Hn; simpl.
  { simpl in Hn. replace n with 0 by lia. done. }
  rewrite Nat2Z.inj_succ, Z.pow_succ_r in Hn by lia.
  destruct (Z.ltb_spec n 10).
  - unfold digits_val; simpl. f_equal. unfold digit. rewrite byte_val_of by lia. lia.
  - rewrite IH.
    + unfold digits_val; simpl. f_equal. unfold digit.
      pose proof (Z.mod_pos_bound n 10). rewrite byte_val_of by lia.
      pose proof (Z.div_mod n 10). lia.
    + split; [apply Z.div_pos; lia|].
      apply Z.div_lt_upper_bound; lia.
Qed.

Lemma push_digits_digits fuel : ∀ n acc, 0 ≤ n →
  Forall (λ c, is_digit c = true) acc →
  Forall (λ c, is_digit c = true) (push_digits fuel n acc).
Proof.
  induction fuel as [|f IH]; intros n acc Hn Hacc; simpl; [done|].
  destruct (Z.ltb_spec n 10).
  - constructor; [apply digit_is_digit; lia|done].
  - apply IH; [apply Z.div_pos; lia|]. constructor; [|done].
    apply digit_is_digit. pose proof (Z.mod_pos_bound n 10). lia.
Qed.

Lemma push_digits_nonempty fuel : ∀ n acc, push_digits (S fuel) n acc ≠ [].
Proof.
  induction fuel as [|f IH]; intros n acc; simpl.
  - by destruct (n <? 10).
  - destruct (n <? 10); [done|]. apply (IH (n / 10)).
Qed.

Lemma log2_fuel n : 0 ≤ n → n < 2 ^ Z.of_nat (S (Z.to_nat (Z.log2 n))).
Proof.
  intros. rewrite Nat2Z.inj_succ, Z2Nat.id by apply Z.log2_nonneg.
  destruct (Z.eq_dec n 0) as [->|]; [simpl; lia|]. apply Z.log2_spec. lia.
Qed.

Lemma nat_digits_val n : 0 ≤ n → digits_val 0 (nat_digits n) = n.
Proof.
  intros. unfold nat_digits. rewrite push_digits_val; [done|].
  split; [done|]. by apply log2_fuel.
Qed.

Lemma nat_digits_digits n : 0 ≤ n → Forall (λ c, is_digit c = true) (nat_digits n).
Proof. intros. by apply push_digits_digits. Qed.

Lemma nat_digits_cons n : 0 ≤ n → ∃ c ds, nat_digits n = c :: ds ∧
  is_digit c = true ∧ Forall (λ c, is_digit c = true) ds.
Proof.
  intros Hn. pose proof (nat_digits_digits n Hn) as Hd.
  destruct (nat_digits n) as [|c ds] eqn:E.
  - by apply push_digits_nonempty in E.
  - inversion Hd; subst. eauto.
Qed.

Lemma is_digit_not_sign c : is_digit c = true → c ≠ "+"%char ∧ c ≠ "-"%char.
Proof. intros Hc. split; intros ->; done. Qed.

Lemma parse_int_digits lo hi signed n :
  lo ≤ 0 → 0 ≤ n ≤ hi → parse_int lo hi signed (nat_digits n) = inr n.
Proof.
  intros Hlo Hn. pose proof (nat_digits_val n ltac:(lia)) as Hv.
  destruct (nat_digits_cons n) as (c & ds & E & Hc & Hds); [lia|].
  destruct (is_digit_not_sign c Hc) as [H1 H2].
  assert (parse_digits lo hi false 0 (c :: ds) = inr n) as Hp.
  { rewrite <- E. etrans; [apply parse_digits_pos|by rewrite Hv]; try lia.
    apply nat_digits_digits; lia. }
  rewrite E. unfold parse_int.
  rewrite !bool_decide_eq_false_2 by done. destruct ds; simpl; done.
Qed.

(** Printing a number that fits and parsing it gives the number back. *)
Lemma parse_i64_to_string z :
  is_i64 z → parse_i64 (of_bytes (int_to_string z)) = inr z.
Proof.
  intros Hz. unfold parse_i64, int_to_string. rewrite as_bytes_of_bytes.
  machine_unfold. destruct (Z.ltb_spec z 0).
  - destruct (nat_digits_cons (- z)) as (c & ds & E & Hc & Hds); [lia|].
    pose proof (nat_digits_val (- z) ltac:(lia)) as Hv. rewrite E in *.
    change (parse_digits (- 2 ^ 63) (2 ^ 63 - 1) true 0 (c :: ds) = inr z).
    etrans; [apply (parse_digits_neg _ _ (c :: ds) 0)|].
    + lia.
    + lia.
    + by constructor.
    + rewrite Hv. lia.
    + rewrite Hv. f_equal. lia.
  - apply parse_int_digits; lia.
Qed.

Lemma parse_u64_to_string z :
  is_u64 z → parse_u64 (of_bytes (int_to_string z)) = inr z.
Proof.
  intros Hz. unfold parse_u64, int_to_string. rewrite as_bytes_of_bytes.
  machine_unfold. destruct (Z.ltb_spec z 0); [lia|]. apply parse_int_digits; lia.
Qed.

(** What is parsed is in range. *)
Lemma parse_digits_range lo hi neg ds : ∀ a n, lo ≤ a ≤ hi →
  parse_digits lo hi neg a ds = inr n → lo ≤ n ≤ hi.
Proof.
  induction ds as [|c ds IH]; intros a n Ha; simpl; [by intros [= <-]|].
  destruct (to_digit c) as [d|]; [|done].
  destruct ((lo <=? a * 10) && _); [|by destruct neg].
  destruct (_ && _) eqn:E; [|by destruct neg]. bool_facts. by apply IH.
Qed.

Lemma parse_int_range lo hi signed s n : lo ≤ 0 ≤ hi →
  parse_int lo hi signed s = inr n → lo ≤ n ≤ hi.
Proof.
  intros Hr. unfold parse_int.
  destruct s as [|c [|d s]]; [done| |]; repeat case_match; try done;
    by apply parse_digits_range.
Qed.

Lemma parse_i64_range s n : parse_i64 s = inr n → is_i64 n.
Proof. apply parse_int_range. by compute. Qed.
Lemma parse_u64_range s n : parse_u64 s = inr n → is_u64 n.
Proof. apply parse_int_range. by compute. Qed.

Lemma from_utf8_inr b s : from_utf8 b = inr s → as_bytes s = b ∧ is_utf8 s.
Proof.
  unfold is_utf8, from_utf8. destruct (validate_utf8 _ _ b) eqn:E; [done|]. intros [= <-].
  rewrite as_bytes_of_bytes, E. done.
Qed.

(** ** ASCII text *)

Definition is_ascii (c : ascii) : bool := byte_val c <? 128.

Lemma is_digit_ascii c : is_digit c = true → is_ascii c = true.
Proof. intros H%is_digit_range. apply Z.ltb_lt. lia. Qed.

Lemma validate_utf8_ascii fuel : ∀ pos l,
  Forall (λ c, is_ascii c = true) l → validate_utf8 fuel pos l = None.
Proof.
  induction fuel as [|f IH]; intros pos l Hl; destruct Hl as [|c l Hc Hl]; try done.
  simpl. unfold is_ascii in Hc. rewrite Hc. by apply IH.
Qed.

Lemma from_utf8_ascii b : Forall (λ c, is_ascii c = true) b → from_utf8 b = inr (of_bytes b).
Proof. intros. unfold from_utf8. by rewrite validate_utf8_ascii. Qed.

(** The text of an integer is made of a sign and digits. *)
Definition is_numeral (c : ascii) : bool := bool_decide (c = "-"%char) || is_digit c.

Lemma int_to_string_numeral z : Forall (λ c, is_numeral c = true) (int_to_string z).
Proof.
  assert (∀ n, 0 ≤ n → Forall (λ c, is_numeral c = true) (nat_digits n)) as Hd.
  { intros n Hn. eapply Forall_impl; [by apply nat_digits_digits|].
    intros c Hc. unfold is_numeral. rewrite Hc. apply orb_true_r. }
  unfold int_to_string. destruct (Z.ltb_spec z 0).
  - constructor; [done|]. apply Hd. lia.
  - by apply Hd.
Qed.

Lemma is_numeral_ascii c : is_numeral c = true → is_ascii c = true.
Proof.
  unfold is_numeral. intros [H|H]%orb_prop; [|by apply is_digit_ascii].
  by apply bool_decide_eq_true_1 in H as ->.
Qed.

Lemma is_numeral_not_CR c : is_numeral c = true → c ≠ CR.
Proof. by intros H ->. Qed.

Lemma from_utf8_int z : from_utf8 (int_to_string z) = inr (of_bytes (int_to_string z)).
Proof.
  apply from_utf8_ascii. eapply Forall_impl; [apply int_to_string_numeral|].
  apply is_numeral_ascii.
Qed.

(** On ASCII text, upper-casing does not depend on the Unicode table. *)
Lemma upper_bytes_ascii `{UnicodeUpper} fuel : ∀ l,
  (length l ≤ fuel)%nat → Forall (λ c, is_ascii c = true) l →
  upper_bytes fuel l = upper_ascii <$> l.
Proof.
  induction fuel as [|f IH]; intros [|c l] Hlen Hl; simpl in *; try done; [lia|].
  inversion Hl as [|? ? Hc Hl']; subst. unfold is_ascii in Hc. rewrite Hc.
  f_equal. apply IH; [lia|done].
Qed.

Lemma to_uppercase_ascii `{UnicodeUpper} (s : string) :
  Forall (λ c, is_ascii c = true) (as_bytes s) →
  to_uppercase s = of_bytes (upper_ascii <$> as_bytes s).
Proof.
  intros Hs. unfold to_uppercase. f_equal. apply upper_bytes_ascii; [|done].
  clear Hs. induction s; simpl; lia.
Qed.
