(* ===== verification/Common.v ===== *)
(** * Crate [common]: identifiers, and the interfaces of the external crates

    Models [crates/common/src/lib.rs].  The crates [uuid] and [xxhash-rust] and
    the iteration order of the hash tables ([std::collections::HashMap],
    [dashmap::DashMap], [dashmap::DashSet]) are type classes: the development
    holds for every implementation that satisfies their laws. *)

From S2P Require Import Prelude Machine Text.
Local Open Scope Z_scope.

(** ** External code *)

(** Crate [uuid]: [Uuid::parse_str] (its error carries nothing the program
    looks at) and [Display for Uuid]; parsing accepts what is displayed. *)
Class UuidLib := {
  Uuid : Type;
  uuid_eq_dec :: EqDecision Uuid;
  uuid_countable :: Countable Uuid;
  parse_str : string → option Uuid;
  uuid_to_string : Uuid → string;
  parse_str_to_string : ∀ u, parse_str (uuid_to_string u) = Some u;
}.

(** Crate [xxhash-rust]: [xxh3_64] is a function to [u64]. *)
Class Xxh3 := {
  xxh3_64 : bytes → Z;
  xxh3_64_range : ∀ b, is_u64 (xxh3_64 b);
}.

(** A hash table is a finite map ([gmap]); iterating over it gives every
    binding once, in an order the program must not rely on. *)
Class HashIter := {
  hash_iter : ∀ {K V} `{Countable K}, gmap K V → list (K * V);
  hash_iter_perm : ∀ {K V} `{Countable K} (m : gmap K V),
    hash_iter m ≡ₚ map_to_list m;
}.

Lemma elem_of_hash_iter `{HashIter} {K V} `{Countable K} (m : gmap K V) k v :
  (k, v) ∈ hash_iter m ↔ m !! k = Some v.
Proof. by rewrite hash_iter_perm, elem_of_map_to_list. Qed.

Lemma hash_iter_NoDup_fst `{HashIter} {K V} `{Countable K} (m : gmap K V) :
  NoDup (hash_iter m).*1.
Proof. rewrite hash_iter_perm. apply NoDup_fst_map_to_list. Qed.

Lemma hash_iter_length `{HashIter} {K V} `{Countable K} (m : gmap K V) :
  length (hash_iter m) = size m.
Proof. by rewrite hash_iter_perm, length_map_to_list. Qed.

(** ** [NodeId] and [NodeInfo] *)

Section node_id.
Context `{UuidLib}.

Record NodeId := mkNodeId { node_uuid : Uuid }.

#[export] Instance NodeId_eq_dec : EqDecision NodeId.
Proof. solve_decision. Defined.
#[export] Instance NodeId_countable : Countable NodeId.
Proof.
  refine (inj_countable' node_uuid mkNodeId _). by intros [].
Defined.

(** [NodeId::from_uuid]; [NodeId::new] is [from_uuid] of a random [Uuid]. *)
Definition from_uuid (id : Uuid) : NodeId := mkNodeId id.
(** [NodeId::parse] *)
Definition NodeId_parse (s : string) : option NodeId := mkNodeId <$> parse_str s.
(** [Display for NodeId] *)
Definition NodeId_to_string (n : NodeId) : string := uuid_to_string (node_uuid n).

Record NodeInfo := mkNodeInfo { id : NodeId; addr : string }.

#[export] Instance NodeInfo_eq_dec : EqDecision NodeInfo.
Proof. solve_decision. Defined.

Lemma NodeId_parse_to_string n : NodeId_parse (NodeId_to_string n) = Some n.
Proof.
  unfold NodeId_parse, NodeId_to_string. rewrite parse_str_to_string.
  by destruct n.
Qed.
End node_id.

(** ** Concrete instances, used by the witnesses *)

Module Examples.
(** Identifiers that display as themselves. *)
Definition string_uuid : UuidLib :=
  {| Uuid := string; parse_str := Some; uuid_to_string := λ s, s;
     parse_str_to_string := λ u, eq_refl |}.

(** A polynomial hash modulo 2^64. *)
Definition poly_hash (b : bytes) : Z :=
  fold_left (λ h c, as_u64 (h * 1099511628211 + byte_val c + 1)) b 14695981039346656037.
Lemma poly_hash_range b : is_u64 (poly_hash b).
Proof.
  unfold poly_hash. destruct b as [|c b] using rev_ind; [by compute|].
  rewrite fold_left_app. apply as_u64_range.
Qed.
Definition poly_xxh3 : Xxh3 := {| xxh3_64 := poly_hash; xxh3_64_range := poly_hash_range |}.

Definition sorted_iter : HashIter :=
  {| hash_iter K V _ _ m := map_to_list m; hash_iter_perm K V _ _ m := Permutation_refl _ |}.
End Examples.
