(* ===== verification/BTree.v ===== *)
(** * [std::collections::BTreeMap<u64, V>]

    The ordered map of the standard library as an association list strictly
    sorted by key: iteration and [range(k..)] give the bindings in key order,
    [insert] replaces the value of a key that is present, [retain] filters. *)

From S2P Require Import Prelude Machine.
Local Open Scope Z_scope.

Abbreviation btree V := (list (Z * V)) (only parsing).

Definition key_lt {V} (a b : Z * V) : Prop := a.1 < b.1.
(** The invariant of the type. *)
Definition btree_wf {V} (m : btree V) : Prop := StronglySorted key_lt m.

Fixpoint bt_insert {V} (k : Z) (v : V) (m : btree V) : btree V :=
  match m with
  | [] => [(k, v)]
  | (k', v') :: m' =>
      if k <? k' then (k, v) :: m
      else if k =? k' then (k, v) :: m'
      else (k', v') :: bt_insert k v m'
  end.

Definition bt_retain {V} (p : Z → V → bool) (m : btree V) : btree V :=
  List.filter (λ kv, p kv.1 kv.2) m.

(** [range(k..)] *)
Definition bt_range_from {V} (k : Z) (m : btree V) : list (Z * V) :=
  List.filter (λ kv, k <=? kv.1) m.

Section lemmas.
Context {V : Type}.
Implicit Types (m : btree V) (k : Z) (v : V).

Lemma elem_of_bt_insert k v m k' v' : btree_wf m →
  (k', v') ∈ bt_insert k v m ↔ (k' = k ∧ v' = v) ∨ (k' ≠ k ∧ (k', v') ∈ m).
Proof.
  intros Hwf. induction Hwf as [|[k1 v1] m Hwf IH Hall]; simpl.
  { set_solver. }
  assert (∀ k v, (k, v) ∈ m → k1 < k) as Hlt.
  { rewrite Forall_forall in Hall. intros k2 v2 Hin. by apply Hall in Hin. }
  destruct (Z.ltb_spec k k1); [|destruct (Z.eqb_spec k k1) as [->|]].
  - rewrite !elem_of_cons. split; [|naive_solver]. intros [[= -> ->]|[[= -> ->]|Hin]].
    + by left.
    + right. split; [lia|by left].
    + right. apply Hlt in Hin as ?. split; [lia|by right].
  - rewrite !elem_of_cons. split; [|naive_solver]. intros [[= -> ->]|Hin]; [by left|].
    right. apply Hlt in Hin as ?. split; [lia|by right].
  - rewrite !elem_of_cons, IH. split; [|naive_solver].
    intros [[= -> ->]|?]; [|naive_solver]. right. split; [lia|by left].
Qed.

Lemma elem_of_bt_retain p m k v : (k, v) ∈ bt_retain p m ↔ p k v = true ∧ (k, v) ∈ m.
Proof.
  unfold bt_retain. by rewrite elem_of_filterb.
Qed.

Lemma elem_of_bt_range_from k0 m k v : (k, v) ∈ bt_range_from k0 m ↔ k0 ≤ k ∧ (k, v) ∈ m.
Proof.
  unfold bt_range_from. by rewrite elem_of_filterb, Z.leb_le.
Qed.

Lemma filter_wf (p : Z * V → bool) m : btree_wf m → btree_wf (List.filter p m).
Proof.
  unfold btree_wf. induction 1 as [|kv m Hwf IH Hall]; simpl; [constructor|].
  destruct (p kv); [|done]. constructor; [done|].
  rewrite Forall_forall in *. intros kv' Hin. apply Hall.
  by apply elem_of_filterb in Hin as [_ ?].
Qed.

Lemma bt_insert_wf k v m : btree_wf m → btree_wf (bt_insert k v m).
Proof.
  unfold btree_wf. induction 1 as [|[k1 v1] m Hwf IH Hall]; simpl.
  - repeat constructor.
  - destruct (Z.ltb_spec k k1); [|destruct (Z.eqb_spec k k1)].
    + constructor; [by constructor|]. constructor; [done|].
      eapply Forall_impl; [done|]. unfold key_lt. simpl. intros. lia.
    + subst. by constructor.
    + constructor; [done|]. rewrite Forall_forall in *. intros [k' v'] Hin.
      apply elem_of_bt_insert in Hin as [[-> ->]|[? Hin]]; [|by apply Hall|done].
      unfold key_lt; simpl. lia.
Qed.

Lemma btree_wf_functional m k v v' : btree_wf m → (k, v) ∈ m → (k, v') ∈ m → v = v'.
Proof.
  unfold btree_wf. induction 1 as [|[k1 v1] m Hwf IH Hall]; [set_solver|].
  rewrite Forall_forall in Hall. rewrite !elem_of_cons.
  intros [?|H1] [?|H2]; simplify_eq; auto.
  - pose proof (Hall _ H2) as Hlt. unfold key_lt in Hlt; simpl in Hlt. lia.
  - pose proof (Hall _ H1) as Hlt. unfold key_lt in Hlt; simpl in Hlt. lia.
Qed.

(** Two well-formed maps with the same bindings are equal. *)
Lemma btree_ext m1 m2 : btree_wf m1 → btree_wf m2 →
  (∀ k v, (k, v) ∈ m1 ↔ (k, v) ∈ m2) → m1 = m2.
Proof.
  unfold btree_wf. intros H1. revert m2.
  induction H1 as [|[k1 v1] m1 Hwf1 IH Hall1]; intros m2 H2 Heq.
  - destruct m2 as [|[k v] m2]; [done|]. specialize (Heq k v). set_solver.
  - destruct H2 as [|[k2 v2] m2 Hwf2 Hall2]; [specialize (Heq k1 v1); set_solver|].
    rewrite Forall_forall in Hall1, Hall2.
    assert ((k1, v1) = (k2, v2)) as ?.
    { pose proof (proj1 (Heq k1 v1) (list_elem_of_here _ _)) as Ha.
      pose proof (proj2 (Heq k2 v2) (list_elem_of_here _ _)) as Hb.
      rewrite elem_of_cons in Ha, Hb.
      destruct Ha as [?|Ha]; [done|]. destruct Hb as [?|Hb]; [done|].
      apply Hall2 in Ha. apply Hall1 in Hb. unfold key_lt in *. simpl in *. lia. }
    simplify_eq. f_equal. apply IH; [done|]. intros k v.
    specialize (Heq k v). rewrite !elem_of_cons in Heq.
    assert (∀ m, (∀ x, x ∈ m → key_lt (k2, v2) x) → (k, v) ∈ m → (k, v) ≠ (k2, v2)) as Hne.
    { intros m Hall Hin [= -> ->]. apply Hall in Hin. unfold key_lt in Hin. simpl in *. lia. }
    split; intros Hin.
    + destruct (proj1 Heq (or_intror Hin)); [|done]. by eapply Hne in Hin.
    + destruct (proj2 Heq (or_intror Hin)); [|done]. by eapply Hne in Hin.
Qed.

(** The first binding has the smallest key. *)
Lemma btree_head_min m kv m' : btree_wf m → m = kv :: m' →
  ∀ k v, (k, v) ∈ m → kv.1 ≤ k.
Proof.
  intros Hwf ->. inversion Hwf as [|? ? Hwf' Hall]; subst. rewrite Forall_forall in Hall.
  intros k v. rewrite elem_of_cons. intros [<-|Hin]; [done|].
  apply Hall in Hin. unfold key_lt in Hin. simpl in Hin. lia.
Qed.
End lemmas.

#[export] Hint Resolve bt_insert_wf filter_wf : machine.
