(* ===== verification/Ring.v ===== *)
(** * The consistent-hash ring

    Models [crates/common/src/hashring.rs]: [HashRing] with its sorted map of
    virtual nodes ([BTree]) and its vector of physical nodes.

    The specification is geometric.  [distance h p] is the clockwise distance
    from [h] to [p] on the circle of 2^64 positions; the node responsible for a
    key is the one whose virtual node is nearest clockwise. *)

From S2P Require Import Prelude Machine Text Common BTree.
Local Open Scope Z_scope.

Module HashRing.
Section ring.
Context `{UuidLib} `{Xxh3}.

Definition DEFAULT_VNODE_COUNT : nat := 150.

Record HashRing := mkHashRing {
  ring : list (Z * NodeId);
  nodes : list NodeInfo;
  vnode_count : nat;
}.

Definition new : HashRing := mkHashRing [] [] DEFAULT_VNODE_COUNT.
Definition with_vnode_count (n : nat) : HashRing := mkHashRing [] [] n.

Definition hash_key (key : string) : Z := xxh3_64 (as_bytes key).

(** [format!("{}-{}", node_id, vnode_index)] *)
Definition vnode_key (node_id : NodeId) (vnode_index : nat) : string :=
  NodeId_to_string node_id +:+ "-" +:+ of_bytes (int_to_string (Z.of_nat vnode_index)).
Definition hash_vnode (node_id : NodeId) (vnode_index : nat) : Z :=
  xxh3_64 (as_bytes (vnode_key node_id vnode_index)).

Definition add_vnodes (node_id : NodeId) (idxs : list nat) (r : list (Z * NodeId)) :=
  foldl (λ r i, bt_insert (hash_vnode node_id i) node_id r) r idxs.

Definition add_node (self : HashRing) (info : NodeInfo) : HashRing :=
  mkHashRing (add_vnodes (id info) (seq 0 (vnode_count self)) (ring self))
    (nodes self ++ [info]) (vnode_count self).

Definition remove_node (self : HashRing) (node_id : NodeId) : HashRing :=
  mkHashRing (bt_retain (λ _ i, bool_decide (i ≠ node_id)) (ring self))
    (List.filter (λ n, bool_decide (id n ≠ node_id)) (nodes self)) (vnode_count self).

(** [self.nodes.iter().find(|n| n.id == *node_id)] *)
Definition find_node (ns : list NodeInfo) (node_id : NodeId) : option NodeInfo :=
  List.find (λ n, bool_decide (id n = node_id)) ns.

Definition get_node (self : HashRing) (key : string) : option NodeInfo :=
  match ring self with
  | [] => None
  | first :: _ =>
      match bt_range_from (hash_key key) (ring self) with
      | (_, node_id) :: _ => find_node (nodes self) node_id
      | [] => find_node (nodes self) first.2
      end
  end.

(** The loop of [get_preference_list]: [seen] is the hash set, [result] the
    vector built so far. *)
Fixpoint preference_loop (ns : list NodeInfo) (replica_count : Z)
    (iter : list (Z * NodeId)) (seen : gset NodeId) (result : list NodeInfo)
    : list NodeInfo :=
  match iter with
  | [] => result
  | (_, node_id) :: iter' =>
      if decide (node_id ∈ seen) then preference_loop ns replica_count iter' seen result
      else
        let result' := match find_node ns node_id with
                       | Some info => result ++ [info]
                       | None => result
                       end in
        if replica_count <=? Z.of_nat (length result') then result'
        else preference_loop ns replica_count iter' ({[node_id]} ∪ seen) result'
  end.

Definition get_preference_list (self : HashRing) (key : string) (replica_count : Z)
    : list NodeInfo :=
  match ring self with
  | [] => []
  | _ => preference_loop (nodes self) replica_count
           (bt_range_from (hash_key key) (ring self) ++ ring self) ∅ []
  end.

Definition contains_node (self : HashRing) (node_id : NodeId) : bool :=
  existsb (λ n, bool_decide (id n = node_id)) (nodes self).

(** ** Well-formed rings

    The positions are sorted, every virtual node is a hash of its owner and
    every owner is in the vector of nodes. *)
Record wf (r : HashRing) : Prop := {
  wf_sorted : btree_wf (ring r);
  wf_vnode : ∀ p i, (p, i) ∈ ring r → ∃ k, (k < vnode_count r)%nat ∧ p = hash_vnode i k;
  wf_owner : ∀ p i, (p, i) ∈ ring r → ∃ n, n ∈ nodes r ∧ id n = i;
}.

(** Clockwise distance on the circle of [u64] positions. *)
Definition distance (h p : Z) : Z := (p - h) mod u64_modulus.

(** [(p, i)] is the first virtual node met clockwise from [h]. *)
Definition clockwise_first (r : list (Z * NodeId)) (h p : Z) (i : NodeId) : Prop :=
  (p, i) ∈ r ∧ ∀ p' i', (p', i') ∈ r → distance h p ≤ distance h p'.

(** The identifier of the node responsible for a key. *)
Definition owner (r : HashRing) (key : string) : option NodeId := id <$> get_node r key.

(** The physical nodes in the order in which walking clockwise from [h] first
    meets them: the reference definition of preference lists. *)
Fixpoint fresh_ids (seen : gset NodeId) (l : list NodeId) : list NodeId :=
  match l with
  | [] => []
  | i :: l' => if decide (i ∈ seen) then fresh_ids seen l'
               else i :: fresh_ids ({[i]} ∪ seen) l'
  end.
Definition clockwise_ids (r : HashRing) (h : Z) : list NodeId :=
  fresh_ids ∅ (bt_range_from h (ring r) ++ ring r).*2.

Definition closer (h : Z) (a b : Z * NodeId) : Prop := distance h a.1 < distance h b.1.

(** The ring entry the lookups select. *)
Definition first_entry (r : list (Z * NodeId)) (h : Z) : option (Z * NodeId) :=
  match bt_range_from h r with e :: _ => Some e | [] => hd_error r end.

(** No virtual node of [i] hashes to an occupied position. *)
Definition no_collision (r : HashRing) (i : NodeId) : Prop :=
  ∀ k p j, (k < vnode_count r)%nat → (p, j) ∈ ring r → hash_vnode i k ≠ p.

Definition no_collisionb (r : HashRing) (i : NodeId) : bool :=
  forallb (λ k, forallb (λ e, negb (hash_vnode i k =? e.1)) (ring r)) (seq 0 (vnode_count r)).

(** The operations that change a ring. *)
Inductive ring_step : relation HashRing :=
  | step_add r n : ring_step r (add_node r n)
  | step_remove r i : ring_step r (remove_node r i).

(** ** Lemmas *)

Lemma elem_of_add_vnodes i p j ks : ∀ r, btree_wf r →
  (p, j) ∈ add_vnodes i ks r ↔
  (j = i ∧ ∃ k, k ∈ ks ∧ p = hash_vnode i k) ∨
  ((p, j) ∈ r ∧ ∀ k, k ∈ ks → p ≠ hash_vnode i k).
Proof.
  induction ks as [|k ks IH]; intros r Hwf; simpl; [set_solver|].
  rewrite IH by auto with machine. rewrite elem_of_bt_insert by done.
  setoid_rewrite elem_of_cons. split.
  - naive_solver.
  - intros [[-> (k' & [->|?] & ->)]|[? Hne]]; [|naive_solver|naive_solver].
    destruct (decide (Exists (λ k', hash_vnode i k = hash_vnode i k') ks)) as [He|Hn];
      rewrite Exists_exists in *.
    + naive_solver.
    + right. split; [by left|]. intros k' Hk' Heq. apply Hn. eauto.
Qed.

Lemma add_vnodes_wf i ks : ∀ r, btree_wf r → btree_wf (add_vnodes i ks r).
Proof. induction ks; simpl; auto with machine. Qed.

Lemma elem_of_add_node r n p j : wf r →
  (p, j) ∈ ring (add_node r n) ↔
  (j = id n ∧ ∃ k, (k < vnode_count r)%nat ∧ p = hash_vnode (id n) k) ∨
  ((p, j) ∈ ring r ∧ ∀ k, (k < vnode_count r)%nat → p ≠ hash_vnode (id n) k).
Proof.
  intros Hwf. simpl. rewrite elem_of_add_vnodes by apply Hwf.
  setoid_rewrite elem_of_seq. split; intros [Hl|Hr]; [left|right|left|right].
  - destruct Hl as (-> & k & ? & ->). split; [done|]. exists k. split; [lia|done].
  - destruct Hr as [? Hr]. split; [done|]. intros k Hk. apply Hr. lia.
  - destruct Hl as (-> & k & ? & ->). split; [done|]. exists k. split; [lia|done].
  - destruct Hr as [? Hr]. split; [done|]. intros k Hk. apply Hr. lia.
Qed.

(** Adding a node never frees a position. *)
Lemma add_node_position r n p i : wf r →
  (p, i) ∈ ring r → ∃ j, (p, j) ∈ ring (add_node r n).
Proof.
  intros Hwf Hin. setoid_rewrite elem_of_add_node; [|done].
  destruct (decide (Exists (λ k, p = hash_vnode (id n) k) (seq 0 (vnode_count r))))
    as [(k & Hk & ->)%Exists_exists|Hn].
  - apply elem_of_seq in Hk. exists (id n). left. split; [done|].
    exists k. split; [lia|done].
  - exists i. right. split; [done|]. intros k Hk ->. apply Hn, Exists_exists.
    exists k. rewrite elem_of_seq. split; [lia|done].
Qed.

Lemma elem_of_remove_node r i p j :
  (p, j) ∈ ring (remove_node r i) ↔ j ≠ i ∧ (p, j) ∈ ring r.
Proof. simpl. rewrite elem_of_bt_retain. by rewrite bool_decide_eq_true. Qed.

Lemma elem_of_remove_node_nodes r i n :
  n ∈ nodes (remove_node r i) ↔ id n ≠ i ∧ n ∈ nodes r.
Proof.
  simpl. by rewrite elem_of_filterb, bool_decide_eq_true.
Qed.

Lemma new_wf n : wf (with_vnode_count n).
Proof. split; simpl; [constructor|set_solver|set_solver]. Qed.

Lemma add_node_wf r n : wf r → wf (add_node r n).
Proof.
  intros Hwf. split.
  - apply add_vnodes_wf, Hwf.
  - intros p j. rewrite elem_of_add_node by done. intros [(-> & k & ? & ->)|[Hin _]].
    + eauto.
    + by apply (wf_vnode _ Hwf).
  - intros p j. rewrite elem_of_add_node by done. simpl. setoid_rewrite elem_of_app.
    intros [(-> & k & ? & ->)|[Hin _]].
    + exists n. set_solver.
    + destruct (wf_owner _ Hwf _ _ Hin) as (m & ? & ?). eauto.
Qed.

Lemma remove_node_wf r i : wf r → wf (remove_node r i).
Proof.
  intros Hwf. split.
  - apply filter_wf, Hwf.
  - intros p j. rewrite elem_of_remove_node. intros [_ ?]. by apply (wf_vnode _ Hwf).
  - intros p j. rewrite elem_of_remove_node. intros [Hne Hin].
    destruct (wf_owner _ Hwf _ _ Hin) as (n & Hn & <-).
    exists n. by rewrite elem_of_remove_node_nodes.
Qed.
Hint Resolve new_wf add_node_wf remove_node_wf : core.

Lemma position_range r p i : wf r → (p, i) ∈ ring r → is_u64 p.
Proof. intros Hwf Hin. destruct (wf_vnode _ Hwf _ _ Hin) as (k & _ & ->). apply xxh3_64_range. Qed.

Lemma no_collisionb_spec r i : no_collisionb r i = true → no_collision r i.
Proof.
  unfold no_collisionb. rewrite forallb_forall. intros Hall k p j Hk Hin.
  specialize (Hall k). rewrite forallb_forall in Hall.
  specialize (Hall ltac:(apply in_seq; lia) (p, j)). rewrite <- list_elem_of_In in Hall.
  specialize (Hall Hin). simpl in Hall. by bool_facts.
Qed.

(** *** Distances *)

Lemma distance_ge h p : is_u64 h → is_u64 p → h ≤ p → distance h p = p - h.
Proof. intros. unfold distance. machine_unfold. apply Z.mod_small. lia. Qed.
Lemma distance_lt h p : is_u64 h → is_u64 p → p < h → distance h p = p - h + u64_modulus.
Proof.
  intros. unfold distance. rewrite <- (Z.mod_add _ 1) by done.
  machine_unfold. rewrite Z.mod_small by lia. lia.
Qed.

Lemma distance_inj h p p' : is_u64 h → is_u64 p → is_u64 p' →
  distance h p = distance h p' → p = p'.
Proof.
  intros ? ? ? Hd. destruct (Z.le_gt_cases h p), (Z.le_gt_cases h p');
    rewrite ?(distance_ge h p), ?(distance_lt h p), ?(distance_ge h p'),
      ?(distance_lt h p') in Hd by (done || lia);
    machine_unfold; lia.
Qed.

Lemma get_node_first_entry r key :
  get_node r key =
  e ← first_entry (ring r) (hash_key key); find_node (nodes r) e.2.
Proof.
  unfold get_node, first_entry. destruct (ring r) as [|e l]; [done|].
  by destruct (bt_range_from _ _) as [|[p i] ?].
Qed.

Lemma first_entry_None r h : first_entry r h = None ↔ r = [].
Proof.
  unfold first_entry. destruct r as [|e r]; [done|].
  by destruct (bt_range_from _ _).
Qed.

Lemma first_entry_clockwise r h p i :
  wf r → is_u64 h → first_entry (ring r) h = Some (p, i) → clockwise_first (ring r) h p i.
Proof.
  intros Hwf Hh. unfold first_entry.
  destruct (bt_range_from h (ring r)) as [|e l] eqn:Hr.
  - intros Hhd. destruct (ring r) as [|e l] eqn:E; [done|]. simpl in Hhd. simplify_eq.
    assert (∀ p' i', (p', i') ∈ ring r → p' < h) as Hlt.
    { intros p' i' Hin. apply Z.nle_gt. intros ?.
      assert ((p', i') ∈ bt_range_from h (ring r)) as Hn
        by (by apply elem_of_bt_range_from).
      rewrite E, Hr in Hn. set_solver. }
    rewrite <- E in *. assert ((p, i) ∈ ring r) as Hin by (rewrite E; by left).
    split; [done|]. intros p' i' Hin'.
    rewrite !distance_lt by eauto using position_range.
    pose proof (btree_head_min _ _ _ (wf_sorted _ Hwf) E _ _ Hin') as Hmin.
    simpl in Hmin. lia.
  - intros [= ->].
    assert ((p, i) ∈ bt_range_from h (ring r)) as Hin by (rewrite Hr; by left).
    apply elem_of_bt_range_from in Hin as [Hle Hin]. split; [done|].
    intros p' i' Hin'. pose proof (position_range _ _ _ Hwf Hin).
    pose proof (position_range _ _ _ Hwf Hin').
    rewrite (distance_ge h p) by done. destruct (Z.le_gt_cases h p').
    + rewrite distance_ge by done.
      assert (p ≤ p'); [|lia].
      eapply (btree_head_min _ _ _ (filter_wf _ _ (wf_sorted _ Hwf)) Hr p' i').
      by apply elem_of_bt_range_from.
    + rewrite distance_lt by done. machine_unfold. lia.
Qed.

Lemma clockwise_first_unique r h p i p' i' :
  wf r → is_u64 h →
  clockwise_first (ring r) h p i → clockwise_first (ring r) h p' i' → p = p' ∧ i = i'.
Proof.
  intros Hwf Hh [Hin Hmin] [Hin' Hmin'].
  assert (p = p') as ->.
  { apply (distance_inj h); eauto using position_range.
    apply Z.le_antisymm; eauto. }
  split; [done|]. eapply btree_wf_functional; [apply Hwf|done|done].
Qed.

Lemma find_node_Some ns i n : find_node ns i = Some n → n ∈ ns ∧ id n = i.
Proof.
  unfold find_node. intros (l1 & l2 & -> & Hp & _)%find_Some_iff_first.
  apply bool_decide_eq_true_1 in Hp. set_solver.
Qed.

Lemma find_node_is_Some ns i : (∃ n, n ∈ ns ∧ id n = i) → ∃ n, find_node ns i = Some n.
Proof.
  intros (n & Hn & Hi). destruct (find_node ns i) as [m|] eqn:E; [by eauto|].
  unfold find_node in E. rewrite find_None_iff, Forall_forall in E.
  apply E in Hn. by rewrite bool_decide_eq_true_2 in Hn.
Qed.

Lemma owner_clockwise r key i : wf r →
  owner r key = Some i ↔ ∃ p, clockwise_first (ring r) (hash_key key) p i.
Proof.
  intros Hwf. unfold owner. rewrite get_node_first_entry.
  assert (is_u64 (hash_key key)) as Hh by apply xxh3_64_range.
  destruct (first_entry _ _) as [[p j]|] eqn:E; simpl.
  - apply first_entry_clockwise in E; [|done|done].
    destruct (find_node_is_Some (nodes r) j) as [n Hn].
    { eapply wf_owner; [done|apply E]. }
    rewrite Hn. apply find_node_Some in Hn as [_ Hn]. simpl. rewrite Hn. split.
    + intros [= ->]. eauto.
    + intros [p' Hp']. f_equal. by eapply clockwise_first_unique.
  - apply first_entry_None in E. split; [done|]. intros (p & Hin & _).
    rewrite E in Hin. set_solver.
Qed.

Lemma owner_None r key : wf r → owner r key = None ↔ ring r = [].
Proof.
  intros Hwf. rewrite <- (first_entry_None (ring r) (hash_key key)).
  unfold owner. rewrite get_node_first_entry.
  destruct (first_entry _ _) as [[p j]|] eqn:E; simpl; [|done].
  apply first_entry_clockwise in E; [|done|apply xxh3_64_range].
  destruct (find_node_is_Some (nodes r) j) as [n Hn]; [|by rewrite Hn].
  eapply wf_owner; [done|apply E].
Qed.

(** What adding a node does to the owner of a key. *)
Lemma owner_add_node r n key : wf r →
  owner (add_node r n) key = owner r key ∨ owner (add_node r n) key = Some (id n).
Proof.
  intros Hwf. destruct (owner (add_node r n) key) as [i|] eqn:E.
  - destruct (decide (i = id n)) as [->|Hne]; [by right|left].
    apply owner_clockwise in E as (p & Hin & Hmin); [|by apply add_node_wf].
    apply elem_of_add_node in Hin as [[? _]|[Hin _]]; [done| |done].
    symmetry. apply owner_clockwise; [done|]. exists p. split; [done|].
    intros p' i' Hin'. destruct (add_node_position r n p' i') as [j Hj]; eauto.
  - left. symmetry. apply owner_None in E; [|by apply add_node_wf].
    apply owner_None; [done|]. destruct (ring r) as [|[p i] l] eqn:Er; [done|].
    destruct (add_node_position r n p i) as [j Hj]; [done|rewrite Er; by left|].
    rewrite E in Hj. set_solver.
Qed.

(** *** Preference lists *)

Lemma elem_of_fresh_ids l : ∀ seen i, i ∈ fresh_ids seen l ↔ i ∈ l ∧ i ∉ seen.
Proof.
  induction l as [|j l IH]; intros seen i; simpl; [set_solver|].
  case_decide; rewrite ?elem_of_cons, IH; [set_solver|].
  destruct (decide (i = j)); set_solver.
Qed.

Lemma fresh_ids_NoDup l : ∀ seen, NoDup (fresh_ids seen l).
Proof.
  induction l as [|j l IH]; intros seen; simpl; [constructor|].
  case_decide; [done|]. constructor; [|done]. rewrite elem_of_fresh_ids. set_solver.
Qed.

Lemma elem_of_clockwise_ids r h i : i ∈ clockwise_ids r h ↔ ∃ p, (p, i) ∈ ring r.
Proof.
  unfold clockwise_ids. rewrite elem_of_fresh_ids, fmap_app, elem_of_app, !list_elem_of_fmap.
  split.
  - intros [[([p j] & -> & Hin)|([p j] & -> & Hin)] _]; simpl.
    + apply elem_of_bt_range_from in Hin as [_ ?]. eauto.
    + eauto.
  - intros [p Hin]. split; [|set_solver]. right. by exists (p, i).
Qed.

Lemma clockwise_ids_NoDup r h : NoDup (clockwise_ids r h).
Proof. apply fresh_ids_NoDup. Qed.

Lemma clockwise_ids_head r h : clockwise_ids r h !! 0%nat = snd <$> first_entry (ring r) h.
Proof.
  unfold clockwise_ids, first_entry.
  destruct (bt_range_from h (ring r)) as [|e l]; simpl.
  - destruct (ring r) as [|e l]; simpl; [done|]. rewrite decide_False by set_solver. done.
  - rewrite decide_False by set_solver. done.
Qed.

(** The loop collects the first [max 1 n] fresh identifiers. *)
Lemma preference_loop_spec ns n iter : ∀ seen result,
  (∀ i, i ∈ iter.*2 → ∃ m, m ∈ ns ∧ id m = i) →
  (length result < Z.to_nat (Z.max 1 n))%nat →
  id <$> preference_loop ns n iter seen result =
  (id <$> result) ++
    take (Z.to_nat (Z.max 1 n) - length result) (fresh_ids seen iter.*2).
Proof.
  induction iter as [|[p i] iter IH]; intros seen result Hown Hlen; simpl.
  { by rewrite take_nil, app_nil_r. }
  case_decide as Hseen.
  { apply IH; [|done]. intros j Hj. apply Hown. by right. }
  destruct (find_node_is_Some ns i) as [m Hm]; [apply Hown; by left|].
  rewrite Hm. apply find_node_Some in Hm as [Hm Hi].
  remember (Z.to_nat (Z.max 1 n)) as N eqn:HN.
  destruct (N - length result)%nat as [|k] eqn:Hk; [lia|]. rewrite firstn_cons.
  destruct (Z.leb_spec n (Z.of_nat (length (result ++ [m])))) as [Hle|Hle].
  - rewrite fmap_app. simpl. rewrite Hi. f_equal.
    rewrite length_app in Hle. simpl in Hle. replace k with 0%nat by lia. done.
  - rewrite length_app in Hle. simpl in Hle.
    rewrite IH; [|intros j Hj; apply Hown; by right|rewrite length_app; simpl; lia].
    rewrite fmap_app, length_app, <- app_assoc. simpl. rewrite Hi.
    by replace (N - (length result + 1))%nat with k by lia.
Qed.

Lemma preference_ids r key n : wf r →
  id <$> get_preference_list r key n =
  take (Z.to_nat (Z.max 1 n)) (clockwise_ids r (hash_key key)).
Proof.
  intros Hwf. unfold get_preference_list, clockwise_ids.
  destruct (ring r) as [|e l] eqn:E; [simpl; by rewrite take_nil|]. rewrite <- E.
  rewrite preference_loop_spec; simpl; [by rewrite Nat.sub_0_r| |lia].
  intros i ([p j] & -> & Hin)%list_elem_of_fmap. simpl.
  apply elem_of_app in Hin as [[_ Hin]%elem_of_bt_range_from|Hin];
    by eapply wf_owner.
Qed.

Lemma preference_loop_nodes ns n iter : ∀ seen result m,
  m ∈ preference_loop ns n iter seen result → m ∈ result ∨ m ∈ ns.
Proof.
  induction iter as [|[p i] iter IH]; intros seen result m; simpl; [by left|].
  case_decide; [apply IH|].
  destruct (find_node ns i) as [m'|] eqn:E.
  - apply find_node_Some in E as [? _].
    destruct (_ <=? _); [set_solver|]. intros [?|?]%IH; set_solver.
  - destruct (_ <=? _); [by left|]. apply IH.
Qed.

Lemma preference_list_nodes r key n m : m ∈ get_preference_list r key n → m ∈ nodes r.
Proof.
  unfold get_preference_list. destruct (ring r); [by intros ?%elem_of_nil|].
  by intros [?%elem_of_nil|?]%preference_loop_nodes.
Qed.

(** *** Clockwise order *)

Lemma sorted_split (h : Z) (r : list (Z * NodeId)) : btree_wf r →
  List.filter (λ e, e.1 <? h) r ++ bt_range_from h r = r.
Proof.
  unfold bt_range_from. induction 1 as [|[p i] r Hwf IH Hall]; simpl; [done|].
  destruct (Z.ltb_spec p h), (Z.leb_spec h p); try lia; simpl; [by rewrite IH|].
  assert (List.filter (λ e, e.1 <? h) r = []) as Hnil.
  { rewrite Forall_forall in Hall. destruct (List.filter _ r) as [|e l] eqn:E; [done|].
    assert (e ∈ List.filter (λ e, e.1 <? h) r) as Hin by (rewrite E; by left).
    apply elem_of_filterb in Hin as [He Hin]. apply Hall in Hin.
    unfold key_lt in Hin. simpl in Hin. bool_facts. lia. }
  rewrite Hnil in *. simpl in *. by rewrite IH.
Qed.

Lemma fresh_ids_app l1 l2 : ∀ seen,
  fresh_ids seen (l1 ++ l2) = fresh_ids seen l1 ++ fresh_ids (seen ∪ list_to_set l1) l2.
Proof.
  induction l1 as [|i l1 IH]; intros seen; simpl.
  - by rewrite (right_id_L ∅ (∪)).
  - case_decide as Hi; rewrite IH; simpl.
    + by replace (seen ∪ ({[i]} ∪ list_to_set l1)) with (seen ∪ list_to_set l1)
        by set_solver.
    + by rewrite (assoc_L (∪)), (comm_L (∪) {[i]} seen).
Qed.

Lemma clockwise_ids_split r h : wf r →
  clockwise_ids r h =
  fresh_ids ∅ (bt_range_from h (ring r) ++ List.filter (λ e, e.1 <? h) (ring r)).*2.
Proof.
  intros Hwf. unfold clockwise_ids.
  rewrite <- (sorted_split h (ring r)) at 2 by apply Hwf.
  rewrite app_assoc, fmap_app, fresh_ids_app.
  destruct (fresh_ids (_ ∪ _) (bt_range_from h (ring r)).*2) as [|i l] eqn:E;
    [by rewrite app_nil_r|].
  assert (i ∈ i :: l) as Hi by by left. rewrite <- E, elem_of_fresh_ids in Hi.
  exfalso. rewrite !fmap_app in Hi. set_solver.
Qed.

Lemma StronglySorted_weaken {A} (R1 R2 : A → A → Prop) l :
  (∀ x y, x ∈ l → y ∈ l → R1 x y → R2 x y) → StronglySorted R1 l → StronglySorted R2 l.
Proof.
  intros HR. induction 1 as [|x l Hl IH Hall]; constructor.
  - apply IH. intros ? ? ? ?. apply HR; by right.
  - rewrite Forall_forall in *. intros y Hy. apply HR; [by left|by right|by apply Hall].
Qed.

Lemma StronglySorted_concat {A} (R : A → A → Prop) l1 l2 :
  StronglySorted R l1 → StronglySorted R l2 → (∀ x y, x ∈ l1 → y ∈ l2 → R x y) →
  StronglySorted R (l1 ++ l2).
Proof.
  intros H1 H2 Hc. induction H1 as [|x l1 Hl IH Hall]; simpl; [done|].
  constructor; [apply IH; intros; apply Hc; [by right|done]|]. rewrite Forall_app. split; [done|].
  rewrite Forall_forall. intros y Hy. apply Hc; [by left|done].
Qed.

Lemma walk_sorted r h : wf r → is_u64 h →
  StronglySorted (closer h)
    (bt_range_from h (ring r) ++ List.filter (λ e, e.1 <? h) (ring r)).
Proof.
  intros Hwf Hh. pose proof (wf_sorted _ Hwf) as Hs.
  assert (∀ e, e ∈ bt_range_from h (ring r) → h ≤ e.1 ∧ is_u64 e.1) as Hge.
  { intros [p i] [? Hin]%elem_of_bt_range_from. eauto using position_range. }
  assert (∀ e, e ∈ List.filter (λ e, e.1 <? h) (ring r) → e.1 < h ∧ is_u64 e.1) as Hlt.
  { intros [p i] Hin. apply elem_of_filterb in Hin as [? Hin]. bool_facts. eauto using position_range. }
  apply StronglySorted_concat.
  - eapply StronglySorted_weaken; [|by apply filter_wf]. intros x y Hx Hy. unfold key_lt, closer.
    apply Hge in Hx as [??], Hy as [??]. rewrite !distance_ge by done. lia.
  - eapply StronglySorted_weaken; [|by apply filter_wf]. intros x y Hx Hy. unfold key_lt, closer.
    apply Hlt in Hx as [??], Hy as [??]. rewrite !distance_lt by done. lia.
  - intros x y Hx Hy. unfold closer. apply Hge in Hx as [??]. apply Hlt in Hy as [??].
    rewrite distance_ge, distance_lt by done. machine_unfold. lia.
Qed.

Lemma fresh_ids_order h l : ∀ seen l1 i l2 j,
  StronglySorted (closer h) l → fresh_ids seen l.*2 = l1 ++ i :: l2 → j ∈ l2 →
  ∃ p, (p, i) ∈ l ∧ ∀ p', (p', j) ∈ l → distance h p < distance h p'.
Proof.
  induction l as [|[p0 i0] l IH]; intros seen l1 i l2 j Hs Heq Hj; simpl in Heq.
  { by destruct l1. }
  inversion Hs as [|? ? Hs' Hall]; subst.
  pose proof (fresh_ids_NoDup ((p0, i0) :: l).*2 seen) as Hnd. simpl in Hnd.
  assert (j ∈ l1 ++ i :: l2) as Hj' by set_solver. rewrite <- Heq in Hj'.
  case_decide as Hseen.
  - destruct (IH _ _ _ _ _ Hs' Heq Hj) as (p & Hp & Hmin). exists p.
    split; [by right|]. intros p' [[= -> ->]|Hin]%elem_of_cons; [|by apply Hmin].
    apply elem_of_fresh_ids in Hj' as [_ ?]. done.
  - destruct l1 as [|i1 l1]; simpl in *; injection Heq as -> Heq.
    + apply NoDup_cons in Hnd as [Hnin _]. rewrite Heq in Hnin.
      exists p0. split; [by left|].
      intros p' [[= -> ->]|Hin]%elem_of_cons; [done|].
      rewrite Forall_forall in Hall. by apply (Hall (p', j)).
    + apply NoDup_cons in Hnd as [Hnin _]. rewrite Heq in Hnin.
      destruct (IH _ _ _ _ _ Hs' Heq Hj) as (p & Hp & Hmin). exists p.
      split; [by right|]. intros p' [[= -> ->]|Hin]%elem_of_cons; [|by apply Hmin].
      set_solver.
Qed.
End ring.
End HashRing.

(** ** Properties *)

Section properties.
Context `{UuidLib} `{Xxh3}.
Import HashRing.

(** Further: every ring the program can build, by adding and removing nodes in any
    order from an empty ring, is well formed: positions sorted and unique,
    every virtual node a hash of its owner, every owner a known node. *)
Theorem reachable_ring_wf (n : nat) (r : HashRing) :
  rtc ring_step (with_vnode_count n) r → wf r.
Proof.
  intros Hr. apply (rtc_invariant ring_step wf) in Hr; [done| |apply new_wf].
  intros ? ? Hwf Hs. destruct Hs; auto using add_node_wf, remove_node_wf.
Qed.

(** C30: [get_node] returns the known node whose virtual node is nearest
    clockwise from the key's hash, wrapping around the end of the [u64]
    positions; it returns nothing only on an empty ring. *)
Theorem get_node_nearest_clockwise (r : HashRing) (key : string) :
  wf r →
  match get_node r key with
  | Some info => info ∈ nodes r ∧
      ∃ p, clockwise_first (ring r) (hash_key key) p (id info)
  | None => ring r = []
  end.
Proof.
  intros Hwf. destruct (get_node r key) as [info|] eqn:E.
  - split.
    + rewrite get_node_first_entry in E.
      destruct (first_entry _ _) as [e|]; simpl in E; [|done].
      by apply find_node_Some in E as [? _].
    + apply owner_clockwise; [done|]. unfold owner. by rewrite E.
  - apply (owner_None r key); [done|]. unfold owner. by rewrite E.
Qed.

(** C31: consistent hashing, growth: adding a node leaves every key with its
    owner or gives it to the new node; no key moves between old nodes. *)
Theorem add_node_minimal_reshuffle (r : HashRing) (n : NodeInfo) (key : string) :
  wf r →
  owner (add_node r n) key = owner r key ∨ owner (add_node r n) key = Some (id n).
Proof. apply owner_add_node. Qed.

(** C32: consistent hashing, shrinkage: removing a node leaves every key that
    the node did not own with its owner, and leaves the node no key. *)
Theorem remove_node_minimal_reshuffle (r : HashRing) (i : NodeId) (key : string) :
  wf r →
  (owner r key ≠ Some i → owner (remove_node r i) key = owner r key) ∧
  owner (remove_node r i) key ≠ Some i.
Proof.
  intros Hwf. split.
  - intros Hne. destruct (owner r key) as [j|] eqn:E.
    + apply owner_clockwise in E as (p & Hin & Hmin); [|done].
      apply owner_clockwise; [by apply remove_node_wf|]. exists p. split.
      * apply elem_of_remove_node. split; [congruence|done].
      * intros p' i' [_ ?]%elem_of_remove_node. eauto.
    + apply owner_None in E; [|done]. apply owner_None; [by apply remove_node_wf|].
      simpl. by rewrite E.
  - intros (p & Hin & _)%owner_clockwise; [|by apply remove_node_wf].
    by apply elem_of_remove_node in Hin as [? _].
Qed.

(** C33: the preference list holds distinct known nodes, in the order of the
    reference walk: its identifiers are the first [max 1 replica_count] of
    [clockwise_ids], which lists every owner of a virtual node once; the first
    is the owner of the key. *)
Theorem preference_list_correct (r : HashRing) (key : string) (replica_count : Z) :
  wf r →
  let prefs := get_preference_list r key replica_count in
  id <$> prefs = take (Z.to_nat (Z.max 1 replica_count)) (clockwise_ids r (hash_key key)) ∧
  NoDup (id <$> prefs) ∧
  (∀ n, n ∈ prefs → n ∈ nodes r) ∧
  (id <$> prefs) !! 0%nat = owner r key ∧
  (∀ i, i ∈ clockwise_ids r (hash_key key) ↔ ∃ p, (p, i) ∈ ring r).
Proof.
  intros Hwf prefs. pose proof (preference_ids r key replica_count Hwf) as Hp.
  fold prefs in Hp. split; [done|]. split; [|split; [|split]].
  - rewrite Hp. eapply sublist_NoDup; [apply clockwise_ids_NoDup|]. apply sublist_take.
  - intros n. apply preference_list_nodes.
  - rewrite Hp, lookup_take_lt by lia. rewrite clockwise_ids_head.
    unfold owner. rewrite get_node_first_entry.
    destruct (first_entry (ring r) (hash_key key)) as [[p i]|] eqn:E; simpl; [|done].
    apply first_entry_clockwise in E as [Hin _]; [|done|apply xxh3_64_range].
    destruct (find_node_is_Some (nodes r) i) as [n Hn]; [by eapply wf_owner|].
    rewrite Hn. apply find_node_Some in Hn as [_ <-]. done.
  - apply elem_of_clockwise_ids.
Qed.

(** Further: preference lists are ordered clockwise: a node listed before another
    has a virtual node nearer to the key than every virtual node of the other. *)
Theorem preference_list_clockwise (r : HashRing) (key : string) (replica_count : Z)
    (l1 l2 : list NodeId) (i j : NodeId) :
  wf r →
  id <$> get_preference_list r key replica_count = l1 ++ i :: l2 → j ∈ l2 →
  ∃ p, (p, i) ∈ ring r ∧ ∀ p', (p', j) ∈ ring r →
    distance (hash_key key) p < distance (hash_key key) p'.
Proof.
  intros Hwf Heq Hj. rewrite preference_ids in Heq by done.
  pose proof (take_drop (Z.to_nat (Z.max 1 replica_count))
    (clockwise_ids r (hash_key key))) as Hall.
  rewrite Heq, <- app_assoc, clockwise_ids_split in Hall by done. symmetry in Hall.
  eapply (fresh_ids_order _ _ _ _ _ _ j) in Hall as (p & Hp & Hmin).
  - exists p. apply elem_of_app in Hp. split.
    + destruct Hp as [[_ ?]%elem_of_bt_range_from|Hp]; [done|].
      by apply elem_of_filterb in Hp as [_ ?].
    + intros p' Hp'. apply Hmin. rewrite elem_of_app, elem_of_bt_range_from.
      rewrite elem_of_filterb. simpl.
      destruct (Z.ltb_spec p' (hash_key key)); auto.
  - by apply walk_sorted, xxh3_64_range.
  - set_solver.
Qed.

(** Further: removing a node that has just been added restores the ring, provided
    the node was unknown and none of its virtual nodes fell on an occupied
    position. *)
Theorem add_remove_roundtrip (r : HashRing) (n : NodeInfo) :
  wf r → no_collision r (id n) → contains_node r (id n) = false →
  remove_node (add_node r n) (id n) = r.
Proof.
  intros Hwf Hnc Hnew.
  assert (∀ m, m ∈ nodes r → id m ≠ id n) as Hfresh.
  { unfold contains_node in Hnew. intros m Hm Heq.
    apply not_true_iff_false in Hnew. apply Hnew, existsb_exists.
    exists m. rewrite <- list_elem_of_In. split; [done|by apply bool_decide_eq_true]. }
  assert (nodes (remove_node (add_node r n) (id n)) = nodes r) as Hnodes.
  { simpl. rewrite List.filter_app. simpl. rewrite bool_decide_eq_false_2 by tauto.
    rewrite app_nil_r. clear -Hfresh. induction (nodes r) as [|m ns IH]; simpl; [done|].
    rewrite bool_decide_eq_true_2 by (apply Hfresh; by left).
    f_equal. apply IH. intros m' ?. apply Hfresh. by right. }
  assert (ring (remove_node (add_node r n) (id n)) = ring r) as Hring.
  { apply btree_ext.
    - apply wf_sorted. by apply remove_node_wf, add_node_wf.
    - apply Hwf.
    - intros p j. rewrite elem_of_remove_node, elem_of_add_node by done. split.
      + intros [? [[? _]|[? _]]]; done.
      + intros Hin. split.
        * destruct (wf_owner _ Hwf _ _ Hin) as (m & Hm & <-). by apply Hfresh.
        * right. split; [done|]. intros k Hk ->. by eapply Hnc. }
  destruct r as [rg ns vc]. simpl in *. unfold remove_node, add_node in *. simpl in *.
  by rewrite Hnodes, Hring.
Qed.
End properties.

(** ** Witnesses: a ring of two nodes with three virtual nodes each *)

Section witnesses.
#[local] Existing Instance Examples.string_uuid.
#[local] Existing Instance Examples.poly_xxh3.
Import HashRing.

Definition ex_node (name : string) : NodeInfo :=
  mkNodeInfo (@mkNodeId Examples.string_uuid name) (name +:+ ".local:5001").
Definition ex_ring : HashRing :=
  add_node (add_node (with_vnode_count 3) (ex_node "a")) (ex_node "b").

Lemma ex_ring_wf : wf ex_ring.
Proof. apply add_node_wf, add_node_wf, new_wf. Qed.

Lemma reachable_ring_wf_witness : rtc ring_step (with_vnode_count 3) ex_ring ∧ wf ex_ring.
Proof.
  assert (rtc ring_step (with_vnode_count 3) ex_ring) as Hr.
  { unfold ex_ring. eapply rtc_l; [apply step_add|]. eapply rtc_l; [apply step_add|]. constructor. }
  split; [exact Hr|]. exact (reachable_ring_wf 3 ex_ring Hr).
Defined.

Lemma get_node_witness :
  get_node ex_ring "k" = Some (ex_node "a") ∧ ex_node "a" ∈ nodes ex_ring.
Proof.
  pose proof (get_node_nearest_clockwise ex_ring "k" ex_ring_wf) as Hp.
  assert (get_node ex_ring "k" = Some (ex_node "a")) as E by (vm_compute; reflexivity).
  rewrite E in Hp. split; [exact E|exact (proj1 Hp)].
Defined.

Lemma add_node_minimal_witness :
  owner (add_node ex_ring (ex_node "c")) "k" = owner ex_ring "k" ∨
  owner (add_node ex_ring (ex_node "c")) "k" = Some (id (ex_node "c")).
Proof. exact (add_node_minimal_reshuffle ex_ring (ex_node "c") "k" ex_ring_wf). Defined.

Lemma remove_node_minimal_witness :
  owner (remove_node ex_ring (id (ex_node "b"))) "k" = Some (id (ex_node "a")).
Proof.
  assert (owner ex_ring "k" = Some (id (ex_node "a"))) as E by (vm_compute; reflexivity).
  rewrite <- E. apply (remove_node_minimal_reshuffle ex_ring (id (ex_node "b")) "k" ex_ring_wf).
  rewrite E. discriminate.
Defined.

Lemma preference_list_witness :
  (id <$> get_preference_list ex_ring "k" 2) !! 0%nat = owner ex_ring "k".
Proof. exact (proj1 (proj2 (proj2 (proj2 (preference_list_correct ex_ring "k" 2 ex_ring_wf))))). Defined.

Lemma preference_list_clockwise_witness :
  ∃ p, (p, id (ex_node "a")) ∈ ring ex_ring ∧ ∀ p', (p', id (ex_node "b")) ∈ ring ex_ring →
    distance (hash_key "k") p < distance (hash_key "k") p'.
Proof.
  apply (preference_list_clockwise ex_ring "k" 2 [] [id (ex_node "b")]).
  - exact ex_ring_wf.
  - vm_compute. reflexivity.
  - left.
Defined.

Lemma add_remove_witness :
  remove_node (add_node ex_ring (ex_node "c")) (id (ex_node "c")) = ex_ring.
Proof.
  apply add_remove_roundtrip.
  - exact ex_ring_wf.
  - apply no_collisionb_spec. vm_compute. reflexivity.
  - vm_compute. reflexivity.
Defined.
End witnesses.
