(* ===== verification/Store.v ===== *)
(** * The cache store

    Models [crates/node/src/cache/store.rs] and the body of the background
    sweeper of [crates/node/src/cache/expiry.rs].  The concurrent map
    [DashMap<String, CacheEntry>] is a [gmap]; each access to it is one atomic
    step.  Every call of [Instant::now] is an argument [now].

    The specification, [Spec], is a map of live entries only: what is expired is
    not there. *)

From S2P Require Import Prelude Machine Text Common.
Local Open Scope Z_scope.
Local Open Scope outcome_scope.

Module CacheStore.

Record CacheEntry := mkCacheEntry {
  value : bytes;
  expires_at : option Z;
}.

Record CacheStore := mkCacheStore {
  data : gmap string CacheEntry;
  epoch : Z;
}.

Definition new (now : Instant) : CacheStore := mkCacheStore ∅ now.

Definition instant_to_epoch_ms (self : CacheStore) (instant : Instant) : Z :=
  match checked_duration_since instant (epoch self) with
  | Some d => as_u64 (as_millis d)
  | None => 0
  end.

Definition epoch_ms_to_instant (self : CacheStore) (ms : Z) : outcome Instant :=
  instant_add (epoch self) (from_millis ms).

Definition with_data (self : CacheStore) (m : gmap string CacheEntry) : CacheStore :=
  mkCacheStore m (epoch self).

(** [ttl.map(|d| Instant::now() + d)] *)
Definition expiry_of (now : Instant) (ttl : option Duration) : outcome (option Instant) :=
  match ttl with
  | Some d => let! t := instant_add now d in Returns (Some t)
  | None => Returns None
  end.

Definition set (now : Instant) (key : string) (v : bytes) (ttl : option Duration)
    (self : CacheStore) : outcome CacheStore :=
  let! expires_at := expiry_of now ttl in
  Returns (with_data self (<[key := mkCacheEntry v expires_at]> (data self))).

(** [expires_at <= now], [expires_at > now] of an optional expiry *)
Definition expired (now : Instant) (e : CacheEntry) : bool :=
  match expires_at e with Some t => t <=? now | None => false end.
Definition live (now : Instant) (e : CacheEntry) : bool :=
  match expires_at e with Some t => now <? t | None => true end.

(** [get] makes two separate accesses to the map: it looks the entry up, and, if
    the entry is expired, drops the reference and then removes the key. *)
Inductive lookup_result := Found (r : option bytes) | Expired.

Definition get_lookup (now : Instant) (key : string) (self : CacheStore) : lookup_result :=
  match data self !! key with
  | None => Found None
  | Some entry => if expired now entry then Expired else Found (Some (value entry))
  end.

Definition remove_key (key : string) (self : CacheStore) : CacheStore :=
  with_data self (base.delete key (data self)).

Definition get (now : Instant) (key : string) (self : CacheStore) : option bytes * CacheStore :=
  match get_lookup now key self with
  | Found r => (r, self)
  | Expired => (None, remove_key key self)
  end.

Definition delete (key : string) (self : CacheStore) : bool * CacheStore :=
  (bool_decide (is_Some (data self !! key)), remove_key key self).

Definition len (now : Instant) (self : CacheStore) : nat :=
  size (filter (λ kv, live now kv.2 = true) (data self)).

Definition is_empty (now : Instant) (self : CacheStore) : bool := (len now self =? 0)%nat.

Definition ttl (now : Instant) (key : string) (self : CacheStore) : option Duration :=
  match data self !! key with
  | None => None
  | Some entry =>
      match expires_at entry with
      | Some t => if now <? t then Some (t - now) else Some 0
      | None => None
      end
  end.

Definition exists_ (now : Instant) (key : string) (self : CacheStore) : bool * CacheStore :=
  let '(r, self') := get now key self in (bool_decide (is_Some r), self').

Definition expire (now : Instant) (key : string) (d : Duration) (self : CacheStore)
    : outcome (bool * CacheStore) :=
  match data self !! key with
  | Some entry =>
      let! t := instant_add now d in
      Returns (true, with_data self (<[key := mkCacheEntry (value entry) (Some t)]> (data self)))
  | None => Returns (false, self)
  end.

(** One entry of the vector [entries_for_transfer] builds. *)
Definition transfer_entry (now : Instant) (kv : string * CacheEntry)
    : option (string * bytes * option Z) :=
  let '(key, entry) := kv in
  if expired now entry then None
  else Some (key, value entry,
             (λ t, as_u64 (as_millis (saturating_duration_since t now))) <$> expires_at entry).

Definition entries_for_transfer `{HashIter} (now : Instant) (self : CacheStore)
    : list (string * bytes * option Z) :=
  omap (transfer_entry now) (hash_iter (data self)).

Definition set_from_transfer (now : Instant) (key : string) (v : bytes) (remaining_ms : option Z)
    (self : CacheStore) : outcome CacheStore :=
  match remaining_ms with
  | Some 0 => Returns self
  | Some ms => set now key v (Some (from_millis ms)) self
  | None => set now key v None self
  end.

(** The body of the sweeper's loop: [store.data().retain(..)]. *)
Definition sweep (now : Instant) (self : CacheStore) : CacheStore :=
  with_data self (filter (λ kv, live now kv.2 = true) (data self)).

(** ** The specification *)

(** The operations of the store as commands with a reply. *)
Inductive op :=
  | OSet (key : string) (v : bytes) (d : option Z)
  | OGet (key : string)
  | ODelete (key : string)
  | OExists (key : string)
  | OTtl (key : string)
  | OExpire (key : string) (d : Z)
  | OLen
  | OSweep.

Inductive reply :=
  | RUnit
  | RValue (r : option (bytes))
  | RBool (b : bool)
  | RTtl (d : option Z)
  | RLen (n : nat).

Definition run_op (now : Instant) (o : op) (st : CacheStore) : outcome (reply * CacheStore) :=
  match o with
  | OSet k v d => let! st' := set now k v d st in Returns (RUnit, st')
  | OGet k => let '(r, st') := get now k st in Returns (RValue r, st')
  | ODelete k => let '(b, st') := delete k st in Returns (RBool b, st')
  | OExists k => let '(b, st') := exists_ now k st in Returns (RBool b, st')
  | OTtl k => Returns (RTtl (ttl now k st), st)
  | OExpire k d => let! (b, st') := expire now k d st in Returns (RBool b, st')
  | OLen => Returns (RLen (len now st), st)
  | OSweep => Returns (RUnit, sweep now st)
  end.

(** The specification's state: a map that holds live entries only. *)
Definition purge (now : Instant) (m : gmap string CacheEntry) : gmap string CacheEntry :=
  filter (λ kv, live now kv.2 = true) m.

Definition spec_op (now : Instant) (o : op) (m : gmap string CacheEntry)
    : reply * gmap string CacheEntry :=
  match o with
  | OSet k v d => (RUnit, purge now (<[k := mkCacheEntry v ((λ d, now + d) <$> d)]> m))
  | OGet k => (RValue (value <$> m !! k), m)
  | ODelete k => (RBool (bool_decide (is_Some (m !! k))), base.delete k m)
  | OExists k => (RBool (bool_decide (is_Some (m !! k))), m)
  | OTtl k => (RTtl (e ← m !! k; (λ t, t - now) <$> expires_at e), m)
  | OExpire k d =>
      match m !! k with
      | Some e => (RBool true, purge now (<[k := mkCacheEntry (value e) (Some (now + d))]> m))
      | None => (RBool false, m)
      end
  | OLen => (RLen (size m), m)
  | OSweep => (RUnit, m)
  end.

(** The abstraction: the live entries of the store at time [now]. *)
Definition view (now : Instant) (st : CacheStore) : gmap string CacheEntry :=
  purge now (data st).

(** [delete], [ttl] and [expire] do not look at the expiry: they meet the
    specification on keys that are live or absent. *)
Definition in_contract (now : Instant) (o : op) (st : CacheStore) : Prop :=
  match o with
  | ODelete k | OTtl k | OExpire k _ =>
      ∀ e, data st !! k = Some e → live now e = true
  | _ => True
  end.

(** Executions: operations with the times at which they run. *)
Fixpoint run_trace (tr : list (Z * op)) (st : CacheStore) : outcome (list reply * CacheStore) :=
  match tr with
  | [] => Returns ([], st)
  | (now, o) :: tr' =>
      let! (r, st1) := run_op now o st in
      let! (rs, st2) := run_trace tr' st1 in
      Returns (r :: rs, st2)
  end.

Fixpoint spec_trace (tr : list (Z * op)) (m : gmap string CacheEntry)
    : list reply * gmap string CacheEntry :=
  match tr with
  | [] => ([], m)
  | (now, o) :: tr' =>
      let '(r, m1) := spec_op now o (purge now m) in
      let '(rs, m2) := spec_trace tr' m1 in
      (r :: rs, m2)
  end.

Fixpoint trace_in_contract (tr : list (Z * op)) (st : CacheStore) : Prop :=
  match tr with
  | [] => True
  | (now, o) :: tr' =>
      in_contract now o st ∧
      ∀ r st', run_op now o st = Returns (r, st') → trace_in_contract tr' st'
  end.

Definition last_time (t : Z) (tr : list (Z * op)) : Z := List.last tr.*1 t.
End CacheStore.

(** ** Lemmas *)

Section lemmas.
Import CacheStore.

Lemma live_expired now e : live now e = negb (expired now e).
Proof.
  unfold live, expired. destruct (expires_at e) as [t|]; [|done].
  destruct (Z.ltb_spec now t), (Z.leb_spec t now); (done || lia).
Qed.

Lemma live_mono now now' e : now ≤ now' → live now' e = true → live now e = true.
Proof. unfold live. destruct (expires_at e); [|done]. intros. bool_facts. apply Z.ltb_lt. lia. Qed.

Lemma lookup_purge now m k e :
  purge now m !! k = Some e ↔ m !! k = Some e ∧ live now e = true.
Proof. unfold purge. by rewrite map_lookup_filter_Some. Qed.

Lemma lookup_purge_None now m k :
  purge now m !! k = None ↔ ∀ e, m !! k = Some e → live now e = false.
Proof.
  unfold purge. rewrite map_lookup_filter_None. split.
  - intros [Hn|Hn] e He; [congruence|]. apply not_true_iff_false. by apply Hn.
  - intros Hall. destruct (m !! k) as [e|]; [right|by left].
    intros e' [= <-]. apply not_true_iff_false. by apply Hall.
Qed.

Ltac purge_eq :=
  apply map_eq; intros ?i; apply option_eq; intros ?e;
  repeat first [rewrite lookup_purge | rewrite lookup_insert_Some | rewrite lookup_delete_Some].

Lemma purge_purge now now' m : now ≤ now' → purge now' (purge now m) = purge now' m.
Proof. intros. purge_eq. naive_solver eauto using live_mono. Qed.

Lemma purge_insert now k e m : purge now (<[k:=e]> (purge now m)) = purge now (<[k:=e]> m).
Proof. purge_eq. naive_solver. Qed.

Lemma purge_delete now k m : purge now (base.delete k m) = base.delete k (purge now m).
Proof. purge_eq. naive_solver. Qed.

Lemma view_remove now k st : view now (remove_key k st) = base.delete k (view now st).
Proof. apply purge_delete. Qed.

Lemma view_insert now k e st :
  view now (with_data st (<[k:=e]> (data st))) = purge now (<[k:=e]> (view now st)).
Proof. unfold view. simpl. by rewrite purge_insert. Qed.

Lemma view_sweep now st : view now (sweep now st) = view now st.
Proof. apply purge_purge. lia. Qed.

Lemma expiry_of_Returns now d r :
  expiry_of now d = Returns r → r = (λ d, now + d) <$> d.
Proof.
  destruct d as [d|]; simpl; [|by intros [= <-]].
  intros (t & [-> _]%instant_add_Returns & [= <-])%outcome_bind_Returns. done.
Qed.

Lemma set_Returns now k v d st st' :
  set now k v d st = Returns st' →
  st' = with_data st (<[k := mkCacheEntry v ((λ d, now + d) <$> d)]> (data st)).
Proof.
  unfold set. intros (r & Hr & [= <-])%outcome_bind_Returns.
  by apply expiry_of_Returns in Hr as ->.
Qed.

Lemma expire_Returns now k d st b st' :
  expire now k d st = Returns (b, st') →
  match data st !! k with
  | Some e => b = true ∧
      st' = with_data st (<[k := mkCacheEntry (value e) (Some (now + d))]> (data st))
  | None => b = false ∧ st' = st
  end.
Proof.
  unfold expire. destruct (data st !! k) as [e|]; [|by intros [= <- <-]].
  intros (t & [-> _]%instant_add_Returns & [= <- <-])%outcome_bind_Returns. done.
Qed.

(** [get] replies from the live entries and changes nothing that is live. *)
Lemma get_view now k st :
  get now k st = (value <$> view now st !! k, (get now k st).2) ∧
  view now (get now k st).2 = view now st.
Proof.
  unfold get, get_lookup, view. destruct (data st !! k) as [e|] eqn:E.
  - destruct (expired now e) eqn:He; simpl.
    + assert (purge now (data st) !! k = None) as Hn.
      { apply lookup_purge_None. intros e' ?. simplify_eq. by rewrite live_expired, He. }
      rewrite purge_delete, Hn. split; [done|]. by apply delete_id.
    + assert (purge now (data st) !! k = Some e) as ->; [|done].
      apply lookup_purge. by rewrite live_expired, He.
  - simpl. assert (purge now (data st) !! k = None) as ->; [|done].
    apply lookup_purge_None. by rewrite E.
Qed.

(** Under the contract, the view and the map agree on the key. *)
Lemma view_lookup_live now k st :
  (∀ e, data st !! k = Some e → live now e = true) → view now st !! k = data st !! k.
Proof.
  intros Hl. unfold view. apply option_eq. intros e. rewrite lookup_purge. naive_solver.
Qed.

(** Every operation meets its specification. *)
Lemma run_op_refines now o st r st' :
  in_contract now o st → run_op now o st = Returns (r, st') →
  spec_op now o (view now st) = (r, view now st').
Proof.
  intros Hc Hrun. destruct o as [k v d|k|k|k|k|k d| |]; simpl in *.
  - apply outcome_bind_Returns in Hrun as (st1 & Hset & [= <- <-]).
    apply set_Returns in Hset as ->. by rewrite view_insert.
  - destruct (get_view now k st) as [Hg Hv]. rewrite Hg in Hrun.
    simplify_eq. by rewrite Hv.
  - simplify_eq. rewrite view_remove. by rewrite view_lookup_live.
  - destruct (get_view now k st) as [Hg Hv]. unfold exists_ in Hrun. rewrite Hg in Hrun.
    simplify_eq. rewrite Hv. repeat f_equal. by rewrite (bool_decide_ext _ _ (fmap_is_Some _ _)).
  - injection Hrun as <- <-. rewrite view_lookup_live by done. unfold ttl.
    destruct (data st !! k) as [e|] eqn:E; [|done]. specialize (Hc _ eq_refl).
    unfold live in Hc. simpl. destruct (expires_at e); simpl; [by rewrite Hc|done].
  - apply outcome_bind_Returns in Hrun as ([b st1] & He & [= <- <-]).
    apply expire_Returns in He. rewrite view_lookup_live by done.
    destruct (data st !! k) as [e|] eqn:E; destruct He as [-> ->]; [|done].
    by rewrite view_insert.
  - by simplify_eq.
  - simplify_eq. by rewrite view_sweep.
Qed.

Lemma view_later now now' st : now ≤ now' → purge now' (view now st) = view now' st.
Proof. apply purge_purge. Qed.
(** *** Transfers *)

Lemma elem_of_transfer `{HashIter} now st k v rem :
  (k, v, rem) ∈ entries_for_transfer now st ↔
  ∃ e, view now st !! k = Some e ∧ v = value e ∧
    rem = (λ t, as_u64 (as_millis (t - now))) <$> expires_at e.
Proof.
  unfold entries_for_transfer. rewrite list_elem_of_omap. split.
  + intros ([k' e] & Hin & Ht). apply elem_of_hash_iter in Hin. unfold transfer_entry in Ht.
    destruct (expired now e) eqn:He; [done|]. injection Ht as <- <- <-.
    exists e. unfold view. rewrite lookup_purge, live_expired, He. repeat split; [done|].
    destruct (expires_at e) as [t|] eqn:Ee; simpl; [|done]. unfold expired in He. rewrite Ee in He.
    bool_facts. unfold saturating_duration_since. by rewrite Z.max_r by lia.
  + intros (e & Hv & -> & ->). unfold view in Hv. apply lookup_purge in Hv as [Hk Hl].
    exists (k, e). rewrite elem_of_hash_iter. split; [done|]. unfold transfer_entry.
    rewrite live_expired in Hl. apply negb_true_iff in Hl. rewrite Hl.
    do 2 f_equal. destruct (expires_at e) as [t|] eqn:Ee; simpl; [|done].
    unfold expired in Hl. rewrite Ee in Hl. bool_facts.
    unfold saturating_duration_since. by rewrite Z.max_r by lia.
Qed.

Lemma transfer_NoDup `{HashIter} now st : NoDup (entries_for_transfer now st).*1.*1.
Proof.
  unfold entries_for_transfer. pose proof (hash_iter_NoDup_fst (data st)) as Hnd.
  induction (hash_iter (data st)) as [|[k e] l IH]; [constructor|].
  rewrite fmap_cons in Hnd. simpl in Hnd. apply NoDup_cons in Hnd as [Hnin Hnd].
  simpl. destruct (expired now e); simpl; [by apply IH|]. constructor; [|by apply IH].
  rewrite <- list_fmap_compose, list_elem_of_fmap. intros ([[k' v'] r'] & -> & Hin).
  apply Hnin. apply list_elem_of_omap in Hin as ([k2 e2] & Hin & Ht).
  unfold transfer_entry in Ht. destruct (expired now e2); [done|]. simplify_eq.
  apply list_elem_of_fmap. by exists (k', e2).
Qed.

Lemma set_from_transfer_other now k v rem st st' k' :
  set_from_transfer now k v rem st = Returns st' → k' ≠ k → data st' !! k' = data st !! k'.
Proof.
  intros Hs Hk. assert (∀ r, set now k v r st = Returns st' → data st' !! k' = data st !! k') as Hset.
  { intros r ->%set_Returns. simpl. by rewrite lookup_insert_ne. }
  unfold set_from_transfer in Hs. destruct rem as [[| |]|]; [congruence|..]; by eapply Hset.
Qed.
End lemmas.

(** ** Properties *)

Section properties.
Import CacheStore.

(** C22: the store implements the map of live entries: along any execution with
    non-decreasing times, in which no delete, TTL query or expire hits an
    expired key that has not been collected yet, it gives exactly the replies of
    the specification, and ends with exactly the specification's live entries.
    Lazy expiry on read and the sweeper are invisible. *)
Theorem store_refines_spec (tr : list (Z * op)) (t0 : Z) (st st' : CacheStore)
    (rs : list reply) :
  Sorted Z.le (t0 :: tr.*1) → trace_in_contract tr st →
  run_trace tr st = Returns (rs, st') →
  spec_trace tr (view t0 st) = (rs, view (last_time t0 tr) st').
Proof.
  revert t0 st rs. induction tr as [|[now o] tr IH]; intros t0 st rs Hs Hc Hrun; simpl in *.
  - by simplify_eq.
  - apply outcome_bind_Returns in Hrun as ([r st1] & Hop & Hrun).
    apply outcome_bind_Returns in Hrun as ([rs' st2] & Htr & [= <- <-]).
    inversion Hs as [|? ? Hs' Hh]; subst. inversion Hh; subst. destruct Hc as [Hc Hct].
    rewrite view_later by done.
    rewrite (run_op_refines _ _ _ _ _ Hc Hop).
    rewrite (IH now st1 rs' Hs' (Hct _ _ Hop) Htr). do 2 f_equal.
    unfold last_time. rewrite fmap_cons. by rewrite last_cons_default.
Qed.

(** Further: a value written is read back until its TTL runs out and never after,
    whether or not the entry has been collected; other keys are untouched. *)
Theorem set_get (now now' : Z) (key key' : string) (v : list ascii) (d : option Z)
    (st st' : CacheStore) :
  set now key v d st = Returns st' →
  (get now' key' st').1 =
    if decide (key' = key) then
      match d with
      | Some d => if now' <? now + d then Some v else None
      | None => Some v
      end
    else (get now' key' st).1.
Proof.
  intros ->%set_Returns. unfold get, get_lookup. simpl. case_decide as Hk.
  - subst. rewrite lookup_insert_eq. unfold expired. simpl.
    destruct d as [d|]; simpl; [|done].
    destruct (Z.leb_spec (now + d) now'), (Z.ltb_spec now' (now + d)); (done || lia).
  - rewrite lookup_insert_ne by done.
    destruct (data st !! key') as [e|]; [|done]. by destruct (expired now' e).
Qed.

(** Further: writing panics exactly when the expiry leaves the range of an [Instant],
    and then only for TTLs beyond every number of milliseconds a request can
    carry: the gRPC, PX and transfer paths cannot panic, EX and EXPIRE can. *)
Theorem set_panics_iff (now : Z) (key : string) (v : list ascii) (d : option Z) (st : CacheStore) :
  ((∃ msg, set now key v d st = Panics msg) ↔
   ∃ d', d = Some d' ∧ instant_limit ≤ now + d') ∧
  (∀ ms, is_u64 ms → is_instant now → now < from_secs (2 ^ 62) →
     ∃ st', set now key v (Some (from_millis ms)) st = Returns st') ∧
  (is_instant now → ∃ msg, set now key v (Some (from_secs u64_max)) st = Panics msg).
Proof.
  assert (∀ d, (∃ msg, set now key v (Some d) st = Panics msg) ↔ instant_limit ≤ now + d) as Hp.
  { intros d'. rewrite instant_add_panics. unfold set, expiry_of.
    destruct (instant_add now d'); simpl; naive_solver. }
  split; [|split].
  - destruct d as [d|]; [rewrite Hp; naive_solver|]. split; [|naive_solver].
    by intros [msg ?].
  - intros ms Hms Hn Hlt. unfold set, expiry_of.
    destruct (instant_add now (from_millis ms)) eqn:E; simpl; [by eauto| |].
    + assert (instant_limit ≤ now + from_millis ms) by (apply instant_add_panics; eauto).
      time_unfold. machine_unfold. lia.
    + unfold instant_add in E. by destruct (_ <? _).
  - intros Hn. apply Hp. time_unfold. machine_unfold. lia.
Qed.

(** Further: a transfer stream carries exactly the live entries, each key once, with
    the value and the remaining TTL truncated to milliseconds (and to 64 bits). *)
Theorem transfer_entries_exact `{HashIter} (now : Z) (st : CacheStore) :
  (∀ k v rem, (k, v, rem) ∈ entries_for_transfer now st ↔
     ∃ e, view now st !! k = Some e ∧ v = value e ∧
       rem = (λ t, as_u64 (as_millis (t - now))) <$> expires_at e) ∧
  NoDup (entries_for_transfer now st).*1.*1.
Proof.
  split; [intros k v rem; apply elem_of_transfer|apply transfer_NoDup].
Qed.

(** Further: an entry received in a transfer expires when it would have expired at
    its source, measured from the receipt and less than a millisecond early,
    never later; an entry with less than a millisecond left is dropped; an entry
    without TTL has none at the target; no other key changes. *)
Theorem transfer_preserves_ttl `{HashIter} (now now' : Z) (src dst dst' : CacheStore)
    (k : string) (v : list ascii) (rem : option Z) :
  (k, v, rem) ∈ entries_for_transfer now src →
  (∀ e t, data src !! k = Some e → expires_at e = Some t → as_millis (t - now) < u64_modulus) →
  set_from_transfer now' k v rem dst = Returns dst' →
  (∃ e, data src !! k = Some e ∧ value e = v ∧ live now e = true ∧
    match expires_at e with
    | None => data dst' !! k = Some (mkCacheEntry v None)
    | Some t =>
        if t - now <? nanos_per_milli then dst' = dst
        else ∃ t', data dst' !! k = Some (mkCacheEntry v (Some t')) ∧
               t - now - nanos_per_milli < t' - now' ≤ t - now
    end) ∧
  ∀ k', k' ≠ k → data dst' !! k' = data dst !! k'.
Proof.
  intros (e & He & -> & ->)%elem_of_transfer Hfit Hset.
  unfold view in He. apply lookup_purge in He as [He Hl].
  assert (∀ r, set now' k (value e) r dst = Returns dst' →
    data dst' !! k = Some (mkCacheEntry (value e) ((λ d, now' + d) <$> r)) ∧
    ∀ k', k' ≠ k → data dst' !! k' = data dst !! k') as Hins.
  { intros r ->%set_Returns. simpl. split; [apply lookup_insert_eq|].
    intros. by rewrite lookup_insert_ne. }
  destruct (expires_at e) as [t|] eqn:Et; simpl in Hset.
  - specialize (Hfit _ _ He Et). unfold live in Hl. rewrite Et in Hl. bool_facts.
    assert (0 ≤ as_millis (t - now)) as Hpos by (apply Z.div_pos; [lia|done]).
    rewrite as_u64_small in Hset by (machine_unfold; lia).
    pose proof (Z.mul_div_le (t - now) nanos_per_milli ltac:(done)) as Hle.
    pose proof (Z.mul_succ_div_gt (t - now) nanos_per_milli ltac:(done)) as Hgt.
    fold (as_millis (t - now)) in Hle, Hgt.
    destruct (Z.ltb_spec (t - now) nanos_per_milli) as [Hs|Hs].
    + assert (as_millis (t - now) = 0) as Hz by (apply Z.div_small; lia).
      rewrite Hz in Hset. simpl in Hset. injection Hset as <-.
      split; [|done]. exists e. rewrite Et. unfold live. rewrite Et.
      rewrite (proj2 (Z.ltb_lt _ _)) by lia.
      rewrite (proj2 (Z.ltb_lt _ nanos_per_milli)) by lia. done.
    + assert (1 ≤ as_millis (t - now)) as Hone by (unfold nanos_per_milli in *; lia).
      assert (set now' k (value e) (Some (from_millis (as_millis (t - now)))) dst
        = Returns dst') as Hset'.
      { revert Hset. unfold set_from_transfer. by destruct (as_millis (t - now)). }
      destruct (Hins _ Hset') as [Hk Ho]. split; [|done]. exists e. rewrite Et.
      unfold live. rewrite Et. rewrite (proj2 (Z.ltb_lt now t)) by lia.
      rewrite (proj2 (Z.ltb_ge _ nanos_per_milli)) by lia. repeat split; [done|].
      exists (now' + from_millis (as_millis (t - now))). split; [done|].
      unfold from_millis. lia.
  - destruct (Hins _ Hset) as [Hk Ho]. split; [|done]. exists e. rewrite Et.
    unfold live. by rewrite Et.
Qed.

(** Further: a sweep leaves exactly the live entries, so no reader at that time or
    later sees a difference, and [len] is then the number of entries held. *)
Theorem sweep_exact (now now' : Z) (k : string) (st : CacheStore) :
  now ≤ now' →
  data (sweep now st) = view now st ∧
  view now' (sweep now st) = view now' st ∧
  (get now' k (sweep now st)).1 = (get now' k st).1 ∧
  len now (sweep now st) = size (data (sweep now st)).
Proof.
  intros Hle. assert (view now' (sweep now st) = view now' st) as Hv.
  { unfold view. simpl. by apply purge_purge. }
  split; [done|]. split; [done|]. split.
  - rewrite (proj1 (get_view now' k (sweep now st))), (proj1 (get_view now' k st)). simpl.
    by rewrite Hv.
  - unfold len. simpl. f_equal. apply (purge_purge now now). lia.
Qed.

(** Further: EXPIRE on a key that has expired but has not been collected reports that
    the key exists and brings its old value back to life, although a read at the
    same moment says the key does not exist. *)
Theorem expire_resurrects (now t d : Z) (k : string) (v : list ascii) (st : CacheStore) :
  data st !! k = Some (mkCacheEntry v (Some t)) → t ≤ now → 0 < d →
  now + d < instant_limit →
  (get now k st).1 = None ∧
  ∃ st', expire now k d st = Returns (true, st') ∧ (get now k st').1 = Some v.
Proof.
  intros Hk Ht Hd Hlim. split.
  - unfold get, get_lookup. rewrite Hk. unfold expired. simpl.
    by rewrite (proj2 (Z.leb_le t now)).
  - unfold expire. rewrite Hk. rewrite (proj2 (instant_add_Returns now d _)) by done. simpl.
    eexists. split; [done|]. unfold get, get_lookup. simpl. rewrite lookup_insert_eq.
    unfold expired. simpl. by rewrite (proj2 (Z.leb_gt _ _)) by lia.
Qed.

(** Further: [get] is not atomic.  When another task writes the key between the
    lookup that finds the old entry expired and the removal, the removal takes
    the new entry: an acknowledged write is lost, although in either sequential
    order it would have survived. *)
Theorem get_loses_concurrent_write (now now' : Z) (k : string) (v : list ascii)
    (st st' : CacheStore) :
  get_lookup now k st = Expired → set now' k v None st = Returns st' →
  (get now' k (remove_key k st')).1 = None ∧
  (∃ st1, set now' k v None (get now k st).2 = Returns st1 ∧ (get now' k st1).1 = Some v) ∧
  (get now' k (get now k st').2).1 = Some v.
Proof.
  intros Hexp Hset. apply set_Returns in Hset as ->. split; [|split].
  - unfold get, get_lookup. simpl. by rewrite lookup_delete_eq.
  - eexists. split; [done|]. unfold get, get_lookup. simpl. by rewrite lookup_insert_eq.
  - unfold get, get_lookup. simpl. rewrite lookup_insert_eq. simpl. by rewrite lookup_insert_eq.
Qed.

(** Further: millisecond timestamps of the store's clock convert back to the instant
    they came from, rounded down to the millisecond. *)
Theorem epoch_ms_roundtrip (st : CacheStore) (t : Z) :
  epoch st ≤ t < instant_limit → t - epoch st < from_millis u64_max →
  ∃ t', epoch_ms_to_instant st (instant_to_epoch_ms st t) = Returns t' ∧
    t - nanos_per_milli < t' ≤ t.
Proof.
  intros [Hle Hlim] Hfit. unfold instant_to_epoch_ms, checked_duration_since, epoch_ms_to_instant.
  rewrite (proj2 (Z.leb_le _ _)) by done.
  pose proof (Z.mul_div_le (t - epoch st) nanos_per_milli ltac:(done)) as Hlo.
  pose proof (Z.mul_succ_div_gt (t - epoch st) nanos_per_milli ltac:(done)) as Hhi.
  fold (as_millis (t - epoch st)) in Hlo, Hhi.
  assert (0 ≤ as_millis (t - epoch st)) by (apply Z.div_pos; [lia|done]).
  rewrite as_u64_small by (unfold from_millis, is_u64, nanos_per_milli in *; lia).
  exists (epoch st + from_millis (as_millis (t - epoch st))).
  unfold from_millis. split; [apply instant_add_Returns|]; lia.
Qed.
End properties.

(** ** Witnesses *)

Section witnesses.
Import CacheStore.
#[local] Existing Instance Examples.sorted_iter.

Definition ex_bytes (s : string) : list ascii := as_bytes s.
Definition ex_trace : list (Z * op) :=
  [(1, OSet "a" (ex_bytes "x") (Some 5)); (3, OGet "a"); (3, OTtl "a"); (7, OGet "a");
   (8, OSet "b" (ex_bytes "y") None); (9, OSweep); (9, OLen); (10, ODelete "b")].
Definition ex_entry : CacheEntry := mkCacheEntry (ex_bytes "x") (Some 5).
Definition ex_store : CacheStore := mkCacheStore {[ "a" := ex_entry ]} 0.

Lemma store_refines_spec_witness : ∃ st',
  run_trace ex_trace (new 0) =
    Returns ([RUnit; RValue (Some (ex_bytes "x")); RTtl (Some 3); RValue None; RUnit; RUnit;
              RLen 1; RBool true], st') ∧
  spec_trace ex_trace ∅ =
    ([RUnit; RValue (Some (ex_bytes "x")); RTtl (Some 3); RValue None; RUnit; RUnit;
      RLen 1; RBool true], view 10 st').
Proof.
  eexists. split; [vm_compute; reflexivity|].
  apply (store_refines_spec ex_trace 0 (new 0)).
  - repeat constructor; discriminate.
  - repeat match goal with |- trace_in_contract _ _ => split; [|intros ? ? Hr; vm_compute in Hr; injection Hr as <- <-] end;
      try exact I; intros e He; vm_compute in He; try discriminate; injection He as <-; reflexivity.
  - vm_compute. reflexivity.
Defined.

Definition returned (o : outcome CacheStore) : CacheStore :=
  match o with Returns st => st | _ => ex_store end.

Lemma set_get_witness :
  (get 4 "b" (returned (set 1 "b" (ex_bytes "y") (Some 4) ex_store))).1 = Some (ex_bytes "y").
Proof.
  rewrite (set_get 1 4 "b" "b" (ex_bytes "y") (Some 4) ex_store); reflexivity.
Defined.

Lemma set_panics_iff_witness : ∃ msg,
  set 0 "b" [] (Some (from_secs u64_max)) ex_store = Panics msg.
Proof.
  apply (proj2 (proj2 (set_panics_iff 0 "b" [] None ex_store))). split; [discriminate|reflexivity].
Defined.

Definition ex_src : CacheStore :=
  mkCacheStore {[ "a" := mkCacheEntry (ex_bytes "x") (Some 2000000507) ]} 0.

Lemma transfer_preserves_ttl_witness :
  ∃ t', data (returned (set_from_transfer 100 "a" (ex_bytes "x") (Some 2000) (new 100)))
          !! "a"%string = Some (mkCacheEntry (ex_bytes "x") (Some t')) ∧
    2000000500 - nanos_per_milli < t' - 100 ≤ 2000000500.
Proof.
  destruct (transfer_preserves_ttl 7 100 ex_src (new 100)
    (returned (set_from_transfer 100 "a" (ex_bytes "x") (Some 2000) (new 100)))
    "a" (ex_bytes "x") (Some 2000)) as [(e & He & _ & _ & Hm) _].
  - vm_compute. left.
  - intros e t He Ht. vm_compute in He. injection He as <-. injection Ht as <-. reflexivity.
  - vm_compute. reflexivity.
  - vm_compute in He. injection He as <-. exact Hm.
Defined.

Lemma sweep_exact_witness : data (sweep 6 ex_store) = view 6 ex_store ∧ len 6 (sweep 6 ex_store) = 0%nat.
Proof.
  destruct (sweep_exact 6 6 "a" ex_store) as (H1 & _ & _ & H2); [lia|].
  split; [exact H1|]. rewrite H2. vm_compute. reflexivity.
Defined.

Lemma expire_resurrects_witness : ∃ st',
  (get 9 "a" ex_store).1 = None ∧
  expire 9 "a" 60 ex_store = Returns (true, st') ∧ (get 9 "a" st').1 = Some (ex_bytes "x").
Proof.
  destruct (expire_resurrects 9 5 60 "a" (ex_bytes "x") ex_store) as (H1 & st' & H2 & H3);
    [reflexivity|lia|lia|reflexivity|].
  exists st'. split; [exact H1|]. split; [exact H2|exact H3].
Defined.

Lemma get_loses_concurrent_write_witness :
  (get 7 "a" (remove_key "a" (returned (set 7 "a" (ex_bytes "z") None ex_store)))).1 = None.
Proof.
  apply (get_loses_concurrent_write 6 7 "a" (ex_bytes "z") ex_store); reflexivity.
Defined.

Lemma epoch_ms_roundtrip_witness : ∃ t',
  epoch_ms_to_instant ex_store (instant_to_epoch_ms ex_store 12345678) = Returns t' ∧
  12345678 - nanos_per_milli < t' ≤ 12345678.
Proof. apply (epoch_ms_roundtrip ex_store 12345678); [split; [discriminate|reflexivity]|reflexivity]. Defined.
End witnesses.
