(* ===== verification/Membership.v ===== *)
(** * The membership table

    Models [crates/node/src/gossip/state.rs]: [MemberStatus], [MemberEntry] and
    [MembershipTable] with all its operations.  The [RwLock] makes each operation
    atomic (no writer panics, so the lock is never poisoned and [unwrap] on it
    succeeds); a call of [Instant::now] is an argument.

    What the table knows of a member is its [version], the pair of incarnation
    and status; versions are totally ordered, first by incarnation, then by the
    precedence Joining < Alive < Suspect < Dead.  The specification of [merge] is
    the maximum in this order. *)

From S2P Require Import Prelude Machine Text Common.
Local Open Scope Z_scope.

Module MembershipTable.

Inductive MemberStatus := Alive | Suspect | Dead | Joining.
#[export] Instance MemberStatus_eq_dec : EqDecision MemberStatus.
Proof. solve_decision. Defined.

(** [Display for MemberStatus] *)
Definition MemberStatus_to_string (s : MemberStatus) : string :=
  match s with
  | Alive => "Alive" | Suspect => "Suspect" | Dead => "Dead" | Joining => "Joining"
  end.

Section table.
Context `{UuidLib}.

Record MemberEntry := mkMemberEntry {
  info : NodeInfo;
  status : MemberStatus;
  incarnation : Z;
  last_seen : Z;
}.

Record MembershipTable := mkMembershipTable {
  members : gmap NodeId MemberEntry;
  local_id : NodeId;
}.

Definition with_members (self : MembershipTable) (m : gmap NodeId MemberEntry) :=
  mkMembershipTable m (local_id self).

Definition self_info_of (local_id : NodeId) (seed_nodes : list NodeInfo) : NodeInfo :=
  match List.find (λ n, bool_decide (id n = local_id)) seed_nodes with
  | Some n => n
  | None => mkNodeInfo local_id ""
  end.

Definition add_seed (now : Instant) (local_id : NodeId) (m : gmap NodeId MemberEntry)
    (node : NodeInfo) : gmap NodeId MemberEntry :=
  if decide (id node = local_id) then m
  else <[id node := mkMemberEntry node Alive 0 now]> m.

Definition new (now : Instant) (local_id : NodeId) (seed_nodes : list NodeInfo)
    : MembershipTable :=
  let is_joining := negb (bool_decide (seed_nodes = [])) in
  let self_entry := mkMemberEntry (self_info_of local_id seed_nodes)
                      (if is_joining then Joining else Alive) 0 now in
  mkMembershipTable
    (foldl (add_seed now local_id) {[ local_id := self_entry ]} seed_nodes) local_id.

Definition alive_peers `{HashIter} (self : MembershipTable) : list MemberEntry :=
  (List.filter (λ kv, bool_decide (kv.1 ≠ local_id self) &&
     (bool_decide (status kv.2 = Alive) || bool_decide (status kv.2 = Joining)))
     (hash_iter (members self))).*2.

Definition routable_peers `{HashIter} (self : MembershipTable) : list MemberEntry :=
  (List.filter (λ kv, bool_decide (kv.1 ≠ local_id self) && bool_decide (status kv.2 = Alive))
     (hash_iter (members self))).*2.

Definition all_members `{HashIter} (self : MembershipTable) : list MemberEntry :=
  (hash_iter (members self)).*2.

Definition set_entry (self : MembershipTable) (node_id : NodeId) (e : MemberEntry) :=
  with_members self (<[node_id := e]> (members self)).

Definition mark_suspect (node_id : NodeId) (self : MembershipTable) : bool * MembershipTable :=
  match members self !! node_id with
  | Some e =>
      if decide (status e = Alive) then
        (true, set_entry self node_id (mkMemberEntry (info e) Suspect (incarnation e) (last_seen e)))
      else (false, self)
  | None => (false, self)
  end.

Definition mark_dead (node_id : NodeId) (self : MembershipTable) : bool * MembershipTable :=
  match members self !! node_id with
  | Some e =>
      if decide (status e = Alive ∨ status e = Suspect) then
        (true, set_entry self node_id (mkMemberEntry (info e) Dead (incarnation e) (last_seen e)))
      else (false, self)
  | None => (false, self)
  end.

Definition mark_alive (node_id : NodeId) (inc : Z) (self : MembershipTable)
    : bool * MembershipTable :=
  match members self !! node_id with
  | Some e =>
      if decide (incarnation e ≤ inc ∧ status e = Suspect) then
        (true, set_entry self node_id (mkMemberEntry (info e) Alive inc (last_seen e)))
      else (false, self)
  | None => (false, self)
  end.

Definition touch (now : Instant) (node_id : NodeId) (self : MembershipTable) : MembershipTable :=
  match members self !! node_id with
  | Some e => set_entry self node_id (mkMemberEntry (info e) (status e) (incarnation e) now)
  | None => self
  end.

Definition dead_nodes `{HashIter} (self : MembershipTable) : list NodeId :=
  (List.filter (λ kv, bool_decide (status kv.2 = Dead)) (hash_iter (members self))).*1.

Definition is_alive (node_id : NodeId) (self : MembershipTable) : bool :=
  match members self !! node_id with
  | Some e => bool_decide (status e = Alive)
  | None => false
  end.

Definition local_incarnation (self : MembershipTable) : Z :=
  match members self !! local_id self with Some e => incarnation e | None => 0 end.

Definition local_addr (self : MembershipTable) : string :=
  match members self !! local_id self with Some e => addr (info e) | None => "" end.

Definition mark_self_alive (self : MembershipTable) : MembershipTable :=
  match members self !! local_id self with
  | Some e => set_entry self (local_id self)
      (mkMemberEntry (info e) Alive (u64_add (incarnation e) 1) (last_seen e))
  | None => self
  end.

Definition is_self_joining (self : MembershipTable) : bool :=
  match members self !! local_id self with
  | Some e => bool_decide (status e = Joining)
  | None => false
  end.

(** The precedence table of [merge], as written. *)
Definition should_update (local_status remote_status : MemberStatus) : bool :=
  match local_status, remote_status with
  | Alive, Dead => true
  | Suspect, Dead => true
  | Joining, Dead => true
  | Alive, Suspect => true
  | Joining, Suspect => true
  | Joining, Alive => true
  | _, _ => false
  end.

(** A remote entry: node, address, status, incarnation. *)
Definition RemoteEntry : Type := NodeId * string * MemberStatus * Z.

(** One iteration of the loop of [merge]. *)
Definition merge_entry (now : Instant) (self : MembershipTable) (r : RemoteEntry)
    : MembershipTable :=
  let '(node_id, addr, remote_status, remote_incarnation) := r in
  if decide (node_id = local_id self) then
    if decide (remote_status = Suspect ∨ remote_status = Dead) then
      match members self !! local_id self with
      | Some l =>
          if decide (incarnation l ≤ remote_incarnation) then
            set_entry self (local_id self)
              (mkMemberEntry (info l) Alive (u64_add remote_incarnation 1) (last_seen l))
          else self
      | None => self
      end
    else self
  else
    let fresh := mkMemberEntry (mkNodeInfo node_id addr) remote_status remote_incarnation now in
    match members self !! node_id with
    | Some l =>
        if decide (incarnation l < remote_incarnation) then set_entry self node_id fresh
        else if decide (remote_incarnation = incarnation l) then
          if should_update (status l) remote_status then set_entry self node_id fresh else self
        else self
    | None => set_entry self node_id fresh
    end.

(** [merge]: the [i]-th entry is merged when the clock reads [clock i]. *)
Fixpoint merge_from (clock : nat → Instant) (i : nat) (remote_entries : list RemoteEntry)
    (self : MembershipTable) : MembershipTable :=
  match remote_entries with
  | [] => self
  | r :: rs => merge_from clock (S i) rs (merge_entry (clock i) self r)
  end.
Definition merge (clock : nat → Instant) (remote_entries : list RemoteEntry)
    (self : MembershipTable) : MembershipTable := merge_from clock 0 remote_entries self.

(** ** Versions *)

Definition rank (s : MemberStatus) : Z :=
  match s with Joining => 0 | Alive => 1 | Suspect => 2 | Dead => 3 end.

Definition Version : Type := Z * MemberStatus.

Definition newer (a b : Version) : Prop := a.1 < b.1 ∨ (a.1 = b.1 ∧ rank a.2 < rank b.2).
#[export] Instance newer_dec a b : Decision (newer a b).
Proof. unfold newer. apply _. Defined.

(** The newer of two versions; [None] is "unknown". *)
Definition vmax (a b : Version) : Version := if decide (newer a b) then b else a.
Definition vjoin (o : option Version) (v : Version) : option Version :=
  Some (match o with Some u => vmax u v | None => v end).
Definition vle (o1 o2 : option Version) : Prop :=
  match o1, o2 with
  | None, _ => True
  | Some _, None => False
  | Some a, Some b => a = b ∨ newer a b
  end.

Definition version (self : MembershipTable) (i : NodeId) : option Version :=
  (λ e, (incarnation e, status e)) <$> members self !! i.

Definition entry_id (r : RemoteEntry) : NodeId := r.1.1.1.
Definition entry_version (r : RemoteEntry) : Version := (r.2, r.1.2).

(** The remote versions of one node, and the suspicions of it. *)
Definition versions_of (i : NodeId) (rs : list RemoteEntry) : list Version :=
  entry_version <$> List.filter (λ r, bool_decide (entry_id r = i)) rs.
Definition suspicions (i : NodeId) (rs : list RemoteEntry) : list Z :=
  fst <$> List.filter (λ v, bool_decide (v.2 = Suspect ∨ v.2 = Dead)) (versions_of i rs).

(** ** Well-formed tables

    The node knows itself, as Alive or Joining; an entry is stored under its own
    identifier; incarnations are [u64]. *)
Record wf (self : MembershipTable) : Prop := {
  wf_self : ∃ e, members self !! local_id self = Some e ∧
    (status e = Alive ∨ status e = Joining);
  wf_entry : ∀ i e, members self !! i = Some e → id (info e) = i ∧ is_u64 (incarnation e);
}.

Definition entries_u64 (rs : list RemoteEntry) : Prop := ∀ r, r ∈ rs → is_u64 (entry_version r).1.

(** What a running node does to its table; it never marks itself. *)
Inductive table_step (t : MembershipTable) : MembershipTable → Prop :=
  | step_merge clock rs : entries_u64 rs →
      table_step t (merge clock rs t)
  | step_touch now i : table_step t (touch now i t)
  | step_mark_suspect i : i ≠ local_id t → table_step t (mark_suspect i t).2
  | step_mark_dead i : i ≠ local_id t → table_step t (mark_dead i t).2
  | step_mark_self_alive : table_step t (mark_self_alive t).

End table.
End MembershipTable.

Arguments MembershipTable.vle !_ !_ /.
Arguments MembershipTable.vjoin !_ _ /.

(** ** Lemmas on versions *)

Section versions.
Import MembershipTable.

Lemma should_update_rank l r : should_update l r = bool_decide (rank l < rank r).
Proof. by destruct l, r. Qed.

Lemma rank_inj a b : rank a = rank b → a = b.
Proof. by destruct a, b. Qed.

Lemma newer_irrefl a : ¬ newer a a.
Proof. unfold newer. lia. Qed.

Lemma newer_trans a b c : newer a b → newer b c → newer a c.
Proof. unfold newer. lia. Qed.

Lemma newer_total a b : newer a b ∨ a = b ∨ newer b a.
Proof.
  destruct a as [i s], b as [j t]. unfold newer. simpl.
  destruct (Z.lt_trichotomy i j) as [?|[->|?]]; [tauto| |tauto].
  destruct (Z.lt_trichotomy (rank s) (rank t)) as [?|[->%rank_inj|?]]; tauto.
Qed.

#[export] Instance vle_preorder : PreOrder vle.
Proof.
  split.
  - intros [a|]; simpl; auto.
  - intros [a|] [b|] [c|]; simpl; try tauto.
    intros [->|?] [->|?]; eauto using newer_trans.
Qed.

Lemma vle_antisym a b : vle a b → vle b a → a = b.
Proof.
  destruct a as [a|], b as [b|]; simpl; try tauto.
  intros [?|Hab] [?|Hba]; try congruence.
  exfalso. apply (newer_irrefl a). by eapply newer_trans.
Qed.

Lemma vjoin_ub o v : vle o (vjoin o v) ∧ vle (Some v) (vjoin o v).
Proof.
  destruct o as [u|]; simpl; [|auto]. unfold vmax. case_decide as Hn; [auto|].
  destruct (newer_total u v) as [?|[->|?]]; auto; done.
Qed.

Lemma vjoin_cases o v : vjoin o v = o ∨ vjoin o v = Some v.
Proof. destruct o as [u|]; simpl; [|auto]. unfold vjoin, vmax. case_decide; auto. Qed.

Lemma foldl_vjoin_ub vs : ∀ o,
  vle o (foldl vjoin o vs) ∧ ∀ v, v ∈ vs → vle (Some v) (foldl vjoin o vs).
Proof.
  induction vs as [|w vs IH]; intros o; simpl; [split; [done|by intros ? ?%elem_of_nil]|].
  destruct (IH (vjoin o w)) as [Ho Hvs]. destruct (vjoin_ub o w) as [Hl Hr]. split.
  - by etrans.
  - intros v [->|Hin]%elem_of_cons; [by etrans|by apply Hvs].
Qed.

Lemma foldl_vjoin_cases vs : ∀ o,
  foldl vjoin o vs = o ∨ ∃ v, v ∈ vs ∧ foldl vjoin o vs = Some v.
Proof.
  induction vs as [|w vs IH]; intros o; simpl; [by left|].
  destruct (IH (vjoin o w)) as [->|(v & ? & ->)].
  - destruct (vjoin_cases o w) as [->| ->]; [by left|right; exists w; split; [by left|done]].
  - right. exists v. split; [by right|done].
Qed.

(** The maximum depends on the set of versions only. *)
Lemma foldl_vjoin_ext o vs vs' :
  (∀ v, v ∈ vs ↔ v ∈ vs') → foldl vjoin o vs = foldl vjoin o vs'.
Proof.
  intros Hext. assert (∀ vs vs', (∀ v, v ∈ vs → v ∈ vs') →
    vle (foldl vjoin o vs) (foldl vjoin o vs')) as Hle.
  { intros ws ws' Hsub. destruct (foldl_vjoin_cases ws o) as [->|(v & Hv & ->)].
    - apply foldl_vjoin_ub.
    - apply foldl_vjoin_ub. by apply Hsub. }
  apply vle_antisym; apply Hle; naive_solver.
Qed.

Lemma foldl_vjoin_app o vs ws :
  foldl vjoin o (vs ++ ws) = foldl vjoin (foldl vjoin o vs) ws.
Proof. apply foldl_app. Qed.
End versions.

(** ** Lemmas on the operations *)

Section lemmas.
Context `{UuidLib}.
Import MembershipTable.
Implicit Types (t : MembershipTable) (i : NodeId).

Lemma version_set_entry t i e j :
  version (set_entry t i e) j =
  if decide (j = i) then Some (incarnation e, status e) else version t j.
Proof.
  unfold version, set_entry. simpl. case_decide as Hj.
  - subst. by rewrite lookup_insert_eq.
  - by rewrite lookup_insert_ne.
Qed.

Lemma merge_entry_local_id now t r : local_id (merge_entry now t r) = local_id t.
Proof.
  destruct r as [[[i a] s] n]. unfold merge_entry.
  repeat (case_decide || case_match); done.
Qed.

Lemma merge_from_local_id clock rs : ∀ k t, local_id (merge_from clock k rs t) = local_id t.
Proof.
  induction rs as [|r rs IH]; intros k t; simpl; [done|]. by rewrite IH, merge_entry_local_id.
Qed.

(** Merging an entry about another node takes the maximum of the versions; an
    entry about somebody else, or about the node itself, changes nothing. *)
Lemma merge_entry_version now t r i : i ≠ local_id t →
  version (merge_entry now t r) i =
  if decide (entry_id r = i) then vjoin (version t i) (entry_version r) else version t i.
Proof.
  intros Hi. destruct r as [[[j a] s] n]. unfold merge_entry, entry_id, entry_version. simpl.
  destruct (decide (j = local_id t)) as [->|Hj].
  { rewrite (decide_False (P := local_id t = i)) by done.
    repeat (case_decide || case_match); try done;
      by rewrite version_set_entry, decide_False. }
  assert (∀ u, version (set_entry t j (mkMemberEntry (mkNodeInfo j a) s n u)) i =
    if decide (j = i) then Some (n, s) else version t i) as Hset.
  { intros u. rewrite version_set_entry. repeat case_decide; simplify_eq; done. }
  destruct (members t !! j) as [l|] eqn:El.
  - assert (j = i → version t i = Some (incarnation l, status l)) as Hv.
    { intros <-. unfold version. by rewrite El. }
    destruct (decide (incarnation l < n)) as [Hlt|Hlt];
      [|destruct (decide (n = incarnation l)) as [->|Hne];
        [rewrite should_update_rank; case_bool_decide|]];
      rewrite ?Hset; destruct (decide (j = i)) as [Hji|]; try done;
      rewrite Hv by done; simpl; unfold vmax, newer; simpl;
      destruct (decide _); simpl in *; try done; lia.
  - rewrite Hset. case_decide; [|done]. subst. unfold version. by rewrite El.
Qed.

Lemma versions_of_cons i r rs :
  versions_of i (r :: rs) =
  if decide (entry_id r = i) then entry_version r :: versions_of i rs else versions_of i rs.
Proof. unfold versions_of. simpl. by case_bool_decide; case_decide. Qed.

Lemma elem_of_versions_of i rs v :
  v ∈ versions_of i rs ↔ ∃ r, r ∈ rs ∧ entry_id r = i ∧ v = entry_version r.
Proof.
  unfold versions_of. rewrite list_elem_of_fmap. setoid_rewrite elem_of_filterb.
  setoid_rewrite bool_decide_eq_true. naive_solver.
Qed.

Lemma merge_from_version clock rs : ∀ k t i, i ≠ local_id t →
  version (merge_from clock k rs t) i = foldl vjoin (version t i) (versions_of i rs).
Proof.
  induction rs as [|r rs IH]; intros k t i Hi; simpl; [done|].
  rewrite IH by by rewrite merge_entry_local_id.
  rewrite merge_entry_version, versions_of_cons by done. by case_decide.
Qed.

(** What the entries about the node itself do to its own entry. *)
Definition refute (e : MemberEntry) (s : Z) : MemberEntry :=
  if decide (incarnation e ≤ s)
  then mkMemberEntry (info e) Alive (u64_add s 1) (last_seen e) else e.

Lemma suspicions_cons i r rs :
  suspicions i (r :: rs) =
  if decide (entry_id r = i ∧ (r.1.2 = Suspect ∨ r.1.2 = Dead))
  then r.2 :: suspicions i rs else suspicions i rs.
Proof.
  unfold suspicions. rewrite versions_of_cons.
  destruct (decide (entry_id r = i)); simpl; case_decide; try tauto;
    unfold entry_version; simpl; case_bool_decide; simpl; tauto.
Qed.

Lemma merge_from_self clock rs : ∀ k t e, members t !! local_id t = Some e →
  members (merge_from clock k rs t) !! local_id t =
  Some (foldl refute e (suspicions (local_id t) rs)).
Proof.
  induction rs as [|r rs IH]; intros k t e He; simpl; [done|].
  rewrite suspicions_cons.
  assert (members (merge_entry (clock k) t r) !! local_id t =
    Some (if decide (entry_id r = local_id t ∧ (r.1.2 = Suspect ∨ r.1.2 = Dead))
          then refute e r.2 else e)) as Hstep.
  { destruct r as [[[j a] s] n]. unfold merge_entry, entry_id, refute. simpl. rewrite He.
    destruct (decide (j = local_id t)) as [->|Hj].
    - destruct (decide (s = Suspect ∨ s = Dead)).
      + rewrite (decide_True (P := _ ∧ _)) by tauto.
        destruct (decide (incarnation e ≤ n)); simpl; [by rewrite lookup_insert_eq|done].
      + rewrite (decide_False (P := _ ∧ _)) by tauto. done.
    - rewrite (decide_False (P := j = local_id t ∧ _)) by tauto.
      destruct (members t !! j); repeat (case_decide || case_match); simpl;
        rewrite ?lookup_insert_ne by done; done. }
  pose proof (IH (S k) (merge_entry (clock k) t r)) as IH'. rewrite merge_entry_local_id in IH'.
  rewrite (IH' _ Hstep). by case_decide.
Qed.

(** *** Well-formedness *)

Lemma set_entry_wf t i e : wf t → id (info e) = i → is_u64 (incarnation e) →
  (i = local_id t → status e = Alive ∨ status e = Joining) → wf (set_entry t i e).
Proof.
  intros [(e0 & He0 & Hs0) Hentry] Hid Hinc Hself. split; simpl.
  - destruct (decide (i = local_id t)) as [->|Hne].
    + exists e. rewrite lookup_insert_eq. auto.
    + exists e0. by rewrite lookup_insert_ne.
  - intros j e'. rewrite lookup_insert_Some. intros [[<- <-]|[_ ?]]; [done|by apply Hentry].
Qed.

Lemma merge_entry_wf now t r : wf t → is_u64 (entry_version r).1 → wf (merge_entry now t r).
Proof.
  intros Hwf Hr. destruct r as [[[i a] s] n]. unfold entry_version in Hr. simpl in Hr.
  unfold merge_entry. destruct (decide (i = local_id t)) as [->|Hi].
  - case_decide; [|done]. destruct (members t !! local_id t) as [l|] eqn:E; [|done].
    case_decide; [|done]. apply set_entry_wf; simpl; auto with machine.
    by eapply wf_entry.
  - destruct (members t !! i) as [l|] eqn:E; repeat (case_decide || case_match); try done;
      apply set_entry_wf; simpl; done.
Qed.

Lemma merge_wf clock rs t : wf t → entries_u64 rs → wf (merge clock rs t).
Proof.
  unfold merge, entries_u64. generalize 0%nat as k. revert t.
  induction rs as [|r rs IH]; intros t k Hwf Hrs; simpl; [done|].
  apply IH; [|intros; apply Hrs; by right]. apply merge_entry_wf; [done|]. apply Hrs. by left.
Qed.

Lemma touch_wf now i t : wf t → wf (touch now i t).
Proof.
  intros Hwf. unfold touch. destruct (members t !! i) as [e|] eqn:E; [|done].
  destruct (wf_entry _ Hwf _ _ E). apply set_entry_wf; simpl; auto.
  intros ->. destruct (wf_self _ Hwf) as (? & ? & ?). by simplify_eq.
Qed.

Lemma mark_suspect_wf i t : wf t → i ≠ local_id t → wf (mark_suspect i t).2.
Proof.
  intros Hwf Hi. unfold mark_suspect. destruct (members t !! i) as [e|] eqn:E; [|done].
  destruct (wf_entry _ Hwf _ _ E). case_decide; [|done]. by apply set_entry_wf.
Qed.

Lemma mark_dead_wf i t : wf t → i ≠ local_id t → wf (mark_dead i t).2.
Proof.
  intros Hwf Hi. unfold mark_dead. destruct (members t !! i) as [e|] eqn:E; [|done].
  destruct (wf_entry _ Hwf _ _ E). case_decide; [|done]. by apply set_entry_wf.
Qed.

Lemma mark_self_alive_wf t : wf t → wf (mark_self_alive t).
Proof.
  intros Hwf. unfold mark_self_alive.
  destruct (members t !! local_id t) as [e|] eqn:E; [|done].
  destruct (wf_entry _ Hwf _ _ E). apply set_entry_wf; simpl; auto with machine.
Qed.

Lemma table_step_wf t t' : wf t → table_step t t' → wf t'.
Proof.
  intros Hwf Hs. destruct Hs;
    auto using merge_wf, touch_wf, mark_suspect_wf, mark_dead_wf, mark_self_alive_wf.
Qed.

Lemma table_step_local_id t t' : table_step t t' → local_id t' = local_id t.
Proof.
  intros Hs. destruct Hs; unfold touch, mark_suspect, mark_dead, mark_self_alive;
    [apply merge_from_local_id|..]; repeat (case_decide || case_match); done.
Qed.

Lemma self_info_of_id i seeds : id (self_info_of i seeds) = i.
Proof.
  unfold self_info_of. destruct (List.find _ seeds) as [n|] eqn:E; [|done].
  apply find_Some_iff_first in E as (? & ? & _ & Hp & _). by bool_facts.
Qed.

Lemma new_lookup now i seeds j e : members (new now i seeds) !! j = Some e →
  (j = i ∧ e = mkMemberEntry (self_info_of i seeds)
     (if decide (seeds = []) then Alive else Joining) 0 now) ∨
  (j ≠ i ∧ ∃ n, n ∈ seeds ∧ id n = j ∧ e = mkMemberEntry n Alive 0 now).
Proof.
  unfold new. cbn [members].
  set (e0 := mkMemberEntry (self_info_of i seeds) _ 0 now).
  replace (if decide (seeds = []) then Alive else Joining) with (status e0)
    by (unfold e0; simpl; case_bool_decide; case_decide; done).
  change (mkMemberEntry (self_info_of i seeds) (status e0) 0 now) with e0.
  clearbody e0.
  induction seeds as [|n seeds IH] using rev_ind; simpl.
  - intros [<- <-]%lookup_singleton_Some. by left.
  - rewrite foldl_app. simpl. unfold add_seed at 1. case_decide as Hn.
    + intros [?|(? & m & ? & ?)]%IH; [by left|right]. split; [done|]. exists m. set_solver.
    + rewrite lookup_insert_Some. intros [[<- <-]|[? Hl]].
      * right. split; [done|]. exists n. set_solver.
      * apply IH in Hl as [?|(? & m & ? & ?)]; [by left|right]. split; [done|].
        exists m. set_solver.
Qed.

Lemma new_lookup_is_Some now i seeds j :
  (j = i ∨ ∃ n, n ∈ seeds ∧ id n = j) → is_Some (members (new now i seeds) !! j).
Proof.
  unfold new. cbn [members].
  set (e0 := mkMemberEntry (self_info_of i seeds) _ 0 now). clearbody e0.
  induction seeds as [|n seeds IH] using rev_ind; simpl.
  - intros [->|(n & Hn & _)]; [rewrite lookup_singleton_eq; eauto|]. by apply elem_of_nil in Hn.
  - rewrite foldl_app. simpl. unfold add_seed at 1. intros Hj.
    destruct (decide (id n = j)) as [Hnj|Hnj].
    + case_decide; [apply IH; left; congruence|]. subst. rewrite lookup_insert_eq. eauto.
    + assert (is_Some (foldl (add_seed now i) {[i := e0]} seeds !! j)) as Hs.
      { apply IH. destruct Hj as [?|(m & [?|Hm]%elem_of_app & ?)]; [by left|right; by exists m|].
        apply list_elem_of_singleton in Hm as ->. done. }
      case_decide; [done|]. by rewrite lookup_insert_ne.
Qed.

Lemma new_self now i seeds :
  members (new now i seeds) !! i = Some (mkMemberEntry (self_info_of i seeds)
    (if decide (seeds = []) then Alive else Joining) 0 now).
Proof.
  destruct (new_lookup_is_Some now i seeds i) as [e He]; [by left|].
  apply new_lookup in He as Hn. destruct Hn as [[_ ->]|[? _]]; done.
Qed.

Lemma table_new_wf now i seeds : wf (new now i seeds).
Proof.
  split.
  - eexists. split; [apply new_self|]. simpl. case_decide; auto.
  - intros j e [[-> ->]|(_ & n & _ & <- & ->)]%new_lookup; simpl; (split; [|done]).
    + apply self_info_of_id.
    + done.
Qed.

(** *** Versions along the steps *)

Lemma merge_local_id clock rs t : local_id (merge clock rs t) = local_id t.
Proof. apply merge_from_local_id. Qed.

Lemma merge_version clock rs t i : i ≠ local_id t →
  version (merge clock rs t) i = foldl vjoin (version t i) (versions_of i rs).
Proof. apply merge_from_version. Qed.

Lemma set_entry_vle t i e j :
  (∀ e0, members t !! i = Some e0 →
     incarnation e = incarnation e0 ∧ rank (status e0) ≤ rank (status e)) →
  vle (version t j) (version (set_entry t i e) j).
Proof.
  intros Hle. rewrite version_set_entry. case_decide as Hj; [|done]. subst.
  unfold version. destruct (members t !! i) as [e0|]; simpl; [|done].
  destruct (Hle e0 eq_refl) as [-> Hr].
  destruct (decide (rank (status e0) = rank (status e))) as [->%rank_inj|]; [by left|].
  right. right. simpl. lia.
Qed.

Lemma table_step_vle t t' i : table_step t t' → i ≠ local_id t →
  vle (version t i) (version t' i).
Proof.
  intros Hs Hi. destruct Hs as [clock rs Hrs|now j|j Hj|j Hj|].
  - rewrite merge_version by done. apply foldl_vjoin_ub.
  - unfold touch. destruct (members t !! j) as [e|] eqn:E; [|done].
    apply set_entry_vle. intros. simplify_eq. simpl. lia.
  - unfold mark_suspect. destruct (members t !! j) as [e|] eqn:E; [|done].
    case_decide as Ha; [|done]. apply set_entry_vle. intros. simplify_eq. simpl. rewrite Ha. done.
  - unfold mark_dead. destruct (members t !! j) as [e|] eqn:E; [|done].
    case_decide as Ha; [|done]. apply set_entry_vle. intros. simplify_eq. simpl.
    by destruct Ha as [-> | ->].
  - unfold mark_self_alive. destruct (members t !! local_id t) as [e|]; [|done].
    by rewrite version_set_entry, decide_False.
Qed.

(** *** Executions *)

Lemma table_steps_wf t t' : rtc table_step t t' → wf t → wf t' ∧ local_id t' = local_id t.
Proof.
  intros Hr Hwf. apply (rtc_invariant table_step (λ u, wf u ∧ local_id u = local_id t)) in Hr; auto.
  intros s s' [Hs <-] Hst. split; [by eapply table_step_wf|by apply table_step_local_id].
Qed.

Lemma table_steps_vle t t' i : rtc table_step t t' → i ≠ local_id t →
  vle (version t i) (version t' i).
Proof.
  intros Hr Hi. apply (rtc_preorder table_step (λ t1, i ≠ local_id t1)
      (λ t1 t2, vle (version t1 i) (version t2 i))) in Hr; auto.
  - split; [intros ?; reflexivity|intros ? ? ?; apply transitivity].
  - intros t1 t2 Hne Hs. by rewrite (table_step_local_id _ _ Hs).
  - intros t1 t2 Hne Hs. by apply table_step_vle.
Qed.
(** *** Refutation *)

Lemma foldl_refute ss : ∀ e, is_u64 (incarnation e) → (∀ s, s ∈ ss → 0 ≤ s < u64_max) →
  let e' := foldl refute e ss in
  info e' = info e ∧ last_seen e' = last_seen e ∧
  incarnation e ≤ incarnation e' ∧ (∀ s, s ∈ ss → s < incarnation e') ∧
  (incarnation e' = incarnation e ∧ e' = e ∨
   ∃ s, s ∈ ss ∧ incarnation e ≤ s ∧ incarnation e' = s + 1 ∧ status e' = Alive).
Proof.
  induction ss as [|s ss IH]; intros e He Hss; simpl.
  { repeat split; try lia; [by intros ? ?%elem_of_nil|by left]. }
  assert (0 ≤ s < u64_max) as Hs by (apply Hss; by left).
  assert (∀ s, s ∈ ss → 0 ≤ s < u64_max) as Hss' by (intros; apply Hss; by right).
  unfold refute at 2 4 6 8 10 12 14 16. destruct (decide (incarnation e ≤ s)) as [Hle|Hle].
  - rewrite u64_add_small by (machine_unfold; lia).
    destruct (IH (mkMemberEntry (info e) Alive (s + 1) (last_seen e))) as (H1 & H2 & H3 & H4 & H5);
      [simpl; machine_unfold; lia|done|]. simpl in *.
    rewrite H1, H2. repeat split; [lia| |].
    + intros s' [->|Hs']%elem_of_cons; [lia|by apply H4].
    + right. destruct H5 as [[Hinc Heq]|(s' & ? & ? & ? & ?)].
      * exists s. rewrite Heq. simpl. repeat split; [by left|lia].
      * exists s'. repeat split; [by right|lia|lia|done].
  - destruct (IH e He Hss') as (H1 & H2 & H3 & H4 & H5). rewrite H1, H2.
    repeat split; [lia| |].
    + intros s' [->|Hs']%elem_of_cons; [lia|by apply H4].
    + destruct H5 as [?|(s' & ? & ?)]; [by left|right; exists s'; split; [by right|done]].
Qed.

Lemma foldl_refute_status ss : ∀ e,
  (status (foldl refute e ss) = Alive ∧ ∃ s, s ∈ ss ∧ incarnation e ≤ s) ∨
  (foldl refute e ss = e ∧ ∀ s, s ∈ ss → s < incarnation e).
Proof.
  assert (∀ ss e, status e = Alive → status (foldl refute e ss) = Alive) as Hkeep.
  { intros l. induction l as [|s l IH]; intros e He; simpl; [done|].
    apply IH. unfold refute. by case_decide. }
  induction ss as [|s ss IH]; intros e; simpl; [right; split; [done|by intros ? ?%elem_of_nil]|].
  unfold refute at 2 4. destruct (decide (incarnation e ≤ s)) as [Hle|Hle].
  - left. split; [by apply Hkeep|]. exists s. split; [by left|done].
  - destruct (IH e) as [[? (s' & ? & ?)]|[? Hall]]; [left|right].
    + split; [done|]. exists s'. split; [by right|done].
    + split; [done|]. intros s' [->|?]%elem_of_cons; [lia|by apply Hall].
Qed.

Lemma merge_self clock rs t e : members t !! local_id t = Some e →
  members (merge clock rs t) !! local_id t = Some (foldl refute e (suspicions (local_id t) rs)).
Proof. apply merge_from_self. Qed.

Lemma elem_of_suspicions i rs s :
  s ∈ suspicions i rs ↔
  ∃ r, r ∈ rs ∧ entry_id r = i ∧ r.2 = s ∧ (r.1.2 = Suspect ∨ r.1.2 = Dead).
Proof.
  unfold suspicions. rewrite list_elem_of_fmap. setoid_rewrite elem_of_filterb.
  setoid_rewrite bool_decide_eq_true. setoid_rewrite elem_of_versions_of.
  split.
  - intros (v & -> & Hst & r & Hr & Hi & ->). exists r. done.
  - intros (r & Hr & Hi & <- & Hst). exists (entry_version r). repeat split; [done|].
    exists r. done.
Qed.
(** *** Iterating over the members *)

Lemma elem_of_members_filter `{HashIter} t (p : NodeId * MemberEntry → bool) e : wf t →
  e ∈ (List.filter p (hash_iter (members t))).*2 ↔
  p (id (info e), e) = true ∧ members t !! id (info e) = Some e.
Proof.
  intros Hwf. rewrite list_elem_of_fmap. setoid_rewrite elem_of_filterb. split.
  - intros ([i e'] & -> & Hp & Hin). apply elem_of_hash_iter in Hin.
    destruct (wf_entry _ Hwf _ _ Hin) as [<- _]. done.
  - intros [Hp Hin]. exists (id (info e), e). by rewrite elem_of_hash_iter.
Qed.

Lemma elem_of_all_members `{HashIter} t e : wf t →
  e ∈ all_members t ↔ members t !! id (info e) = Some e.
Proof.
  intros Hwf. unfold all_members. rewrite list_elem_of_fmap. split.
  - intros ([i e'] & -> & Hin). apply elem_of_hash_iter in Hin.
    by destruct (wf_entry _ Hwf _ _ Hin) as [<- _].
  - intros Hin. exists (id (info e), e). by rewrite elem_of_hash_iter.
Qed.

Lemma all_members_NoDup `{HashIter} t : wf t → NoDup ((λ e, id (info e)) <$> all_members t).
Proof.
  intros Hwf. unfold all_members. pose proof (hash_iter_NoDup_fst (members t)) as Hnd.
  assert (∀ l, (∀ x, x ∈ l → members t !! x.1 = Some x.2) →
    (λ e, id (info e)) <$> l.*2 = l.*1) as ->; [|done|by intros [i e] Hin%elem_of_hash_iter].
  intros l Hall. induction l as [|[i e] l IH]; [done|]. rewrite !fmap_cons. f_equal.
  - eapply wf_entry; [done|]. apply (Hall (i, e)). by left.
  - apply IH. intros x Hx. apply Hall. by right.
Qed.

Lemma elem_of_alive_peers `{HashIter} t e : wf t →
  e ∈ alive_peers t ↔ id (info e) ≠ local_id t ∧ members t !! id (info e) = Some e ∧
    (status e = Alive ∨ status e = Joining).
Proof.
  intros Hwf. unfold alive_peers. rewrite elem_of_members_filter by done. simpl.
  rewrite andb_true_iff, orb_true_iff, !bool_decide_eq_true. tauto.
Qed.

Lemma elem_of_routable_peers `{HashIter} t e : wf t →
  e ∈ routable_peers t ↔ id (info e) ≠ local_id t ∧ members t !! id (info e) = Some e ∧
    status e = Alive.
Proof.
  intros Hwf. unfold routable_peers. rewrite elem_of_members_filter by done. simpl.
  rewrite andb_true_iff, !bool_decide_eq_true. tauto.
Qed.
End lemmas.

(** ** Properties *)

Section properties.
Context `{UuidLib}.
Import MembershipTable.

(** C38: in every state a node's table can reach from its start, the node knows
    itself, as Alive or Joining only, every entry is stored under its own
    identifier, incarnations are [u64], and the node's identity never changes. *)
Theorem reachable_table_wf (now : Z) (i : NodeId) (seeds : list NodeInfo) (t : MembershipTable) :
  rtc table_step (new now i seeds) t → wf t ∧ local_id t = i.
Proof.
  intros Hr. by apply (table_steps_wf _ _ Hr), table_new_wf.
Qed.

(** C13: what a node knows of another never regresses: along every execution the
    version recorded for a member only moves up in the order (incarnation, then
    Joining < Alive < Suspect < Dead); in particular a dead member stays dead
    until it is heard of with a higher incarnation. *)
Theorem members_never_regress (t t' : MembershipTable) (i : NodeId) :
  rtc table_step t t' → i ≠ local_id t →
  vle (version t i) (version t' i) ∧
  ∀ n, version t i = Some (n, Dead) →
    ∃ n' s', version t' i = Some (n', s') ∧ n ≤ n' ∧ (n' = n → s' = Dead).
Proof.
  intros Hr Hi. assert (vle (version t i) (version t' i)) as Hle by by apply table_steps_vle.
  split; [done|]. intros n Hn. rewrite Hn in Hle.
  destruct (version t' i) as [[n' s']|]; [|done]. exists n', s'. split; [done|].
  simpl in Hle. unfold newer in Hle. simpl in Hle.
  destruct Hle as [[= -> ->]|[?|[-> Hr']]]; [done|lia|]. by destruct s'.
Qed.

(** C11: [merge] computes, for every other node, the maximum of what was known
    and of all that was received: the result is an upper bound of both and is one
    of them. *)
Theorem merge_is_maximum (clock : nat → Z) (rs : list RemoteEntry) (t : MembershipTable)
    (i : NodeId) :
  i ≠ local_id t →
  let v := version (merge clock rs t) i in
  vle (version t i) v ∧
  (∀ r, r ∈ rs → entry_id r = i → vle (Some (entry_version r)) v) ∧
  (v = version t i ∨ ∃ r, r ∈ rs ∧ entry_id r = i ∧ v = Some (entry_version r)).
Proof.
  intros Hi v. subst v. rewrite merge_version by done.
  destruct (foldl_vjoin_ub (versions_of i rs) (version t i)) as [Hl Hr].
  split; [done|]. split.
  - intros r Hin <-. apply Hr, elem_of_versions_of. eauto.
  - destruct (foldl_vjoin_cases (versions_of i rs) (version t i)) as [?|(v & Hv & ->)]; [by left|].
    right. apply elem_of_versions_of in Hv as (r & ? & ? & ->). eauto.
Qed.

(** C12: gossip is order-insensitive: two tables that agree on a member and then
    merge the same entries, in any order, with any repetitions and at any times,
    agree on it again; merging the same entries twice is merging them once. *)
Theorem merge_convergent (clock clock' : nat → Z) (rs rs' : list RemoteEntry)
    (t t' : MembershipTable) (i : NodeId) :
  i ≠ local_id t → i ≠ local_id t' → version t i = version t' i →
  (∀ r, r ∈ rs ↔ r ∈ rs') →
  version (merge clock rs t) i = version (merge clock' rs' t') i ∧
  version (merge clock' rs (merge clock rs t)) i = version (merge clock rs t) i.
Proof.
  intros Hi Hi' Hv Hrs.
  assert (∀ v, v ∈ versions_of i rs ↔ v ∈ versions_of i rs') as Hvs.
  { intros v. rewrite !elem_of_versions_of. naive_solver. }
  split.
  - rewrite !merge_version by done. rewrite Hv. by apply foldl_vjoin_ext.
  - rewrite (merge_version _ _ (merge clock rs t)) by by rewrite merge_local_id.
    rewrite merge_version by done. rewrite <- foldl_vjoin_app. apply foldl_vjoin_ext.
    intros v. rewrite elem_of_app. tauto.
Qed.

(** C14: a node refutes every suspicion it receives: afterwards its incarnation
    is above that of all of them, so its own version is newer; the incarnation is
    raised only as far as that needs, and the node is Alive if it was raised. *)
Theorem suspicion_is_refuted (clock : nat → Z) (rs : list RemoteEntry) (t : MembershipTable)
    (e : MemberEntry) :
  wf t → members t !! local_id t = Some e →
  (∀ s, s ∈ suspicions (local_id t) rs → 0 ≤ s < u64_max) →
  ∃ e', members (merge clock rs t) !! local_id t = Some e' ∧ info e' = info e ∧
    incarnation e ≤ incarnation e' ∧
    (∀ s, s ∈ suspicions (local_id t) rs → s < incarnation e') ∧
    (e' = e ∨ ∃ s, s ∈ suspicions (local_id t) rs ∧ incarnation e ≤ s ∧
       incarnation e' = s + 1 ∧ status e' = Alive).
Proof.
  intros Hwf He Hss. exists (foldl refute e (suspicions (local_id t) rs)).
  rewrite (merge_self _ _ _ _ He). split; [done|].
  destruct (foldl_refute (suspicions (local_id t) rs) e) as (H1 & _ & H3 & H4 & H5).
  - by eapply wf_entry.
  - done.
  - repeat split; [done|done|done|]. naive_solver.
Qed.

(** Further: a suspicion with the largest incarnation is not refuted: the increment
    wraps to 0, and no peer that holds the suspicion accepts the node's version
    again, whatever it receives. *)
Theorem refutation_wraps (clock clock' : nat → Z) (t p : MembershipTable) (a : string)
    (s : MemberStatus) (rs : list RemoteEntry) :
  wf t → s = Suspect ∨ s = Dead → local_id p ≠ local_id t →
  (∃ s', rank s ≤ rank s' ∧ version p (local_id t) = Some (u64_max, s')) →
  entries_u64 rs →
  version (merge clock [(local_id t, a, s, u64_max)] t) (local_id t) = Some (0, Alive) ∧
  is_alive (local_id t) (merge clock' rs p) = false.
Proof.
  intros Hwf Hs Hp (s' & Hs' & Hv) Hrs. destruct (wf_self _ Hwf) as (e & He & _).
  destruct (wf_entry _ Hwf _ _ He) as [_ Hinc]. split.
  - unfold version, merge. simpl. rewrite decide_True by done.
    rewrite (decide_True (P := s = Suspect ∨ s = Dead)) by done. rewrite He.
    rewrite decide_True by (machine_unfold; lia). simpl. by rewrite lookup_insert_eq.
  - assert (version (merge clock' rs p) (local_id t) = Some (u64_max, Suspect) ∨
      version (merge clock' rs p) (local_id t) = Some (u64_max, Dead)) as Hd.
    { rewrite merge_version by done. rewrite Hv.
      destruct (foldl_vjoin_ub (versions_of (local_id t) rs) (Some (u64_max, s'))) as [Hle _].
      destruct (foldl_vjoin_cases (versions_of (local_id t) rs) (Some (u64_max, s')))
        as [->|(v & Hvin & Heq)].
      - destruct Hs as [-> | ->]; destruct s'; simpl in Hs'; auto; lia.
      - rewrite Heq in *. apply elem_of_versions_of in Hvin as (r & Hr & _ & ->).
        specialize (Hrs _ Hr). destruct (entry_version r) as [n st]. simpl in *.
        unfold newer in Hle. simpl in Hle. machine_unfold.
        destruct Hle as [[= <- <-]|[?|[<- Hlt]]]; [|lia|];
          destruct Hs as [-> | ->]; destruct s'; simpl in *; try lia; auto; destruct st; simpl in *; auto; lia. }
    unfold is_alive. unfold version in Hd.
    destruct (members (merge clock' rs p) !! local_id t) as [e'|]; [|done]. simpl in Hd.
    apply bool_decide_eq_false. intros Ha. rewrite Ha in Hd. by destruct Hd.
Qed.

(** Further: a joining node leaves the Joining state in exactly two ways: when its
    rebalance marks it alive, and when it receives a suspicion of itself that is
    not outdated, which the refutation turns into Alive although the rebalance has
    not finished. *)
Theorem joining_ends (t t' : MembershipTable) :
  wf t → is_self_joining t = true → table_step t t' →
  (is_self_joining t' = false ↔
   t' = mark_self_alive t ∨
   ∃ clock rs, t' = merge clock rs t ∧
     ∃ s, s ∈ suspicions (local_id t) rs ∧ local_incarnation t ≤ s).
Proof.
  intros Hwf Hj Hs. destruct (wf_self _ Hwf) as (e & He & _).
  unfold is_self_joining in Hj. rewrite He in Hj. bool_facts.
  assert (∀ clock rs, is_self_joining (merge clock rs t) = false ↔
    ∃ s, s ∈ suspicions (local_id t) rs ∧ local_incarnation t ≤ s) as Hm.
  { intros clock rs. unfold is_self_joining, local_incarnation.
    rewrite merge_local_id, (merge_self _ _ _ _ He), He, bool_decide_eq_false.
    destruct (foldl_refute_status (suspicions (local_id t) rs) e) as [[-> Hx]|[-> Hx]].
    - naive_solver.
    - rewrite Hj. split; [done|]. intros (s & Hin & Hle). specialize (Hx _ Hin). lia. }
  assert (is_self_joining (mark_self_alive t) = false) as Hma.
  { unfold is_self_joining, mark_self_alive. rewrite He. simpl. by rewrite lookup_insert_eq. }
  split.
  - intros Hf. destruct Hs as [clock rs Hrs|now i|i Hi|i Hi|]; [|exfalso|exfalso|exfalso|by left].
    + right. exists clock, rs. split; [done|]. by apply Hm in Hf.
    + unfold is_self_joining, touch in Hf. destruct (members t !! i) as [e'|] eqn:E; simpl in Hf.
      * destruct (decide (i = local_id t)) as [->|]; simplify_eq.
        -- rewrite lookup_insert_eq in Hf. simpl in Hf. by bool_facts.
        -- rewrite lookup_insert_ne, He in Hf by done. by bool_facts.
      * rewrite He in Hf. by bool_facts.
    + unfold is_self_joining, mark_suspect in Hf.
      repeat (case_decide || case_match); simpl in *; rewrite ?lookup_insert_ne in * by done;
        simplify_eq; by bool_facts.
    + unfold is_self_joining, mark_dead in Hf.
      repeat (case_decide || case_match); simpl in *; rewrite ?lookup_insert_ne in * by done;
        simplify_eq; by bool_facts.
  - intros [->|(clock & rs & -> & Hx)]; [done|]. by apply Hm.
Qed.

(** Further: the marks are the edges of the failure-detection state machine:
    [mark_suspect] takes Alive to Suspect, [mark_dead] Alive or Suspect to Dead,
    [mark_alive] Suspect to Alive unless the incarnation is outdated; they answer
    whether they did and otherwise leave the table as it is.  None of them moves a
    joining member. *)
Theorem status_transitions (t : MembershipTable) (i : NodeId) (e : MemberEntry) (n : Z) :
  members t !! i = Some e →
  let to s n := set_entry t i (mkMemberEntry (info e) s n (last_seen e)) in
  mark_suspect i t =
    (match status e with Alive => (true, to Suspect (incarnation e)) | _ => (false, t) end) ∧
  mark_dead i t =
    (match status e with
     | Alive | Suspect => (true, to Dead (incarnation e)) | _ => (false, t) end) ∧
  mark_alive i n t =
    (match status e with
     | Suspect => if incarnation e <=? n then (true, to Alive n) else (false, t)
     | _ => (false, t) end).
Proof.
  intros He to. unfold mark_suspect, mark_dead, mark_alive. rewrite He.
  destruct (status e) eqn:Hs; simpl; repeat split;
    repeat case_decide; try naive_solver;
    destruct (Z.leb_spec (incarnation e) n); naive_solver lia.
Qed.

(** Further: the peer lists: gossip goes to the other members that are Alive or
    Joining, the hash ring is built from those that are Alive; each member is
    listed once, and a member that is Suspect or Dead is in neither. *)
Theorem peers_exact `{HashIter} (t : MembershipTable) :
  wf t →
  (∀ e, e ∈ alive_peers t ↔ id (info e) ≠ local_id t ∧ members t !! id (info e) = Some e ∧
     (status e = Alive ∨ status e = Joining)) ∧
  (∀ e, e ∈ routable_peers t ↔ id (info e) ≠ local_id t ∧ members t !! id (info e) = Some e ∧
     status e = Alive) ∧
  NoDup ((λ e, id (info e)) <$> all_members t).
Proof.
  intros Hwf. split; [intros e; by apply elem_of_alive_peers|].
  split; [intros e; by apply elem_of_routable_peers|].
  by apply all_members_NoDup.
Qed.

(** Further: a node given seeds is Joining but sees every seed as routable at once,
    before any gossip; a node given none is Alive and alone. *)
Theorem initial_peers `{HashIter} (now : Z) (i : NodeId) (seeds : list NodeInfo) :
  (is_self_joining (new now i seeds) = true ↔ seeds ≠ []) ∧
  (is_alive i (new now i seeds) = true ↔ seeds = []) ∧
  (∀ n, n ∈ seeds → id n ≠ i →
     ∃ e, e ∈ routable_peers (new now i seeds) ∧ id (info e) = id n ∧ incarnation e = 0).
Proof.
  split; [|split].
  - unfold is_self_joining. change (local_id (new now i seeds)) with i. rewrite new_self.
    rewrite bool_decide_eq_true. simpl. by case_decide.
  - unfold is_alive. rewrite new_self, bool_decide_eq_true. simpl. by case_decide.
  - intros n Hn Hne.
    destruct (new_lookup_is_Some now i seeds (id n)) as [e He]; [right; eauto|].
    apply new_lookup in He as Hc. destruct Hc as [[? _]|(_ & m & _ & Hm & ->)]; [done|].
    exists (mkMemberEntry m Alive 0 now).
    rewrite elem_of_routable_peers by apply table_new_wf. simpl.
    rewrite Hm. done.
Qed.
End properties.

(** ** Witnesses: node [a], seeded with [b] *)

Section witnesses.
#[local] Existing Instance Examples.string_uuid.
#[local] Existing Instance Examples.sorted_iter.
Import MembershipTable.

Definition ex_id (name : string) : NodeId := @mkNodeId Examples.string_uuid name.
Definition ex_seeds : list NodeInfo := [mkNodeInfo (ex_id "b") "b:5001"].
Definition ex_table : MembershipTable := new 0 (ex_id "a") ex_seeds.
Definition ex_clock : nat → Z := λ _, 7.
Definition ex_entries : list RemoteEntry :=
  [(ex_id "b", "b:5001"%string, Dead, 0); (ex_id "a", "a:5001"%string, Suspect, 3);
   (ex_id "b", "b:5001"%string, Alive, 1)].

Lemma ex_entries_u64 : entries_u64 ex_entries.
Proof.
  intros r Hr. unfold ex_entries in Hr. rewrite !elem_of_cons in Hr.
  destruct Hr as [->|[->|[->|Hr]]]; [by compute..|]. by apply elem_of_nil in Hr.
Qed.
Lemma ex_wf : wf ex_table.
Proof. apply table_new_wf. Qed.

Lemma reachable_table_wf_witness :
  wf (merge ex_clock ex_entries ex_table) ∧ local_id (merge ex_clock ex_entries ex_table) = ex_id "a".
Proof.
  apply (reachable_table_wf 0 (ex_id "a") ex_seeds). apply rtc_once, step_merge, ex_entries_u64.
Defined.

Lemma members_never_regress_witness :
  vle (version ex_table (ex_id "b")) (version (merge ex_clock ex_entries ex_table) (ex_id "b")).
Proof.
  apply (members_never_regress ex_table); [apply rtc_once, step_merge, ex_entries_u64|].
  vm_compute. discriminate.
Defined.

Lemma merge_is_maximum_witness :
  version (merge ex_clock ex_entries ex_table) (ex_id "b") = Some (1, Alive) ∧
  vle (Some (0, Dead)) (version (merge ex_clock ex_entries ex_table) (ex_id "b")).
Proof.
  split; [vm_compute; reflexivity|].
  apply (proj1 (proj2 (merge_is_maximum ex_clock ex_entries ex_table (ex_id "b")
    ltac:(vm_compute; discriminate))) (ex_id "b", "b:5001"%string, Dead, 0)); [left|reflexivity].
Defined.

Lemma merge_convergent_witness :
  version (merge ex_clock ex_entries ex_table) (ex_id "b") =
  version (merge ex_clock (rev ex_entries) ex_table) (ex_id "b").
Proof.
  apply (merge_convergent ex_clock ex_clock ex_entries (rev ex_entries) ex_table ex_table);
    [vm_compute; discriminate|vm_compute; discriminate|reflexivity|].
  intros r. rewrite !list_elem_of_In. apply in_rev.
Defined.

Lemma suspicion_is_refuted_witness : ∃ e',
  members (merge ex_clock ex_entries ex_table) !! ex_id "a" = Some e' ∧ 3 < incarnation e'.
Proof.
  destruct (suspicion_is_refuted ex_clock ex_entries ex_table
    (mkMemberEntry (mkNodeInfo (ex_id "a") "") Joining 0 0) ex_wf) as (e' & He' & _ & _ & Hall & _).
  - vm_compute. reflexivity.
  - intros s Hs. vm_compute in Hs. apply list_elem_of_singleton in Hs as ->. by compute.
  - exists e'. split; [exact He'|]. apply Hall. vm_compute. left.
Defined.

Definition ex_peer : MembershipTable :=
  merge ex_clock [(ex_id "a", "a:5001"%string, Dead, u64_max)] (new 0 (ex_id "c") []).

Lemma refutation_wraps_witness :
  version (merge ex_clock [(ex_id "a", "a:5001"%string, Suspect, u64_max)] ex_table) (ex_id "a")
    = Some (0, Alive) ∧
  is_alive (ex_id "a") (merge ex_clock [(ex_id "a", "a:5001"%string, Alive, 0)] ex_peer) = false.
Proof.
  apply (refutation_wraps ex_clock ex_clock ex_table ex_peer).
  - exact ex_wf.
  - by left.
  - vm_compute. discriminate.
  - exists Dead. split; [by compute|]. vm_compute. reflexivity.
  - intros r Hr. apply list_elem_of_singleton in Hr as ->. by compute.
Defined.

Lemma joining_ends_witness :
  is_self_joining ex_table = true ∧ is_self_joining (merge ex_clock ex_entries ex_table) = false.
Proof.
  split; [vm_compute; reflexivity|].
  apply (joining_ends ex_table); [exact ex_wf|vm_compute; reflexivity|apply step_merge, ex_entries_u64|].
  right. exists ex_clock, ex_entries. split; [reflexivity|]. exists 3. vm_compute. split; [left|discriminate].
Defined.

Lemma status_transitions_witness : (mark_suspect (ex_id "b") ex_table).1 = true.
Proof.
  rewrite (proj1 (status_transitions ex_table (ex_id "b")
    (mkMemberEntry (mkNodeInfo (ex_id "b") "b:5001") Alive 0 0) 0 ltac:(vm_compute; reflexivity))).
  reflexivity.
Defined.

Lemma peers_exact_witness : NoDup ((λ e, id (info e)) <$> all_members ex_table).
Proof. apply (proj2 (proj2 (peers_exact ex_table ex_wf))). Defined.

Lemma initial_peers_witness : ∃ e, e ∈ routable_peers ex_table ∧ id (info e) = ex_id "b" ∧ incarnation e = 0.
Proof.
  apply (proj2 (proj2 (initial_peers 0 (ex_id "a") ex_seeds)) (mkNodeInfo (ex_id "b") "b:5001"));
    [left|vm_compute; discriminate].
Defined.
End witnesses.
