(* ===== verification/Gossip.v ===== *)
(** * The gossip protocol

    Models [crates/node/src/gossip/protocol.rs] (the periodic rounds and the
    timeouts), [crates/node/src/gossip/server.rs] (the exchange handler) and the
    messages of [proto/gossip.proto].

    Arguments stand for what the code takes from its environment: clocks, the
    random identifiers given to unparsable ones, the random choice of the targets
    of a round, and the replies the network delivers. *)

From S2P Require Import Prelude Machine Text Common Membership.
Local Open Scope Z_scope.

Module Gossip.
Import MembershipTable.

Definition GOSSIP_INTERVAL : Z := from_millis 1000.
Definition SUSPECT_TIMEOUT : Z := from_secs 3.
Definition DEAD_TIMEOUT : Z := from_secs 5.

(** The enumeration of the wire format, and its [i32] values. *)
Inductive ProtoMemberStatus := P_Alive | P_Suspect | P_Dead | P_Joining.
Definition proto_status_i32 (s : ProtoMemberStatus) : Z :=
  match s with P_Alive => 0 | P_Suspect => 1 | P_Dead => 2 | P_Joining => 3 end.
Definition proto_status_try_from (n : Z) : option ProtoMemberStatus :=
  if n =? 0 then Some P_Alive else if n =? 1 then Some P_Suspect
  else if n =? 2 then Some P_Dead else if n =? 3 then Some P_Joining else None.

Record ProtoMemberEntry := mkProtoMemberEntry {
  m_node_id : string;
  m_addr : string;
  m_status : Z;
  m_incarnation : Z;
  m_last_seen_ms : Z;
}.
Record GossipMessage := mkGossipMessage {
  msg_members : list ProtoMemberEntry;
  msg_sender_id : string;
}.

Section gossip.
Context `{UuidLib} `{HashIter}.

(** What a handler reads from its environment while it runs. *)
Record Env := mkEnv {
  merge_clock : nat → Z;     (** [Instant::now] at the entries merged *)
  touch_clock : Z;           (** [Instant::now] in [touch] *)
  build_clock : nat → Z;     (** [Instant::now] at the entries sent *)
  new_v4 : nat → Uuid;       (** [Uuid::new_v4] at the entries received *)
}.

(** *** Messages *)

Definition proto_of_status (s : MemberStatus) : ProtoMemberStatus :=
  match s with
  | Alive => P_Alive | Suspect => P_Suspect | Dead => P_Dead | Joining => P_Joining
  end.

Definition proto_of_entry (clock : nat → Z) (k : nat) (e : MemberEntry) : ProtoMemberEntry :=
  mkProtoMemberEntry (NodeId_to_string (id (info e))) (addr (info e))
    (proto_status_i32 (proto_of_status (status e))) (incarnation e)
    (as_u64 (as_millis (saturating_duration_since (clock k) (last_seen e)))).

Definition build_gossip_message (clock : nat → Z) (t : MembershipTable) : GossipMessage :=
  mkGossipMessage (imap (proto_of_entry clock) (all_members t)) (NodeId_to_string (local_id t)).

Definition status_of_proto (n : Z) : MemberStatus :=
  match proto_status_try_from n with
  | Some P_Alive => Alive
  | Some P_Suspect => Suspect
  | Some P_Dead => Dead
  | Some P_Joining => Joining
  | None => Alive
  end.

(** [NodeId::parse(..).unwrap_or_else(|_| NodeId::new())] and the other fields *)
Definition entry_of_proto (uuids : nat → Uuid) (k : nat) (m : ProtoMemberEntry) : RemoteEntry :=
  (match NodeId_parse (m_node_id m) with Some i => i | None => from_uuid (uuids k) end,
   m_addr m, status_of_proto (m_status m), m_incarnation m).

Definition entries_of_message (uuids : nat → Uuid) (msg : GossipMessage) : list RemoteEntry :=
  imap (entry_of_proto uuids) (msg_members msg).

(** *** Handlers *)

(** [GossipServiceImpl::gossip_exchange] *)
Definition gossip_exchange (env : Env) (remote_msg : GossipMessage) (t : MembershipTable)
    : MembershipTable * GossipMessage :=
  let t1 := merge (merge_clock env) (entries_of_message (new_v4 env) remote_msg) t in
  let t2 := match NodeId_parse (msg_sender_id remote_msg) with
            | Some sender_id => touch (touch_clock env) sender_id t1
            | None => t1
            end in
  (t2, build_gossip_message (build_clock env) t2).

(** [GossipProtocol::process_gossip_response] *)
Definition process_gossip_response (env : Env) (response : GossipMessage) (t : MembershipTable)
    : MembershipTable :=
  merge (merge_clock env) (entries_of_message (new_v4 env) response) t.

(** The loop of [gossip_round] over the chosen targets; [send k] is the network
    at the [k]-th message, [None] an error.  The messages sent are returned. *)
Fixpoint gossip_targets (env : nat → Env) (send : nat → string → GossipMessage → option GossipMessage)
    (k : nat) (targets : list MemberEntry) (t : MembershipTable)
    : list (string * GossipMessage) * MembershipTable :=
  match targets with
  | [] => ([], t)
  | target :: targets' =>
      let msg := build_gossip_message (build_clock (env k)) t in
      let t1 := match send k (addr (info target)) msg with
                | Some response =>
                    process_gossip_response (env k) response
                      (touch (touch_clock (env k)) (id (info target)) t)
                | None => t
                end in
      let '(sent, t2) := gossip_targets env send (S k) targets' t1 in
      ((addr (info target), msg) :: sent, t2)
  end.

(** [GossipProtocol::gossip_round]: [draw] is the random number in [1..=3],
    [choose] the random choice of that many peers. *)
Definition gossip_round (env : nat → Env) (send : nat → string → GossipMessage → option GossipMessage)
    (draw : nat) (choose : nat → list MemberEntry → list MemberEntry) (t : MembershipTable)
    : list (string * GossipMessage) * MembershipTable :=
  let peers := alive_peers t in
  match peers with
  | [] => ([], t)
  | _ => gossip_targets env send 0 (choose (length peers `min` draw)%nat peers) t
  end.

(** One iteration of the loop of [GossipProtocol::check_timeouts]; [local] is the
    [local_id] of the protocol object. *)
Definition check_member (now : Z) (local : NodeId) (t : MembershipTable) (member : MemberEntry)
    : MembershipTable :=
  if decide (id (info member) = local) then t
  else
    let elapsed := saturating_duration_since now (last_seen member) in
    match status member with
    | Alive => if SUSPECT_TIMEOUT <? elapsed then (mark_suspect (id (info member)) t).2 else t
    | Joining => if SUSPECT_TIMEOUT <? elapsed then (mark_suspect (id (info member)) t).2 else t
    | Suspect => if DEAD_TIMEOUT <? elapsed then (mark_dead (id (info member)) t).2 else t
    | Dead => t
    end.

Definition check_timeouts (now : Z) (local : NodeId) (t : MembershipTable) : MembershipTable :=
  foldl (check_member now local) t (all_members t).

(** ** Specifications *)

(** What [rand]'s [choose_multiple] promises: that many distinct elements. *)
Definition chooses (choose : nat → list MemberEntry → list MemberEntry) : Prop :=
  ∀ n l, (n ≤ length l)%nat → length (choose n l) = n ∧ choose n l ⊆+ l.

(** Messages as the wire format types them: incarnations are [uint64]. *)
Definition message_u64 (msg : GossipMessage) : Prop :=
  ∀ m, m ∈ msg_members msg → is_u64 (m_incarnation m).

(** What a timeout check does to one entry. *)
Definition timeout_entry (now : Z) (e : MemberEntry) : MemberEntry :=
  let elapsed := saturating_duration_since now (last_seen e) in
  let to s := mkMemberEntry (info e) s (incarnation e) (last_seen e) in
  match status e with
  | Alive => if SUSPECT_TIMEOUT <? elapsed then to Suspect else e
  | Suspect => if DEAD_TIMEOUT <? elapsed then to Dead else e
  | Dead | Joining => e
  end.

(** A full exchange: [a] sends its view to [b], [b] merges it and answers, [a]
    merges the answer. *)
Definition full_exchange (clock : nat → Z) (env_b env_a : Env) (a b : MembershipTable)
    : MembershipTable * MembershipTable :=
  let '(b', response) := gossip_exchange env_b (build_gossip_message clock a) b in
  (process_gossip_response env_a response a, b').
(** What [merge] keeps of a message: the sender's view. *)
Definition remote_of (e : MemberEntry) : RemoteEntry :=
  (id (info e), addr (info e), status e, incarnation e).
Definition view (t : MembershipTable) : list RemoteEntry := remote_of <$> all_members t.

(** The newer of two versions, either of which may be unknown. *)
Definition vsup (o1 o2 : option Version) : option Version :=
  match o2 with Some v => vjoin o1 v | None => o1 end.

(** What a node does by itself ([local]) and on what it receives. *)
Inductive local_step (t : MembershipTable) : list (string * GossipMessage) → MembershipTable → Prop :=
  | local_round env send draw choose :
      chooses choose → (∀ k a m r, send k a m = Some r → message_u64 r) → (1 ≤ draw ≤ 3)%nat →
      local_step t (gossip_round env send draw choose t).1 (gossip_round env send draw choose t).2
  | local_timeouts now :
      local_step t [] (check_timeouts now (local_id t) t).

Inductive gossip_step (t : MembershipTable) : MembershipTable → Prop :=
  | gossip_local sent t' : local_step t sent t' → gossip_step t t'
  | gossip_receive env msg : message_u64 msg → gossip_step t (gossip_exchange env msg t).1
  | gossip_rebalanced : gossip_step t (mark_self_alive t).

(** Table operations between two moments that bring no news of [i]. *)
Definition quiet (i : NodeId) (t t' : MembershipTable) : Prop :=
  rtc table_step t t' ∧ members t' !! i = members t !! i.
End gossip.
End Gossip.

(** ** Lemmas *)

Section lemmas.
Context `{UuidLib} `{HashIter}.
Import MembershipTable Gossip.
Implicit Types (t a b : MembershipTable) (i : NodeId).

Lemma entries_of_build uuids clock t :
  entries_of_message uuids (build_gossip_message clock t) = view t.
Proof.
  unfold entries_of_message, view. simpl. apply list_eq. intros k.
  rewrite !list_lookup_imap, list_lookup_fmap.
  destruct (all_members t !! k) as [e|]; simpl; [|done].
  unfold entry_of_proto, proto_of_entry, remote_of. simpl. rewrite NodeId_parse_to_string.
  by destruct (status e).
Qed.

(** A list keyed without repetitions, filtered by a key. *)
Lemma filter_key {A} (f : A → NodeId) (l : list A) i (o : option A) :
  NoDup (f <$> l) → (∀ x, x ∈ l ∧ f x = i ↔ o = Some x) →
  List.filter (λ x, bool_decide (f x = i)) l = option_list o.
Proof.
  revert o. induction l as [|x l IH]; intros o Hnd Ho; simpl.
  - destruct o as [x|]; [|done]. destruct (proj2 (Ho x) eq_refl) as [[]%elem_of_nil _].
  - rewrite fmap_cons, NoDup_cons in Hnd. destruct Hnd as [Hx Hnd].
    case_bool_decide as Hi.
    + assert (o = Some x) as -> by (apply Ho; split; [by left|done]).
      simpl. f_equal. rewrite (IH None); [done|done|].
      intros y. split; [|done]. intros [Hy Hfy]. destruct Hx. rewrite Hi, <- Hfy.
      by apply list_elem_of_fmap_2.
    + apply IH; [done|]. intros y. rewrite <- Ho, elem_of_cons. naive_solver.
Qed.

Lemma versions_of_view t i : wf t → versions_of i (view t) = option_list (version t i).
Proof.
  intros Hwf. unfold version, view.
  assert (∀ l : list MemberEntry, versions_of i (remote_of <$> l) =
    (λ e, (incarnation e, status e)) <$> List.filter (λ e, bool_decide (id (info e) = i)) l) as ->.
  { induction l as [|e l IH]; [done|]. rewrite fmap_cons, versions_of_cons, IH. simpl.
    unfold entry_id. simpl. case_decide; by case_bool_decide. }
  rewrite (filter_key (λ e, id (info e)) _ i (members t !! i)).
  - by destruct (members t !! i).
  - by apply all_members_NoDup.
  - intros e. rewrite elem_of_all_members by done. split; [by intros [? <-]|].
    intros He. by destruct (wf_entry _ Hwf _ _ He) as [-> _].
Qed.

Lemma view_u64 t : wf t → entries_u64 (view t).
Proof.
  intros Hwf r (e & -> & He)%list_elem_of_fmap. apply elem_of_all_members in He; [|done].
  by apply (wf_entry _ Hwf _ _ He).
Qed.

Lemma view_suspicions t i : wf t →
  suspicions i (view t) =
  match version t i with Some (n, (Suspect | Dead)) => [n] | _ => [] end.
Proof.
  intros Hwf. unfold suspicions. rewrite versions_of_view by done.
  by destruct (version t i) as [[n []]|].
Qed.

Lemma merge_view_version clock t u i : wf u → i ≠ local_id t →
  version (merge clock (view u) t) i = vsup (version t i) (version u i).
Proof.
  intros Hwf Hi. rewrite merge_version, versions_of_view by done. by destruct (version u i).
Qed.

Lemma version_u64 t i n s : wf t → version t i = Some (n, s) → is_u64 n.
Proof.
  intros Hwf (e & He & [= -> ->])%fmap_Some. by apply (wf_entry _ Hwf _ _ He).
Qed.

Lemma vsup_ub o1 o2 : vle o1 (vsup o1 o2) ∧ vle o2 (vsup o1 o2).
Proof. destruct o2 as [v|]; [apply vjoin_ub|done]. Qed.

Lemma vsup_absorb o1 o2 : vle o1 o2 → vsup o1 o2 = o2.
Proof.
  intros Hle. destruct o2 as [v|]; simpl in *; [|by destruct o1].
  destruct o1 as [u|]; [|done]. simpl in *. unfold vmax.
  destruct Hle as [->|?]; case_decide; done.
Qed.

Lemma touch_version now i t j : version (touch now i t) j = version t j.
Proof.
  unfold touch. destruct (members t !! i) as [e|] eqn:E; [|done].
  rewrite version_set_entry. case_decide; [|done]. subst. unfold version. by rewrite E.
Qed.

Lemma touch_local_id now i t : local_id (touch now i t) = local_id t.
Proof. unfold touch. by destruct (members t !! i). Qed.
(** *** The full exchange *)

Lemma full_exchange_eq clock env_b env_a a b :
  full_exchange clock env_b env_a a b =
  let b1 := merge (merge_clock env_b) (view a) b in
  let b' := touch (touch_clock env_b) (local_id a) b1 in
  (merge (merge_clock env_a) (view b') a, b').
Proof.
  unfold full_exchange, gossip_exchange, process_gossip_response.
  rewrite entries_of_build. simpl. rewrite NodeId_parse_to_string, entries_of_build. done.
Qed.

Lemma full_exchange_wf clock env_b env_a a b : wf a → wf b →
  let '(a', b') := full_exchange clock env_b env_a a b in
  wf a' ∧ wf b' ∧ local_id a' = local_id a ∧ local_id b' = local_id b.
Proof.
  intros Ha Hb. rewrite full_exchange_eq. simpl.
  rewrite touch_local_id, !merge_local_id.
  assert (wf (touch (touch_clock env_b) (local_id a) (merge (merge_clock env_b) (view a) b))) as Hb'
    by (by apply touch_wf, merge_wf, view_u64).
  split; [|done]. by apply merge_wf, view_u64.
Qed.

(** The answering side learns all the asking side knows; then the asking side
    learns all the answering side knows. *)
Lemma full_exchange_version clock env_b env_a a b i : wf a → wf b →
  let '(a', b') := full_exchange clock env_b env_a a b in
  (i ≠ local_id b → version b' i = vsup (version b i) (version a i)) ∧
  (i ≠ local_id a → version a' i = vsup (version a i) (version b' i)).
Proof.
  intros Ha Hb. rewrite full_exchange_eq. simpl. split; intros Hi.
  - by rewrite touch_version, merge_view_version.
  - rewrite merge_view_version; [done| |done]. by apply touch_wf, merge_wf, view_u64.
Qed.

(** The asking side's own entry after the exchange. *)
Lemma full_exchange_self clock env_b env_a a b m st : wf a → wf b →
  version a (local_id a) = Some (m, st) →
  let '(a', b') := full_exchange clock env_b env_a a b in
  version a' (local_id a) =
  match version b' (local_id a) with
  | Some (n, (Suspect | Dead)) => Some (if decide (m ≤ n) then (u64_add n 1, Alive) else (m, st))
  | _ => Some (m, st)
  end.
Proof.
  intros Ha Hb Hv.
  pose proof (full_exchange_wf clock env_b env_a a b Ha Hb) as Hwf.
  rewrite full_exchange_eq in *. simpl in *. destruct Hwf as (_ & Hwf & _).
  set (b' := touch _ _ _) in *. clearbody b'.
  unfold version at 1 in Hv. apply fmap_Some in Hv as (e & He & [= -> ->]).
  unfold version at 1. rewrite (merge_self _ _ _ _ He). simpl.
  rewrite view_suspicions by done.
  destruct (version b' (local_id a)) as [[n [| | |]]|]; simpl; unfold refute;
    repeat case_decide; done.
Qed.
Lemma exchange_agreed clock env_b env_a a b m st : wf a → wf b → local_id a ≠ local_id b →
  version a (local_id a) = Some (m, st) → st = Alive ∨ st = Joining →
  vle (version b (local_id a)) (Some (m, st)) →
  let '(a', b') := full_exchange clock env_b env_a a b in
  version a' (local_id a) = Some (m, st) ∧ version b' (local_id a) = Some (m, st).
Proof.
  intros Ha Hb Hne Hva Hst Hle.
  pose proof (full_exchange_version clock env_b env_a a b (local_id a) Ha Hb) as Hv.
  pose proof (full_exchange_self clock env_b env_a a b m st Ha Hb Hva) as Hs.
  destruct (full_exchange clock env_b env_a a b) as [a' b'].
  destruct Hv as [Hv _]. rewrite Hv, Hva, vsup_absorb in * by done.
  destruct Hst as [-> | ->]; done.
Qed.

(** *** Timeouts *)

Lemma timeout_entry_info now e : info (timeout_entry now e) = info e.
Proof. unfold timeout_entry. by destruct (status e); repeat case_match. Qed.

Lemma check_member_lookup now local t e j : members t !! id (info e) = Some e →
  members (check_member now local t e) !! j =
  if decide (j = id (info e) ∧ j ≠ local) then Some (timeout_entry now e) else members t !! j.
Proof.
  intros He. unfold check_member, timeout_entry, mark_suspect, mark_dead. rewrite He.
  destruct (decide (id (info e) = local)) as [Hl|Hl].
  { rewrite decide_False by naive_solver. done. }
  assert (∀ s, members (set_entry t (id (info e)) s) !! j =
    if decide (j = id (info e) ∧ j ≠ local) then Some s else members t !! j) as Hset.
  { intros s. unfold set_entry. simpl. case_decide as Hj.
    - destruct Hj as [-> _]. by rewrite lookup_insert_eq.
    - rewrite lookup_insert_ne; naive_solver. }
  assert (members t !! j = if decide (j = id (info e) ∧ j ≠ local) then Some e
    else members t !! j) as Hsame by (case_decide as Hj; [by destruct Hj as [-> _]|done]).
  destruct (status e) eqn:Hs; cbn [snd];
    rewrite ?(decide_True (P := Alive = Alive)), ?(decide_False (P := Joining = Alive)),
      ?(decide_True (P := _ ∨ _)) by auto; cbn [snd];
    repeat match goal with |- context [Z.ltb ?a ?b] => destruct (Z.ltb a b) end;
    try apply Hset; apply Hsame.
Qed.

Lemma check_member_local_id now local t e : local_id (check_member now local t e) = local_id t.
Proof.
  unfold check_member, mark_suspect, mark_dead. repeat (case_decide || case_match); done.
Qed.

Lemma check_members_lookup now local l : ∀ t j,
  NoDup ((λ e, id (info e)) <$> l) → (∀ e, e ∈ l → members t !! id (info e) = Some e) →
  members (foldl (check_member now local) t l) !! j =
  if decide (j ∈ ((λ e, id (info e)) <$> l) ∧ j ≠ local)
  then timeout_entry now <$> members t !! j else members t !! j.
Proof.
  induction l as [|e l IH]; intros t j Hnd Hl; cbn [foldl].
  - rewrite decide_False; [done|]. intros [[]%elem_of_nil _].
  - rewrite fmap_cons, NoDup_cons in Hnd. destruct Hnd as [He Hnd].
    assert (members t !! id (info e) = Some e) as Hte by (apply Hl; by left).
    rewrite IH; [|done|].
    + rewrite check_member_lookup by done.
      destruct (decide (j = local)) as [Hjl|Hjl].
      { rewrite !decide_False by tauto. done. }
      destruct (decide (j = id (info e))) as [->|Hj].
      * rewrite decide_False by tauto. rewrite (decide_True (P := id (info e) = _ ∧ _)) by done.
        rewrite decide_True by (rewrite fmap_cons, elem_of_cons; auto). by rewrite Hte.
      * rewrite (decide_False (P := j = _ ∧ _)) by tauto.
        pose proof (elem_of_cons ((λ e, id (info e)) <$> l) j (id (info e))) as Hc.
        rewrite fmap_cons. repeat case_decide; tauto.
    + intros e' He'. rewrite check_member_lookup by done. rewrite decide_False.
      * apply Hl. by right.
      * intros [Heq _]. destruct He. rewrite <- Heq. by apply (list_elem_of_fmap_2 (λ e, id (info e))).
Qed.

Lemma check_timeouts_lookup now t j : wf t →
  members (check_timeouts now (local_id t) t) !! j =
  if decide (j = local_id t) then members t !! j else timeout_entry now <$> members t !! j.
Proof.
  intros Hwf. unfold check_timeouts. rewrite check_members_lookup.
  - destruct (decide (j = local_id t)); [by rewrite decide_False by tauto|].
    destruct (members t !! j) as [e|] eqn:E; [|by case_decide].
    rewrite decide_True; [done|]. split; [|done].
    apply list_elem_of_fmap. exists e. destruct (wf_entry _ Hwf _ _ E) as [Hid _].
    split; [done|]. apply elem_of_all_members; [done|]. by rewrite Hid.
  - by apply all_members_NoDup.
  - intros e. by apply elem_of_all_members.
Qed.

(** *** Steps *)

Lemma entries_of_message_u64 uuids msg :
  message_u64 msg → entries_u64 (entries_of_message uuids msg).
Proof.
  intros Hm r (k & m & -> & Hk)%elem_of_lookup_imap. apply (Hm m).
  by eapply list_elem_of_lookup_2.
Qed.

Lemma build_message_u64 clock t : wf t → message_u64 (build_gossip_message clock t).
Proof.
  intros Hwf m (k & e & -> & Hk)%elem_of_lookup_imap.
  apply list_elem_of_lookup_2, elem_of_all_members in Hk; [|done].
  by apply (wf_entry _ Hwf _ _ Hk).
Qed.

Lemma process_step env msg t :
  message_u64 msg → table_step t (process_gossip_response env msg t).
Proof. intros. by apply step_merge, entries_of_message_u64. Qed.

Lemma exchange_steps env msg t :
  message_u64 msg → rtc table_step t (gossip_exchange env msg t).1.
Proof.
  intros Hm. eapply rtc_l; [by apply (process_step env)|]. unfold gossip_exchange. simpl.
  destruct (NodeId_parse _); [apply rtc_once, step_touch|done].
Qed.

Lemma gossip_targets_steps env send targets :
  (∀ k addr m r, send k addr m = Some r → message_u64 r) →
  ∀ k t, rtc table_step t (gossip_targets env send k targets t).2.
Proof.
  intros Hsend. induction targets as [|e targets IH]; intros k t; simpl; [done|].
  destruct (send _ _ _) as [r|] eqn:Er.
  - specialize (IH (S k) (process_gossip_response (env k) r
      (touch (touch_clock (env k)) (id (info e)) t))).
    destruct (gossip_targets _ _ _ _ _) as [sent t2]. simpl in *.
    eapply rtc_l; [apply step_touch|]. eapply rtc_l; [by eapply process_step, Hsend|done].
  - specialize (IH (S k) t). by destruct (gossip_targets _ _ _ _ _).
Qed.

Lemma check_members_steps now l : ∀ t, rtc table_step t (foldl (check_member now (local_id t)) t l).
Proof.
  induction l as [|e l IH]; intros t; simpl; [done|].
  assert (rtc table_step t (check_member now (local_id t) t e)) as Hs.
  { unfold check_member. case_decide; [done|].
    repeat case_match; first [done|by apply rtc_once, step_mark_suspect|by apply rtc_once, step_mark_dead]. }
  etrans; [exact Hs|]. pose proof (IH (check_member now (local_id t) t e)) as IH'.
  by rewrite check_member_local_id in IH'.
Qed.

Lemma check_timeouts_steps now t : rtc table_step t (check_timeouts now (local_id t) t).
Proof. apply check_members_steps. Qed.

Lemma local_step_steps t sent t' : local_step t sent t' → rtc table_step t t'.
Proof.
  intros [env send draw choose _ Hs _|now].
  - unfold gossip_round. destruct (alive_peers t); [done|]. by apply gossip_targets_steps.
  - apply check_timeouts_steps.
Qed.

Lemma gossip_step_steps t t' : gossip_step t t' → rtc table_step t t'.
Proof.
  intros [sent ? Hl|env msg Hm|].
  - by eapply local_step_steps.
  - by apply exchange_steps.
  - apply rtc_once, step_mark_self_alive.
Qed.

(** *** The own entry, and a node whose peers are all down *)

Lemma set_entry_self_info t i e : (∀ e0, members t !! i = Some e0 → i = local_id t → info e = info e0) →
  is_Some (members t !! i) → local_addr (set_entry t i e) = local_addr t.
Proof.
  intros Hi [e0 He0]. unfold local_addr. simpl. destruct (decide (i = local_id t)) as [->|Hne].
  - rewrite lookup_insert_eq, He0. by rewrite (Hi _ He0).
  - by rewrite lookup_insert_ne.
Qed.

Lemma merge_local_addr clock rs t : wf t → local_addr (merge clock rs t) = local_addr t.
Proof.
  intros Hwf. destruct (wf_self _ Hwf) as (e & He & _). unfold local_addr.
  rewrite merge_local_id, (merge_self _ _ _ _ He), He.
  assert (∀ ss e, info (foldl refute e ss) = info e) as Hf; [|by rewrite Hf].
  induction ss as [|s ss IH]; intros e'; simpl; [done|]. rewrite IH. unfold refute. by case_decide.
Qed.

Lemma table_step_local_addr t t' : wf t → table_step t t' → local_addr t' = local_addr t.
Proof.
  intros Hwf Hs. destruct Hs; [by apply merge_local_addr|..];
    unfold touch, mark_suspect, mark_dead, mark_self_alive;
    repeat (case_match || case_decide); simpl; try done;
    (apply set_entry_self_info; [|by eauto]); intros; simplify_eq; done.
Qed.

Lemma new_local_addr now i seeds : (∀ n, n ∈ seeds → id n ≠ i) → local_addr (new now i seeds) = "".
Proof.
  intros Hn. unfold local_addr. change (local_id (new now i seeds)) with i. rewrite new_self. simpl.
  unfold self_info_of. destruct (List.find _ seeds) as [n|] eqn:E; [|done].
  apply find_Some_iff_first in E as (l1 & l2 & -> & Hp & _). bool_facts.
  destruct (Hn n); [|done]. apply elem_of_app. right. by left.
Qed.

Definition silenced (t : MembershipTable) : Prop :=
  wf t ∧ ∀ i e, i ≠ local_id t → members t !! i = Some e → status e = Suspect ∨ status e = Dead.

Lemma silenced_no_peers t : silenced t → alive_peers t = [].
Proof.
  intros [Hwf Hall]. destruct (alive_peers t) as [|e l] eqn:E; [done|].
  assert (e ∈ alive_peers t) as He by (rewrite E; by left).
  apply elem_of_alive_peers in He as (Hne & He & Hs); [|done].
  destruct (Hall _ _ Hne He) as [Hs'|Hs'], Hs; congruence.
Qed.

Lemma silenced_step t sent t' : silenced t → local_step t sent t' → sent = [] ∧ silenced t'.
Proof.
  intros Hsil Hl. pose proof Hsil as [Hwf Hall].
  destruct (table_steps_wf _ _ (local_step_steps _ _ _ Hl) Hwf) as [Hwf' Hloc].
  destruct Hl as [env send draw choose Hch Hsend Hd|now].
  - unfold gossip_round in *. by rewrite (silenced_no_peers t Hsil) in *.
  - split; [done|]. split; [done|]. intros i e Hi. rewrite Hloc in Hi.
    rewrite check_timeouts_lookup, decide_False by done.
    intros (e0 & -> & He0)%fmap_Some_1 || intros (e0 & He0 & ->)%fmap_Some_1.
    destruct (Hall _ _ Hi He0) as [Hs|Hs]; unfold timeout_entry; rewrite Hs; [case_match|]; auto.
Qed.
End lemmas.

(** ** Properties *)

Section properties.
Context `{UuidLib} `{HashIter}.
Import MembershipTable Gossip.

(** Further: a gossip message carries the sender's table: what the receiver decodes
    from it is, entry by entry, the identifier, address, status and incarnation
    the sender holds (no identifier is replaced, no status defaulted), and its
    sender identifier decodes to the sender. *)
Theorem message_roundtrip (uuids : nat → Uuid) (clock : nat → Z) (t : MembershipTable) :
  entries_of_message uuids (build_gossip_message clock t) =
    (λ e, (id (info e), addr (info e), status e, incarnation e)) <$> all_members t ∧
  NodeId_parse (msg_sender_id (build_gossip_message clock t)) = Some (local_id t).
Proof. split; [apply entries_of_build|apply NodeId_parse_to_string]. Qed.

(** C15: one exchange makes two nodes agree: for every third node both then hold
    the newer of the two versions they held; their identities stay, and their
    tables stay well-formed. *)
Theorem exchange_agrees (clock : nat → Z) (env_b env_a : Env) (a b : MembershipTable) :
  wf a → wf b →
  let '(a', b') := full_exchange clock env_b env_a a b in
  (wf a' ∧ wf b' ∧ local_id a' = local_id a ∧ local_id b' = local_id b) ∧
  ∀ i, i ≠ local_id a → i ≠ local_id b →
    version a' i = version b' i ∧ version b' i = vsup (version b i) (version a i).
Proof.
  intros Ha Hb.
  pose proof (full_exchange_wf clock env_b env_a a b Ha Hb) as Hwf.
  pose proof (λ i, full_exchange_version clock env_b env_a a b i Ha Hb) as Hv.
  destruct (full_exchange clock env_b env_a a b) as [a' b']. split; [done|].
  intros i Hi Hi'. destruct (Hv i) as [Hvb Hva]. specialize (Hvb Hi'). specialize (Hva Hi).
  rewrite Hva. split; [|done]. apply vsup_absorb. rewrite Hvb. apply vsup_ub.
Qed.

(** Further: a false suspicion is healed: if [b] holds [a] for suspect or dead, at
    any incarnation below the largest, then after two exchanges that [a] starts,
    [b] holds exactly the version [a] has of itself, Alive or Joining with an
    incarnation above the suspected one. *)
Theorem exchange_heals (clock1 clock2 : nat → Z) (env1 env2 env3 env4 : Env)
    (a b : MembershipTable) (n : Z) (s : MemberStatus) :
  wf a → wf b → local_id a ≠ local_id b →
  version b (local_id a) = Some (n, s) → s = Suspect ∨ s = Dead → n < u64_max →
  let '(a1, b1) := full_exchange clock1 env1 env2 a b in
  let '(a2, b2) := full_exchange clock2 env3 env4 a1 b1 in
  ∃ n' s', version b2 (local_id a) = Some (n', s') ∧ version a2 (local_id a) = Some (n', s') ∧
    n < n' ∧ (s' = Alive ∨ s' = Joining).
Proof.
  intros Ha Hb Hne Hvb Hs Hn. assert (is_u64 n) as Hnu by by eapply version_u64.
  destruct (wf_self _ Ha) as (e & He & Hst).
  assert (version a (local_id a) = Some (incarnation e, status e)) as Hva
    by (unfold version; by rewrite He).
  set (m := incarnation e) in *. set (st := status e) in *. clearbody m st. clear He e.
  pose proof (full_exchange_wf clock1 env1 env2 a b Ha Hb) as Hwf.
  pose proof (full_exchange_version clock1 env1 env2 a b (local_id a) Ha Hb) as Hv.
  pose proof (full_exchange_self clock1 env1 env2 a b m st Ha Hb Hva) as Hself.
  destruct (full_exchange clock1 env1 env2 a b) as [a1 b1].
  destruct Hwf as (Ha1 & Hb1 & Hla & Hlb). destruct Hv as [Hv _]. specialize (Hv Hne).
  rewrite Hv in Hself.
  assert (∃ n' s', version a1 (local_id a) = Some (n', s') ∧ n < n' ∧ (s' = Alive ∨ s' = Joining) ∧
    vle (vsup (version b (local_id a)) (version a (local_id a))) (Some (n', s'))) as Hagree.
  { rewrite Hvb, Hva in *. simpl in *. unfold vmax, newer in *. simpl in *.
    destruct (decide (n < m ∨ n = m ∧ rank s < rank st)) as [Hlt|Hlt].
    - destruct Hlt as [Hlt|[_ Hr]]; [|destruct Hs as [-> | ->], Hst as [-> | ->]; simpl in Hr; lia].
      exists m, st. repeat split; [|done|done|by left]. destruct Hst as [-> | ->]; done.
    - assert (m ≤ n) by lia. exists (n + 1), Alive. repeat split; [|lia|by left|right; left; simpl; lia].
      rewrite Hself, decide_True by done.
      rewrite u64_add_small by (machine_unfold; lia).
      by destruct Hs as [-> | ->]. }
  destruct Hagree as (n' & s' & Hv1 & Hlt & Hs' & Hle).
  pose proof (exchange_agreed clock2 env3 env4 a1 b1 n' s' Ha1 Hb1) as Hag.
  rewrite Hla, Hlb, Hv in Hag. destruct (full_exchange clock2 env3 env4 a1 b1) as [a2 b2].
  exists n', s'. naive_solver.
Qed.
(** Further: a timeout check moves exactly the members that are due: every other
    member's entry becomes [timeout_entry] of it (Alive for more than 3 s without
    news: Suspect; Suspect for more than 5 s: Dead; else unchanged), the node's own
    entry and the set of members stay. *)
Theorem check_timeouts_exact (now : Z) (t : MembershipTable) (i : NodeId) :
  wf t →
  let t' := check_timeouts now (local_id t) t in
  wf t' ∧ local_id t' = local_id t ∧
  members t' !! i =
    if decide (i = local_id t) then members t !! i else timeout_entry now <$> members t !! i.
Proof.
  intros Hwf t'. destruct (table_steps_wf t t') as [? ?]; [apply check_timeouts_steps|done|].
  split; [done|]. split; [done|]. by apply check_timeouts_lookup.
Qed.

(** C17: the failure detector: a member last heard of at [s] is left alone by
    every check up to [s + 3 s]; if no news of it arrives, the first check after
    [s + 3 s] makes it Suspect and the first later check after [s + 5 s] makes it
    Dead, whatever else the table goes through in between. *)
Theorem crash_detected (now0 now1 now2 : Z) (t t1 t2 : MembershipTable) (i : NodeId)
    (e : MemberEntry) :
  wf t → i ≠ local_id t → members t !! i = Some e → status e = Alive →
  quiet i t t1 → quiet i (check_timeouts now1 (local_id t) t1) t2 →
  now0 ≤ last_seen e + from_secs 3 → last_seen e + from_secs 3 < now1 →
  last_seen e + from_secs 5 < now2 →
  members (check_timeouts now0 (local_id t) t) !! i = Some e ∧
  members (check_timeouts now1 (local_id t) t1) !! i =
    Some (mkMemberEntry (info e) Suspect (incarnation e) (last_seen e)) ∧
  members (check_timeouts now2 (local_id t) t2) !! i =
    Some (mkMemberEntry (info e) Dead (incarnation e) (last_seen e)).
Proof.
  intros Hwf Hi He Ha [Hr1 Hq1] [Hr2 Hq2] Hn0 Hn1 Hn2.
  destruct (table_steps_wf _ _ Hr1 Hwf) as [Hwf1 Hl1]. rewrite <- Hl1 in *.
  destruct (table_steps_wf _ _ (check_timeouts_steps now1 t1) Hwf1) as [Hwfc Hlc].
  destruct (table_steps_wf _ _ Hr2 Hwfc) as [Hwf2 Hl2].
  assert (local_id t2 = local_id t1) as Hl2' by (by rewrite Hl2).
  assert (members (check_timeouts now1 (local_id t1) t1) !! i =
    Some (mkMemberEntry (info e) Suspect (incarnation e) (last_seen e))) as H1.
  { rewrite check_timeouts_lookup, decide_False, Hq1, He by done. simpl. f_equal.
    unfold timeout_entry. rewrite Ha. case_match; [done|]. bool_facts.
    unfold SUSPECT_TIMEOUT in *. time_unfold. lia. }
  split; [|split; [done|]].
  - rewrite Hl1, check_timeouts_lookup, decide_False, He by congruence. simpl. f_equal.
    unfold timeout_entry. rewrite Ha. case_match; [|done]. bool_facts.
    unfold SUSPECT_TIMEOUT in *. time_unfold. lia.
  - rewrite <- Hl2', check_timeouts_lookup, decide_False, Hq2, H1 by congruence. simpl. f_equal.
    unfold timeout_entry. simpl. case_match; [done|]. bool_facts.
    unfold DEAD_TIMEOUT in *. time_unfold. lia.
Qed.

(** Further: a member that crashes while it is Joining is never detected: no sequence
    of timeout checks, however late, changes its entry. *)
Theorem joining_never_suspected (t : MembershipTable) (i : NodeId) (e : MemberEntry)
    (nows : list Z) :
  wf t → members t !! i = Some e → status e = Joining →
  members (foldl (λ u now, check_timeouts now (local_id u) u) t nows) !! i = Some e.
Proof.
  intros Hwf He Hj. revert t Hwf He. induction nows as [|now nows IH]; intros t Hwf He; simpl; [done|].
  apply IH.
  - by apply (table_steps_wf t); [apply check_timeouts_steps|].
  - rewrite check_timeouts_lookup, He by done. case_decide; simpl; [done|].
    unfold timeout_entry. by rewrite Hj.
Qed.

(** Further: the handlers are table operations: whatever a node sends, receives (any
    well-typed message, genuine or not) or times out on, its table moves by
    [table_step]s; so it stays well-formed, keeps its identity, and never loses
    news of another member. *)
Theorem gossip_refines_table (t t' : MembershipTable) :
  wf t → rtc gossip_step t t' →
  rtc table_step t t' ∧ wf t' ∧ local_id t' = local_id t ∧
  ∀ i, i ≠ local_id t → vle (version t i) (version t' i).
Proof.
  intros Hwf Hr. assert (rtc table_step t t') as Hs.
  { clear Hwf. induction Hr as [|t u v Hu _ IH]; [done|]. etrans; [|exact IH].
    by apply gossip_step_steps. }
  split; [done|]. destruct (table_steps_wf _ _ Hs Hwf) as [??]. split; [done|].
  split; [done|]. intros i. by apply table_steps_vle.
Qed.

(** Further: a round sends one message to each of at most three distinct members it
    holds for Alive or Joining, never to itself; failed sends leave the table as it
    is, so no member is suspected for a failed send alone. *)
Theorem gossip_round_sends (env : nat → Env)
    (send : nat → string → GossipMessage → option GossipMessage) (draw : nat)
    (choose : nat → list MemberEntry → list MemberEntry) (t : MembershipTable) :
  chooses choose → (1 ≤ draw ≤ 3)%nat →
  let '(sent, t') := gossip_round env send draw choose t in
  (∃ targets, targets ⊆+ alive_peers t ∧ (length targets ≤ 3)%nat ∧
     length targets = (length (alive_peers t) `min` draw)%nat ∧
     sent.*1 = (λ e, addr (info e)) <$> targets) ∧
  ((∀ k a m, send k a m = None) → t' = t).
Proof.
  intros Hch Hd.
  assert (∀ targets k u,
    (gossip_targets env send k targets u).1.*1 = (λ e, addr (info e)) <$> targets ∧
    ((∀ k a m, send k a m = None) → (gossip_targets env send k targets u).2 = u)) as Ht.
  { induction targets as [|e targets IH]; intros k u; simpl; [done|].
    match goal with |- context [gossip_targets env send (S k) targets ?w] => set (w' := w) end.
    destruct (IH (S k) w') as [IH1 IH2].
    destruct (gossip_targets env send (S k) targets w') as [sent t2]. simpl in *.
    split; [by f_equal|]. intros Hnone. rewrite IH2 by done. unfold w'. by rewrite Hnone. }
  destruct (gossip_round env send draw choose t) as [sent t'] eqn:E. unfold gossip_round in E.
  destruct (alive_peers t) as [|p ps] eqn:Ep.
  - simplify_eq. split; [|done]. exists []. repeat split; [done|simpl; lia].
  - set (n := (length (p :: ps) `min` draw)%nat) in *.
    destruct (Hch n (p :: ps)) as [Hlen Hsub]; [unfold n; lia|].
    destruct (Ht (choose n (p :: ps)) 0%nat t) as [H1 H2]. rewrite E in *. cbn [fst snd] in *.
    split; [|done]. exists (choose n (p :: ps)).
    rewrite Hlen. split; [done|]. split; [unfold n; lia|done].
Qed.

(** Further: a node that holds every other member for Suspect or Dead is cut off for
    good: its rounds send nothing and its timeouts bring nobody back, so two
    nodes that do so of each other never exchange a message again, even when the
    network between them works. *)
Theorem partition_never_heals (t : MembershipTable)
    (sent : list (string * GossipMessage)) (t1 t2 : MembershipTable) :
  wf t → (∀ i e, i ≠ local_id t → members t !! i = Some e → status e = Suspect ∨ status e = Dead) →
  rtc (λ u v, ∃ out, local_step u out v) t t1 → local_step t1 sent t2 →
  sent = [] ∧ alive_peers t2 = [].
Proof.
  intros Hwf Hall Hr Hl. assert (silenced t1) as Hsil.
  { refine (rtc_invariant (λ u v, ∃ out, local_step u out v) silenced _ t _ Hr _); [|done].
    intros u v Hu [out Hout]. by apply (silenced_step u out). }
  destruct (silenced_step _ _ _ Hsil Hl) as [? ?]. split; [done|]. by apply silenced_no_peers.
Qed.

(** Further: the identifier made up for a seed address is never replaced: after an
    exchange with the node that serves that address, the asking node still holds
    the placeholder as a member of its own, Alive as before, and the answering
    node has learnt of it too. *)
Theorem seed_placeholder_spreads (clock : nat → Z) (env_b env_a : Env) (a b : MembershipTable)
    (p : NodeId) :
  wf a → wf b → p ≠ local_id a → p ≠ local_id b →
  version a p = Some (0, Alive) → version b p = None →
  let '(a', b') := full_exchange clock env_b env_a a b in
  version a' p = Some (0, Alive) ∧ version b' p = Some (0, Alive).
Proof.
  intros Ha Hb Hpa Hpb Hva Hvb.
  pose proof (full_exchange_version clock env_b env_a a b p Ha Hb) as Hv.
  destruct (full_exchange clock env_b env_a a b) as [a' b']. destruct Hv as [Hv1 Hv2].
  rewrite Hv2, Hv1, Hva, Hvb by done. done.
Qed.

(** Further: a node never learns its own address: unless its own identifier is among
    its seeds, it advertises the empty address in every message it ever sends. *)
Theorem self_addr_never_set (now : Z) (i : NodeId) (seeds : list NodeInfo) (t : MembershipTable)
    (clock : nat → Z) (m : ProtoMemberEntry) :
  (∀ n, n ∈ seeds → id n ≠ i) → rtc gossip_step (new now i seeds) t →
  m ∈ msg_members (build_gossip_message clock t) → m_node_id m = NodeId_to_string i →
  m_addr m = "".
Proof.
  intros Hn Hr Hm Hid.
  assert (wf t ∧ local_id t = i ∧ local_addr t = "") as (Hwf & Hl & Hla).
  { apply (rtc_invariant gossip_step (λ u, wf u ∧ local_id u = i ∧ local_addr u = "")) in Hr; auto.
    - intros u v (Hu & <- & Hau) Hs%gossip_step_steps.
      apply (rtc_invariant table_step (λ w, wf w ∧ local_id w = local_id u ∧ local_addr w = "")) in Hs; auto.
      intros w w' (Hw & <- & Haw) Hst. split; [by eapply table_step_wf|].
      split; [by apply table_step_local_id|]. by rewrite (table_step_local_addr w).
    - split; [apply table_new_wf|]. split; [done|]. by apply new_local_addr. }
  simpl in Hm. apply elem_of_lookup_imap in Hm as (k & e & -> & Hk).
  apply list_elem_of_lookup_2, elem_of_all_members in Hk; [|done]. simpl in *.
  apply (f_equal NodeId_parse) in Hid. rewrite !NodeId_parse_to_string in Hid.
  injection Hid as Hid. unfold local_addr in Hla. rewrite Hl, <- Hid, Hk in Hla. done.
Qed.
End properties.

(** ** Witnesses: nodes [a], seeded with the address of [b], and [b] *)

Section witnesses.
#[local] Existing Instance Examples.string_uuid.
#[local] Existing Instance Examples.sorted_iter.
Import MembershipTable Gossip.

Definition ex_env : Env :=
  mkEnv (λ _, from_secs 1) (from_secs 1) (λ _, from_secs 2) (λ _, "fresh"%string).
Definition ex_start (now : Z) (name : string) (seeds : list NodeInfo) : MembershipTable :=
  new now (ex_id name) seeds.
Definition ex_a : MembershipTable := ex_start 0 "a" [mkNodeInfo (ex_id "p") "b:5001"].
Definition ex_b : MembershipTable := ex_start 0 "b" [].
Definition ex_b_suspects : MembershipTable :=
  merge (λ _, 0) [(ex_id "a", "a:5001"%string, Dead, 2)] ex_b.
Definition ex_take (n : nat) (l : list MemberEntry) : list MemberEntry := take n l.

Lemma ex_chooses : chooses ex_take.
Proof.
  intros n l Hn. split; [unfold ex_take; rewrite length_take; lia|].
  apply sublist_submseteq, sublist_take.
Qed.
Lemma ex_b_suspects_wf : wf ex_b_suspects.
Proof.
  apply merge_wf; [apply table_new_wf|]. intros r Hr. apply list_elem_of_singleton in Hr as ->. by compute.
Qed.

Lemma exchange_agrees_witness :
  let '(a', b') := full_exchange (λ _, 0) ex_env ex_env ex_a ex_b in
  version a' (ex_id "p") = version b' (ex_id "p") ∧ version b' (ex_id "p") = Some (0, Alive).
Proof.
  pose proof (exchange_agrees (λ _, 0) ex_env ex_env ex_a ex_b (table_new_wf _ _ _) (table_new_wf _ _ _)) as H.
  destruct (full_exchange _ _ _ _ _) as [a' b']. destruct H as [_ H].
  destruct (H (ex_id "p")) as [H1 H2]; [vm_compute; discriminate|vm_compute; discriminate|].
  split; [exact H1|]. rewrite H2. vm_compute. reflexivity.
Defined.

Lemma exchange_heals_witness :
  let '(a1, b1) := full_exchange (λ _, 0) ex_env ex_env ex_a ex_b_suspects in
  let '(a2, b2) := full_exchange (λ _, 0) ex_env ex_env a1 b1 in
  ∃ n s, version b2 (ex_id "a") = Some (n, s) ∧ version a2 (ex_id "a") = Some (n, s) ∧
    2 < n ∧ (s = Alive ∨ s = Joining).
Proof.
  apply (exchange_heals (λ _, 0) (λ _, 0) ex_env ex_env ex_env ex_env ex_a ex_b_suspects 2 Dead).
  - apply table_new_wf.
  - exact ex_b_suspects_wf.
  - vm_compute. discriminate.
  - vm_compute. reflexivity.
  - by right.
  - by compute.
Defined.

Lemma check_timeouts_exact_witness :
  members (check_timeouts (from_secs 4) (ex_id "a") ex_a) !! ex_id "p" =
  Some (mkMemberEntry (mkNodeInfo (ex_id "p") "b:5001") Suspect 0 0).
Proof.
  destruct (check_timeouts_exact (from_secs 4) ex_a (ex_id "p") (table_new_wf _ _ _)) as (_ & _ & H).
  etransitivity; [exact H|]. vm_compute. reflexivity.
Defined.

Lemma crash_detected_witness :
  members (check_timeouts (from_secs 6) (ex_id "a")
    (check_timeouts (from_secs 4) (ex_id "a") ex_a)) !! ex_id "p" =
  Some (mkMemberEntry (mkNodeInfo (ex_id "p") "b:5001") Dead 0 0).
Proof.
  apply (crash_detected (from_secs 3) (from_secs 4) (from_secs 6) ex_a ex_a
    (check_timeouts (from_secs 4) (ex_id "a") ex_a) (ex_id "p")
    (mkMemberEntry (mkNodeInfo (ex_id "p") "b:5001") Alive 0 0));
    [apply table_new_wf|vm_compute; discriminate|vm_compute; reflexivity|reflexivity
    |split; reflexivity|split; reflexivity|by compute..].
Defined.

Lemma joining_never_suspected_witness :
  members (foldl (λ u now, check_timeouts now (local_id u) u)
    (gossip_exchange ex_env (build_gossip_message (λ _, 0) ex_a) ex_b).1
    [from_secs 10; from_secs 1000]) !! ex_id "a" =
  Some (mkMemberEntry (mkNodeInfo (ex_id "a") "") Joining 0 (from_secs 1)).
Proof.
  apply joining_never_suspected; [|vm_compute; reflexivity|reflexivity].
  apply (table_steps_wf ex_b); [|apply table_new_wf].
  apply exchange_steps, build_message_u64, table_new_wf.
Defined.

Lemma gossip_refines_table_witness :
  rtc table_step ex_a (check_timeouts (from_secs 4) (ex_id "a") ex_a).
Proof.
  apply (gossip_refines_table ex_a); [apply table_new_wf|].
  apply rtc_once, (gossip_local ex_a []). apply (local_timeouts ex_a).
Defined.

Lemma gossip_round_sends_witness :
  (gossip_round (λ _, ex_env) (λ _ _ _, None) 3 ex_take ex_a).2 = ex_a.
Proof.
  pose proof (gossip_round_sends (λ _, ex_env) (λ _ _ _, None) 3 ex_take ex_a ex_chooses
    ltac:(lia)) as H.
  destruct (gossip_round _ _ _ _ _) as [sent t']. apply (proj2 H). reflexivity.
Defined.

Lemma partition_never_heals_witness :
  alive_peers (check_timeouts (from_secs 100) (ex_id "b") ex_b_suspects) = [].
Proof.
  apply (partition_never_heals ex_b_suspects [] ex_b_suspects).
  - exact ex_b_suspects_wf.
  - intros i e Hi He.
    assert (e ∈ all_members ex_b_suspects) as Hin.
    { apply list_elem_of_fmap. exists (i, e). by rewrite elem_of_hash_iter. }
    apply list_elem_of_In in Hin. vm_compute in Hin. destruct Hin as [<-|[<-|[]]].
    + by right.
    + exfalso. apply Hi. change (local_id ex_b_suspects) with (ex_id "b").
      by destruct (wf_entry _ ex_b_suspects_wf _ _ He) as [<- _].
  - reflexivity.
  - apply (local_timeouts ex_b_suspects).
Defined.

Lemma seed_placeholder_spreads_witness :
  let '(a', b') := full_exchange (λ _, 0) ex_env ex_env ex_a ex_b in
  version a' (ex_id "p") = Some (0, Alive) ∧ version b' (ex_id "p") = Some (0, Alive).
Proof.
  apply (seed_placeholder_spreads (λ _, 0) ex_env ex_env ex_a ex_b (ex_id "p"));
    [apply table_new_wf|apply table_new_wf|vm_compute; discriminate|vm_compute; discriminate
    |vm_compute; reflexivity|vm_compute; reflexivity].
Defined.

Lemma self_addr_never_set_witness :
  m_addr (mkProtoMemberEntry "a" "" 3 0 0) = "".
Proof.
  apply (self_addr_never_set 0 (ex_id "a") [mkNodeInfo (ex_id "p") "b:5001"] ex_a (λ _, 0)).
  - intros n Hn. apply list_elem_of_singleton in Hn as ->. vm_compute. discriminate.
  - reflexivity.
  - vm_compute. left.
  - reflexivity.
Defined.
End witnesses.
