(* ===== verification/GossipLoop.v ===== *)
(** * The gossip loop of a node

    [GossipProtocol::run] ([crates/node/src/gossip/protocol.rs]): at every tick a
    round, then a timeout check.  What the handlers do to the table in between is in
    [GossipNetwork]; this file is about the loop of a node that nobody answers. *)

From S2P Require Import Prelude Machine Text Common Membership Gossip.
Local Open Scope Z_scope.

Module GossipLoop.
Import MembershipTable Gossip.

Section loop.
Context `{UuidLib} `{HashIter}.

(** What one tick reads of its environment: the round's, and the time of the check. *)
Record Tick := mkTick {
  tick_env : nat → Env;
  tick_send : nat → string → GossipMessage → option GossipMessage;
  tick_draw : nat;
  tick_choose : nat → list MemberEntry → list MemberEntry;
  tick_now : Z;
}.

(** The messages sent and the table after some ticks of the endless loop. *)
Fixpoint run (local : NodeId) (ticks : list Tick) (t : MembershipTable)
    : list (string * GossipMessage) * MembershipTable :=
  match ticks with
  | [] => ([], t)
  | k :: ticks' =>
      let '(sent, t1) := gossip_round (tick_env k) (tick_send k) (tick_draw k) (tick_choose k) t in
      let t2 := check_timeouts (tick_now k) local t1 in
      let '(more, t3) := run local ticks' t2 in
      (sent ++ more, t3)
  end.

(** ** Specifications *)

(** Nobody answers. *)
Definition unanswered (k : Tick) : Prop := ∀ j a m, tick_send k j a m = None.

(** The checks that come more than 5 s after some time. *)
Definition late (since : Z) (ticks : list Tick) : list Tick :=
  List.filter (λ k, since + from_secs 5 <? tick_now k) ticks.

(** An entry, given up; joining ones are not. *)
Definition buried (e : MemberEntry) : MemberEntry :=
  match status e with
  | Joining => e
  | _ => mkMemberEntry (info e) Dead (incarnation e) (last_seen e)
  end.
End loop.
End GossipLoop.

(** ** Lemmas *)

Section lemmas.
Context `{UuidLib} `{HashIter}.
Import MembershipTable Gossip GossipLoop.

Lemma unanswered_targets env send targets :
  (∀ j a m, send j a m = None) → ∀ k t, (gossip_targets env send k targets t).2 = t.
Proof.
  intros Hs. induction targets as [|e targets IH]; intros k t; [done|]. cbn [gossip_targets].
  rewrite Hs. specialize (IH (S k) t). by destruct (gossip_targets env send (S k) targets t).
Qed.

Lemma unanswered_round k t : unanswered k →
  (gossip_round (tick_env k) (tick_send k) (tick_draw k) (tick_choose k) t).2 = t.
Proof. intros Hk. unfold gossip_round. destruct (alive_peers t); [done|]. by apply unanswered_targets. Qed.

(** Unanswered, the loop is its timeout checks. *)
Lemma unanswered_run local ticks t : Forall unanswered ticks →
  (run local ticks t).2 = foldl (λ u k, check_timeouts (tick_now k) local u) t ticks.
Proof.
  intros Hun. revert t. induction Hun as [|k ticks Hk _ IH]; intros t; [done|]. cbn [run foldl].
  pose proof (unanswered_round k t Hk) as Hr. destruct (gossip_round _ _ _ _ _) as [sent t1].
  cbn [snd] in Hr. subst t1. rewrite <- IH. by destruct (run local ticks _).
Qed.

Lemma checks_lookup ticks : ∀ t j, wf t →
  let t' := foldl (λ u k, check_timeouts (tick_now k) (local_id t) u) t ticks in
  wf t' ∧ local_id t' = local_id t ∧
  members t' !! j =
    if decide (j = local_id t) then members t !! j
    else (λ e, foldl (λ e k, timeout_entry (tick_now k) e) e ticks) <$> members t !! j.
Proof.
  induction ticks as [|k ticks IH]; intros t j Hwf; cbn [foldl].
  { split; [done|]. split; [done|]. case_decide; [done|]. by destruct (members t !! j). }
  destruct (table_steps_wf t _ (check_timeouts_steps (tick_now k) t) Hwf) as [Hwf1 Hl1].
  destruct (IH _ j Hwf1) as (Hw & Hl & Hj). rewrite Hl1 in *. split; [done|]. split; [done|].
  rewrite Hj, check_timeouts_lookup by done. case_decide; [done|]. by destruct (members t !! j).
Qed.

Lemma late_cons s k ticks : late s (k :: ticks) =
  (if s + from_secs 5 <? tick_now k then [k] else []) ++ late s ticks.
Proof. unfold late. cbn [List.filter]. by destruct (_ <? _). Qed.

Lemma due now s n : s + from_secs n < now → n ≤ 5 → 0 ≤ n → from_secs n < saturating_duration_since now s.
Proof. time_unfold. lia. Qed.

(** Two late checks bury an entry, one is enough for a suspect. *)
Lemma entry_buried ticks : ∀ e,
  status e = Joining ∨ status e = Dead ∨
  (status e = Suspect ∧ (1 ≤ length (late (last_seen e) ticks))%nat) ∨
  (status e = Alive ∧ (2 ≤ length (late (last_seen e) ticks))%nat) →
  foldl (λ e k, timeout_entry (tick_now k) e) e ticks = buried e.
Proof.
  induction ticks as [|k ticks IH]; intros [i s n ls] Hs; cbn [status last_seen] in Hs.
  { destruct Hs as [->|[->|[[_ Hl]|[_ Hl]]]]; [done..|cbn in Hl; lia|cbn in Hl; lia]. }
  cbn [foldl]. rewrite late_cons, length_app in Hs. unfold timeout_entry at 2. cbn [status last_seen info incarnation].
  unfold buried. cbn [status info incarnation last_seen].
  destruct Hs as [->|[->|[[-> Hl]|[-> Hl]]]].
  - by rewrite IH by (left; done).
  - by rewrite IH by (right; left; done).
  - destruct (ls + from_secs 5 <? tick_now k) eqn:Hk.
    + bool_facts. unfold DEAD_TIMEOUT. rewrite (proj2 (Z.ltb_lt _ _)) by (by apply due).
      by rewrite IH by (right; left; done).
    + cbn in Hl. case_match; [by rewrite IH by (right; left; done)|].
      by rewrite IH by (right; right; left; done).
  - destruct (ls + from_secs 5 <? tick_now k) eqn:Hk.
    + bool_facts. unfold SUSPECT_TIMEOUT. rewrite (proj2 (Z.ltb_lt _ _)).
      2:{ apply due; [|done..]. revert Hk. time_unfold. lia. }
      cbn in Hl. rewrite IH; [done|]. right; right; left. cbn. split; [done|lia].
    + cbn in Hl. case_match.
      * rewrite IH; [done|]. right; right; left. cbn. split; [done|lia].
      * by rewrite IH by (right; right; right; done).
Qed.
End lemmas.

(** ** Properties *)

Section properties.
Context `{UuidLib} `{HashIter}.
Import MembershipTable Gossip GossipLoop.

(** C18: a node that nobody answers gives everybody up: whatever its rounds choose, once two
    of its timeout checks have come more than 5 s after it last heard of the others
    (one is enough for those already suspected), it holds every other member for dead,
    at the incarnation and address it knew, those apart that were joining, which it
    never gives up; and if there are none of these, its loop sends nothing any more,
    even when it would be answered again.  So after a partition that lasted that long on
    both sides nobody sends a suspicion that the others could refute, although the
    README (Failure Modes) promises recovery by refutation on reconnect. *)
Theorem isolated_node_gives_up (ticks later : list Tick) (t : MembershipTable) :
  wf t → Forall unanswered ticks →
  (∀ i e, i ≠ local_id t → members t !! i = Some e →
     (2 ≤ length (late (last_seen e) ticks))%nat ∨
     status e = Suspect ∧ (1 ≤ length (late (last_seen e) ticks))%nat) →
  let t' := (run (local_id t) ticks t).2 in
  (∀ i, members t' !! i = if decide (i = local_id t) then members t !! i else buried <$> members t !! i) ∧
  ((∀ i e, i ≠ local_id t → members t !! i = Some e → status e ≠ Joining) →
   (run (local_id t) later t').1 = []).
Proof.
  intros Hwf Hun Hlate t'.
  assert (∀ i, members t' !! i =
    if decide (i = local_id t) then members t !! i else buried <$> members t !! i) as Hm.
  { intros i. unfold t'. rewrite (unanswered_run _ _ _ Hun).
    destruct (checks_lookup ticks t i Hwf) as (_ & _ & ->). case_decide as Hi; [done|].
    destruct (members t !! i) as [e|] eqn:He; [|done]. cbn. f_equal. apply entry_buried.
    destruct (Hlate i e Hi He) as [Hl|[Hs Hl]]; [|tauto].
    destruct (status e); [tauto| |tauto|tauto]. right; right; left. split; [done|lia]. }
  split; [done|]. intros Hj. assert (silenced t' ∧ local_id t' = local_id t) as [Hs Hl].
  { unfold t' in *. rewrite (unanswered_run _ _ _ Hun) in *.
    destruct (checks_lookup ticks t (local_id t) Hwf) as (Hw & Hl & _). split; [|done].
    split; [done|]. intros i e. rewrite Hl, Hm. intros Hi. rewrite decide_False by done.
    intros (e0 & He0 & ->)%fmap_Some. right. unfold buried. specialize (Hj i e0 Hi He0).
    by destruct (status e0). }
  clearbody t'. clear Hm Hj Hlate Hun. revert t' Hs Hl. induction later as [|k later IH]; intros u Hs Hl; [done|].
  cbn [run]. unfold gossip_round. rewrite (silenced_no_peers u Hs). rewrite <- Hl.
  destruct (silenced_step u [] _ Hs (local_timeouts u (tick_now k))) as [_ Hs'].
  pose proof (IH _ Hs') as IHk. rewrite Hl in *. destruct (run (local_id t) later _) as [more t3].
  cbn [fst app] in *. apply IHk. destruct Hs as [Hw _].
  destruct (table_steps_wf u _ (check_timeouts_steps (tick_now k) u) Hw) as [_ Hlk]. by rewrite <- Hl in *.
Qed.
End properties.

(** ** Witnesses *)

Section witnesses.
#[local] Existing Instance Examples.string_uuid.
#[local] Existing Instance Examples.sorted_iter.
Import MembershipTable Gossip GossipLoop.

Definition ex_tick (secs : Z) : Tick := mkTick (λ _, ex_env) (λ _ _ _, None) 2 ex_take (from_secs secs).
Definition ex_ticks : list Tick := [ex_tick 1; ex_tick 4; ex_tick 6; ex_tick 7].
Definition ex_answered (secs : Z) : Tick :=
  mkTick (λ _, ex_env) (λ _ _ m, Some m) 2 ex_take (from_secs secs).

Lemma ex_a_members i e : i ≠ ex_id "a" → members ex_a !! i = Some e →
  status e = Alive ∧ last_seen e = 0.
Proof.
  intros Hi He. destruct (new_lookup _ _ _ _ _ He) as [[? _]|(_ & m & _ & _ & ->)]; done.
Qed.

Lemma isolated_node_gives_up_witness :
  alive_peers ex_a ≠ [] ∧ (run (ex_id "a") [ex_answered 8] (run (ex_id "a") ex_ticks ex_a).2).1 = [].
Proof.
  split; [vm_compute; discriminate|].
  apply (isolated_node_gives_up ex_ticks [ex_answered 8] ex_a).
  - apply table_new_wf.
  - by repeat constructor.
  - intros i e Hi He. left. rewrite (proj2 (ex_a_members i e Hi He)). vm_compute. lia.
  - intros i e Hi He. rewrite (proj1 (ex_a_members i e Hi He)). discriminate.
Defined.
End witnesses.
