(* ===== verification/GossipNetwork.v ===== *)
(** * Gossip in the whole cluster

    The gossip handlers of [Gossip] at every node of a cluster, over a network that
    may lose, delay, duplicate and reorder messages: the messages ever sent form a
    soup, and a delivery hands any of them to any node, as a request or as a
    response.  A node may be started at any time, also under an identifier that ran
    before, with a new table (the program keeps nothing on disk); a node that crashes is
    one that takes no more steps. *)

From S2P Require Import Prelude Machine Text Common Membership Gossip.
Local Open Scope Z_scope.

Module GossipNetwork.
Import MembershipTable Gossip.

Section network.
Context `{UuidLib} `{HashIter}.

Record System := mkSystem {
  tables : gmap NodeId MembershipTable;
  soup : list GossipMessage;
}.

Definition empty : System := mkSystem ∅ [].

Definition update (s : System) (i : NodeId) (t : MembershipTable) (sent : list GossipMessage)
    : System := mkSystem (<[i := t]> (tables s)) (sent ++ soup s).

(** [may_start] says which nodes may be started in which states. *)
Inductive net_step (may_start : System → NodeId → Prop) (s : System) : System → Prop :=
  | net_start now i seeds : may_start s i →
      net_step may_start s (update s i (new now i seeds) [])
  | net_send i t clock : tables s !! i = Some t →
      net_step may_start s (update s i t [build_gossip_message clock t])
  | net_request i t env msg : tables s !! i = Some t → msg ∈ soup s →
      net_step may_start s (update s i (gossip_exchange env msg t).1 [(gossip_exchange env msg t).2])
  | net_response i t env now target msg : tables s !! i = Some t → msg ∈ soup s →
      net_step may_start s (update s i (process_gossip_response env msg (touch now target t)) [])
  | net_timeouts i t now : tables s !! i = Some t →
      net_step may_start s (update s i (check_timeouts now i t) [])
  | net_rebalanced i t : tables s !! i = Some t →
      net_step may_start s (update s i (mark_self_alive t) []).

(** The incarnation of a node is what its own table says. *)
Definition own (s : System) (i : NodeId) : Z :=
  match tables s !! i with Some t => local_incarnation t | None => 0 end.

(** The steps of the program, where a node may be started whenever one likes; and those
    that do not start a node [i] that ran before, nor let its incarnation wrap around. *)
Definition any_step : relation System := net_step (λ _ _, True).
Definition once (i : NodeId) (s : System) (j : NodeId) : Prop := j = i → tables s !! i = None.
Definition unbroken (i : NodeId) (s s' : System) : Prop := own s i < u64_max ∧ net_step (once i) s s'.

(** The states that lead to a state, the last one first. *)
Inductive history (step : relation System) : list System → System → Prop :=
  | history_empty : history step [] empty
  | history_step h s s' : history step h s → step s s' → history step (s :: h) s'.

(** The greatest incarnation a node has had. *)
Definition peak (h : list System) (i : NodeId) : Z := foldr (λ s m, Z.max (own s i) m) 0 h.

(** No claim of an incarnation above [B]. *)
Definition bounded (B : NodeId → Z) (t : MembershipTable) : Prop :=
  ∀ i n st, version t i = Some (n, st) → n ≤ B i.
Definition bounded_entries (B : NodeId → Z) (rs : list RemoteEntry) : Prop :=
  ∀ r, r ∈ rs → r.2 ≤ B (entry_id r).

Record inv (B : NodeId → Z) (s : System) : Prop := {
  inv_own : ∀ i, 0 ≤ own s i ≤ B i;
  inv_table : ∀ j t, tables s !! j = Some t → wf t ∧ local_id t = j ∧ bounded B t;
  inv_soup : ∀ msg, msg ∈ soup s → message_u64 msg ∧
    ∀ uuids, bounded_entries B (entries_of_message uuids msg);
}.
End network.
End GossipNetwork.

(** ** Lemmas *)

Section lemmas.
Context `{UuidLib} `{HashIter}.
Import MembershipTable Gossip GossipNetwork.
Implicit Types (t : MembershipTable) (i j : NodeId) (s : System).

Lemma own_version t : wf t → ∃ st, version t (local_id t) = Some (local_incarnation t, st).
Proof.
  intros Hwf. destruct (wf_self _ Hwf) as (e & He & _). exists (status e).
  unfold version, local_incarnation. by rewrite He.
Qed.

Lemma local_incarnation_u64 t : wf t → is_u64 (local_incarnation t).
Proof. intros Hwf. destruct (own_version t Hwf) as [st Hv]. by eapply version_u64. Qed.

Lemma own_update s i t sent j :
  own (update s i t sent) j = if decide (j = i) then local_incarnation t else own s j.
Proof.
  unfold own. simpl. case_decide as Hj; [subst; by rewrite lookup_insert_eq|by rewrite lookup_insert_ne].
Qed.

Lemma bounded_mono B B' t : (∀ i, B i ≤ B' i) → bounded B t → bounded B' t.
Proof. intros HB Ht i n st Hv. specialize (Ht i n st Hv). specialize (HB i). lia. Qed.

Lemma bounded_view B t : wf t → bounded B t → bounded_entries B (view t).
Proof.
  intros Hwf Ht r (e & -> & He)%list_elem_of_fmap. apply elem_of_all_members in He; [|done].
  apply (Ht _ _ (status e)). unfold version, remote_of, entry_id in *. simpl. by rewrite He.
Qed.

(** A step of one node keeps the invariant, when what its table claims of the others
    stays within the bounds. *)
Lemma inv_update B s i t' clocks : inv B s → wf t' → local_id t' = i →
  (∀ j n st, j ≠ i → version t' j = Some (n, st) → n ≤ B j) →
  let s' := update s i t' ((λ clock, build_gossip_message clock t') <$> clocks) in
  inv (λ j, Z.max (own s' j) (B j)) s'.
Proof.
  intros Hi Hwf Hl Hv s'. set (B' := λ j, Z.max (own s' j) (B j)).
  assert (∀ j, B j ≤ B' j) as Hmono by (intros j; unfold B'; lia).
  assert (own s' i = local_incarnation t') as Hown by (unfold s'; by rewrite own_update, decide_True).
  assert (bounded B' t') as Hb.
  { intros j n st Hj. destruct (decide (j = i)) as [->|Hji]; [|specialize (Hv j n st Hji Hj); unfold B'; lia].
    destruct (own_version t' Hwf) as [st' Hst]. rewrite Hl in Hst. simplify_eq. unfold B'. lia. }
  split.
  - intros j. split; [|unfold B'; lia]. unfold s'. rewrite own_update.
    case_decide; [by apply local_incarnation_u64|apply (inv_own _ _ Hi)].
  - intros j t Hj. unfold s' in Hj. simpl in Hj.
    apply lookup_insert_Some in Hj as [[<- <-]|[Hne Hj]]; [done|].
    destruct (inv_table _ _ Hi _ _ Hj) as (Hw & Hlj & Hbj). split; [done|].
    split; [done|]. by eapply bounded_mono.
  - intros msg Hmsg. apply elem_of_app in Hmsg as [(clock & -> & _)%list_elem_of_fmap|Hmsg].
    + split; [by apply build_message_u64|]. intros uuids. rewrite entries_of_build.
      by apply bounded_view.
    + destruct (inv_soup _ _ Hi _ Hmsg) as [Hu Hbm]. split; [done|]. intros uuids r Hr.
      specialize (Hbm uuids r Hr). specialize (Hmono (entry_id r)). lia.
Qed.

(** Merging entries that are within the bounds. *)
Lemma merge_bounded B clock rs t : wf t → entries_u64 rs → bounded_entries B rs → bounded B t →
  ∀ j n st, j ≠ local_id t → version (merge clock rs t) j = Some (n, st) → n ≤ B j.
Proof.
  intros Hwf Hu Hrs Ht j n st Hj. rewrite merge_version by done.
  destruct (foldl_vjoin_cases (versions_of j rs) (version t j)) as [->|(v & Hv & ->)]; [apply Ht|].
  intros [= ->]. apply elem_of_versions_of in Hv as (r & Hr & <- & Heq).
  specialize (Hrs r Hr). unfold entry_version in Heq. by simplify_eq.
Qed.

Lemma merge_own B clock rs t : wf t → entries_u64 rs → bounded_entries B rs →
  B (local_id t) < u64_max → B (local_id t) = local_incarnation t →
  let t' := merge clock rs t in
  (local_incarnation t' = local_incarnation t ∧
     local_incarnation t ∉ suspicions (local_id t) rs) ∨
  (local_incarnation t' = local_incarnation t + 1 ∧
     version t' (local_id t) = Some (local_incarnation t + 1, Alive)).
Proof.
  intros Hwf Hu Hrs Hlt HB t'. destruct (wf_self _ Hwf) as (e & He & _).
  assert (local_incarnation t = incarnation e) as Hloc by (unfold local_incarnation; by rewrite He).
  assert (∀ m, m ∈ suspicions (local_id t) rs → 0 ≤ m ≤ incarnation e) as Hsus.
  { intros m (r & Hr & Hid & <- & _)%elem_of_suspicions.
    pose proof (Hu r Hr) as Hru. pose proof (Hrs r Hr) as Hrb. rewrite Hid in Hrb.
    unfold entry_version, is_u64 in *. simpl in *. lia. }
  destruct (foldl_refute (suspicions (local_id t) rs) e) as (_ & _ & Hge & Hall & Hcases).
  { by apply (wf_entry _ Hwf _ _ He). }
  { intros m Hm. specialize (Hsus m Hm). lia. }
  assert (members t' !! local_id t = Some (foldl refute e (suspicions (local_id t) rs))) as Hm
    by by apply merge_self.
  assert (local_incarnation t' = incarnation (foldl refute e (suspicions (local_id t) rs))) as ->
    by (unfold local_incarnation, t'; rewrite merge_local_id; fold t'; by rewrite Hm).
  unfold version. rewrite Hm. rewrite Hloc in *. destruct Hcases as [[Hinc _]|(m & Hin & Hle & Hinc & Hst)].
  - left. split; [done|]. intros Hin. specialize (Hall _ Hin). lia.
  - right. specialize (Hsus m Hin). assert (m = incarnation e) as -> by lia.
    split; [done|]. simpl. by rewrite Hinc, Hst.
Qed.

Lemma touch_bounded B now i t : bounded B t → bounded B (touch now i t).
Proof. intros Ht j n st. rewrite touch_version. apply Ht. Qed.

Lemma local_incarnation_version t t' : wf t → wf t' → local_id t' = local_id t →
  version t' (local_id t) = version t (local_id t) → local_incarnation t' = local_incarnation t.
Proof.
  intros Hwf Hwf' Hl Hv. destruct (own_version t Hwf) as [st Ht], (own_version t' Hwf') as [st' Ht'].
  rewrite Hl in Ht'. congruence.
Qed.

Lemma touch_local_incarnation now i t : wf t → local_incarnation (touch now i t) = local_incarnation t.
Proof.
  intros Hwf. apply local_incarnation_version; [done|by apply touch_wf|apply touch_local_id|].
  apply touch_version.
Qed.

Lemma own_table s i t : tables s !! i = Some t → own s i = local_incarnation t.
Proof. intros Ht. unfold own. by rewrite Ht. Qed.

Lemma mark_self_alive_incarnation t : wf t → local_incarnation t < u64_max →
  local_incarnation t ≤ local_incarnation (mark_self_alive t).
Proof.
  intros Hwf Hlt. pose proof (local_incarnation_u64 t Hwf) as Hu. unfold mark_self_alive, local_incarnation in *.
  destruct (members t !! local_id t) as [e|] eqn:E; [|by rewrite E]. simpl. rewrite lookup_insert_eq. simpl.
  rewrite u64_add_small by (machine_unfold; unfold is_u64 in *; lia). lia.
Qed.

(** What a step needs to know of the table it leaves at a node. *)
Definition tame (B : NodeId → Z) (i : NodeId) (t : MembershipTable) : Prop :=
  wf t ∧ local_id t = i ∧ ∀ j n st, j ≠ i → version t j = Some (n, st) → n ≤ B j.

Lemma tame_table B s i t : inv B s → tables s !! i = Some t → tame B i t.
Proof.
  intros Hi Ht. destruct (inv_table _ _ Hi _ _ Ht) as (Hwf & Hl & Hb). split; [done|]. split; [done|].
  intros j n st _. apply Hb.
Qed.

Lemma tame_merge B s i t clock uuids msg : inv B s → bounded B t → msg ∈ soup s → tame B i t →
  tame B i (merge clock (entries_of_message uuids msg) t).
Proof.
  intros Hi Hb Hm (Hwf & <- & _). destruct (inv_soup _ _ Hi _ Hm) as [Hu Hrs].
  pose proof (entries_of_message_u64 uuids msg Hu) as Hu'.
  split; [by apply merge_wf|]. split; [apply merge_local_id|].
  intros j n st Hj. by eapply merge_bounded.
Qed.

Lemma tame_touch B i now j t : tame B i t → tame B i (touch now j t).
Proof.
  intros (Hwf & <- & Hv). split; [by apply touch_wf|]. split; [apply touch_local_id|].
  intros k n st. rewrite touch_version. apply Hv.
Qed.

Lemma tame_new B s now i seeds : inv B s → tame B i (new now i seeds).
Proof.
  intros Hi. split; [apply table_new_wf|]. split; [done|].
  intros j n st _ (e & Hl & [= -> _])%fmap_Some. pose proof (inv_own _ _ Hi j).
  apply new_lookup in Hl as [(_ & ->)|(_ & m & _ & _ & ->)]; cbn; lia.
Qed.

Lemma exchange_eq env msg t : ∃ t2, gossip_exchange env msg t = (t2, build_gossip_message (build_clock env) t2) ∧
  let t1 := merge (merge_clock env) (entries_of_message (new_v4 env) msg) t in
  t2 = t1 ∨ ∃ sender, t2 = touch (touch_clock env) sender t1.
Proof.
  unfold gossip_exchange. destruct (NodeId_parse (msg_sender_id msg)); eexists; split; eauto.
Qed.

Lemma check_timeouts_version now t j n st : wf t → version (check_timeouts now (local_id t) t) j = Some (n, st) →
  ∃ st0, version t j = Some (n, st0).
Proof.
  intros Hwf. unfold version. rewrite check_timeouts_lookup by done.
  destruct (members t !! j) as [e|]; [|by case_decide].
  case_decide; cbn [fmap option_fmap option_map]; [naive_solver|].
  unfold timeout_entry. destruct (status e); try destruct (_ <? _); simpl; naive_solver.
Qed.

Lemma tame_timeouts B s i t now : inv B s → tables s !! i = Some t → tame B i (check_timeouts now i t).
Proof.
  intros Hi Ht. destruct (inv_table _ _ Hi _ _ Ht) as (Hwf & <- & Hb).
  destruct (table_steps_wf _ _ (check_timeouts_steps now t) Hwf) as [Hwf' Hl'].
  split; [done|]. split; [done|]. intros j n st _ Hv.
  apply check_timeouts_version in Hv as [st0 Hv]; [|done]. by apply (Hb j n st0).
Qed.

Lemma tame_rebalanced B s i t : inv B s → tables s !! i = Some t → tame B i (mark_self_alive t).
Proof.
  intros Hi Ht. destruct (inv_table _ _ Hi _ _ Ht) as (Hwf & <- & Hb).
  split; [by apply mark_self_alive_wf|]. unfold mark_self_alive. destruct (members t !! local_id t).
  - split; [done|]. intros j n st Hj. rewrite version_set_entry, decide_False by done. apply Hb.
  - split; [done|]. intros j n st _. apply Hb.
Qed.

Lemma tame_exchange B s i t env msg : inv B s → tables s !! i = Some t → msg ∈ soup s →
  tame B i (gossip_exchange env msg t).1.
Proof.
  intros Hi Ht Hm. destruct (exchange_eq env msg t) as (t2 & -> & Ht2). cbn [fst].
  assert (tame B i (merge (merge_clock env) (entries_of_message (new_v4 env) msg) t)) as Hd.
  { eapply tame_merge; [done| |done|by eapply tame_table]. by destruct (inv_table _ _ Hi _ _ Ht) as (_ & _ & ?). }
  destruct Ht2 as [->|[sender ->]]; [done|by apply tame_touch].
Qed.

Lemma net_step_inv may B s s' : net_step may s s' → inv B s → inv (λ j, Z.max (own s' j) (B j)) s'.
Proof.
  intros Hs Hi. destruct Hs as [now i seeds Hn|i t clock Ht|i t env msg Ht Hm|
    i t env now target msg Ht Hm|i t now Ht|i t Ht].
  - destruct (tame_new B s now i seeds Hi) as (? & ? & ?). by apply (inv_update B s i _ []).
  - destruct (tame_table B s i t Hi Ht) as (? & ? & ?). by apply (inv_update B s i t [clock]).
  - pose proof (tame_exchange B s i t env msg Hi Ht Hm) as (? & ? & ?).
    destruct (exchange_eq env msg t) as (t2 & Heq & _). rewrite Heq in *.
    by apply (inv_update B s i t2 [build_clock env]).
  - destruct (tame_merge B s i (touch now target t) (merge_clock env) (new_v4 env) msg) as (? & ? & ?);
      [done| |done|by eapply tame_touch, tame_table|by apply (inv_update B s i _ [])].
    apply touch_bounded. by destruct (inv_table _ _ Hi _ _ Ht) as (_ & _ & ?).
  - destruct (tame_timeouts B s i t now Hi Ht) as (? & ? & ?). by apply (inv_update B s i _ []).
  - destruct (tame_rebalanced B s i t Hi Ht) as (? & ? & ?). by apply (inv_update B s i _ []).
Qed.

Lemma history_inv step h s : (∀ s s', step s s' → any_step s s') → history step h s →
  inv (peak (s :: h)) s.
Proof.
  intros Hany. induction 1 as [|h s s' Hr IH Hs].
  - split; [|by intros j t Hj|by intros msg Hm%elem_of_nil].
    intros i. unfold own, empty. cbn [tables peak foldr]. by rewrite lookup_empty.
  - by apply (net_step_inv (λ _ _, True) (peak (s :: h)) s s'); [apply Hany|].
Qed.

(** *** A node that is not started again *)

Lemma net_step_weaken (may may' : System → NodeId → Prop) s s' :
  (∀ i, may s i → may' s i) → net_step may s s' → net_step may' s s'.
Proof. intros Hm [now i seeds Hn| | | | |]; [by apply net_start, Hm|by econstructor..]. Qed.

Lemma unbroken_any i s s' : unbroken i s s' → any_step s s'.
Proof. intros [_ Hs]. by eapply net_step_weaken; [|done]. Qed.

Lemma merge_incarnation B s clock uuids msg t : inv B s → wf t → msg ∈ soup s →
  B (local_id t) = local_incarnation t → B (local_id t) < u64_max →
  local_incarnation t ≤ local_incarnation (merge clock (entries_of_message uuids msg) t).
Proof.
  intros Hi Hwf Hm HB Hlt. destruct (inv_soup _ _ Hi _ Hm) as [Hu Hrs].
  destruct (merge_own B clock _ t Hwf (entries_of_message_u64 uuids msg Hu) (Hrs uuids) Hlt HB) as [[-> _]|[-> _]]; lia.
Qed.

Lemma unbroken_mono B i s s' : inv B s → B i = own s i → unbroken i s s' → own s i ≤ own s' i.
Proof.
  intros Hi HB [Hlt Hs].
  assert (∀ j t t' sent, tables s !! j = Some t → (j = i → local_incarnation t ≤ local_incarnation t') →
    own s i ≤ own (update s j t' sent) i) as Hupd.
  { intros j t t' sent Ht Hle. rewrite own_update. case_decide as Hj; [|lia]. subst j.
    unfold own. rewrite Ht. by apply Hle. }
  destruct Hs as [now j seeds Hn|j t clock Ht|j t env msg Ht Hm|
    j t env now target msg Ht Hm|j t now Ht|j t Ht].
  - rewrite own_update. case_decide as Hj; [|lia]. subst j. unfold own. rewrite (Hn eq_refl).
    unfold local_incarnation. cbn [local_id new]. by rewrite new_self.
  - by apply (Hupd j t).
  - apply (Hupd j t); [done|]. intros ->. destruct (inv_table _ _ Hi _ _ Ht) as (Hwf & Hl & _). subst i.
    destruct (exchange_eq env msg t) as (t2 & -> & Ht2). cbn [fst]. rewrite (own_table _ _ _ Ht) in *.
    pose proof (merge_incarnation B s (merge_clock env) (new_v4 env) msg t Hi Hwf Hm HB ltac:(lia)) as Hle.
    destruct Ht2 as [->|[sender ->]]; [done|]. rewrite touch_local_incarnation; [done|].
    apply merge_wf; [done|]. apply entries_of_message_u64. by apply (inv_soup _ _ Hi).
  - apply (Hupd j t); [done|]. intros ->. destruct (inv_table _ _ Hi _ _ Ht) as (Hwf & Hl & _). subst i.
    rewrite (own_table _ _ _ Ht) in *. rewrite <- (touch_local_incarnation now target t) by done.
    eapply merge_incarnation; [done|by apply touch_wf|done|..]; rewrite touch_local_id;
      rewrite ?touch_local_incarnation by done; lia.
  - apply (Hupd j t); [done|]. intros ->. destruct (inv_table _ _ Hi _ _ Ht) as (Hwf & <- & _).
    destruct (table_steps_wf _ _ (check_timeouts_steps now t) Hwf) as [Hwf' Hl'].
    rewrite (local_incarnation_version t (check_timeouts now (local_id t) t)); [done..|].
    unfold version. by rewrite check_timeouts_lookup, decide_True.
  - apply (Hupd j t); [done|]. intros ->. destruct (inv_table _ _ Hi _ _ Ht) as (Hwf & _ & _).
    rewrite (own_table _ _ _ Ht) in Hlt. by apply mark_self_alive_incarnation.
Qed.

Lemma unbroken_peak i h s : history (unbroken i) h s → peak (s :: h) i = own s i.
Proof.
  induction 1 as [|h s s' Hr IH Hs]; [unfold own, empty; cbn; by rewrite lookup_empty|].
  pose proof (history_inv _ _ _ (unbroken_any i) Hr) as Hi.
  pose proof (unbroken_mono _ i _ _ Hi IH Hs). cbn [peak foldr] in *. lia.
Qed.

(** *** A refutation *)

Lemma greatest_refuted clock rs t m : wf t → entries_u64 rs →
  m ∈ suspicions (local_id t) rs → (∀ m', m' ∈ suspicions (local_id t) rs → m' ≤ m) →
  local_incarnation t ≤ m < u64_max →
  local_incarnation (merge clock rs t) = m + 1 ∧
  version (merge clock rs t) (local_id t) = Some (m + 1, Alive).
Proof.
  intros Hwf Hu Hm Hmax Hle. destruct (wf_self _ Hwf) as (e & He & _).
  assert (local_incarnation t = incarnation e) as Hloc by (unfold local_incarnation; by rewrite He).
  destruct (foldl_refute (suspicions (local_id t) rs) e) as (_ & _ & Hge & Hall & Hcases).
  { by apply (wf_entry _ Hwf _ _ He). }
  { intros m' Hm'. pose proof (Hmax _ Hm'). split; [|lia].
    apply elem_of_suspicions in Hm' as (r & Hr & _ & <- & _). by apply (Hu r Hr). }
  specialize (Hall m Hm). destruct Hcases as [[Heq _]|(m' & Hin & _ & Hinc & Hst)]; [lia|].
  specialize (Hmax m' Hin). assert (m' = m) as -> by lia.
  unfold local_incarnation, version. rewrite merge_local_id, (merge_self _ _ _ _ He). cbn.
  by rewrite Hinc, Hst.
Qed.

Lemma targets_net_steps env send i targets : ∀ k s t,
  tables s !! i = Some t → (∀ k a m r, send k a m = Some r → r ∈ soup s) →
  let '(sent, t') := gossip_targets env send k targets t in
  ∃ s', rtc any_step s s' ∧ tables s' !! i = Some t' ∧ (∀ p, p ∈ sent → p.2 ∈ soup s') ∧
    (∀ m, m ∈ soup s → m ∈ soup s').
Proof.
  induction targets as [|e targets IH]; intros k s t Ht Hsend; simpl.
  { exists s. repeat split; [done|done|by intros p ?%elem_of_nil|done]. }
  set (msg := build_gossip_message (build_clock (env k)) t).
  set (s1 := update s i t [msg]).
  assert (any_step s s1) as H1 by by apply net_send.
  assert (tables s1 !! i = Some t) as Ht1 by apply lookup_insert_eq.
  assert (∀ m, m ∈ soup s → m ∈ soup s1) as Hsub by (intros m Hm; by right).
  set (t1 := match send k (addr (info e)) msg with Some response => _ | None => t end).
  assert (∃ s2, rtc any_step s1 s2 ∧ tables s2 !! i = Some t1 ∧ ∀ m, m ∈ soup s1 → m ∈ soup s2)
    as (s2 & H2 & Ht2 & Hsub2).
  { unfold t1. destruct (send k (addr (info e)) msg) as [r|] eqn:Er; [|by exists s1].
    eexists. split; [apply rtc_once, (net_response _ s1 i t (env k)
      (touch_clock (env k)) (id (info e)) r Ht1); eauto|].
    split; [apply lookup_insert_eq|done]. }
  pose proof (IH (S k) s2 t1 Ht2) as Hrest.
  destruct (gossip_targets env send (S k) targets t1) as [sent t2].
  destruct Hrest as (s' & H3 & Ht3 & Hsent & Hsub3); [intros; eauto|].
  exists s'. split; [by eapply rtc_l; [done|]; etrans|]. split; [done|]. split; [|by eauto].
  intros p [->|Hp]%elem_of_cons; [|by apply Hsent]. apply Hsub3, Hsub2. by left.
Qed.
End lemmas.

(** ** Properties *)

Section properties.
Context `{UuidLib} `{HashIter}.
Import MembershipTable Gossip GossipNetwork.

(** C9: only a node raises its own incarnation: after any history of the cluster, whatever
    messages were lost, delayed, repeated or reordered, however the nodes judged each
    other, and whenever nodes were started, also again under an identifier that ran
    before, no table and no message in flight claims an incarnation of a node above the
    greatest one the node itself has had ([peak]); and if the node was not started again
    and has not refuted 2^64 - 1 suspicions, that is the one it has now.  (After a restart
    it is not: see [Restart].) *)
Theorem no_future_incarnation (h : list System) (s : System) (i : NodeId) :
  history any_step h s →
  (∀ j t n st, tables s !! j = Some t → version t i = Some (n, st) → n ≤ peak (s :: h) i) ∧
  (∀ msg uuids r, msg ∈ soup s → r ∈ entries_of_message uuids msg → entry_id r = i →
     r.2 ≤ peak (s :: h) i) ∧
  (history (unbroken i) h s → peak (s :: h) i = own s i).
Proof.
  intros Hr. pose proof (history_inv _ _ _ (λ _ _ Hs, Hs) Hr) as Hi. split; [|split].
  - intros j t n st Ht. destruct (inv_table _ _ Hi _ _ Ht) as (_ & _ & Hb). apply Hb.
  - intros msg uuids r Hm Hin <-. destruct (inv_soup _ _ Hi _ Hm) as [_ Hb]. by apply (Hb uuids).
  - apply unbroken_peak.
Qed.

(** C10: a refutation wins: after any history of the cluster, restarts included, when a
    node receives a message, out of all that were ever sent, that suspects it (or calls
    it dead) at its current incarnation or above, the greatest at [m] below 2^64 - 1, it
    moves to [m + 1] and is Alive; and a node that merges the view it has then holds it
    Alive at [m + 1], provided that what it held of it was not above [m].  If the node
    was not started again under its identifier, and its incarnation never wrapped around,
    [m] is its current incarnation and the proviso holds of every node of the cluster. *)
Theorem refutation_wins (h : list System) (s : System) (i : NodeId) (t : MembershipTable) (env : Env)
    (msg : GossipMessage) (clock : nat → Z) (m : Z) :
  history any_step h s → tables s !! i = Some t → msg ∈ soup s →
  m ∈ suspicions i (entries_of_message (new_v4 env) msg) →
  (∀ m', m' ∈ suspicions i (entries_of_message (new_v4 env) msg) → m' ≤ m) →
  own s i ≤ m < u64_max →
  let t' := (gossip_exchange env msg t).1 in
  local_incarnation t' = m + 1 ∧ version t' i = Some (m + 1, Alive) ∧
  (∀ j u, tables s !! j = Some u → i ≠ j → (∀ n st, version u i = Some (n, st) → n ≤ m) →
     version (merge clock (view t') u) i = Some (m + 1, Alive)) ∧
  (history (unbroken i) h s → m = own s i ∧
     ∀ j u n st, tables s !! j = Some u → version u i = Some (n, st) → n ≤ m).
Proof.
  intros Hr Ht Hm Hin Hmax Hle t'. pose proof (history_inv _ _ _ (λ _ _ Hs, Hs) Hr) as Hi.
  destruct (inv_soup _ _ Hi _ Hm) as [Hmu Hrs]. destruct (inv_table _ _ Hi _ _ Ht) as (Hwf & <- & _).
  pose proof (entries_of_message_u64 (new_v4 env) msg Hmu) as Hu.
  rewrite (own_table _ _ _ Ht) in Hle |- *.
  destruct (greatest_refuted (merge_clock env) _ t m Hwf Hu Hin Hmax Hle) as [Hinc Hv].
  destruct (exchange_eq env msg t) as (t2 & Heq & Ht2). unfold t'. rewrite Heq. cbn [fst].
  assert (wf t2 ∧ local_incarnation t2 = m + 1 ∧ version t2 (local_id t) = Some (m + 1, Alive))
    as (Hwf2 & Hinc2 & Hv2).
  { pose proof (merge_wf (merge_clock env) _ t Hwf Hu) as Hwf1. destruct Ht2 as [->|[sender ->]]; [done|].
    split; [by apply touch_wf|]. by rewrite touch_local_incarnation, touch_version. }
  split; [done|]. split; [done|]. split.
  - intros j u Hju Hne Hcl. destruct (inv_table _ _ Hi _ _ Hju) as (_ & <- & _).
    rewrite merge_view_version, Hv2 by done. simpl.
    destruct (version u (local_id t)) as [[n st]|]; simpl; [|done]. specialize (Hcl n st eq_refl).
    unfold vmax. rewrite decide_True; [done|]. left. simpl. lia.
  - intros Hun%unbroken_peak. rewrite (own_table _ _ _ Ht) in Hun.
    assert (m ≤ peak (s :: h) (local_id t)) as Hmp.
    { apply elem_of_suspicions in Hin as (r & Hin & Hid & Hv' & _). specialize (Hrs _ r Hin). rewrite Hid in Hrs.
      unfold entry_version in Hv'. by rewrite <- Hv'. }
    split; [lia|]. intros j u n st Hju Hvu. destruct (inv_table _ _ Hi _ _ Hju) as (_ & _ & Hb).
    specialize (Hb _ _ _ Hvu). lia.
Qed.

(** Further: the rounds of the program are runs of this network: a round whose answers
    are messages that were sent leaves the table of a state the network can reach,
    in which what the round sent is under way. *)
Theorem round_refines_network (env : nat → Env)
    (send : nat → string → GossipMessage → option GossipMessage) (draw : nat)
    (choose : nat → list MemberEntry → list MemberEntry) (s : System) (i : NodeId)
    (t : MembershipTable) :
  tables s !! i = Some t → (∀ k a m r, send k a m = Some r → r ∈ soup s) →
  let '(sent, t') := gossip_round env send draw choose t in
  ∃ s', rtc any_step s s' ∧ tables s' !! i = Some t' ∧ (∀ p, p ∈ sent → p.2 ∈ soup s') ∧
    (∀ m, m ∈ soup s → m ∈ soup s').
Proof.
  intros Ht Hsend. unfold gossip_round. destruct (alive_peers t).
  - exists s. repeat split; [done|done|by intros p ?%elem_of_nil|done].
  - by apply targets_net_steps.
Qed.
End properties.

(** ** Witnesses: [b] suspects [a], which hears of it *)

Section witnesses.
#[local] Existing Instance Examples.string_uuid.
#[local] Existing Instance Examples.sorted_iter.
Import MembershipTable Gossip GossipNetwork.

Definition ex_na : NodeId := ex_id "a".
Definition ex_nb : NodeId := ex_id "b".
Definition ex_ta : MembershipTable := new 0 ex_na [].
Definition ex_tb : MembershipTable := new 0 ex_nb [mkNodeInfo ex_na "a:5001"].
Definition ex_tb' : MembershipTable := check_timeouts (from_secs 4) ex_nb ex_tb.
Definition ex_net1 : System := update empty ex_na ex_ta [].
Definition ex_net2 : System := update ex_net1 ex_nb ex_tb [].
Definition ex_net3 : System := update ex_net2 ex_nb ex_tb' [].
Definition ex_net_msg : GossipMessage := build_gossip_message (λ _, 0) ex_tb'.
Definition ex_net4 : System := update ex_net3 ex_nb ex_tb' [ex_net_msg].

(** The lookups the steps need. *)
Lemma ex_net_tables : tables ex_net2 !! ex_nb = Some ex_tb ∧
  tables ex_net3 !! ex_nb = Some ex_tb' ∧ tables ex_net4 !! ex_na = Some ex_ta ∧
  tables ex_net4 !! ex_nb = Some ex_tb'.
Proof.
  unfold ex_net4, ex_net3, ex_net2, ex_net1, update. cbn [tables].
  by repeat split; rewrite ?lookup_insert_eq.
Qed.

Definition ex_history : list System := [ex_net3; ex_net2; ex_net1; empty].

Lemma ex_steps may : may empty ex_na → may ex_net1 ex_nb →
  net_step may empty ex_net1 ∧ net_step may ex_net1 ex_net2 ∧ net_step may ex_net2 ex_net3 ∧
  net_step may ex_net3 ex_net4.
Proof.
  intros Ha Hb. destruct ex_net_tables as (L2 & L3 & _).
  split; [exact (net_start may empty 0 ex_na [] Ha)|].
  split; [exact (net_start may ex_net1 0 ex_nb [mkNodeInfo ex_na "a:5001"] Hb)|].
  split; [exact (net_timeouts may ex_net2 ex_nb ex_tb (from_secs 4) L2)|].
  exact (net_send may ex_net3 ex_nb ex_tb' (λ _, 0) L3).
Qed.

Lemma ex_net_history : history any_step ex_history ex_net4.
Proof.
  destruct (ex_steps (λ _ _, True) I I) as (H1 & H2 & H3 & H4).
  by repeat (eapply history_step; [|eassumption]); constructor.
Qed.

Lemma ex_net_unbroken : history (unbroken ex_na) ex_history ex_net4.
Proof.
  destruct (ex_steps (once ex_na)) as (H1 & H2 & H3 & H4); [done|done|].
  repeat (eapply history_step; [|split; [|eassumption]; by vm_compute]). constructor.
Qed.

(** [a] is suspected, refutes, and is then started again. *)
Definition ex_ta' : MembershipTable := (gossip_exchange ex_env ex_net_msg ex_ta).1.
Definition ex_net5 : System := update ex_net4 ex_na ex_ta' [(gossip_exchange ex_env ex_net_msg ex_ta).2].
Definition ex_net6 : System := update ex_net5 ex_na ex_ta [].

Lemma ex_net_restarted : history any_step (ex_net5 :: ex_net4 :: ex_history) ex_net6.
Proof.
  eapply history_step; [eapply history_step; [exact ex_net_history|]|].
  - apply (net_request (λ _ _, True) ex_net4 ex_na ex_ta ex_env ex_net_msg); [apply ex_net_tables|left].
  - exact (net_start (λ _ _, True) ex_net5 0 ex_na [] I).
Qed.

(** The restarted node is at 0, and its refutation at 1 is still under way. *)
Lemma no_future_incarnation_witness :
  (∃ t n, tables ex_net4 !! ex_nb = Some t ∧ version t ex_na = Some (n, Suspect) ∧ n ≤ own ex_net4 ex_na) ∧
  own ex_net6 ex_na = 0 ∧ peak (ex_net6 :: ex_net5 :: ex_net4 :: ex_history) ex_na = 1 ∧
  ∀ msg uuids r, msg ∈ soup ex_net6 → r ∈ entries_of_message uuids msg → entry_id r = ex_na → r.2 ≤ 1.
Proof.
  split.
  - destruct (no_future_incarnation ex_history ex_net4 ex_na ex_net_history) as (Ht & _ & Hp).
    rewrite (Hp ex_net_unbroken) in Ht.
    exists ex_tb', 0. split; [apply ex_net_tables|]. split; [vm_compute; reflexivity|].
    apply (Ht ex_nb ex_tb' 0 Suspect); [apply ex_net_tables|vm_compute; reflexivity].
  - destruct (no_future_incarnation (ex_net5 :: ex_net4 :: ex_history) ex_net6 ex_na ex_net_restarted)
      as (_ & Hm & _).
    assert (peak (ex_net6 :: ex_net5 :: ex_net4 :: ex_history) ex_na = 1) as Hp by (vm_compute; reflexivity).
    rewrite Hp in Hm. split; [vm_compute; reflexivity|]. split; [reflexivity|exact Hm].
Defined.

Lemma round_refines_network_witness :
  let '(sent, t') := gossip_round (λ _, ex_env) (λ _ _ _, Some ex_net_msg) 3 ex_take ex_tb' in
  ∃ s', rtc any_step ex_net4 s' ∧ tables s' !! ex_nb = Some t' ∧ (∀ p, p ∈ sent → p.2 ∈ soup s') ∧
    (∀ m, m ∈ soup ex_net4 → m ∈ soup s').
Proof.
  apply (round_refines_network (λ _, ex_env) (λ _ _ _, Some ex_net_msg) 3 ex_take ex_net4 ex_nb ex_tb').
  - apply ex_net_tables.
  - intros k a m r [= <-]. left.
Defined.

Lemma refutation_wins_witness :
  version (merge (λ _, 0) (view (gossip_exchange ex_env ex_net_msg ex_ta).1) ex_tb') ex_na =
  Some (1, Alive).
Proof.
  destruct (refutation_wins ex_history ex_net4 ex_na ex_ta ex_env ex_net_msg (λ _, 0) 0)
    as (_ & _ & Hmerge & Hcl).
  - exact ex_net_history.
  - apply ex_net_tables.
  - left.
  - apply (bool_decide_unpack _). vm_compute. exact I.
  - apply Forall_forall. apply (bool_decide_unpack _). vm_compute. exact I.
  - vm_compute. split; [discriminate|reflexivity].
  - apply (Hmerge ex_nb); [apply ex_net_tables|discriminate|].
    intros n st. apply (proj2 (Hcl ex_net_unbroken) ex_nb). apply ex_net_tables.
Defined.
End witnesses.
