(* ===== verification/Convergence.v ===== *)
(** * Convergence of the membership

    The gossip handlers of [Gossip] at a set of nodes that meet pairwise, in any
    order and with lost replies: news reaches whoever a chain of meetings leads to,
    and when everybody has met everybody twice, through others or not, the tables of
    all nodes agree and the false suspicions among them are gone.

    The proofs are about claims: what version the table of one node gives another. *)

From S2P Require Import Prelude Machine Text Common Membership Gossip.
Local Open Scope Z_scope.

Module Convergence.
Import MembershipTable Gossip.

(** The tables of the nodes that run. *)
Abbreviation Cluster := (gmap NodeId MembershipTable) (only parsing).

Section convergence.
Context `{UuidLib} `{HashIter}.

(** A message of one node to another, the identifier the caller knows it by (a
    placeholder, when it is a seed), and whether the reply arrives. *)
Record contact := mkContact { caller : NodeId; callee : NodeId; known_as : NodeId; replied : bool }.

(** One target of a gossip round: the caller's message, the callee's handler, and the
    caller's handling of the reply. *)
Definition meet (env_a env_b : Env) (c : contact) (C : Cluster) : Cluster :=
  match C !! caller c, C !! callee c with
  | Some a, Some b =>
      let '(b', response) := gossip_exchange env_b (build_gossip_message (build_clock env_a) a) b in
      let C1 := <[callee c := b']> C in
      if replied c then
        <[caller c := process_gossip_response env_a response (touch (touch_clock env_a) (known_as c) a)]> C1
      else C1
  | _, _ => C
  end.

Fixpoint run (env : nat → Env * Env) (k : nat) (cs : list contact) (C : Cluster) : Cluster :=
  match cs with
  | [] => C
  | c :: cs' => run env (S k) cs' (meet (env k).1 (env k).2 c C)
  end.

(** A round of [i] in a cluster: the node [at_addr a] listens at the address [a], if it
    runs; the [k]-th reply arrives if [arrives k]. *)
Definition reply_of (C : Cluster) (env_b : nat → Env) (at_addr : string → NodeId) (arrives : nat → bool)
    (k : nat) (a : string) (msg : GossipMessage) : option GossipMessage :=
  b ← C !! at_addr a;
  if arrives k then Some (gossip_exchange (env_b k) msg b).2 else None.
Definition meetings (i : NodeId) (at_addr : string → NodeId) (arrives : nat → bool) (k : nat)
    (targets : list MemberEntry) : list contact :=
  imap (λ n e, mkContact i (at_addr (addr (info e))) (id (info e)) (arrives (k + n)%nat)) targets.

(** What happens in a cluster: starts, also again under an identifier that ran before, with
    a new table; meetings, timeouts, ends of rebalances, crashes.  [may_start] says which
    nodes may be started in which clusters.  The placeholders a node knows its seeds by are
    fresh identifiers ([NodeId::new]). *)
Inductive step (may_start : Cluster → NodeId → Prop) (C : Cluster) : Cluster → Prop :=
  | step_start now i seeds :
      may_start C i → (∀ s, s ∈ seeds → id s ≠ i ∧ C !! id s = None) →
      step may_start C (<[i := new now i seeds]> C)
  | step_meet env_a env_b c :
      is_Some (C !! caller c) → is_Some (C !! callee c) → caller c ≠ callee c →
      step may_start C (meet env_a env_b c C)
  | step_timeouts now i t : C !! i = Some t → step may_start C (<[i := check_timeouts now i t]> C)
  | step_rebalanced i t : C !! i = Some t → step may_start C (<[i := mark_self_alive t]> C)
  | step_crash i : step may_start C (delete i C).

(** ** Specifications *)

(** What a node claims of another. *)
Definition claim (C : Cluster) (j i : NodeId) : option Version := t ← C !! j; version t i.

(** Who has heard from whom: the nodes of [S] and all that heard from them since. *)
Definition tells (c : contact) : list (NodeId * NodeId) :=
  (caller c, callee c) :: if replied c then [(callee c, caller c)] else [].
Definition inform (S : gset NodeId) (xy : NodeId * NodeId) : gset NodeId :=
  if decide (xy.1 ∈ S) then {[ xy.2 ]} ∪ S else S.
Definition informed (cs : list contact) (u : NodeId) : gset NodeId :=
  foldl inform {[ u ]} (cs ≫= tells).
(** Everybody hears from everybody, through others or not. *)
Definition spreads (D : gset NodeId) (cs : list contact) : Prop := ∀ u, u ∈ D → D ⊆ informed cs u.

(** Everybody meets one node, say a seed, in turn. *)
Definition star (h : NodeId) (xs : list NodeId) : list contact := (λ x, mkContact x h h true) <$> xs.

Definition contact_ok (D : gset NodeId) (c : contact) : Prop :=
  caller c ∈ D ∧ callee c ∈ D ∧ caller c ≠ callee c.

Definition well_formed (C : Cluster) : Prop :=
  ∀ j t, C !! j = Some t → wf t ∧ local_id t = j.

Definition suspicious (v : Version) : Prop := v.2 = Suspect ∨ v.2 = Dead.

(** What is claimed of a running node is no newer than what it claims of itself, or a
    suspicion it can still refute. *)
Definition refutable (i : NodeId) (K : NodeId → NodeId → option Version) (D : gset NodeId) : Prop :=
  i ∈ D → ∃ own, K i i = Some own ∧ ¬ suspicious own ∧
    ∀ j v, j ∈ D → K j i = Some v → vle (Some v) (Some own) ∨ suspicious v ∧ 0 ≤ v.1 < u64_max.

(** The node [i] is not started while another running node has it for alive or joining:
    if it ran before, its crash has been noticed everywhere. *)
Definition noticed (i : NodeId) (C : Cluster) (j : NodeId) : Prop :=
  j = i → ∀ k v, k ≠ i → claim C k i = Some v → suspicious v.
End convergence.
End Convergence.

(** ** Lemmas: claims *)

Section claims.
Context `{UuidLib} `{HashIter}.
Import MembershipTable Gossip Convergence.
Implicit Types (K : NodeId → NodeId → option Version) (D : gset NodeId).

(** What becomes of a claim when its holder hears another; [own] when it is about
    the holder. *)
Definition hears (own : bool) (mine said : option Version) : option Version :=
  if own then
    match mine, said with
    | Some (m, _), Some (n, (Suspect | Dead)) => if decide (m ≤ n) then Some (u64_add n 1, Alive) else mine
    | _, _ => mine
    end
  else vsup mine said.

Lemma merge_hears clock t u i : wf t → wf u →
  version (merge clock (view u) t) i =
  hears (bool_decide (i = local_id t)) (version t i) (version u i).
Proof.
  intros Ht Hu. case_bool_decide as Hi; [subst|by apply merge_view_version].
  destruct (wf_self _ Ht) as (e & He & _). unfold version at 1 2. rewrite He, (merge_self _ _ _ _ He).
  rewrite view_suspicions by done. cbn [fmap option_fmap option_map hears].
  destruct (version u (local_id t)) as [[n []]|]; cbn [foldl]; unfold refute; try done; by case_decide.
Qed.

Definition tell K (xy : NodeId * NodeId) : NodeId → NodeId → option Version :=
  λ j i, if decide (j = xy.2) then hears (bool_decide (i = xy.2)) (K xy.2 i) (K xy.1 i) else K j i.
Definition tell_all K (l : list (NodeId * NodeId)) := foldl tell K l.

Definition tell_ok D (xy : NodeId * NodeId) : Prop := xy.1 ∈ D ∧ xy.2 ∈ D ∧ xy.1 ≠ xy.2.

Lemma vsup_cases o1 o2 : vsup o1 o2 = o1 ∨ vsup o1 o2 = o2.
Proof.
  destruct o2 as [v|]; [|by left]. destruct o1 as [u|]; [|by right].
  cbn. unfold vmax. case_decide; auto.
Qed.

(** The own claim after hearing another: it grows, and is above what was said. *)
Lemma hears_own own v : ¬ suspicious own → 
  (vle (Some v) (Some own) ∨ suspicious v ∧ 0 ≤ v.1 < u64_max) →
  ∃ own', hears true (Some own) (Some v) = Some own' ∧ ¬ suspicious own' ∧
    vle (Some own) (Some own') ∧ vle (Some v) (Some own') ∧
    (vle (Some v) (Some own) → own' = own).
Proof.
  destruct own as [m st], v as [n s]. unfold suspicious. intros Hown Hv. unfold vle, newer in *.
  cbn [fst snd] in *.
  assert ((s = Suspect ∨ s = Dead) ∨ s = Alive ∨ s = Joining) as [Hs|Hs] by (destruct s; tauto).
  - assert (hears true (Some (m, st)) (Some (n, s)) =
      if decide (m ≤ n) then Some (u64_add n 1, Alive) else Some (m, st)) as Hh
      by (by destruct Hs as [-> | ->]).
    destruct (decide (m ≤ n)) as [Hle|Hlt].
    + assert (¬ ((n, s) = (m, st) ∨ n < m ∨ n = m ∧ rank s < rank st)) as Hnot.
      { intros [[= -> ->]|[?|[_ Hr]]]; [tauto|lia|].
        destruct Hs as [-> | ->], st; simpl in Hr; try lia; tauto. }
      destruct Hv as [Hv|[_ Hn]]; [done|]. rewrite u64_add_small in Hh by (machine_unfold; lia).
      exists (n + 1, Alive). split; [exact Hh|]. cbn [fst snd].
      split; [by intros [|]|]. split; [right; left; lia|]. split; [right; left; lia|done].
    + exists (m, st). split; [exact Hh|]. split; [done|]. split; [by left|].
      split; [right; left; cbn; lia|done].
  - exists (m, st). split; [by destruct Hs as [-> | ->]|]. repeat split; [done|by left|].
    destruct Hv as [Hv|[Hv _]]; [done|]. destruct Hs as [-> | ->], Hv as [Hv|Hv]; done.
Qed.

Section steps.
Context (D : gset NodeId).

Lemma tell_own K x y : tell_ok D (x, y) → refutable y K D → ∃ own own',
  K y y = Some own ∧ tell K (x, y) y y = Some own' ∧ ¬ suspicious own' ∧
  vle (Some own) (Some own') ∧ vle (K x y) (Some own') ∧ (vle (K x y) (Some own) → own' = own).
Proof.
  intros (Hx & Hy & _) Hr. destruct (Hr Hy) as (own & Ho & Hs & Hall).
  unfold tell. cbn [fst snd] in *. rewrite decide_True, bool_decide_eq_true_2, Ho by done.
  destruct (K x y) as [v|] eqn:Ev.
  - destruct (hears_own own v Hs (Hall x v Hx Ev)) as (own' & Hh & Hs' & H1 & H2 & H3).
    by exists own, own'.
  - exists own, own. by destruct own.
Qed.

Lemma tell_other K x y j i : (j = y → i ≠ y) →
  tell K (x, y) j i = if decide (j = y) then vsup (K y i) (K x i) else K j i.
Proof.
  intros Hi. unfold tell. cbn [fst snd]. case_decide; [|done].
  by rewrite bool_decide_eq_false_2 by by apply Hi.
Qed.

Lemma tell_grows K xy j i : tell_ok D xy → refutable i K D → vle (K j i) (tell K xy j i).
Proof.
  intros Hxy Hr. destruct xy as [x y]. destruct (decide (j = y ∧ i = y)) as [[-> ->]|Hji].
  - destruct (tell_own K x y Hxy Hr) as (own & own' & -> & -> & _ & Hle & _). exact Hle.
  - rewrite tell_other by tauto. case_decide; [subst; apply vsup_ub|done].
Qed.

Lemma tell_learns K x y i : tell_ok D (x, y) → refutable i K D → vle (K x i) (tell K (x, y) y i).
Proof.
  intros Hxy Hr. destruct (decide (i = y)) as [->|Hi].
  - by destruct (tell_own K x y Hxy Hr) as (own & own' & _ & -> & _ & _ & Hle & _).
  - rewrite tell_other, decide_True by done. apply vsup_ub.
Qed.

Lemma tell_origin K x y j i : i ≠ j →
  tell K (x, y) j i = K j i ∨ tell K (x, y) j i = K x i.
Proof.
  intros Hi. rewrite tell_other by (intros ->; done). case_decide; [|by left].
  subst. apply vsup_cases.
Qed.

Lemma tell_refutable i K xy : tell_ok D xy → refutable i K D → refutable i (tell K xy) D.
Proof.
  intros Hxy Hr Hi. destruct xy as [x y].
  assert (∃ own own', K i i = Some own ∧ tell K (x, y) i i = Some own' ∧ ¬ suspicious own' ∧
    vle (Some own) (Some own')) as (own & own' & Ho & Ho' & Hs & Hle).
  { destruct (decide (i = y)) as [->|Hiy].
    - destruct (tell_own K x y Hxy Hr) as (own & own' & ? & ? & ? & ? & _). by exists own, own'.
    - destruct (Hr Hi) as (own & Ho & Hs & _). exists own, own. unfold tell. cbn [fst snd].
      by rewrite decide_False. }
  exists own'. split; [done|]. split; [done|]. intros j v Hj Hv.
  destruct (decide (i = j)) as [->|Hij]; [rewrite Ho' in Hv; injection Hv as <-; by left|].
  destruct (Hr Hi) as (own0 & Ho0 & _ & Hall). rewrite Ho in Ho0. injection Ho0 as <-.
  destruct Hxy as (Hx & _). cbn [fst] in Hx.
  destruct (tell_origin K x y j i Hij) as [He|He]; rewrite He in Hv;
    [destruct (Hall j v Hj Hv) as [Hv'|?]|destruct (Hall x v Hx Hv) as [Hv'|?]];
    first [by right|left; by etrans].
Qed.

(** A node nobody knows something newer of than itself keeps its claim. *)
Definition settled K i : Prop := ∀ j, j ∈ D → vle (K j i) (K i i).

Lemma tell_settled K xy i : tell_ok D xy → refutable i K D → i ∈ D → settled K i →
  tell K xy i i = K i i ∧ settled (tell K xy) i.
Proof.
  intros Hxy Hr Hi Hs. destruct xy as [x y]. pose proof Hxy as (Hx & _). cbn [fst] in Hx.
  assert (tell K (x, y) i i = K i i) as Hown.
  { destruct (decide (i = y)) as [->|Hiy].
    - destruct (tell_own K x y Hxy Hr) as (own & own' & Ho & -> & _ & _ & _ & Hk).
      specialize (Hs x Hx). rewrite Ho in *. by rewrite Hk.
    - unfold tell. cbn [fst snd]. by rewrite decide_False. }
  split; [done|]. intros j Hj. rewrite Hown.
  destruct (decide (i = j)) as [->|Hij]; [rewrite Hown; reflexivity|].
  destruct (tell_origin K x y j i Hij) as [-> | ->]; by apply Hs.
Qed.

(** *** Many messages *)

Lemma tell_all_refutable i l : Forall (tell_ok D) l → ∀ K, refutable i K D → refutable i (tell_all K l) D.
Proof. induction 1 as [|xy l Hxy _ IH]; intros K Hr; [done|]. by apply IH, tell_refutable. Qed.

Lemma tell_all_informed o i l : Forall (tell_ok D) l → ∀ K S, refutable i K D →
  (∀ j, j ∈ S → vle o (K j i)) → ∀ j, j ∈ foldl inform S l → vle o (tell_all K l j i).
Proof.
  induction 1 as [|xy l Hxy _ IH]; intros K S Hr HS; [done|].
  cbn [foldl tell_all]. fold (tell_all (tell K xy) l). apply IH; [by apply tell_refutable|].
  assert (∀ j, j ∈ S → vle o (tell K xy j i)) as HS'.
  { intros j Hj. etrans; [by apply HS|]. by apply tell_grows. }
  destruct xy as [x y]. unfold inform. cbn [fst snd]. case_decide as Hx; [|done].
  intros j [->%elem_of_singleton|Hj]%elem_of_union; [|by apply HS'].
  etrans; [by apply HS|]. by apply tell_learns.
Qed.

Lemma tell_all_origin K0 i l : Forall (tell_ok D) l → ∀ K, refutable i K D →
  let from_start K j := (∃ u, u ∈ D ∧ vle (K j i) (K0 u i)) ∨ i ∈ D ∧ vle (K j i) (K i i) in
  (∀ j, j ∈ D → from_start K j) → ∀ j, j ∈ D → from_start (tell_all K l) j.
Proof.
  intros Hl. induction Hl as [|xy l Hxy _ IH]; intros K Hr from_start HK; [done|].
  cbn [foldl tell_all]. fold (tell_all (tell K xy) l). apply IH; [by apply tell_refutable|].
  intros j Hj. destruct (decide (i = j)) as [->|Hij]; [right; split; [done|reflexivity]|].
  destruct xy as [x y]. pose proof Hxy as (Hx & _). cbn [fst] in Hx.
  assert (∀ k, k ∈ D → tell K (x, y) j i = K k i → 
    (∃ u, u ∈ D ∧ vle (tell K (x, y) j i) (K0 u i)) ∨
    i ∈ D ∧ vle (tell K (x, y) j i) (tell K (x, y) i i)) as Hk.
  { intros k Hk ->. destruct (HK k Hk) as [?|[Hi Hle]]; [by left|right].
    split; [done|]. etrans; [done|]. by apply tell_grows. }
  destruct (tell_origin K x y j i Hij); [by apply (Hk j)|by apply (Hk x)].
Qed.

Lemma tell_all_settled i l : Forall (tell_ok D) l → i ∈ D → ∀ K, refutable i K D → settled K i →
  tell_all K l i i = K i i ∧ settled (tell_all K l) i.
Proof.
  intros Hl Hi. induction Hl as [|xy l Hxy _ IH]; intros K Hr Hs; [done|].
  destruct (tell_settled K xy i Hxy Hr Hi Hs) as [Hown Hs'].
  cbn [foldl tell_all]. fold (tell_all (tell K xy) l). rewrite <- Hown.
  apply IH; [by apply tell_refutable|done].
Qed.

Definition all_informed l : Prop := ∀ u, u ∈ D → D ⊆ foldl inform {[ u ]} l.

Lemma told K l u v i : Forall (tell_ok D) l → refutable i K D → all_informed l → u ∈ D → v ∈ D →
  vle (K u i) (tell_all K l v i).
Proof.
  intros Hl Hr Ha Hu Hv. apply (tell_all_informed _ _ _ Hl K {[ u ]}); [done| |by apply (Ha u)].
  by intros j ->%elem_of_singleton.
Qed.

(** Once everybody has heard everybody: the claims about others agree, and nobody
    knows more of a running node than itself. *)
Lemma one_round K l i : Forall (tell_ok D) l → refutable i K D → all_informed l →
  if decide (i ∈ D) then settled (tell_all K l) i
  else ∀ j k, j ∈ D → k ∈ D → tell_all K l j i = tell_all K l k i.
Proof.
  intros Hl Hr Ha.
  assert (∀ j, j ∈ D → (∃ u, u ∈ D ∧ vle (tell_all K l j i) (K u i)) ∨
    i ∈ D ∧ vle (tell_all K l j i) (tell_all K l i i)) as Hfrom.
  { apply (tell_all_origin K); [done..|]. intros j Hj. left. exists j. split; [done|reflexivity]. }
  case_decide as Hi.
  - intros j Hj. destruct (Hfrom j Hj) as [(u & Hu & Hle)|[_ Hle]]; [|done].
    etrans; [done|]. by apply told.
  - assert (∀ j k, j ∈ D → k ∈ D → vle (tell_all K l j i) (tell_all K l k i)) as Hle.
    { intros j k Hj Hk. destruct (Hfrom j Hj) as [(u & Hu & Hle)|[? _]]; [|done].
      etrans; [done|]. by apply told. }
    intros j k Hj Hk. apply vle_antisym; by apply Hle.
Qed.

Lemma two_rounds K l1 l2 i j k : Forall (tell_ok D) l1 → Forall (tell_ok D) l2 → refutable i K D →
  all_informed l1 → all_informed l2 → j ∈ D → k ∈ D →
  let K2 := tell_all (tell_all K l1) l2 in
  K2 j i = K2 k i ∧ (i ∈ D → ∃ v, K2 j i = Some v ∧ ¬ suspicious v).
Proof.
  intros Hl1 Hl2 Hr H1 H2 Hj Hk K2.
  pose proof (tell_all_refutable i l1 Hl1 K Hr) as Hr1.
  pose proof (one_round K l1 i Hl1 Hr H1) as Hs1.
  pose proof (one_round _ l2 i Hl2 Hr1 H2) as Hs2. fold K2 in Hs2.
  destruct (decide (i ∈ D)) as [Hi|Hi]; [|split; [by apply Hs2|done]].
  destruct (tell_all_settled i l2 Hl2 Hi _ Hr1 Hs1) as [Hown Hs]. fold K2 in Hown, Hs.
  assert (∀ j, j ∈ D → K2 j i = K2 i i) as Hall.
  { intros j' Hj'. apply vle_antisym; [by apply Hs|]. rewrite Hown. by apply told. }
  split; [by rewrite (Hall j), (Hall k)|]. intros _. rewrite (Hall j) by done.
  destruct (tell_all_refutable i l2 Hl2 _ Hr1 Hi) as (own & Ho & Hns & _). by exists own.
Qed.
End steps.
End claims.

(** ** Lemmas: tables *)

Section tables.
Context `{UuidLib} `{HashIter}.
Import MembershipTable Gossip Convergence.
Implicit Types (C : Cluster).

Lemma claim_insert C i t j k :
  claim (<[i := t]> C) j k = if decide (j = i) then version t k else claim C j k.
Proof.
  unfold claim. case_decide as Hj; [subst; by rewrite lookup_insert_eq|by rewrite lookup_insert_ne].
Qed.

Lemma claim_lookup C i t k : C !! i = Some t → claim C i k = version t k.
Proof. intros Ht. unfold claim. by rewrite Ht. Qed.

Lemma well_formed_insert C i t : well_formed C → wf t → local_id t = i → well_formed (<[i := t]> C).
Proof. intros HC Ht Hi j u [[<- <-]|[_ Hu]]%lookup_insert_Some; [done|by apply HC]. Qed.

Lemma tell_all_ext l : ∀ (K K' : NodeId → NodeId → option Version),
  (∀ j i, K j i = K' j i) → ∀ j i, tell_all K l j i = tell_all K' l j i.
Proof.
  induction l as [|xy l IH]; intros K K' HK; [done|]. apply IH. intros j i. unfold tell.
  by rewrite !HK.
Qed.

(** A meeting is one message, or two. *)
Lemma meet_claims env_a env_b c C : well_formed C → contact_ok (dom C) c →
  let C' := meet env_a env_b c C in
  well_formed C' ∧ dom C' = dom C ∧ ∀ j i, claim C' j i = tell_all (claim C) (tells c) j i.
Proof.
  intros HC (Ha & Hb & Hne) C'. unfold C', meet.
  apply elem_of_dom in Ha as [a Ha]. apply elem_of_dom in Hb as [b Hb]. rewrite Ha, Hb.
  destruct (HC _ _ Ha) as [Hwa Hla], (HC _ _ Hb) as [Hwb Hlb].
  unfold gossip_exchange, process_gossip_response. rewrite !entries_of_build.
  cbn [msg_sender_id build_gossip_message]. rewrite NodeId_parse_to_string.
  set (b' := touch _ _ _).
  assert (wf b') as Hwb' by (by apply touch_wf, merge_wf, view_u64).
  assert (local_id b' = callee c) as Hlb' by (unfold b'; by rewrite touch_local_id, merge_local_id).
  set (C1 := <[callee c := b']> C).
  assert (well_formed C1) as HC1 by by apply well_formed_insert.
  assert (∀ j i, claim C1 j i = tell (claim C) (caller c, callee c) j i) as H1.
  { intros j i. unfold C1, tell. rewrite claim_insert. cbn [fst snd]. case_decide; [|done].
    unfold b'. rewrite touch_version, merge_hears, Hlb by done.
    by rewrite (claim_lookup _ _ _ _ Ha), (claim_lookup _ _ _ _ Hb). }
  unfold tells. destruct (replied c).
  2:{ split; [done|]. split; [apply dom_insert_lookup_L; eauto|exact H1]. }
  set (a' := merge _ _ _).
  assert (wf a') as Hwa' by (by apply merge_wf, view_u64; [apply touch_wf|]).
  split; [|split].
  - apply well_formed_insert; [done..|]. unfold a'. by rewrite merge_local_id, touch_local_id.
  - rewrite dom_insert_lookup_L; [apply dom_insert_lookup_L; eauto|].
    unfold C1. rewrite lookup_insert_ne by done. eauto.
  - intros j i. rewrite claim_insert. cbn [tell_all foldl]. unfold tell at 1. cbn [fst snd].
    case_decide as Hj; [|apply H1]. unfold a'. rewrite merge_hears, touch_version, touch_local_id, Hla
      by (done || by apply touch_wf).
    rewrite <- !H1. unfold C1. rewrite !claim_insert, decide_False, decide_True by done.
    by rewrite (claim_lookup _ _ _ _ Ha).
Qed.

(** *** Histories *)

Definition within (N : Z) (K : NodeId → NodeId → option Version) : Prop :=
  ∀ j i v, K j i = Some v → 0 ≤ v.1 ≤ N.
Definition sane (i : NodeId) (N : Z) C : Prop :=
  well_formed C ∧ refutable i (claim C) (dom C) ∧ within N (claim C).

Lemma within_mono N N' K : N ≤ N' → within N K → within N' K.
Proof. intros HN HK j i v Hv. specialize (HK j i v Hv). lia. Qed.

Lemma hears_within N own mine said v : 
  (∀ u, mine = Some u → 0 ≤ u.1 ≤ N) → (∀ u, said = Some u → 0 ≤ u.1 ≤ N) →
  hears own mine said = Some v → 0 ≤ v.1 ≤ N + 1.
Proof.
  intros Hm Hs. destruct own; cbn [hears].
  - destruct mine as [[m st]|]; [|done]. specialize (Hm _ eq_refl). cbn in Hm.
    destruct said as [[n s]|]; [specialize (Hs _ eq_refl); cbn in Hs|intros [= <-]; cbn; lia].
    assert (0 ≤ u64_add n 1 ≤ N + 1) as Hu.
    { pose proof (u64_add_range n 1) as Hr. split; [apply Hr|].
      destruct (decide (n + 1 ≤ u64_max)); [rewrite u64_add_small by (machine_unfold; lia); lia|].
      machine_unfold. lia. }
    destruct s; try (intros [= <-]; cbn; lia); case_decide; intros [= <-]; cbn; lia.
  - destruct (vsup_cases mine said) as [-> | ->]; intros Hv;
      [specialize (Hm _ Hv)|specialize (Hs _ Hv)]; lia.
Qed.

Lemma tell_all_within l : ∀ N K, within N K → within (N + Z.of_nat (length l)) (tell_all K l).
Proof.
  induction l as [|[x y] l IH]; intros N K HK.
  { eapply within_mono; [|done]. simpl. lia. }
  eapply within_mono; [|apply (IH (N + 1))]; [simpl; lia|].
  intros j i v. unfold tell. cbn [fst snd]. case_decide.
  - apply hears_within; intros u Hu; by eapply HK.
  - intros Hv. specialize (HK j i v Hv). lia.
Qed.

Lemma tells_ok D c : contact_ok D c → Forall (tell_ok D) (tells c).
Proof.
  intros (Ha & Hb & Hne). unfold tells. constructor; [done|].
  destruct (replied c); [|done]. by constructor.
Qed.

Lemma refutable_ext i K K' D : (∀ j i, K j i = K' j i) → refutable i K' D → refutable i K D.
Proof.
  intros HK Hr Hi. destruct (Hr Hi) as (own & Ho & Hs & Hall). exists own.
  rewrite HK. split; [done|]. split; [done|]. intros j v Hj. rewrite HK. by apply Hall.
Qed.

(** One node changes its table: it keeps or raises its own claim, and makes no new
    claims about others but suspicions. *)
Lemma refutable_change k K K' D N i own own' : refutable k K D → within N K → N < u64_max → i ∈ D →
  (∀ j k, j ≠ i → K' j k = K j k) →
  K i i = Some own → K' i i = Some own' → ¬ suspicious own' → vle (Some own) (Some own') →
  (∀ k v, k ≠ i → K' i k = Some v → K i k = Some v ∨ suspicious v ∧ ∃ s, K i k = Some (v.1, s)) →
  refutable k K' D.
Proof.
  intros Hr Hw HN Hi Hsame Ho Ho' Hs' Hle Hnew Hk.
  destruct (Hr Hk) as (ownk & Hok & Hsk & Hall).
  destruct (decide (k = i)) as [->|Hki].
  - rewrite Ho in Hok. injection Hok as <-. exists own'. split; [done|]. split; [done|].
    intros j v Hj Hv. destruct (decide (j = i)) as [->|Hji].
    + rewrite Ho' in Hv. injection Hv as <-. by left.
    + rewrite Hsame in Hv by done. destruct (Hall j v Hj Hv) as [?|?]; [left; by etrans|by right].
  - exists ownk. rewrite Hsame by done. split; [done|]. split; [done|].
    intros j v Hj Hv. destruct (decide (j = i)) as [->|Hji].
    + destruct (Hnew k v Hki Hv) as [Hv'|[Hs [st Hv']]]; [by eapply Hall|]. right. split; [done|].
      specialize (Hw _ _ _ Hv'). cbn in Hw. lia.
    + rewrite Hsame in Hv by done. by eapply Hall.
Qed.

Lemma sane_change q N N' C i t t' own own' : sane q N C → N ≤ N' → N' < u64_max → C !! i = Some t →
  wf t' → local_id t' = i →
  version t i = Some own → version t' i = Some own' → ¬ suspicious own' → vle (Some own) (Some own') →
  own'.1 ≤ N' →
  (∀ k v, k ≠ i → version t' k = Some v →
     version t k = Some v ∨ suspicious v ∧ ∃ s, version t k = Some (v.1, s)) →
  sane q N' (<[i := t']> C).
Proof.
  intros (HC & Hr & Hw) HN HN' Ht Hwf' Hl Ho Ho' Hs Hle Hb Hnew.
  assert (∀ k, claim C i k = version t k) as Hk by (intros; by apply claim_lookup).
  split; [by apply well_formed_insert|]. split.
  - rewrite dom_insert_lookup_L by eauto.
    apply (refutable_change q (claim C) _ _ N i own own'); try done; try lia; try (by rewrite Hk).
    + by apply elem_of_dom_2 in Ht.
    + intros j k Hj. by rewrite claim_insert, decide_False.
    + by rewrite claim_insert, decide_True.
    + intros k v Hki. rewrite claim_insert, decide_True, Hk by done. by apply Hnew.
  - intros j k v. rewrite claim_insert. case_decide as Hj; [subst j|intros Hv; specialize (Hw _ _ _ Hv); lia].
    destruct (decide (k = i)) as [->|Hki].
    + rewrite Ho'. intros [= <-]. split; [|done].
      destruct (wf_self _ Hwf') as (e & He & _). rewrite Hl in He. unfold version in Ho'.
      rewrite He in Ho'. injection Ho' as <-. by apply (wf_entry _ Hwf' _ _ He).
    + intros Hv. destruct (Hnew k v Hki Hv) as [Hv'|[_ [s Hv']]]; rewrite <- Hk in Hv';
        specialize (Hw _ _ _ Hv'); cbn in Hw; lia.
Qed.

Lemma sane_own q N C i t : sane q N C → C !! i = Some t → ∃ own,
  version t i = Some own ∧ ¬ suspicious own ∧ 0 ≤ own.1 ≤ N.
Proof.
  intros (HC & _ & Hw) Ht. destruct (HC _ _ Ht) as [Hwf Hl].
  destruct (wf_self _ Hwf) as (e & He & Hs). rewrite Hl in He.
  assert (version t i = Some (incarnation e, status e)) as Hv by (unfold version; by rewrite He).
  exists (incarnation e, status e). split; [done|]. split; [unfold suspicious; cbn; destruct Hs as [-> | ->]; by intros [|]|].
  apply (Hw i i). by rewrite (claim_lookup _ _ _ _ Ht).
Qed.

Lemma sane_timeouts q N C i t now : sane q N C → N < u64_max → C !! i = Some t →
  sane q N (<[i := check_timeouts now i t]> C).
Proof.
  intros Hs HN Ht. pose proof Hs as (HC & _). destruct (HC _ _ Ht) as [Hwf Hl].
  destruct (sane_own q N C i t Hs Ht) as (own & Ho & Hns & Hb). subst i.
  destruct (table_steps_wf _ _ (check_timeouts_steps now t) Hwf) as [Hwf' Hl'].
  apply (sane_change q N N C (local_id t) t (check_timeouts now (local_id t) t) own own); try done; try lia.
  - unfold version. by rewrite check_timeouts_lookup, decide_True.
  - intros k v Hk. unfold version. rewrite check_timeouts_lookup, decide_False by done.
    destruct (members t !! k) as [e|]; [|done]. cbn [fmap option_fmap option_map].
    intros [= <-]. unfold timeout_entry, suspicious.
    destruct (status e) eqn:Es; try destruct (_ <? _); cbn; rewrite ?Es; eauto 6.
Qed.

Lemma sane_rebalanced q N C i t : sane q N C → N + 1 < u64_max → C !! i = Some t →
  sane q (N + 1) (<[i := mark_self_alive t]> C).
Proof.
  intros Hs HN Ht. pose proof Hs as (HC & _). destruct (HC _ _ Ht) as [Hwf Hl].
  destruct (sane_own q N C i t Hs Ht) as ([m st] & Ho & Hns & Hb). subst i. cbn in Hb.
  assert (mark_self_alive t = set_entry t (local_id t) (mkMemberEntry
    (info (default (mkMemberEntry (mkNodeInfo (local_id t) "") Alive 0 0) (members t !! local_id t)))
    Alive (m + 1)
    (last_seen (default (mkMemberEntry (mkNodeInfo (local_id t) "") Alive 0 0) (members t !! local_id t)))))
    as Hm.
  { unfold version in Ho. unfold mark_self_alive.
    destruct (members t !! local_id t) as [e|]; [|done]. injection Ho as <- <-.
    cbn. by rewrite u64_add_small by (machine_unfold; lia). }
  pose proof (mark_self_alive_wf t Hwf) as Hwf'. rewrite Hm in *.
  apply (sane_change q N (N + 1) C (local_id t) t _ (m, st) (m + 1, Alive)); try done; try lia; cbn; try lia.
  - by rewrite version_set_entry, decide_True.
  - unfold suspicious. cbn. by intros [|].
  - right. left. cbn. lia.
  - intros k v Hk. rewrite version_set_entry, decide_False by done. by left.
Qed.

Lemma sane_start q N C now i seeds : sane q N C → 0 ≤ N < u64_max → noticed q C i →
  (∀ s, s ∈ seeds → id s ≠ i ∧ C !! id s = None) →
  sane q N (<[i := new now i seeds]> C).
Proof.
  intros (HC & Hr & Hw) HN Hnot Hseeds.
  assert (∀ k v, version (new now i seeds) k = Some v → v.1 = 0 ∧ (k ≠ i → C !! k = None)) as Hnew.
  { intros k v (e & He & ->)%fmap_Some. 
    apply new_lookup in He as [(-> & ->)|(_ & s & Hs & <- & ->)]; [done|].
    split; [done|]. intros _. by apply Hseeds. }
  split; [by apply well_formed_insert; [|apply table_new_wf|]|]. split.
  - intros Hk. rewrite dom_insert_L, elem_of_union, elem_of_singleton in Hk.
    destruct (decide (q = i)) as [->|Hki].
    + exists (0, if decide (seeds = []) then Alive else Joining).
      rewrite claim_insert, decide_True by done. unfold version at 1. rewrite new_self.
      split; [done|]. split; [unfold suspicious; case_decide; by intros [|]|].
      intros j v _. rewrite claim_insert. case_decide as Hji.
      * unfold version. rewrite new_self. intros [= <-]. by left; left.
      * intros Hv. right. split; [by apply (Hnot eq_refl j)|]. specialize (Hw _ _ _ Hv). lia.
    + destruct Hk as [->|Hk]; [done|]. destruct (Hr Hk) as (own & Ho & Hs & Hall).
      exists own. rewrite claim_insert, decide_False by done. split; [done|]. split; [done|].
      intros j v Hj. rewrite claim_insert. case_decide as Hji.
      * intros [_ Hv]%Hnew. apply elem_of_dom in Hk as [? Hk]. by rewrite (Hv Hki) in Hk.
      * rewrite dom_insert_L, elem_of_union, elem_of_singleton in Hj. destruct Hj as [?|Hj]; [done|].
        by apply Hall.
  - intros j k v. rewrite claim_insert. case_decide; [|apply Hw]. intros [-> _]%Hnew. lia.
Qed.

Lemma sane_crash q N C i : sane q N C → sane q N (delete i C).
Proof.
  intros (HC & Hr & Hw).
  assert (∀ j k v, claim (delete i C) j k = Some v → j ≠ i ∧ claim C j k = Some v) as Hc.
  { intros j k v. unfold claim. destruct (decide (j = i)) as [->|Hj].
    - by rewrite lookup_delete_eq.
    - by rewrite lookup_delete_ne. }
  split; [|split].
  - intros j t [_ Hj]%lookup_delete_Some. by apply HC.
  - intros Hk. rewrite dom_delete_L, elem_of_difference, elem_of_singleton in Hk.
    destruct Hk as [Hk Hki]. destruct (Hr Hk) as (own & Ho & Hs & Hall). exists own.
    split; [|split; [done|]].
    + unfold claim. by rewrite lookup_delete_ne.
    + intros j v Hj [_ Hv]%Hc. rewrite dom_delete_L, elem_of_difference in Hj.
      apply (Hall j v); [apply Hj|done].
  - intros j k v [_ Hv]%Hc. by eapply Hw.
Qed.

Lemma sane_meet q N C env_a env_b c : sane q N C → contact_ok (dom C) c →
  sane q (N + 2) (meet env_a env_b c C) ∧ dom (meet env_a env_b c C) = dom C.
Proof.
  intros (HC & Hr & Hw) Hc. destruct (meet_claims env_a env_b c C HC Hc) as (HC' & Hd & Hcl).
  split; [|done]. split; [done|]. split.
  - rewrite Hd. apply (refutable_ext _ _ _ _ Hcl). apply tell_all_refutable; [by apply tells_ok|done].
  - intros j i v. rewrite Hcl. intros Hv. pose proof (tell_all_within (tells c) N _ Hw j i v Hv) as Hb.
    unfold tells in Hb. destruct (replied c); cbn [length] in Hb; lia.
Qed.

Lemma sane_step q N C C' : step (noticed q) C C' → sane q N C → 0 ≤ N → N + 2 < u64_max → sane q (N + 2) C'.
Proof.
  intros Hst Hs HN Hlt.
  assert (∀ N' C, sane q N' C → N' ≤ N + 2 → sane q (N + 2) C) as Hmono.
  { intros N' C0 (H1 & H2 & H3) Hle. split; [done|]. split; [done|]. by eapply within_mono. }
  destruct Hst as [now i seeds H1 H2|env_a env_b c Ha Hb Hne|now i t Ht|i t Ht|i].
  - apply (Hmono N); [apply sane_start; (done || lia)|lia].
  - apply sane_meet; [done|]. split; [by apply elem_of_dom|]. split; [by apply elem_of_dom|done].
  - apply (Hmono N); [apply sane_timeouts; [done|lia|done]|lia].
  - apply (Hmono (N + 1)); [apply sane_rebalanced; [done|lia|done]|lia].
  - apply (Hmono N); [by apply sane_crash|lia].
Qed.

Lemma history_sane q n C C' : nsteps (step (noticed q)) n C C' → ∀ N, sane q N C → 0 ≤ N →
  N + 2 * Z.of_nat n < u64_max → sane q (N + 2 * Z.of_nat n) C'.
Proof.
  induction 1 as [C|n C C1 C' Hst _ IH]; intros N Hs HN Hlt.
  { by replace (N + 2 * Z.of_nat 0) with N by lia. }
  replace (N + 2 * Z.of_nat (S n)) with (N + 2 + 2 * Z.of_nat n) in * by lia.
  apply IH; [|lia..]. apply (sane_step q N C); (done || lia).
Qed.

Lemma empty_sane q : sane q 0 (∅ : Cluster).
Proof.
  split; [by intros j t Hj|]. split; [by intros Hq; rewrite dom_empty_L in Hq|].
  intros j i v. unfold claim. by rewrite lookup_empty.
Qed.

(** A run of meetings is the list of their messages. *)
Lemma run_claims env cs : ∀ k C, well_formed C → Forall (contact_ok (dom C)) cs →
  let C' := run env k cs C in
  dom C' = dom C ∧ well_formed C' ∧ ∀ j i, claim C' j i = tell_all (claim C) (cs ≫= tells) j i.
Proof.
  induction cs as [|c cs IH]; intros k C HC Hcs; [done|]. inversion Hcs as [|? ? Hc Hcs']; subst.
  destruct (meet_claims (env k).1 (env k).2 c C HC Hc) as (HC1 & Hd & Hcl).
  destruct (IH (S k) _ HC1) as (Hd' & HC' & Hcl'); [by rewrite Hd|]. cbn [run].
  split; [congruence|]. split; [done|]. intros j i. rewrite Hcl'. cbn [mbind list_bind].
  unfold tell_all at 2. rewrite foldl_app. fold (tell_all (claim C) (tells c)).
  apply tell_all_ext. exact Hcl.
Qed.

Lemma informed_dom D u v l : u ∈ D → Forall (tell_ok D) l → v ∈ foldl inform {[ u ]} l → v ∈ D.
Proof.
  intros Hu Hl. assert (∀ S, S ⊆ D → foldl inform S l ⊆ D) as HS.
  { induction Hl as [|[x y] l (Hx & Hy & _) _ IH]; intros S HS; [done|]. cbn [foldl]. apply IH.
    unfold inform. cbn [fst snd] in *. case_decide; set_solver. }
  intros Hv. apply (HS {[ u ]}); [set_solver|done].
Qed.

(** The targets of a round, one by one: what the later ones answer does not depend on
    the earlier ones. *)
Lemma targets_meetings C0 env_a env_b at_addr arrives i targets : ∀ k C t, C !! i = Some t →
  let listens e := at_addr (addr (info e)) in
  i ∉ listens <$> targets → NoDup (listens <$> targets) →
  (∀ e, e ∈ targets → C !! listens e = C0 !! listens e) →
  let '(sent, t') := gossip_targets env_a (reply_of C0 env_b at_addr arrives) k targets t in
  sent.*1 = (λ e, addr (info e)) <$> targets ∧
  run (λ k, (env_a k, env_b k)) k (meetings i at_addr arrives k targets) C !! i = Some t'.
Proof.
  induction targets as [|e targets IH]; intros k C t Ht listens Hi Hnd Hsame; [done|].
  rewrite fmap_cons, not_elem_of_cons in Hi. rewrite fmap_cons, NoDup_cons in Hnd.
  destruct Hi as [Hie Hi], Hnd as [He Hnd]. cbn [gossip_targets].
  set (t1 := match reply_of _ _ _ _ _ _ _ with Some _ => _ | None => t end).
  set (c := mkContact i (listens e) (id (info e)) (arrives k)).
  set (C1 := meet (env_a k) (env_b k) c C).
  assert (C1 !! i = Some t1 ∧ ∀ j, j ≠ i → j ≠ listens e → C1 !! j = C !! j) as [Ht1 Hframe].
  { unfold C1, t1, meet, reply_of. cbn [caller callee known_as replied c]. rewrite Ht.
    pose proof (Hsame e (list_elem_of_here _ _)) as Heq. fold (listens e). rewrite <- Heq.
    destruct (C !! listens e) as [b|]; [|done]. cbn [mbind option_bind].
    destruct (gossip_exchange _ _ b) as [b' r]. destruct (arrives k).
    - split; [apply lookup_insert_eq|]. intros j Hj1 Hj2. by rewrite !lookup_insert_ne.
    - split; [by rewrite lookup_insert_ne|]. intros j Hj1 Hj2. by rewrite lookup_insert_ne. }
  pose proof (IH (S k) C1 t1 Ht1 Hi Hnd) as Hrest.
  destruct (gossip_targets env_a _ (S k) targets t1) as [sent t2].
  destruct Hrest as [Hsent Hrun].
  { intros e' He'. rewrite Hframe; [apply Hsame; by right| |].
    - intros Heq. apply Hi. rewrite <- Heq. by apply (list_elem_of_fmap_2 listens).
    - intros Heq. apply He. rewrite <- Heq. by apply (list_elem_of_fmap_2 listens). }
  split; [cbn; by rewrite Hsent|]. rewrite <- Hrun. unfold meetings. rewrite imap_cons.
  cbn [run fst snd]. rewrite Nat.add_0_r. fold (listens e). fold c. fold C1. do 2 f_equal.
  apply imap_ext. intros n e' _. cbn. by rewrite Nat.add_succ_r.
Qed.

Lemma contacts_tells D cs : Forall (contact_ok D) cs → Forall (tell_ok D) (cs ≫= tells).
Proof.
  induction 1 as [|c cs Hc _ IH]; [done|]. cbn [mbind list_bind]. apply Forall_app.
  split; [by apply tells_ok|done].
Qed.
End tables.

(** *** A schedule that spreads *)

Section star.
Context `{UuidLib} `{HashIter}.
Import Convergence.

Lemma inform_mono l : ∀ S, S ⊆ foldl inform S l.
Proof.
  induction l as [|xy l IH]; intros S; [done|]. cbn [foldl]. etrans; [|apply IH].
  unfold inform. case_decide; set_solver.
Qed.

Lemma star_hub h xs : ∀ S x, x ∈ xs → x ∈ S → h ∈ foldl inform S (star h xs ≫= tells).
Proof.
  induction xs as [|y xs IH]; intros S x Hx HS; [by apply elem_of_nil in Hx|].
  unfold star. rewrite fmap_cons. cbn [mbind list_bind tells caller callee replied app foldl].
  apply elem_of_cons in Hx as [->|Hx].
  - apply inform_mono. unfold inform at 2. cbn [fst snd]. rewrite decide_True by done.
    unfold inform. cbn [fst snd]. case_decide; set_solver.
  - apply (IH _ x); [done|]. unfold inform. cbn [fst snd]. repeat case_decide; set_solver.
Qed.

Lemma star_all h xs : ∀ S x, x ∈ xs → h ∈ S → x ∈ foldl inform S (star h xs ≫= tells).
Proof.
  induction xs as [|y xs IH]; intros S x Hx HS; [by apply elem_of_nil in Hx|].
  unfold star. rewrite fmap_cons. cbn [mbind list_bind tells caller callee replied app foldl].
  assert (h ∈ inform S (y, h)) as Hh by (unfold inform; case_decide; set_solver).
  apply elem_of_cons in Hx as [->|Hx].
  - apply inform_mono. unfold inform at 1. cbn [fst snd]. rewrite decide_True by done. set_solver.
  - apply IH; [done|]. unfold inform at 1. cbn [fst snd]. rewrite decide_True by done. set_solver.
Qed.

Lemma star_spreads h xs : spreads ({[ h ]} ∪ list_to_set xs) (star h xs ++ star h xs).
Proof.
  intros u Hu v Hv. unfold informed. rewrite bind_app, foldl_app.
  assert (h ∈ foldl inform {[ u ]} (star h xs ≫= tells)) as Hh.
  { apply elem_of_union in Hu as [->%elem_of_singleton|Hu%elem_of_list_to_set].
    - apply inform_mono. set_solver.
    - apply (star_hub h xs _ u); [done|set_solver]. }
  apply elem_of_union in Hv as [->%elem_of_singleton|Hv%elem_of_list_to_set].
  - by apply inform_mono.
  - by apply star_all.
Qed.

Lemma star_ok h xs : h ∉ xs → Forall (contact_ok ({[ h ]} ∪ list_to_set xs)) (star h xs).
Proof.
  intros Hh. apply Forall_fmap, Forall_forall. intros x Hx. unfold contact_ok. cbn.
  split; [set_solver|]. split; [set_solver|]. by intros <-.
Qed.
End star.

(** ** Properties *)

Section properties.
Context `{UuidLib} `{HashIter}.
Import MembershipTable Gossip Convergence.


(** C40: news spreads: after any history of a cluster with fewer than 2^63 - 1 events,
    in which the node [i] was not started again while others still had it for alive or
    joining, whatever version of [i] anybody has, everybody whom a chain of meetings leads
    to from there, in the order of the meetings and with or without replies, has that
    version or a newer one; and a suspicion that reaches its subject has been refuted. *)
Theorem news_spreads (n : nat) (C : Cluster) (env : nat → Env * Env) (cs : list contact)
    (u v i : NodeId) :
  nsteps (step (noticed i)) n ∅ C → 2 * Z.of_nat n < u64_max → Forall (contact_ok (dom C)) cs →
  u ∈ dom C → v ∈ informed cs u →
  let C' := run env 0 cs C in
  vle (claim C u i) (claim C' v i) ∧
  (v = i → ∃ own, claim C' i i = Some own ∧ ¬ suspicious own).
Proof.
  intros Hn Hlt Hcs Hu Hv C'.
  destruct (history_sane i n ∅ C Hn 0 (empty_sane i)) as (HC & Hr & _); [lia..|].
  destruct (run_claims env cs 0 C HC Hcs) as (Hd & HC' & Hcl).
  pose proof (contacts_tells _ _ Hcs) as Hl.
  assert (vle (claim C u i) (claim C' v i)) as Hle.
  { unfold C'. rewrite Hcl. apply (tell_all_informed (dom C) _ _ _ Hl _ {[ u ]}); [done| |done].
    by intros j ->%elem_of_singleton. }
  split; [done|]. intros ->.
  assert (i ∈ dom C) as Hi by (by apply (informed_dom (dom C) u i (cs ≫= tells))).
  destruct (tell_all_refutable (dom C) i _ Hl _ Hr Hi) as (own & Ho & Hs & _).
  exists own. unfold C'. by rewrite Hcl.
Qed.

(** C3: the membership converges: take any history of a cluster with fewer than 2^63 - 1
    events (starts, also of nodes that ran before, crashes, meetings, timeouts, ends of
    rebalances) and any node [i] that was never started again while another running node
    still had it for alive or joining (such a restart goes unnoticed: see [Restart]); other
    nodes may have been.  Once everybody has then heard everybody twice, directly or through
    others, with no timeout and no other event in between, all running nodes have the same
    version of [i]; and if [i] runs, that it is Alive or Joining: all false suspicions of it
    are gone. *)
Theorem membership_converges (n : nat) (C : Cluster) (env : nat → Env * Env)
    (cs1 cs2 : list contact) (j k i : NodeId) :
  nsteps (step (noticed i)) n ∅ C → 2 * Z.of_nat n < u64_max →
  Forall (contact_ok (dom C)) (cs1 ++ cs2) → spreads (dom C) cs1 → spreads (dom C) cs2 →
  j ∈ dom C → k ∈ dom C →
  let C' := run env 0 (cs1 ++ cs2) C in
  claim C' j i = claim C' k i ∧
  (i ∈ dom C → ∃ v, claim C' j i = Some v ∧ (v.2 = Alive ∨ v.2 = Joining)).
Proof.
  intros Hn Hlt Hcs H1 H2 Hj Hk C'.
  destruct (history_sane i n ∅ C Hn 0 (empty_sane i)) as (HC & Hr & _); [lia..|].
  destruct (run_claims env (cs1 ++ cs2) 0 C HC Hcs) as (_ & _ & Hcl).
  apply Forall_app in Hcs as [Hcs1 Hcs2].
  assert (∀ j i, claim C' j i = tell_all (tell_all (claim C) (cs1 ≫= tells)) (cs2 ≫= tells) j i) as Hcl'.
  { intros j' i'. unfold C'. rewrite Hcl, bind_app. unfold tell_all. by rewrite foldl_app. }
  destruct (two_rounds (dom C) (claim C) (cs1 ≫= tells) (cs2 ≫= tells) i j k) as [Heq Hv];
    [by apply contacts_tells..|done|done|done|done|done|].
  rewrite !Hcl'. split; [done|]. intros Hi. destruct (Hv Hi) as (v & Hvi & Hs).
  exists v. split; [done|]. unfold suspicious in Hs. destruct (v.2); tauto.
Qed.
End properties.

(** ** Witnesses: [a] suspects [b], which is started again *)

Section witnesses.
#[local] Existing Instance Examples.string_uuid.
#[local] Existing Instance Examples.sorted_iter.
Import MembershipTable Gossip Convergence.

Definition ex_ida : NodeId := ex_id "a".
Definition ex_idb : NodeId := ex_id "b".
Definition ex_joined : MembershipTable := new 0 ex_idb [mkNodeInfo (ex_id "p") "a:5001"].
Definition ex_started : Cluster := <[ex_idb := ex_joined]> (<[ex_ida := new 0 ex_ida []]> ∅).
Definition ex_serving : Cluster := <[ex_idb := mark_self_alive ex_joined]> ex_started.
Definition ex_met : Cluster := meet ex_env ex_env (mkContact ex_idb ex_ida (ex_id "p") true) ex_serving.
Definition ex_table_a : MembershipTable := default (new 0 ex_ida []) (ex_met !! ex_ida).
Definition ex_suspecting : Cluster := <[ex_ida := check_timeouts (from_secs 9) ex_ida ex_table_a]> ex_met.

(** [b] had in fact crashed, and is started again. *)
Definition ex_back : Cluster := <[ex_idb := ex_joined]> (delete ex_idb ex_suspecting).

Lemma ex_history : nsteps (step (noticed ex_idb)) 7 ∅ ex_back.
Proof.
  apply (nsteps_l _ 6 _ (<[ex_ida := new 0 ex_ida []]> ∅)).
  { apply step_start; [done|by intros s ?%elem_of_nil]. }
  apply (nsteps_l _ 5 _ ex_started).
  { apply step_start; [|by intros s ->%list_elem_of_singleton].
    intros _ k v Hk. rewrite claim_insert. case_decide; [vm_compute; discriminate|].
    unfold claim. by rewrite lookup_empty. }
  apply (nsteps_l _ 4 _ ex_serving).
  { apply step_rebalanced. apply lookup_insert_eq. }
  apply (nsteps_l _ 3 _ ex_met).
  { apply step_meet; [by eexists|by eexists|discriminate]. }
  apply (nsteps_l _ 2 _ ex_suspecting).
  { apply step_timeouts. unfold ex_table_a.
    assert (is_Some (ex_met !! ex_ida)) as [t ->] by (apply (bool_decide_unpack _); vm_compute; exact I).
    reflexivity. }
  apply (nsteps_l _ 1 _ (delete ex_idb ex_suspecting)); [apply step_crash|].
  apply (nsteps_l _ 0 _ ex_back); [|constructor]. apply step_start.
  - intros _ k v Hk. unfold claim. rewrite lookup_delete_ne by done. fold (claim ex_suspecting k ex_idb).
    unfold ex_suspecting. rewrite claim_insert. case_decide as Hka.
    + intros Hv. assert (v = (1, Suspect)) as -> by (vm_compute in Hv; congruence). by left.
    + unfold claim. assert (ex_met !! k = None) as ->; [|done]. apply not_elem_of_dom.
      assert (dom ex_met = {[ ex_ida; ex_idb ]}) as -> by (apply (bool_decide_unpack _); vm_compute; exact I).
      set_solver.
  - by intros s ->%list_elem_of_singleton.
Qed.

Lemma ex_suspects : claim ex_back ex_ida ex_idb = Some (1, Suspect).
Proof. vm_compute. reflexivity. Qed.
Lemma ex_dom : dom ex_back = {[ ex_ida ]} ∪ list_to_set [ex_idb].
Proof. apply (bool_decide_unpack _). vm_compute. exact I. Qed.

Definition ex_round : list contact := star ex_ida [ex_idb] ++ star ex_ida [ex_idb].

Lemma membership_converges_witness :
  claim ex_back ex_ida ex_idb = Some (1, Suspect) ∧
  ∃ v, claim (run (λ _, (ex_env, ex_env)) 0 (ex_round ++ ex_round) ex_back) ex_ida ex_idb = Some v ∧
    (v.2 = Alive ∨ v.2 = Joining).
Proof.
  split; [exact ex_suspects|].
  apply (membership_converges 7 ex_back (λ _, (ex_env, ex_env)) ex_round ex_round ex_ida ex_ida
    ex_idb ex_history).
  - by compute.
  - rewrite ex_dom. unfold ex_round. rewrite !Forall_app.
    repeat split; apply star_ok; by intros ?%list_elem_of_singleton.
  - rewrite ex_dom. apply star_spreads.
  - rewrite ex_dom. apply star_spreads.
  - rewrite ex_dom. set_solver.
  - rewrite ex_dom. set_solver.
  - rewrite ex_dom. set_solver.
Defined.

Lemma news_spreads_witness :
  vle (Some (1, Suspect)) (claim (run (λ _, (ex_env, ex_env)) 0 (star ex_ida [ex_idb]) ex_back)
    ex_idb ex_idb).
Proof.
  rewrite <- ex_suspects.
  apply (news_spreads 7 ex_back (λ _, (ex_env, ex_env)) (star ex_ida [ex_idb]) ex_ida ex_idb
    ex_idb ex_history).
  - by compute.
  - rewrite ex_dom. apply star_ok. by intros ?%list_elem_of_singleton.
  - rewrite ex_dom. set_solver.
  - apply (bool_decide_unpack _). vm_compute. exact I.
Defined.

(** The first round of [b], which knows [a] by the placeholder of its seed only. *)
Definition ex_at_addr (a : string) : NodeId := if (a =? "a:5001")%string then ex_ida else ex_id "nobody".
Definition ex_rejoined : MembershipTable := mark_self_alive ex_joined.

End witnesses.
