(* ===== verification/Parser.v ===== *)
(** * The RESP2 parser

    Models [crates/node/src/resp/parser.rs].  A buffer is its unread part, so
    offsets are relative to it, as in the code.  [usize] offsets and counts are
    [Z]; they cannot overflow, since a line is shorter than the address space and
    a length is an [i64].  Slicing and indexing panic out of range, as they do in
    Rust, and [Vec::with_capacity] panics when the capacity overflows.

    Memory is unlimited otherwise: an allocation below [isize::MAX] bytes
    succeeds, and the recursion on nested arrays does not exhaust the stack. *)

From S2P Require Import Prelude Machine Text.
Local Open Scope Z_scope.
Local Open Scope outcome_scope.

(** The size the compiler gives to [RespValue], which holds at least the pointer,
    capacity and length of a vector (a 64-bit target). *)
Class RespLayout := {
  size_of_RespValue : Z;
  size_of_RespValue_ge : 24 ≤ size_of_RespValue;
}.

Module Parser.

Inductive RespValue :=
  | SimpleString (s : string)
  | Error (s : string)
  | Integer (n : Z)
  | BulkString (data : bytes)
  | Null
  | Array (items : list RespValue).

Inductive ParseResult :=
  | Complete (v : RespValue) (consumed : Z)
  | Incomplete
  | ParseError (msg : string).

(** *** Bytes and lines *)

Definition buf_len (buf : bytes) : Z := Z.of_nat (length buf).

(** [buf[i]], [&buf[from..to]], [&buf[from..]] *)
Definition index (buf : bytes) (i : Z) : outcome ascii :=
  match buf !! Z.to_nat i with
  | Some c => if 0 <=? i then Returns c else Panics "index out of bounds"
  | None => Panics "index out of bounds"
  end.
Definition slice (buf : bytes) (from to : Z) : outcome bytes :=
  if (0 <=? from) && (from <=? to) && (to <=? buf_len buf)
  then Returns (take (Z.to_nat (to - from)) (drop (Z.to_nat from) buf))
  else Panics "range out of range for slice".
Definition slice_from (buf : bytes) (from : Z) : outcome bytes := slice buf from (buf_len buf).

(** The loop of [find_crlf]: [buf] is what is left of the buffer at [i]. *)
Fixpoint find_crlf_from (buf : bytes) (i : Z) : option Z :=
  match buf with
  | c :: ((d :: _) as rest) =>
      if bool_decide (c = CR) && bool_decide (d = LF) then Some i else find_crlf_from rest (i + 1)
  | _ => None
  end.

Definition find_crlf (buf : bytes) (offset : Z) : option Z :=
  if buf_len buf <? offset + 2 then None
  else find_crlf_from (drop (Z.to_nat offset) buf) offset.

Definition read_line (buf : bytes) (offset : Z) : outcome (option (bytes * Z)) :=
  match find_crlf buf offset with
  | None => Returns None
  | Some cr => let! line := slice buf offset cr in Returns (Some (line, cr + 2))
  end.

(** *** Scalars *)

(** [read_line], then [str::from_utf8]: the preamble all the parsers share; [what]
    is the noun of the error message. *)
Definition with_line (what : string) (buf : bytes) (k : string → Z → outcome ParseResult)
    : outcome ParseResult :=
  let! l := read_line buf 1 in
  match l with
  | None => Returns Incomplete
  | Some (line, next) =>
      match from_utf8 line with
      | inr s => k s next
      | inl e => Returns (ParseError ("invalid UTF-8 in " +:+ what +:+ ": " +:+ utf8_error_string e))
      end
  end.

Definition parse_simple_string (buf : bytes) : outcome ParseResult :=
  with_line "simple string" buf (λ s next, Returns (Complete (SimpleString s) next)).

Definition parse_error (buf : bytes) : outcome ParseResult :=
  with_line "error" buf (λ s next, Returns (Complete (Error s) next)).

Definition parse_integer (buf : bytes) : outcome ParseResult :=
  with_line "integer" buf (λ s next,
    match parse_i64 s with
    | inr n => Returns (Complete (Integer n) next)
    | inl e => Returns (ParseError ("invalid integer: " +:+ int_error_string e))
    end).

Definition parse_bulk_string (buf : bytes) : outcome ParseResult :=
  with_line "bulk string length" buf (λ len_str after_len,
    match parse_i64 len_str with
    | inl e => Returns (ParseError ("invalid bulk string length: " +:+ int_error_string e))
    | inr len =>
        if len <? 0 then Returns (Complete Null after_len)
        else
          let data_end := after_len + len in
          let total_end := data_end + 2 in
          if buf_len buf <? total_end then Returns Incomplete
          else
            let! c := index buf data_end in
            let! d := index buf (data_end + 1) in
            if bool_decide (c ≠ CR) || bool_decide (d ≠ LF)
            then Returns (ParseError "bulk string not terminated by CRLF")
            else
              let! data := slice buf after_len data_end in
              Returns (Complete (BulkString data) total_end)
    end).

(** *** Arrays *)

Section layout.
Context `{RespLayout}.

(** [Vec::with_capacity(count)] for values *)
Definition with_capacity (count : Z) : outcome unit :=
  if count * size_of_RespValue <=? isize_max then Returns () else Panics "capacity overflow".

(** The loop of [parse_array]: [sub] is the recursive call, [count] the number of
    items to come. *)
Fixpoint parse_items (sub : bytes → outcome ParseResult) (fuel : nat) (count : Z)
    (buf : bytes) (offset : Z) (items : list RespValue) : outcome ParseResult :=
  if count <=? 0 then Returns (Complete (Array items) offset)
  else
    match fuel with
    | O => OutOfFuel
    | S f =>
        let! rest := slice_from buf offset in
        let! r := sub rest in
        match r with
        | Complete val consumed =>
            parse_items sub f (count - 1) buf (offset + consumed) (items ++ [val])
        | Incomplete => Returns Incomplete
        | ParseError e => Returns (ParseError e)
        end
    end.

Definition parse_array (sub : bytes → outcome ParseResult) (fuel : nat) (buf : bytes)
    : outcome ParseResult :=
  with_line "array count" buf (λ count_str after_count,
    match parse_i64 count_str with
    | inl e => Returns (ParseError ("invalid array count: " +:+ int_error_string e))
    | inr count =>
        if count <? 0 then Returns (Complete Null after_count)
        else
          let! _ := with_capacity count in
          parse_items sub fuel count buf after_count []
    end).

(** Each call reads a byte and each item takes one, so the length of the buffer
    bounds both the depth of the recursion and the iterations of the loop. *)
Fixpoint parse_resp_fuel (fuel : nat) (buf : bytes) : outcome ParseResult :=
  match fuel with
  | O => OutOfFuel
  | S f =>
      match buf with
      | [] => Returns Incomplete
      | c :: _ =>
          if bool_decide (c = "+"%char) then parse_simple_string buf
          else if bool_decide (c = "-"%char) then parse_error buf
          else if bool_decide (c = ":"%char) then parse_integer buf
          else if bool_decide (c = "$"%char) then parse_bulk_string buf
          else if bool_decide (c = "*"%char) then parse_array (parse_resp_fuel f) f buf
          else Returns (ParseError ("unexpected byte: 0x" +:+ of_bytes (hex02 c)))
      end
  end.

Definition parse_resp (buf : bytes) : outcome ParseResult :=
  parse_resp_fuel (S (length buf)) buf.
End layout.

(** ** Specifications *)

(** A line holds no CRLF. *)
Fixpoint no_crlf (l : bytes) : Prop :=
  match l with
  | c :: ((d :: _) as rest) => ¬ (c = CR ∧ d = LF) ∧ no_crlf rest
  | _ => True
  end.

(** The values the protocol can carry: texts are UTF-8 lines, integers [i64],
    lengths fit their types. *)
Definition wire_text (s : string) : Prop := is_utf8 s ∧ no_crlf (as_bytes s).

Fixpoint wire_value `{RespLayout} (v : RespValue) : Prop :=
  match v with
  | SimpleString s | Error s => wire_text s
  | Integer n => is_i64 n
  | BulkString data => buf_len data ≤ i64_max
  | Null => True
  | Array items =>
      Z.of_nat (length items) * size_of_RespValue ≤ isize_max ∧
      (fix all (l : list RespValue) : Prop :=
         match l with [] => True | v :: l' => wire_value v ∧ all l' end) items
  end.

(** Outcomes that more input cannot change. *)
Definition decided (r : outcome ParseResult) : Prop :=
  match r with Returns Incomplete | OutOfFuel => False | _ => True end.

(** What [parse_resp] promises about one buffer. *)
Definition parse_ok (buf : bytes) (r : outcome ParseResult) : Prop :=
  match r with
  | Returns (Complete _ n) => 3 ≤ n ≤ buf_len buf
  | Returns _ => True
  | Panics msg => msg = "capacity overflow"%string
  | OutOfFuel => False
  end.
End Parser.

(** The induction principle of the nested type. *)
Section RespValue_nested_ind.
Import Parser.
Variable P : RespValue → Prop.
Hypothesis HS : ∀ s, P (SimpleString s).
Hypothesis HE : ∀ s, P (Error s).
Hypothesis HI : ∀ n, P (Integer n).
Hypothesis HB : ∀ d, P (BulkString d).
Hypothesis HN : P Null.
Hypothesis HA : ∀ items, Forall P items → P (Array items).

Fixpoint RespValue_nested_ind (v : RespValue) : P v :=
  match v with
  | SimpleString s => HS s
  | Error s => HE s
  | Integer n => HI n
  | BulkString d => HB d
  | Null => HN
  | Array items => HA items ((fix all l : Forall P l :=
      match l with
      | [] => @List.Forall_nil _ P
      | x :: l' => @List.Forall_cons _ P x l' (RespValue_nested_ind x) (all l')
      end) items)
  end.
End RespValue_nested_ind.

(** ** Lemmas on lines *)

Section lines.
Import Parser.

Lemma buf_len_app l1 l2 : buf_len (l1 ++ l2) = buf_len l1 + buf_len l2.
Proof. unfold buf_len. rewrite length_app. lia. Qed.
Lemma buf_len_cons c l : buf_len (c :: l) = 1 + buf_len l.
Proof. unfold buf_len. simpl. lia. Qed.
Lemma buf_len_nonneg l : 0 ≤ buf_len l.
Proof. unfold buf_len. lia. Qed.
Lemma buf_len_CRLF : buf_len CRLF = 2.
Proof. done. Qed.

Lemma slice_app l1 l2 l3 :
  slice (l1 ++ l2 ++ l3) (buf_len l1) (buf_len l1 + buf_len l2) = Returns l2.
Proof.
  pose proof (buf_len_nonneg l1). pose proof (buf_len_nonneg l2). pose proof (buf_len_nonneg l3).
  unfold slice. rewrite !buf_len_app.
  rewrite (proj2 (Z.leb_le _ _)), (proj2 (Z.leb_le _ _)), (proj2 (Z.leb_le _ _)) by lia. simpl.
  replace (Z.to_nat (buf_len l1 + buf_len l2 - buf_len l1)) with (length l2) by (unfold buf_len; lia).
  replace (Z.to_nat (buf_len l1)) with (length l1) by (unfold buf_len; lia).
  by rewrite drop_app_length, take_app_length.
Qed.

Lemma slice_from_app l1 l2 : slice_from (l1 ++ l2) (buf_len l1) = Returns l2.
Proof.
  unfold slice_from. rewrite buf_len_app. rewrite <- (app_nil_r l2) at 1. apply slice_app.
Qed.

Lemma slice_from_split buf offset : 0 ≤ offset ≤ buf_len buf →
  ∃ l1 l2, buf = l1 ++ l2 ∧ buf_len l1 = offset.
Proof.
  intros Ho. exists (take (Z.to_nat offset) buf), (drop (Z.to_nat offset) buf).
  rewrite take_drop. split; [done|]. unfold buf_len in *. rewrite length_take. lia.
Qed.

Lemma index_app l1 c l2 : index (l1 ++ c :: l2) (buf_len l1) = Returns c.
Proof.
  unfold index, buf_len. rewrite Nat2Z.id, list_lookup_middle by done.
  by rewrite (proj2 (Z.leb_le _ _)) by lia.
Qed.

(** A buffer has a first CRLF, or none. *)
Lemma crlf_cases buf :
  no_crlf buf ∨ ∃ l rest, buf = l ++ CRLF ++ rest ∧ no_crlf l.
Proof.
  induction buf as [|c [|d buf] IH]; [by left|by left|].
  destruct (decide (c = CR ∧ d = LF)) as [[-> ->]|Hne]; [right; by exists [], buf|].
  destruct IH as [?|(l & rest & Heq & Hl)]; [left; by split|right].
  exists (c :: l), rest. split; [by rewrite Heq|]. destruct l as [|e l]; [done|].
  simpl in Heq. injection Heq as -> _. by split.
Qed.

Lemma find_crlf_from_cons c d buf i :
  find_crlf_from (c :: d :: buf) i =
  if decide (c = CR ∧ d = LF) then Some i else find_crlf_from (d :: buf) (i + 1).
Proof.
  cbn [find_crlf_from]. rewrite <- bool_decide_and.
  case_decide; [by rewrite bool_decide_eq_true_2|by rewrite bool_decide_eq_false_2].
Qed.

Lemma find_crlf_from_hit l : ∀ i rest,
  no_crlf l → find_crlf_from (l ++ CRLF ++ rest) i = Some (i + buf_len l).
Proof.
  induction l as [|c l IH]; intros i rest Hl.
  { change ([] ++ CRLF ++ rest) with (CR :: LF :: rest). rewrite find_crlf_from_cons.
    rewrite decide_True by done. f_equal. unfold buf_len. simpl. lia. }
  assert (no_crlf l) as Hl' by (destruct l; [done|apply Hl]).
  rewrite buf_len_cons. specialize (IH (i + 1) rest Hl').
  assert (∃ d r, l ++ CRLF ++ rest = d :: r ∧ ¬ (c = CR ∧ d = LF)) as (d & r & Heq & Hne).
  { destruct l as [|d l].
    - exists CR, (LF :: rest). split; [done|]. by intros [_ ?].
    - exists d, (l ++ CRLF ++ rest). split; [done|]. apply Hl. }
  change ((c :: l) ++ CRLF ++ rest) with (c :: (l ++ CRLF ++ rest)).
  rewrite Heq in *. rewrite find_crlf_from_cons, decide_False by done.
  rewrite IH. f_equal. lia.
Qed.

Lemma find_crlf_from_miss buf : ∀ i, no_crlf buf → find_crlf_from buf i = None.
Proof.
  induction buf as [|c buf IH]; intros i Hl; [done|]. destruct buf as [|d buf]; [done|].
  destruct Hl as [Hne Hl]. rewrite find_crlf_from_cons, decide_False by done. by apply IH.
Qed.

Lemma read_line_hit c l rest : no_crlf l →
  read_line (c :: l ++ CRLF ++ rest) 1 = Returns (Some (l, buf_len l + 3)).
Proof.
  intros Hl. unfold read_line, find_crlf.
  rewrite buf_len_cons, !buf_len_app, buf_len_CRLF.
  pose proof (buf_len_nonneg l). pose proof (buf_len_nonneg rest).
  rewrite (proj2 (Z.ltb_ge _ _)) by lia. change (Z.to_nat 1) with 1%nat. cbn [drop].
  rewrite drop_0, find_crlf_from_hit by done.
  pose proof (slice_app [c] l (CRLF ++ rest)) as Hs. change (slice (c :: l ++ CRLF ++ rest) 1 (1 + buf_len l) = Returns l) in Hs.
  rewrite Hs. simpl. do 3 f_equal. lia.
Qed.

Lemma read_line_miss c buf : no_crlf buf → read_line (c :: buf) 1 = Returns None.
Proof.
  intros Hl. unfold read_line, find_crlf. case_match eqn:E; [|done].
  case_match; [done|]. change (Z.to_nat 1) with 1%nat in E. cbn [drop] in E.
  by rewrite drop_0, find_crlf_from_miss in E.
Qed.

Lemma with_line_hit what c l rest k : no_crlf l →
  with_line what (c :: l ++ CRLF ++ rest) k =
  match from_utf8 l with
  | inr s => k s (buf_len l + 3)
  | inl e => Returns (ParseError ("invalid UTF-8 in " +:+ what +:+ ": " +:+ utf8_error_string e))
  end.
Proof. intros. unfold with_line. by rewrite read_line_hit. Qed.

Lemma with_line_miss what c buf k : no_crlf buf → with_line what (c :: buf) k = Returns Incomplete.
Proof. intros. unfold with_line. by rewrite read_line_miss. Qed.
End lines.

(** ** Lemmas on the parser *)

Section lemmas.
Context `{RespLayout}.
Import Parser.

Lemma index_Returns buf i : 0 ≤ i < buf_len buf → ∃ c, index buf i = Returns c.
Proof.
  intros Hi. destruct (slice_from_split buf i) as (l1 & [|c l2] & -> & <-); [lia| |].
  - rewrite buf_len_app in Hi. unfold buf_len in Hi. simpl in Hi. lia.
  - exists c. apply index_app.
Qed.

Lemma index_ext buf more i : 0 ≤ i < buf_len buf → index (buf ++ more) i = index buf i.
Proof.
  intros Hi. unfold index. rewrite lookup_app_l; [done|]. unfold buf_len in Hi. lia.
Qed.

Lemma slice_Returns buf a b : 0 ≤ a ≤ b → b ≤ buf_len buf →
  slice buf a b = Returns (take (Z.to_nat (b - a)) (drop (Z.to_nat a) buf)).
Proof.
  intros. unfold slice.
  by rewrite (proj2 (Z.leb_le _ _)), (proj2 (Z.leb_le _ _)), (proj2 (Z.leb_le _ _)) by lia.
Qed.

Lemma slice_ext buf more a b : 0 ≤ a ≤ b → b ≤ buf_len buf →
  slice (buf ++ more) a b = slice buf a b.
Proof.
  intros Ha Hb. pose proof (buf_len_nonneg more).
  rewrite !slice_Returns by (rewrite ?buf_len_app; lia). f_equal. unfold buf_len in *.
  rewrite drop_app_keep by lia. apply take_app_drop_eq. rewrite length_drop. lia.
Qed.

Lemma slice_from_Returns buf offset : 0 ≤ offset ≤ buf_len buf →
  slice_from buf offset = Returns (drop (Z.to_nat offset) buf).
Proof.
  intros Ho. unfold slice_from. rewrite slice_Returns by lia. f_equal. apply take_ge.
  rewrite length_drop. unfold buf_len in *. lia.
Qed.

Lemma buf_len_drop offset buf : 0 ≤ offset ≤ buf_len buf →
  buf_len (drop (Z.to_nat offset) buf) = buf_len buf - offset.
Proof. unfold buf_len. rewrite length_drop. lia. Qed.

(** *** Totality *)

Lemma with_line_ok what c buf k :
  (∀ s n, 3 ≤ n ≤ buf_len (c :: buf) → parse_ok (c :: buf) (k s n)) →
  parse_ok (c :: buf) (with_line what (c :: buf) k).
Proof.
  intros Hk. destruct (crlf_cases buf) as [Hm|(l & rest & -> & Hl)].
  - by rewrite with_line_miss.
  - rewrite with_line_hit by done. destruct (from_utf8 l); [done|]. apply Hk.
    rewrite buf_len_cons, !buf_len_app, buf_len_CRLF.
    pose proof (buf_len_nonneg l). pose proof (buf_len_nonneg rest). lia.
Qed.

Lemma parse_bulk_string_ok c buf : parse_ok (c :: buf) (parse_bulk_string (c :: buf)).
Proof.
  apply with_line_ok. intros s n Hn. destruct (parse_i64 s) as [|len]; [done|].
  destruct (Z.ltb_spec len 0); [done|].
  cbv zeta. destruct (Z.ltb_spec (buf_len (c :: buf)) (n + len + 2)); [done|].
  destruct (index_Returns (c :: buf) (n + len)) as [x Hx]; [lia|].
  destruct (index_Returns (c :: buf) (n + len + 1)) as [y Hy]; [lia|].
  rewrite Hx, Hy. cbn [outcome_bind]. destruct (_ || _); [done|].
  rewrite slice_Returns by lia. cbn [outcome_bind parse_ok]. lia.
Qed.

Lemma parse_items_ok sub fuel buf : (∀ l, buf_len l + 3 ≤ buf_len buf → parse_ok l (sub l)) →
  ∀ count offset items, 3 ≤ offset ≤ buf_len buf → buf_len buf - offset < Z.of_nat fuel →
  parse_ok buf (parse_items sub fuel count buf offset items).
Proof.
  intros Hsub. induction fuel as [|f IH]; intros count offset items Ho Hf; simpl;
    destruct (Z.leb_spec count 0); [done|lia|done|].
  rewrite slice_from_Returns by lia. cbn [outcome_bind].
  pose proof (Hsub (drop (Z.to_nat offset) buf)) as Hr. rewrite buf_len_drop in Hr by lia.
  specialize (Hr ltac:(lia)).
  destruct (sub _) as [[v n| |e]|msg|]; cbn [outcome_bind]; try done.
  simpl in Hr. rewrite buf_len_drop in Hr by lia. apply IH; lia.
Qed.

Lemma parse_resp_fuel_ok fuel : ∀ buf, (length buf < fuel)%nat →
  parse_ok buf (parse_resp_fuel fuel buf).
Proof.
  induction fuel as [|f IH]; intros [|c buf] Hf; simpl parse_resp_fuel; [simpl in Hf; lia..|done|].
  repeat case_bool_decide; [..|done]; [apply with_line_ok; intros s n Hn..| |].
  - done.
  - done.
  - by destruct (parse_i64 s).
  - apply parse_bulk_string_ok.
  - apply with_line_ok. intros s n Hn. destruct (parse_i64 s) as [|count]; [done|].
    destruct (Z.ltb_spec count 0); [done|]. unfold with_capacity.
    destruct (_ <=? _); [|done]. cbn [outcome_bind].
    apply parse_items_ok; [|done|unfold buf_len in *; lia].
    intros l Hl. apply IH. unfold buf_len in Hl. lia.
Qed.

(** *** More input, more fuel *)

(** The outcomes that [more] input cannot change. *)
Definition settled (more : bytes) (r : outcome ParseResult) : Prop :=
  match r with
  | Returns Incomplete => more = []
  | Returns _ => True
  | Panics msg => msg = "capacity overflow"%string
  | OutOfFuel => False
  end.

Lemma with_line_ext what c buf more k k' :
  (∀ s n, 3 ≤ n ≤ buf_len (c :: buf) → settled more (k s n) → k' s n = k s n) →
  settled more (with_line what (c :: buf) k) →
  with_line what (c :: buf ++ more) k' = with_line what (c :: buf) k.
Proof.
  intros Hk. destruct (crlf_cases buf) as [Hm|(l & rest & -> & Hl)].
  - rewrite !with_line_miss by done. intros ->. by rewrite app_nil_r, with_line_miss.
  - rewrite <- !app_assoc, !with_line_hit by done. destruct (from_utf8 l); [done|]. apply Hk.
    rewrite buf_len_cons, !buf_len_app, buf_len_CRLF.
    pose proof (buf_len_nonneg l). pose proof (buf_len_nonneg rest). lia.
Qed.

Lemma parse_bulk_string_ext c buf more :
  settled more (parse_bulk_string (c :: buf)) →
  parse_bulk_string (c :: buf ++ more) = parse_bulk_string (c :: buf).
Proof.
  apply with_line_ext. intros s n Hn. destruct (parse_i64 s) as [|len]; [done|].
  change (c :: buf ++ more) with ((c :: buf) ++ more). set (b := c :: buf) in *.
  destruct (Z.ltb_spec len 0); [done|]. cbv zeta. rewrite buf_len_app.
  destruct (Z.ltb_spec (buf_len b) (n + len + 2)) as [Hlt|Hge].
  - intros ->. change (buf_len []) with 0. by rewrite (proj2 (Z.ltb_lt _ _)) by lia.
  - intros _. pose proof (buf_len_nonneg more).
    by rewrite (proj2 (Z.ltb_ge _ _)), !index_ext, slice_ext by lia.
Qed.

Lemma parse_items_ext sub sub' fuel fuel' buf more :
  (fuel ≤ fuel')%nat →
  (∀ l, buf_len l + 3 ≤ buf_len buf → parse_ok l (sub l)) →
  (∀ l, buf_len l + 3 ≤ buf_len buf → settled more (sub l) → sub' (l ++ more) = sub l) →
  ∀ count offset items, 3 ≤ offset ≤ buf_len buf →
  settled more (parse_items sub fuel count buf offset items) →
  parse_items sub' fuel' count (buf ++ more) offset items =
  parse_items sub fuel count buf offset items.
Proof.
  intros Hf Hok Hsub. revert fuel' Hf.
  induction fuel as [|f IH]; intros fuel' Hf count offset items Ho; simpl.
  { destruct fuel'; simpl; by destruct (Z.leb_spec count 0). }
  destruct fuel' as [|f']; [lia|]. simpl. destruct (Z.leb_spec count 0); [done|].
  pose proof (buf_len_nonneg more).
  rewrite !slice_from_Returns by (rewrite ?buf_len_app; lia). cbn [outcome_bind].
  rewrite drop_app_keep by (unfold buf_len in *; lia).
  pose proof (Hok (drop (Z.to_nat offset) buf)) as Hr. rewrite buf_len_drop in Hr by lia.
  specialize (Hr ltac:(lia)). pose proof (Hsub (drop (Z.to_nat offset) buf)) as Hs.
  rewrite buf_len_drop in Hs by lia. specialize (Hs ltac:(lia)).
  destruct (sub _) as [[v n| |e]|msg|]; cbn [outcome_bind settled parse_ok] in *; intros Hset;
    try (by rewrite Hs by done); [].
  rewrite Hs by done. cbn [outcome_bind]. rewrite buf_len_drop in Hr by lia.
  apply IH; [lia|lia|done].
Qed.

Lemma parse_resp_fuel_ext fuel : ∀ fuel' buf more, (fuel ≤ fuel')%nat → (length buf < fuel)%nat →
  settled more (parse_resp_fuel fuel buf) →
  parse_resp_fuel fuel' (buf ++ more) = parse_resp_fuel fuel buf.
Proof.
  induction fuel as [|f IH]; intros [|f'] [|c buf] more Hff Hf; simpl parse_resp_fuel;
    [simpl in *; lia..| |].
  { by intros ->. }
  repeat case_bool_decide; [..|done].
  - apply with_line_ext. done.
  - apply with_line_ext. done.
  - apply with_line_ext. done.
  - apply parse_bulk_string_ext.
  - apply with_line_ext. intros s n Hn. destruct (parse_i64 s) as [|count]; [done|].
    destruct (Z.ltb_spec count 0); [done|].
    destruct (with_capacity count); [|done|done]. cbn [outcome_bind].
    apply (parse_items_ext _ _ _ _ (c :: buf) more); [lia| | |done].
    + intros l Hl. apply parse_resp_fuel_ok. unfold buf_len in *. simpl in *. lia.
    + intros l Hl. apply IH; [lia|]. unfold buf_len in *. simpl in *. lia.
Qed.
Lemma parse_resp_enough fuel buf : (length buf < fuel)%nat →
  parse_resp_fuel fuel buf = parse_resp buf.
Proof.
  intros Hf. unfold parse_resp. rewrite <- (app_nil_r buf) at 1. apply parse_resp_fuel_ext; [lia|lia|].
  pose proof (parse_resp_fuel_ok (S (length buf)) buf ltac:(lia)) as Hok.
  destruct (parse_resp_fuel _ buf) as [[| |]|msg|]; done.
Qed.

Lemma parse_resp_ok buf : parse_ok buf (parse_resp buf).
Proof. apply parse_resp_fuel_ok. lia. Qed.

Lemma parse_resp_settled buf more :
  parse_resp buf ≠ Returns Incomplete → parse_resp (buf ++ more) = parse_resp buf.
Proof.
  intros Hne. pose proof (parse_resp_ok buf) as Hok. unfold parse_resp in *.
  apply parse_resp_fuel_ext; rewrite ?length_app; [lia|lia|].
  destruct (parse_resp_fuel _ buf) as [[| |]|msg|]; done.
Qed.

Lemma complete_bounds buf v n : parse_resp buf = Returns (Complete v n) →
  (0 < Z.to_nat n ≤ length buf)%nat ∧ n ≤ buf_len buf.
Proof.
  intros Hr. pose proof (parse_resp_ok buf) as Hok. rewrite Hr in Hok. simpl in Hok.
  unfold buf_len in *. lia.
Qed.

(** *** What the parser returns *)

Lemma numeral_no_crlf l : Forall (λ c, is_numeral c = true) l → no_crlf l.
Proof.
  induction 1 as [|c l Hc Hl IH]; [done|]. destruct l as [|d l]; [done|]. split; [|done].
  intros [-> _]. done.
Qed.
Lemma int_no_crlf z : no_crlf (int_to_string z).
Proof. apply numeral_no_crlf, int_to_string_numeral. Qed.

(** A complete result is a wire value. *)
Definition wire_result (r : outcome ParseResult) : Prop :=
  match r with Returns (Complete v _) => wire_value v | _ => True end.

Lemma with_line_wire what c buf k :
  (∀ s n, wire_text s → wire_result (k s n)) → wire_result (with_line what (c :: buf) k).
Proof.
  intros Hk. destruct (crlf_cases buf) as [Hm|(l & rest & -> & Hl)].
  - by rewrite with_line_miss.
  - rewrite with_line_hit by done. destruct (from_utf8 l) as [e|s] eqn:E; [done|]. apply Hk.
    apply from_utf8_inr in E as [<- ?]. by split.
Qed.

Lemma wire_items items :
  (fix all (l : list RespValue) : Prop :=
     match l with [] => True | v :: l' => wire_value v ∧ all l' end) items ↔
  Forall wire_value items.
Proof. induction items; [done|]. rewrite Forall_cons. tauto. Qed.

Lemma wire_Array items :
  wire_value (Array items) ↔
  Z.of_nat (length items) * size_of_RespValue ≤ isize_max ∧ Forall wire_value items.
Proof. rewrite <- wire_items. done. Qed.

Lemma parse_items_wire sub fuel buf : (∀ l, wire_result (sub l)) →
  ∀ count offset items, Forall wire_value items →
  (Z.of_nat (length items) + Z.max 0 count) * size_of_RespValue ≤ isize_max →
  wire_result (parse_items sub fuel count buf offset items).
Proof.
  intros Hsub. induction fuel as [|f IH]; intros count offset items Hi Hc; simpl;
    destruct (Z.leb_spec count 0).
  1,3: apply wire_Array; by replace (Z.max 0 count) with 0 in Hc by lia; rewrite Z.add_0_r in Hc.
  { done. }
  destruct (slice_from buf offset) as [rest|msg|]; [|done|done]. cbn [outcome_bind].
  pose proof (Hsub rest) as Hr. destruct (sub rest) as [[v n| |e]|msg|]; try done.
  apply IH.
  - rewrite Forall_app, Forall_singleton. done.
  - rewrite length_app. simpl. etrans; [|exact Hc]. apply Z.mul_le_mono_nonneg_r; [|lia].
    pose proof size_of_RespValue_ge. lia.
Qed.

Lemma parse_resp_fuel_wire fuel : ∀ buf v n,
  parse_resp_fuel fuel buf = Returns (Complete v n) → wire_value v.
Proof.
  assert (∀ buf, wire_result (parse_resp_fuel fuel buf)) as Hw;
    [|intros buf v n Heq; specialize (Hw buf); by rewrite Heq in Hw].
  induction fuel as [|f IH]; intros [|c buf]; simpl parse_resp_fuel; [done..|].
  repeat case_bool_decide; [..|done]; apply with_line_wire; intros s n Hs.
  - done.
  - done.
  - destruct (parse_i64 s) as [|k] eqn:E; [done|]. by apply parse_i64_range in E.
  - destruct (parse_i64 s) as [|len] eqn:E; [done|]. apply parse_i64_range in E.
    destruct (Z.ltb_spec len 0); [done|]. cbv zeta. destruct (_ <? _); [done|].
    destruct (index _ _); [|done|done]. cbn [outcome_bind]. destruct (index _ _); [|done|done].
    cbn [outcome_bind]. destruct (_ || _); [done|].
    unfold slice. destruct (_ && _); [|done]. cbn [outcome_bind wire_result wire_value].
    unfold buf_len. rewrite length_take. machine_unfold. lia.
  - destruct (parse_i64 s) as [|count]; [done|]. destruct (Z.ltb_spec count 0); [done|].
    unfold with_capacity. destruct (Z.leb_spec (count * size_of_RespValue) isize_max); [|done].
    cbn [outcome_bind]. apply parse_items_wire; [done|done|]. simpl.
    by replace (Z.max 0 count) with count by lia.
Qed.
End lemmas.

(** ** Properties *)

Section properties.
Context `{RespLayout}.
Import Parser.

(** C21: parsing terminates on every buffer, whatever its nesting: it returns, or
    it panics because an array announces more items than a vector can hold; no
    index or slice is ever out of range; a complete value consumes at least three
    bytes and at most the buffer; and any larger fuel gives the same result. *)
Theorem parse_total (buf : list ascii) :
  ((∃ r, parse_resp buf = Returns r ∧
      ∀ v n, r = Complete v n → 3 ≤ n ≤ Z.of_nat (length buf)) ∨
   parse_resp buf = Panics "capacity overflow") ∧
  ∀ fuel, (length buf < fuel)%nat → parse_resp_fuel fuel buf = parse_resp buf.
Proof.
  pose proof (parse_resp_ok buf) as Hok. split.
  - destruct (parse_resp buf) as [r|msg|]; simpl in Hok; [left|right; by f_equal|done].
    exists r. split; [done|]. by intros v n ->.
  - intros fuel Hf. by apply parse_resp_enough.
Qed.

(** C34: parsing is stable under more input: once a buffer parses to a value, a
    protocol error or a panic, every extension of it gives the same; so bytes that
    arrive later never change what an earlier read decided. *)
Theorem parse_incremental (buf more : list ascii) :
  parse_resp buf ≠ Returns Incomplete → parse_resp (buf ++ more) = parse_resp buf.
Proof. apply parse_resp_settled. Qed.

(** Further: any client can make the parser panic: an array header whose count times
    the size of a value exceeds the address space panics in [Vec::with_capacity],
    whatever follows it; counts up to [i64::MAX] are accepted before that. *)
Theorem array_capacity_panics (count : Z) (rest : list ascii) :
  0 ≤ count ≤ i64_max → isize_max < count * size_of_RespValue →
  parse_resp ("*"%char :: int_to_string count ++ CRLF ++ rest) = Panics "capacity overflow".
Proof.
  intros Hc Hbig. unfold parse_resp. cbn [parse_resp_fuel].
  rewrite !bool_decide_eq_false_2, bool_decide_eq_true_2 by done.
  unfold parse_array. rewrite with_line_hit by apply int_no_crlf.
  rewrite from_utf8_int, parse_i64_to_string by (machine_unfold; lia).
  rewrite (proj2 (Z.ltb_ge _ _)) by lia. unfold with_capacity.
  by rewrite (proj2 (Z.leb_gt _ _)).
Qed.

(** Further: what the parser returns is a value the protocol can carry: texts are
    UTF-8 without a line break, integers are [i64], lengths are representable. *)
Theorem parse_yields_wire_values (buf : list ascii) (v : RespValue) (n : Z) :
  parse_resp buf = Returns (Complete v n) → wire_value v.
Proof. apply parse_resp_fuel_wire. Qed.
End properties.

(** ** Witnesses *)

Section witnesses.
Import Parser.
Definition ex_layout : RespLayout :=
  {| size_of_RespValue := 24; size_of_RespValue_ge := Z.le_refl 24 |}.
#[local] Existing Instance ex_layout.

Definition ex_get : bytes := as_bytes "*2" ++ CRLF ++ as_bytes "$3" ++ CRLF ++ as_bytes "GET" ++ CRLF
  ++ as_bytes "$1" ++ CRLF ++ as_bytes "k" ++ CRLF.
Definition ex_get_value : RespValue :=
  Array [BulkString (as_bytes "GET"); BulkString (as_bytes "k")].

Lemma parse_incremental_witness :
  parse_resp (ex_get ++ as_bytes "*1") = Returns (Complete ex_get_value 20).
Proof.
  rewrite (parse_incremental ex_get (as_bytes "*1")); [vm_compute; reflexivity|].
  vm_compute. discriminate.
Defined.

Lemma array_capacity_panics_witness :
  parse_resp ("*"%char :: int_to_string i64_max ++ CRLF ++ []) = Panics "capacity overflow".
Proof. apply (array_capacity_panics i64_max []); by compute. Defined.

Lemma parse_yields_wire_values_witness : wire_value ex_get_value.
Proof. apply (parse_yields_wire_values ex_get ex_get_value 20). vm_compute. reflexivity. Defined.
End witnesses.
