(* ===== verification/Encoder.v ===== *)
(** * The RESP2 encoder, and its round trip with the parser

    Models [crates/node/src/resp/encoder.rs]. *)

From S2P Require Import Prelude Machine Text Parser.
Local Open Scope Z_scope.

Module Encoder.
Import Parser.

Definition encode_simple_string (s : string) : bytes := "+"%char :: as_bytes s ++ CRLF.
Definition encode_error (msg : string) : bytes := "-"%char :: as_bytes msg ++ CRLF.
Definition encode_integer (n : Z) : bytes := ":"%char :: int_to_string n ++ CRLF.
Definition encode_bulk_string (data : bytes) : bytes :=
  "$"%char :: int_to_string (buf_len data) ++ CRLF ++ data ++ CRLF.
Definition encode_null : bytes := as_bytes "$-1" ++ CRLF.

(** The [match] on an item in the loop of [encode_array]; its last arm is the
    recursive call [encode_array(inner)]. *)
Fixpoint encode_item (item : RespValue) : bytes :=
  match item with
  | SimpleString s => encode_simple_string s
  | Error e => encode_error e
  | Integer n => encode_integer n
  | BulkString d => encode_bulk_string d
  | Null => encode_null
  | Array inner =>
      "*"%char :: int_to_string (Z.of_nat (length inner)) ++ CRLF ++
      (fix loop (l : list RespValue) : bytes :=
         match l with [] => [] | item :: l' => encode_item item ++ loop l' end) inner
  end.

Definition encode_array (items : list RespValue) : bytes :=
  "*"%char :: int_to_string (Z.of_nat (length items)) ++ CRLF ++ concat (encode_item <$> items).
End Encoder.

(** ** Lemmas *)

Section lemmas.
Context `{RespLayout}.
Import Parser Encoder.

Lemma encode_item_Array items : encode_item (Array items) = encode_array items.
Proof.
  assert (∀ l, (fix loop (l : list RespValue) : bytes :=
    match l with [] => [] | item :: l' => encode_item item ++ loop l' end) l =
    concat (encode_item <$> l)) as Hl.
  { induction l as [|v l IH]; [done|]. by rewrite IH. }
  unfold encode_array. by rewrite <- Hl.
Qed.

Lemma encode_item_length v : (3 ≤ length (encode_item v))%nat.
Proof.
  destruct v; simpl; rewrite ?length_app; simpl; try lia.
Qed.

Lemma encode_items_length items :
  (length items ≤ length (concat (encode_item <$> items)))%nat ∧
  ∀ v, v ∈ items → (length (encode_item v) ≤ length (concat (encode_item <$> items)))%nat.
Proof.
  induction items as [|w items [IH1 IH2]]; [split; [done|by intros ? ?%elem_of_nil]|].
  rewrite fmap_cons. cbn [concat]. rewrite length_app.
  pose proof (encode_item_length w). split; [simpl; lia|].
  intros v [->|Hv]%elem_of_cons; [lia|]. specialize (IH2 v Hv). lia.
Qed.

Lemma wire_text_from_utf8 s : wire_text s → from_utf8 (as_bytes s) = inr s.
Proof. by intros [? _]. Qed.

(** The parser's loop on the encodings of the items to come. *)
Lemma parse_items_encoded sub items : ∀ fuel pre rest acc,
  (length items ≤ fuel)%nat →
  (∀ v more, v ∈ items → sub (encode_item v ++ more) =
     Returns (Complete v (buf_len (encode_item v)))) →
  parse_items sub fuel (Z.of_nat (length items))
    (pre ++ concat (encode_item <$> items) ++ rest) (buf_len pre) acc =
  Returns (Complete (Array (acc ++ items)) (buf_len pre + buf_len (concat (encode_item <$> items)))).
Proof.
  induction items as [|v items IH]; intros fuel pre rest acc Hf Hsub.
  { rewrite app_nil_r. unfold buf_len at 3. simpl. rewrite Z.add_0_r. by destruct fuel. }
  destruct fuel as [|f]; [simpl in Hf; lia|]. cbn [parse_items].
  rewrite (proj2 (Z.leb_gt _ _)) by (simpl; lia).
  rewrite slice_from_app. cbn [outcome_bind]. rewrite fmap_cons. cbn [concat]. rewrite <- app_assoc.
  rewrite Hsub by by left. cbn [outcome_bind].
  replace (Z.of_nat (length (v :: items)) - 1) with (Z.of_nat (length items)) by (simpl; lia).
  rewrite app_assoc, <- buf_len_app, IH.
  - rewrite !buf_len_app, <- app_assoc. simpl. do 2 f_equal. lia.
  - simpl in Hf. lia.
  - intros w more Hw. apply Hsub. by right.
Qed.

(** A header line: type byte, number, CRLF. *)
Lemma with_line_number what c z rest k :
  with_line what (c :: int_to_string z ++ CRLF ++ rest) k =
  k (of_bytes (int_to_string z)) (buf_len (int_to_string z) + 3).
Proof. by rewrite with_line_hit, from_utf8_int by apply int_no_crlf. Qed.

Lemma parse_encoded_bulk data rest : buf_len data ≤ i64_max →
  parse_bulk_string (encode_bulk_string data ++ rest) =
  Returns (Complete (BulkString data) (buf_len (encode_bulk_string data))).
Proof.
  intros Hd. pose proof (buf_len_nonneg data). pose proof (buf_len_nonneg rest).
  unfold encode_bulk_string, parse_bulk_string.
  cbn [app]. rewrite <- !app_assoc, with_line_number, parse_i64_to_string
    by (machine_unfold; lia).
  rewrite (proj2 (Z.ltb_ge _ _)) by lia. cbv zeta.
  set (pre := "$"%char :: int_to_string (buf_len data) ++ CRLF).
  assert (buf_len (int_to_string (buf_len data)) + 3 = buf_len pre) as Hpre.
  { unfold pre. rewrite buf_len_cons, buf_len_app, buf_len_CRLF. lia. }
  rewrite Hpre.
  assert ("$"%char :: int_to_string (buf_len data) ++ CRLF ++ data ++ CRLF ++ rest =
    pre ++ data ++ CRLF ++ rest) as -> by (unfold pre; cbn [app]; by rewrite <- app_assoc).
  rewrite (proj2 (Z.ltb_ge _ _)) by (rewrite !buf_len_app, buf_len_CRLF; lia).
  assert (index (pre ++ data ++ CRLF ++ rest) (buf_len pre + buf_len data) = Returns CR) as ->.
  { rewrite <- buf_len_app, app_assoc. apply index_app. }
  assert (index (pre ++ data ++ CRLF ++ rest) (buf_len pre + buf_len data + 1) = Returns LF) as ->.
  { replace (buf_len pre + buf_len data + 1) with (buf_len ((pre ++ data) ++ [CR]))
      by (rewrite !buf_len_app; unfold buf_len; simpl; lia).
    change (CRLF ++ rest) with ([CR] ++ LF :: rest). rewrite !app_assoc. apply index_app. }
  cbn [outcome_bind]. rewrite !bool_decide_eq_false_2 by (by intros Hn; apply Hn).
  cbn [orb]. rewrite slice_app. cbn [outcome_bind]. do 2 f_equal.
  rewrite <- Hpre, buf_len_cons, !buf_len_app, buf_len_CRLF. lia.
Qed.

(** Every wire value parses back, with exactly its own bytes consumed. *)
Lemma parse_encoded v : wire_value v → ∀ fuel rest, (length (encode_item v) < fuel)%nat →
  parse_resp_fuel fuel (encode_item v ++ rest) = Returns (Complete v (buf_len (encode_item v))).
Proof.
  induction v as [s|s|n|d| |items IH] using RespValue_nested_ind; intros Hw fuel rest Hf;
    (destruct fuel as [|f]; [lia|]).
  - cbn [encode_item]. unfold encode_simple_string. cbn [app parse_resp_fuel].
    rewrite bool_decide_eq_true_2 by done. unfold parse_simple_string.
    rewrite <- app_assoc, with_line_hit, wire_text_from_utf8 by (done || apply Hw).
    do 2 f_equal. rewrite buf_len_cons, buf_len_app, buf_len_CRLF. lia.
  - cbn [encode_item]. unfold encode_error. cbn [app parse_resp_fuel].
    rewrite bool_decide_eq_false_2, bool_decide_eq_true_2 by done. unfold parse_error.
    rewrite <- app_assoc, with_line_hit, wire_text_from_utf8 by (done || apply Hw).
    do 2 f_equal. rewrite buf_len_cons, buf_len_app, buf_len_CRLF. lia.
  - cbn [encode_item]. unfold encode_integer. cbn [app parse_resp_fuel].
    rewrite !bool_decide_eq_false_2, bool_decide_eq_true_2 by done. unfold parse_integer.
    rewrite <- app_assoc, with_line_number, parse_i64_to_string by done.
    do 2 f_equal. rewrite buf_len_cons, buf_len_app, buf_len_CRLF. lia.
  - cbn [encode_item]. rewrite <- parse_encoded_bulk with (rest := rest) by done.
    unfold encode_bulk_string. cbn [app parse_resp_fuel].
    by rewrite !bool_decide_eq_false_2, bool_decide_eq_true_2 by done.
  - pose proof (parse_resp_fuel_ext 6 (S f) (encode_null) rest) as He.
    cbn [encode_item] in *. rewrite He; [by vm_compute|unfold encode_null in Hf; simpl in Hf; lia|
      simpl; lia|by vm_compute].
  - apply wire_Array in Hw as [Hc Hw]. rewrite encode_item_Array in *. unfold encode_array in *.
    cbn [app parse_resp_fuel]. rewrite !bool_decide_eq_false_2, bool_decide_eq_true_2 by done.
    unfold parse_array. rewrite <- !app_assoc.
    assert (Z.of_nat (length items) ≤ i64_max) as Hi
      by (pose proof size_of_RespValue_ge; machine_unfold; nia).
    rewrite with_line_number, parse_i64_to_string by (machine_unfold; lia).
    rewrite (proj2 (Z.ltb_ge _ _)) by lia. unfold with_capacity.
    rewrite (proj2 (Z.leb_le _ _)) by done. cbn [outcome_bind].
    set (pre := "*"%char :: int_to_string (Z.of_nat (length items)) ++ CRLF) in *.
    assert (buf_len (int_to_string (Z.of_nat (length items))) + 3 = buf_len pre) as ->.
    { unfold pre. rewrite buf_len_cons, buf_len_app, buf_len_CRLF. lia. }
    assert ("*"%char :: int_to_string (Z.of_nat (length items)) ++ CRLF ++
      concat (encode_item <$> items) ++ rest = pre ++ concat (encode_item <$> items) ++ rest) as ->
      by (unfold pre; cbn [app]; by rewrite <- app_assoc).
    assert (length pre + length (concat (encode_item <$> items)) < S f)%nat as Hf'.
    { unfold pre. simpl in *. rewrite !length_app in *. simpl in *. lia. }
    destruct (encode_items_length items) as [Hlen Hmem].
    rewrite parse_items_encoded.
    + rewrite <- buf_len_app. do 3 f_equal. unfold pre. cbn [app]. by rewrite <- app_assoc.
    + lia.
    + intros v more Hv. rewrite Forall_forall in IH, Hw. apply IH; [done|by apply Hw|].
      specialize (Hmem v Hv). unfold pre in Hf'. simpl in Hf'. lia.
Qed.
End lemmas.

(** ** Properties *)

Section properties.
Context `{RespLayout}.
Import Parser Encoder.

(** C20: encoding and parsing are inverse: every value the protocol can carry,
    arrays of arrays included, parses back to itself, consuming exactly its own
    bytes, whatever follows it in the buffer. *)
Theorem encode_parse_roundtrip (v : RespValue) (rest : list ascii) :
  wire_value v →
  parse_resp (encode_item v ++ rest) = Returns (Complete v (Z.of_nat (length (encode_item v)))).
Proof. intros Hw. apply parse_encoded; [done|]. rewrite length_app. lia. Qed.

(** Further: pipelined values are parsed one by one: parsing the concatenated
    encodings of a list of values and advancing by the bytes consumed gives the
    values in order, and nothing is left over. *)
Theorem pipeline_parse (vs : list RespValue) (k : nat) (v : RespValue) :
  Forall wire_value vs → vs !! k = Some v →
  let buf := concat (encode_item <$> vs) in
  let offset := length (concat (encode_item <$> take k vs)) in
  parse_resp (drop offset buf) = Returns (Complete v (Z.of_nat (length (encode_item v)))) ∧
  drop (offset + length (encode_item v)) buf = concat (encode_item <$> drop (S k) vs).
Proof.
  intros Hw Hk buf offset.
  assert (buf = concat (encode_item <$> take k vs) ++ encode_item v ++
    concat (encode_item <$> drop (S k) vs)) as ->.
  { unfold buf. rewrite <- (take_drop_middle vs k v) at 1 by done.
    by rewrite fmap_app, concat_app. }
  unfold offset. rewrite drop_app_length, <- drop_drop, drop_app_length, drop_app_length. split; [|done].
  apply parse_encoded; [|rewrite length_app; lia].
  rewrite Forall_forall in Hw. apply Hw. by eapply list_elem_of_lookup_2.
Qed.
End properties.

(** ** Witnesses *)

Section witnesses.
Import Parser Encoder.
#[local] Existing Instance ex_layout.

Definition ex_nested : RespValue :=
  Array [BulkString (as_bytes "SET"); Array [Integer (-7); Null]; SimpleString "OK"].

Lemma ex_nested_wire : wire_value ex_nested.
Proof. repeat split; try (by intros [? ?]); by vm_compute. Qed.

Lemma encode_parse_roundtrip_witness :
  parse_resp (encode_item ex_nested ++ as_bytes "*1") = Returns (Complete ex_nested 32).
Proof. apply (encode_parse_roundtrip ex_nested (as_bytes "*1")). exact ex_nested_wire. Defined.

Lemma pipeline_parse_witness :
  parse_resp (drop 4 (concat (encode_item <$> [Integer 5; ex_nested]))) =
  Returns (Complete ex_nested 32).
Proof.
  apply (pipeline_parse [Integer 5; ex_nested] 1 ex_nested); [|reflexivity].
  apply Forall_cons_2; [by vm_compute|]. apply Forall_singleton. exact ex_nested_wire.
Defined.
End witnesses.
