(* ===== verification/RespServer.v ===== *)
(** * The RESP server of a node

    Models [crates/node/src/resp/server.rs]: the commands, and the loop that
    serves a connection.

    [clock i] is the [i]-th time [Instant::now] is read while a command runs.  A
    connection is a function of what the network does to it: the results of its
    reads and writes, and what the other tasks do to the shared store between its
    commands.  A single command is not interleaved with other tasks here; what
    such an interleaving does to [CacheStore::get] is in [Store]. *)

From S2P Require Import Prelude Machine Text Store Parser Encoder.
Local Open Scope Z_scope.
Local Open Scope outcome_scope.

Module RespServer.
Import Parser Encoder.
Abbreviation Store := CacheStore.CacheStore.

(** *** Arguments *)

Definition extract_str (v : RespValue) : option string :=
  match v with
  | BulkString data => match from_utf8 data with inr s => Some s | inl _ => None end
  | SimpleString s => Some s
  | _ => None
  end.

Definition extract_bytes (v : RespValue) : option bytes :=
  match v with
  | BulkString data => Some data
  | SimpleString s => Some (as_bytes s)
  | _ => None
  end.

(** [extract_str(..).and_then(|s| s.parse::<u64>().ok())] *)
Definition extract_u64 (v : RespValue) : option Z :=
  s ← extract_str v; match parse_u64 s with inr n => Some n | inl _ => None end.

(** *** Commands *)

Definition wrong_arity (cmd : string) : bytes :=
  encode_error ("ERR wrong number of arguments for '" +:+ cmd +:+ "' command").

Definition cmd_ping (args : list RespValue) : bytes :=
  match args with
  | [_] => encode_simple_string "PONG"
  | [_; arg] =>
      match extract_bytes arg with
      | Some data => encode_bulk_string data
      | None => encode_error "ERR invalid argument"
      end
  | _ => wrong_arity "ping"
  end.

Definition cmd_echo (args : list RespValue) : bytes :=
  match args with
  | [_; arg] =>
      match extract_bytes arg with
      | Some data => encode_bulk_string data
      | None => encode_error "ERR invalid argument"
      end
  | _ => wrong_arity "echo"
  end.

Section commands.
Context `{UnicodeUpper}.

(** The [while] loop of [cmd_set] over the arguments from the fourth on: an error
    response, or the TTL. *)
Fixpoint set_options (opts : list RespValue) (ttl : option Duration) : bytes + option Duration :=
  match opts with
  | [] => inr ttl
  | opt :: opts' =>
      match to_uppercase <$> extract_str opt with
      | None => inl (encode_error "ERR invalid option")
      | Some o =>
          if (o =? "EX")%string then
            match opts' with
            | [] => inl (wrong_arity "set")
            | arg :: opts'' =>
                match extract_u64 arg with
                | Some secs => set_options opts'' (Some (from_secs secs))
                | None => inl (encode_error "ERR value is not an integer or out of range")
                end
            end
          else if (o =? "PX")%string then
            match opts' with
            | [] => inl (wrong_arity "set")
            | arg :: opts'' =>
                match extract_u64 arg with
                | Some ms => set_options opts'' (Some (from_millis ms))
                | None => inl (encode_error "ERR value is not an integer or out of range")
                end
            end
          else inl (encode_error "ERR syntax error")
      end
  end.

Definition cmd_set (clock : nat → Z) (args : list RespValue) (store : Store)
    : outcome (bytes * Store) :=
  match args with
  | _ :: key :: value :: opts =>
      match extract_str key with
      | None => Returns (encode_error "ERR invalid key", store)
      | Some key =>
          match extract_bytes value with
          | None => Returns (encode_error "ERR invalid value", store)
          | Some value =>
              match set_options opts None with
              | inl err => Returns (err, store)
              | inr ttl =>
                  let! store' := CacheStore.set (clock 0%nat) key value ttl store in
                  Returns (encode_simple_string "OK", store')
              end
          end
      end
  | _ => Returns (wrong_arity "set", store)
  end.

Definition cmd_get (clock : nat → Z) (args : list RespValue) (store : Store) : bytes * Store :=
  match args with
  | [_; key] =>
      match extract_str key with
      | None => (encode_error "ERR invalid key", store)
      | Some key =>
          match CacheStore.get (clock 0%nat) key store with
          | (Some val, store') => (encode_bulk_string val, store')
          | (None, store') => (encode_null, store')
          end
      end
  | _ => (wrong_arity "get", store)
  end.

(** One iteration of the loop of [cmd_del]. *)
Definition del_arg (acc : Z * Store) (arg : RespValue) : Z * Store :=
  let '(deleted, store) := acc in
  match extract_str arg with
  | None => (deleted, store)
  | Some key =>
      match CacheStore.delete key store with
      | (true, store') => (deleted + 1, store')
      | (false, store') => (deleted, store')
      end
  end.

Definition cmd_del (args : list RespValue) (store : Store) : bytes * Store :=
  match args with
  | _ :: ((_ :: _) as keys) =>
      let '(deleted, store') := foldl del_arg (0, store) keys in
      (encode_integer deleted, store')
  | _ => (wrong_arity "del", store)
  end.

Definition cmd_exists (clock : nat → Z) (args : list RespValue) (store : Store)
    : bytes * Store :=
  match args with
  | [_; key] =>
      match extract_str key with
      | None => (encode_error "ERR invalid key", store)
      | Some key =>
          let '(b, store') := CacheStore.exists_ (clock 0%nat) key store in
          (encode_integer (if b then 1 else 0), store')
      end
  | _ => (wrong_arity "exists", store)
  end.

Definition cmd_ttl (clock : nat → Z) (args : list RespValue) (store : Store) : bytes * Store :=
  match args with
  | [_; key] =>
      match extract_str key with
      | None => (encode_error "ERR invalid key", store)
      | Some key =>
          let '(b, store') := CacheStore.exists_ (clock 0%nat) key store in
          if negb b then (encode_integer (-2), store')
          else
            match CacheStore.ttl (clock 1%nat) key store' with
            | Some dur => (encode_integer (as_i64 (as_secs dur)), store')
            | None => (encode_integer (-1), store')
            end
      end
  | _ => (wrong_arity "ttl", store)
  end.

Definition cmd_expire (clock : nat → Z) (args : list RespValue) (store : Store)
    : outcome (bytes * Store) :=
  match args with
  | [_; key; secs] =>
      match extract_str key with
      | None => Returns (encode_error "ERR invalid key", store)
      | Some key =>
          match extract_u64 secs with
          | None => Returns (encode_error "ERR value is not an integer or out of range", store)
          | Some secs =>
              let! (ok, store') := CacheStore.expire (clock 0%nat) key (from_secs secs) store in
              Returns (encode_integer (if ok then 1 else 0), store')
          end
      end
  | _ => Returns (wrong_arity "expire", store)
  end.

(** The match on the command name. *)
Definition dispatch (clock : nat → Z) (cmd : string) (args : list RespValue) (store : Store)
    : outcome (bytes * Store) :=
  if (cmd =? "PING")%string then Returns (cmd_ping args, store)
  else if (cmd =? "ECHO")%string then Returns (cmd_echo args, store)
  else if (cmd =? "SET")%string then cmd_set clock args store
  else if (cmd =? "GET")%string then Returns (cmd_get clock args store)
  else if (cmd =? "DEL")%string then Returns (cmd_del args store)
  else if (cmd =? "EXISTS")%string then Returns (cmd_exists clock args store)
  else if (cmd =? "TTL")%string then Returns (cmd_ttl clock args store)
  else if (cmd =? "EXPIRE")%string then cmd_expire clock args store
  else Returns (encode_error "ERR unknown command", store).

Definition handle_command (clock : nat → Z) (value : RespValue) (store : Store)
    : outcome (bytes * Store) :=
  match value with
  | Array args =>
      match args with
      | [] => Returns (encode_error "ERR empty command", store)
      | name :: _ =>
          match to_uppercase <$> extract_str name with
          | Some cmd => dispatch clock cmd args store
          | None => Returns (encode_error "ERR invalid command", store)
          end
      end
  | _ => Returns (encode_error "ERR expected array (RESP command)", store)
  end.
End commands.

(** *** Connections *)

Record Env := mkEnv {
  clock : nat → nat → Z;       (** the clock while the [k]-th response is computed *)
  others : nat → Store → Store; (** the other tasks, before the [k]-th command *)
  write_ok : nat → bool;       (** whether the [k]-th [write_all] succeeds *)
}.

Record Conn := mkConn {
  buf : bytes;
  store : Store;
  sent : list bytes;
}.

(** The result of [stream.read_buf]: new bytes (none: the client closed). *)
Inductive ReadResult := ReadBytes (chunk : bytes) | ReadError.
Inductive ConnState := Open | Closed | ReadFailed | WriteFailed.

(** [buf.advance(consumed)] *)
Definition advance (b : bytes) (consumed : Z) : outcome bytes :=
  if consumed <=? buf_len b then Returns (drop (Z.to_nat consumed) b)
  else Panics "cannot advance past remaining".

Section connection.
Context `{UnicodeUpper} `{RespLayout} (env : Env).

(** The inner loop: a complete value takes bytes from the buffer, so the length of
    the buffer bounds the iterations. *)
Fixpoint process_buffer (fuel : nat) (c : Conn) : outcome (ConnState * Conn) :=
  match fuel with
  | O => OutOfFuel
  | S f =>
      match buf c with
      | [] => Returns (Open, c)
      | _ =>
          let! r := parse_resp (buf c) in
          let k := length (sent c) in
          match r with
          | Complete value consumed =>
              let! (response, store') :=
                handle_command (clock env k) value (others env k (store c)) in
              if write_ok env k then
                let! buf' := advance (buf c) consumed in
                process_buffer f (mkConn buf' store' (sent c ++ [response]))
              else Returns (WriteFailed, mkConn (buf c) store' (sent c))
          | Incomplete => Returns (Open, c)
          | ParseError e =>
              let resp := encode_error ("ERR " +:+ e) in
              if write_ok env k then Returns (Open, mkConn [] (store c) (sent c ++ [resp]))
              else Returns (WriteFailed, c)
          end
      end
  end.

Fixpoint handle_connection (reads : list ReadResult) (c : Conn) : outcome (ConnState * Conn) :=
  match reads with
  | [] => Returns (Open, c)
  | ReadError :: _ => Returns (ReadFailed, c)
  | ReadBytes [] :: _ => Returns (Closed, c)
  | ReadBytes chunk :: reads' =>
      let buf' := buf c ++ chunk in
      let! (s, c') := process_buffer (S (length buf')) (mkConn buf' (store c) (sent c)) in
      match s with
      | Open => handle_connection reads' c'
      | _ => Returns (s, c')
      end
  end.
End connection.

(** *** The server *)

(** What a future of the runtime has come to: it waits, or it is ready. *)
Inductive Future := Pending | Ready (result : string + unit).

(** A connection accepted: what it will read, the store at that moment, and what
    other tasks do to the store between its commands. *)
Record Accepted := mkAccepted {
  accepted_env : Env;
  accepted_store : Store;
  accepted_reads : list ReadResult;
}.

(** The task spawned for a connection.  A panic ends the task alone. *)
Definition connection_task `{UnicodeUpper} `{RespLayout} (a : Accepted) : outcome (ConnState * Conn) :=
  handle_connection (accepted_env a) (accepted_reads a) (mkConn [] (accepted_store a) []).

(** The accept loop over what [accept] has answered so far; [spawned] are the tasks
    of the connections accepted before. *)
Fixpoint accept_loop `{UnicodeUpper} `{RespLayout} (accepts : list (string + Accepted))
    (spawned : list (outcome (ConnState * Conn))) : Future * list (outcome (ConnState * Conn)) :=
  match accepts with
  | [] => (Pending, spawned)
  | inl e :: _ => (Ready (inl e), spawned)
  | inr a :: accepts' => accept_loop accepts' (spawned ++ [connection_task a])
  end.

(** [bind] is the error of [TcpListener::bind], if any. *)
Definition start_resp_server `{UnicodeUpper} `{RespLayout} (bind : option string)
    (accepts : list (string + Accepted)) : Future * list (outcome (ConnState * Conn)) :=
  match bind with
  | Some e => (Ready (inl e), [])
  | None => accept_loop accepts []
  end.

(** ** Specifications *)

(** The framing of a stream: the values it holds, and the unfinished rest. *)
Inductive framed `{RespLayout} : bytes → list RespValue → bytes → Prop :=
  | framed_empty : framed [] [] []
  | framed_partial buf : parse_resp buf = Returns Incomplete → framed buf [] buf
  | framed_value buf v n vs rest : parse_resp buf = Returns (Complete v n) →
      framed (drop (Z.to_nat n) buf) vs rest → framed buf (v :: vs) rest.

(** The sequential interpreter: the [k]-th response answers the [k]-th value. *)
Fixpoint exec `{UnicodeUpper} (env : Env) (k : nat) (vs : list RespValue) (st : Store)
    : outcome (list bytes * Store) :=
  match vs with
  | [] => Returns ([], st)
  | v :: vs' =>
      let! (response, st1) := handle_command (clock env k) v (others env k st) in
      let! (responses, st2) := exec env (S k) vs' st1 in
      Returns (response :: responses, st2)
  end.

(** The values a store holds fit a bulk string. *)
Definition store_ok (st : Store) : Prop :=
  ∀ k e, CacheStore.data st !! k = Some e → buf_len (CacheStore.value e) ≤ i64_max.

Definition is_error (response : bytes) : Prop := head response = Some "-"%char.

(** The array of bulk strings a client sends. *)
Definition command (parts : list string) : RespValue :=
  Array ((λ s, BulkString (as_bytes s)) <$> parts).
End RespServer.

(** ** Lemmas *)

Section lemmas.
Context `{UnicodeUpper} `{RespLayout}.
Import Parser Encoder RespServer.

(** What has arrived first is framed first, whatever comes later. *)
Lemma framed_split b1 : ∀ b2 vs rest, framed (b1 ++ b2) vs rest →
  ∃ vs1 vs2 r1, vs = vs1 ++ vs2 ∧ framed b1 vs1 r1 ∧ framed (r1 ++ b2) vs2 rest.
Proof.
  induction b1 as [b1 IH] using (induction_ltof1 _ length). unfold ltof in IH. intros b2 vs rest Hf.
  assert (parse_resp b1 = Returns Incomplete ∨ parse_resp (b1 ++ b2) = parse_resp b1) as [E|E].
  { destruct (parse_resp b1) as [[v n| |e]|msg|] eqn:E; [right|by left|right..];
      rewrite <- E; apply parse_resp_settled; congruence. }
  { exists [], vs, b1. split; [done|]. split; [by apply framed_partial|done]. }
  inversion Hf as [Heq|b Hb Heq|b v n vs' rest' Hb Hf' Heq]; subst.
  - symmetry in Heq. apply app_nil in Heq as [-> ->]. exists [], [], [].
    split; [done|]. split; apply framed_empty.
  - exists [], [], b1. split; [done|]. split; [|done]. apply framed_partial. congruence.
  - rewrite E in Hb. destruct (complete_bounds _ _ _ Hb) as [Hn _].
    rewrite drop_app_keep in Hf' by lia.
    destruct (IH (drop (Z.to_nat n) b1)) with (2 := Hf') as (vs1 & vs2 & r1 & -> & H1 & H2);
      [rewrite length_drop; lia|].
    exists (v :: vs1), vs2, r1. split; [done|]. split; [by eapply framed_value|done].
Qed.

(** One pass over the buffer runs the complete commands in it. *)
Lemma process_buffer_framed env b vs rest : framed b vs rest →
  (∀ k, write_ok env k = true) →
  ∀ fuel st out, (length b < fuel)%nat →
  process_buffer env fuel (mkConn b st out) =
  let! (responses, st') := exec env (length out) vs st in
  Returns (Open, mkConn rest st' (out ++ responses)).
Proof.
  intros Hf Hw. induction Hf as [|b Hb|b v n vs rest Hb _ IH]; intros [|f] st out Hfuel;
    try lia; simpl.
  - by rewrite app_nil_r.
  - destruct b; [|rewrite Hb; simpl]; by rewrite app_nil_r.
  - destruct (complete_bounds _ _ _ Hb) as [Hn Hn'].
    destruct b as [|c b]; [simpl in Hn; lia|]. set (b0 := c :: b) in *. rewrite Hb. cbn [outcome_bind].
    destruct (handle_command _ v _) as [[resp st1]|msg|]; cbn [outcome_bind]; try done.
    rewrite Hw. unfold advance. rewrite (proj2 (Z.leb_le _ _)) by done. cbn [outcome_bind].
    rewrite IH by (rewrite length_drop; lia). rewrite length_app, Nat.add_1_r.
    destruct (exec env _ vs st1) as [[resps st2]|msg|]; cbn [outcome_bind]; try done.
    by rewrite <- app_assoc.
Qed.

Lemma exec_app env vs1 vs2 : ∀ k st,
  exec env k (vs1 ++ vs2) st =
  let! (r1, st1) := exec env k vs1 st in
  let! (r2, st2) := exec env (k + length vs1)%nat vs2 st1 in Returns (r1 ++ r2, st2).
Proof.
  induction vs1 as [|v vs1 IH]; intros k st; simpl.
  - rewrite Nat.add_0_r. by destruct (exec env k vs2 st) as [[? ?]| |].
  - destruct (handle_command _ v _) as [[resp st1]|msg|]; cbn [outcome_bind]; try done.
    rewrite IH. rewrite Nat.add_succ_r.
    destruct (exec env (S k) vs1 st1) as [[r1 st2]|msg|]; cbn [outcome_bind]; try done.
    replace (S k + length vs1)%nat with (S (k + length vs1)) by lia.
    by destruct (exec env _ vs2 st2) as [[r2 st3]|msg|].
Qed.

Lemma exec_length env vs : ∀ k st rs st', exec env k vs st = Returns (rs, st') → length rs = length vs.
Proof.
  induction vs as [|v vs IH]; intros k st rs st'; simpl; [by intros [= <- <-]|].
  intros ([resp st1] & _ & ([rs' st2] & Hrs & [= <- <-])%outcome_bind_Returns)%outcome_bind_Returns.
  simpl. f_equal. by eapply IH.
Qed.

Lemma framed_rest b vs rest : framed b vs rest → parse_resp rest = Returns Incomplete.
Proof. by induction 1. Qed.

Lemma framed_incomplete b vs rest :
  parse_resp b = Returns Incomplete → framed b vs rest → vs = [] ∧ rest = b.
Proof. intros Hb Hf. inversion Hf; subst; [done|done|congruence]. Qed.

Lemma handle_connection_framed env chunks : ∀ b st out vs rest,
  parse_resp b = Returns Incomplete → framed (b ++ concat chunks) vs rest →
  Forall (λ c, c ≠ []) chunks → (∀ k, write_ok env k = true) →
  handle_connection env (ReadBytes <$> chunks) (mkConn b st out) =
  let! (responses, st') := exec env (length out) vs st in
  Returns (Open, mkConn rest st' (out ++ responses)).
Proof.
  induction chunks as [|c chunks IH]; intros b st out vs rest Hb Hf Hne Hw.
  { simpl in *. rewrite app_nil_r in Hf. destruct (framed_incomplete _ _ _ Hb Hf) as [-> ->].
    simpl. by rewrite app_nil_r. }
  inversion Hne as [|? ? Hc Hne']; subst. destruct c as [|x c]; [done|].
  rewrite fmap_cons. cbn [handle_connection buf store sent]. cbn [concat] in Hf. rewrite app_assoc in Hf.
  destruct (framed_split _ _ _ _ Hf) as (vs1 & vs2 & r1 & -> & H1 & H2).
  rewrite (process_buffer_framed _ _ _ _ H1) by (done || lia). rewrite exec_app.
  destruct (exec env (length out) vs1 st) as [[rs1 st1]|msg|] eqn:E1; cbn [outcome_bind]; [|done..].
  rewrite (IH _ _ _ _ _ (framed_rest _ _ _ H1) H2 Hne' Hw).
  apply exec_length in E1. rewrite length_app, E1.
  destruct (exec env _ vs2 st1) as [[rs2 st2]|msg|]; cbn [outcome_bind]; [|done..].
  by rewrite app_assoc.
Qed.

(** *** Commands *)

Lemma delete_count_size (k : string) (st : Store) :
  Z.of_nat (size (CacheStore.data st)) =
  (if (CacheStore.delete k st).1 then 1 else 0) +
  Z.of_nat (size (CacheStore.data (CacheStore.delete k st).2)).
Proof.
  simpl. destruct (CacheStore.data st !! k) as [e|] eqn:E.
  - rewrite bool_decide_eq_true_2 by done.
    rewrite <- (insert_delete_id _ _ _ E) at 1. rewrite map_size_insert_None by apply lookup_delete_eq.
    lia.
  - rewrite bool_decide_eq_false_2 by by intros [? ?]. by rewrite delete_id.
Qed.

(** The keys DEL names: its arguments that are text. *)
Definition text_args (args : list RespValue) : list string := omap extract_str args.

Lemma foldl_del_arg args : ∀ n st,
  let '(n', st') := foldl del_arg (n, st) args in
  n + Z.of_nat (size (CacheStore.data st)) = n' + Z.of_nat (size (CacheStore.data st')) ∧
  n ≤ n' ≤ n + Z.of_nat (length args) ∧
  ∀ k, CacheStore.data st' !! k =
    if decide (k ∈ text_args args) then None else CacheStore.data st !! k.
Proof.
  induction args as [|arg args IH]; intros n st; cbn [foldl length].
  { split; [done|]. split; [lia|]. intros k. by rewrite decide_False by by apply not_elem_of_nil. }
  cbn [del_arg].
  unfold text_args. cbn [omap list_omap]. destruct (extract_str arg) as [key|] eqn:Ek.
  - pose proof (delete_count_size key st) as Hd.
    destruct (CacheStore.delete key st) as [b st1] eqn:Ed. simpl in Hd.
    assert (st1 = CacheStore.remove_key key st) as -> by (unfold CacheStore.delete in Ed; congruence).
    replace (if b then (n + 1, CacheStore.remove_key key st) else (n, CacheStore.remove_key key st))
      with (n + (if b then 1 else 0), CacheStore.remove_key key st)
      by (destruct b; [done|]; by rewrite Z.add_0_r).
    specialize (IH (n + (if b then 1 else 0)) (CacheStore.remove_key key st)).
    destruct (foldl del_arg _ args) as [n' st']. destruct IH as (H1 & H2 & H3).
    split; [lia|]. split; [destruct b; lia|]. intros k. rewrite H3. simpl.
    unfold text_args. destruct (decide (k ∈ omap extract_str args)) as [Hin|Hin].
    + by rewrite decide_True by by right.
    + destruct (decide (k = key)) as [->|Hk].
      * rewrite lookup_delete_eq, decide_True by by left. done.
      * rewrite lookup_delete_ne by done. rewrite decide_False; [done|].
        by intros [?|?]%elem_of_cons.
  - specialize (IH n st). destruct (foldl del_arg (n, st) args) as [n' st'].
    destruct IH as (H1 & H2 & H3). split; [done|]. split; [lia|done].
Qed.
(** *** Responses *)

Lemma as_i64_range z : is_i64 (as_i64 z).
Proof.
  unfold as_i64. pose proof (Z.mod_pos_bound z u64_modulus). machine_unfold.
  destruct (Z.leb_spec (z mod 2 ^ 64) (2 ^ 63 - 1)); lia.
Qed.

(** The bytes of one value the client can parse. *)
Definition one_value (response : bytes) : Prop := ∃ v, wire_value v ∧ response = encode_item v.

Lemma one_value_error msg : wire_text msg → one_value (encode_error msg).
Proof. intros. by exists (Error msg). Qed.
Lemma one_value_simple s : wire_text s → one_value (encode_simple_string s).
Proof. intros. by exists (SimpleString s). Qed.
Lemma one_value_integer n : is_i64 n → one_value (encode_integer n).
Proof. intros. by exists (Integer n). Qed.
Lemma one_value_bulk d : buf_len d ≤ i64_max → one_value (encode_bulk_string d).
Proof. intros. by exists (BulkString d). Qed.
Lemma one_value_null : one_value encode_null.
Proof. by exists Null. Qed.

Ltac wire_literal :=
  solve [split; [by vm_compute|repeat split; by intros [? ?]]].

(** The arguments of a command fit memory. *)
Definition args_ok (args : list RespValue) : Prop :=
  Z.of_nat (length args) ≤ i64_max ∧
  ∀ arg data, arg ∈ args → extract_bytes arg = Some data → buf_len data ≤ i64_max.

Lemma store_ok_sub st st' : store_ok st →
  (∀ k e, CacheStore.data st' !! k = Some e →
     ∃ k' e', CacheStore.data st !! k' = Some e' ∧ CacheStore.value e' = CacheStore.value e) →
  store_ok st'.
Proof. intros Hok Hsub k e He. destruct (Hsub k e He) as (k' & e' & He' & <-). by eapply Hok. Qed.

Lemma remove_key_ok k st : store_ok st → store_ok (CacheStore.remove_key k st).
Proof.
  intros Hok. eapply store_ok_sub; [done|]. intros k' e. simpl.
  intros [_ He]%lookup_delete_Some. eauto.
Qed.

Lemma get_ok now k st : store_ok st →
  store_ok (CacheStore.get now k st).2 ∧
  ∀ v, (CacheStore.get now k st).1 = Some v → buf_len v ≤ i64_max.
Proof.
  intros Hok. unfold CacheStore.get, CacheStore.get_lookup.
  destruct (CacheStore.data st !! k) as [e|] eqn:E; [|done].
  destruct (CacheStore.expired now e); simpl; [split; [by apply remove_key_ok|done]|].
  split; [done|]. intros v [= <-]. by eapply Hok.
Qed.

Lemma exists_ok now k st b st' : store_ok st → CacheStore.exists_ now k st = (b, st') → store_ok st'.
Proof.
  unfold CacheStore.exists_. intros Hok. destruct (get_ok now k st Hok) as [Hg _].
  destruct (CacheStore.get now k st). by intros [= <- <-].
Qed.

Lemma set_ok now k v ttl st st' : store_ok st → buf_len v ≤ i64_max →
  CacheStore.set now k v ttl st = Returns st' → store_ok st'.
Proof.
  intros Hok Hv ->%set_Returns k' e. simpl. rewrite lookup_insert_Some.
  intros [[<- <-]|[_ He]]; [done|by eapply Hok].
Qed.

Lemma expire_ok now k d st b st' : store_ok st →
  CacheStore.expire now k d st = Returns (b, st') → store_ok st'.
Proof.
  intros Hok He%expire_Returns. destruct (CacheStore.data st !! k) as [e|] eqn:E;
    destruct He as [-> ->]; [|done].
  eapply store_ok_sub; [done|]. intros k' e'. simpl. rewrite lookup_insert_Some.
  intros [[<- <-]|[_ ?]]; eauto.
Qed.

Lemma set_options_error opts : ∀ ttl err, set_options opts ttl = inl err →
  one_value err ∧ is_error err.
Proof.
  assert (∀ msg, wire_text msg → one_value (encode_error msg) ∧ is_error (encode_error msg)) as Herr
    by (split; [by apply one_value_error|done]).
  induction opts as [opts IH] using (induction_ltof1 _ length). unfold ltof in IH.
  intros ttl err. destruct opts as [|opt opts]; simpl; [done|].
  destruct (to_uppercase <$> extract_str opt) as [o|];
    [|intros [= <-]; apply Herr; wire_literal].
  destruct (o =? "EX")%string; [|destruct (o =? "PX")%string;
    [|intros [= <-]; apply Herr; wire_literal]];
    (destruct opts as [|arg opts]; [intros [= <-]; apply Herr; wire_literal|]);
    (destruct (extract_u64 arg); [apply IH; simpl; lia|intros [= <-]; apply Herr; wire_literal]).
Qed.
(** What every command promises of its response and of the store. *)
Definition response_ok (st : Store) (r : bytes * Store) : Prop :=
  one_value r.1 ∧ (store_ok st → store_ok r.2) ∧ (is_error r.1 → r.2 = st).

Lemma response_error st msg : wire_text msg → response_ok st (encode_error msg, st).
Proof. intros. by split; [apply one_value_error|]. Qed.

Lemma response_integer st n st' : is_i64 n → (store_ok st → store_ok st') →
  response_ok st (encode_integer n, st').
Proof. intros. split; [by apply one_value_integer|]. by split. Qed.

Ltac literal_error := solve [apply response_error; wire_literal].

Lemma cmd_ping_ok st args : args_ok args → response_ok st (cmd_ping args, st).
Proof.
  intros [_ Hargs]. unfold cmd_ping.
  destruct args as [|? [|arg [|]]]; try literal_error.
  - split; [apply one_value_simple; wire_literal|done].
  - destruct (extract_bytes arg) as [d|] eqn:E; [|literal_error].
    split; [|done]. apply one_value_bulk. eapply Hargs; [|exact E]. set_solver.
Qed.

Lemma cmd_echo_ok st args : args_ok args → response_ok st (cmd_echo args, st).
Proof.
  intros [_ Hargs]. unfold cmd_echo.
  destruct args as [|? [|arg [|]]]; try literal_error.
  destruct (extract_bytes arg) as [d|] eqn:E; [|literal_error].
  split; [|done]. apply one_value_bulk. eapply Hargs; [|exact E]. set_solver.
Qed.

Lemma cmd_set_ok clock st args r : args_ok args →
  cmd_set clock args st = Returns r → response_ok st r.
Proof.
  intros [_ Hargs]. unfold cmd_set.
  destruct args as [|? [|key [|val opts]]]; try (intros [= <-]; literal_error).
  destruct (extract_str key); [|intros [= <-]; literal_error].
  destruct (extract_bytes val) as [d|] eqn:Ed; [|intros [= <-]; literal_error].
  destruct (set_options opts None) as [err|ttl] eqn:Eo.
  - intros [= <-]. apply set_options_error in Eo as [? ?]. by split.
  - intros (st' & Hset & [= <-])%outcome_bind_Returns.
    split; [apply one_value_simple; wire_literal|]. split; [|done]. simpl. intros Hok.
    eapply set_ok; [done| |exact Hset]. eapply Hargs; [|exact Ed]. set_solver.
Qed.

Lemma cmd_get_ok clock st args : store_ok st → response_ok st (cmd_get clock args st).
Proof.
  intros Hok. unfold cmd_get. destruct args as [|? [|key [|]]]; try literal_error.
  destruct (extract_str key) as [k|]; [|literal_error].
  destruct (get_ok (clock 0%nat) k st Hok) as [Hst Hv].
  destruct (CacheStore.get (clock 0%nat) k st) as [[v|] st']; simpl in *.
  - split; [by apply one_value_bulk, Hv|done].
  - split; [apply one_value_null|done].
Qed.

Lemma cmd_del_ok st args : args_ok args → response_ok st (cmd_del args st).
Proof.
  intros [Hlen _]. unfold cmd_del. destruct args as [|? [|key keys]]; try literal_error.
  pose proof (foldl_del_arg (key :: keys) 0 st) as Hd.
  destruct (foldl del_arg (0, st) (key :: keys)) as [n st']. destruct Hd as (_ & Hn & Hst).
  apply response_integer; [machine_unfold; simpl in *; lia|].
  intros Hok. eapply store_ok_sub; [done|]. intros k e. rewrite Hst. case_decide; [done|]. eauto.
Qed.

Lemma cmd_exists_ok clock st args : response_ok st (cmd_exists clock args st).
Proof.
  unfold cmd_exists. destruct args as [|? [|key [|]]]; try literal_error.
  destruct (extract_str key) as [k|]; [|literal_error].
  destruct (CacheStore.exists_ _ k st) as [b st'] eqn:E.
  apply response_integer; [by destruct b|]. intros Hok. by eapply exists_ok.
Qed.

Lemma cmd_ttl_ok clock st args : response_ok st (cmd_ttl clock args st).
Proof.
  unfold cmd_ttl. destruct args as [|? [|key [|]]]; try literal_error.
  destruct (extract_str key) as [k|]; [|literal_error].
  destruct (CacheStore.exists_ _ k st) as [b st'] eqn:E.
  assert (store_ok st → store_ok st') by (intros; by eapply exists_ok).
  destruct b; simpl; [|by apply response_integer].
  destruct (CacheStore.ttl _ k st'); apply response_integer; try done. apply as_i64_range.
Qed.

Lemma cmd_expire_ok clock st args r :
  cmd_expire clock args st = Returns r → response_ok st r.
Proof.
  unfold cmd_expire. destruct args as [|? [|key [|secs [|]]]]; try (intros [= <-]; literal_error).
  destruct (extract_str key) as [k|]; [|intros [= <-]; literal_error].
  destruct (extract_u64 secs) as [n|]; [|intros [= <-]; literal_error].
  intros ([b st'] & He & [= <-])%outcome_bind_Returns.
  apply response_integer; [by destruct b|]. intros Hok. by eapply expire_ok.
Qed.

Lemma handle_command_ok clock v st r :
  (∀ args, v = Array args → args_ok args) → store_ok st →
  handle_command clock v st = Returns r → response_ok st r.
Proof.
  intros Hv Hok. unfold handle_command. destruct v as [| | | | |args];
    try (intros [= <-]; literal_error).
  specialize (Hv args eq_refl). destruct args as [|name args]; [intros [= <-]; literal_error|].
  destruct (to_uppercase <$> extract_str name) as [cmd|]; [|intros [= <-]; literal_error].
  unfold dispatch.
  repeat match goal with |- context [if (?a =? ?b)%string then _ else _] => destruct (a =? b)%string end;
    eauto using cmd_set_ok, cmd_expire_ok; intros <-%Returns_inj;
    auto using cmd_ping_ok, cmd_echo_ok, cmd_get_ok, cmd_del_ok, cmd_exists_ok, cmd_ttl_ok.
  literal_error.
Qed.

Lemma accept_loop_accepted (conns : list Accepted) accepts : ∀ spawned,
  accept_loop ((inr <$> conns) ++ accepts) spawned =
  accept_loop accepts (spawned ++ (connection_task <$> conns)).
Proof.
  induction conns as [|a conns IH]; intros spawned; cbn; [by rewrite app_nil_r|].
  by rewrite IH, <- app_assoc.
Qed.

Lemma handle_named clock name cmd args st :
  to_uppercase <$> extract_str name = Some cmd →
  handle_command clock (Array (name :: args)) st = dispatch clock cmd (name :: args) st.
Proof. intros Hn. unfold handle_command. by rewrite Hn. Qed.
End lemmas.

(** ** Properties *)

Section properties.
Context `{UnicodeUpper} `{RespLayout}.
Import Parser Encoder RespServer.

(** C19: a connection is a sequential interpreter, whatever way the network cuts
    the stream: when the bytes received frame as the values [vs] and an unfinished
    rest, the node answers each value once, in order, with the store as the
    previous command left it, keeps the unfinished bytes, and waits. *)
Theorem connection_refines_exec (env : Env) (chunks : list (list ascii)) (vs : list RespValue)
    (rest : list ascii) (st : CacheStore.CacheStore) :
  framed (concat chunks) vs rest → Forall (λ c, c ≠ []) chunks → (∀ k, write_ok env k = true) →
  handle_connection env (ReadBytes <$> chunks) (mkConn [] st []) =
  outcome_map (λ r, (Open, mkConn rest r.2 r.1)) (exec env 0 vs st).
Proof.
  intros Hf Hne Hw.
  rewrite (handle_connection_framed env chunks [] st [] vs rest) by done.
  unfold outcome_map. simpl. by destruct (exec env 0 vs st) as [[??]|?|].
Qed.

(** Further: every command gets one answer that the client can parse, whatever the
    command: the response is the encoding of exactly one value; and a response
    that is an error means the store is as before. *)
Theorem one_response_per_command (clock : nat → Z) (args : list RespValue)
    (st st' : CacheStore.CacheStore) (response rest : list ascii) :
  args_ok args → store_ok st →
  handle_command clock (Array args) st = Returns (response, st') →
  (∃ v, parse_resp (response ++ rest) = Returns (Complete v (Z.of_nat (length response)))) ∧
  store_ok st' ∧ (is_error response → st' = st).
Proof.
  intros Hargs Hok Hh. apply handle_command_ok in Hh as (Hv & Hst & He); [|by intros ? [= <-]|done].
  split; [|by split; [apply Hst|]]. simpl in Hv. destruct Hv as (v & Hw & ->). exists v.
  apply parse_encoded; [done|]. rewrite length_app. lia.
Qed.

(** Further: SET then GET over the protocol: after an accepted SET, a GET of the key
    at any later moment answers the bulk string of the value while its TTL runs,
    null afterwards; the TTL is what the options say. *)
Theorem resp_set_get (clock clock' : nat → Z) (set_name get_name key : RespValue) (k : string)
    (value : list ascii) (opts : list RespValue) (ttl : option Z)
    (st st' : CacheStore.CacheStore) (response : list ascii) :
  to_uppercase <$> extract_str set_name = Some "SET"%string →
  to_uppercase <$> extract_str get_name = Some "GET"%string →
  extract_str key = Some k → set_options opts None = inr ttl →
  handle_command clock (Array (set_name :: key :: BulkString value :: opts)) st
    = Returns (response, st') →
  response = encode_simple_string "OK" ∧
  ∃ st'', handle_command clock' (Array [get_name; key]) st' = Returns
    (if match ttl with Some d => clock' 0%nat <? clock 0%nat + d | None => true end
     then encode_bulk_string value else encode_null, st'').
Proof.
  intros Hs Hg Hk Ho. rewrite (handle_named _ _ _ _ _ Hs), (handle_named _ _ _ _ _ Hg).
  change (dispatch clock "SET" ?a st) with (cmd_set clock a st).
  change (dispatch clock' "GET" ?a st') with (Returns (cmd_get clock' a st')).
  unfold cmd_set, cmd_get. rewrite Hk, Ho. cbn [extract_bytes].
  intros (st1 & ->%set_Returns & [= <- <-])%outcome_bind_Returns. split; [done|].
  unfold CacheStore.get, CacheStore.get_lookup, CacheStore.expired. simpl. rewrite lookup_insert_eq.
  destruct ttl as [d|]; simpl; [|by eexists].
  destruct (Z.leb_spec (clock 0%nat + d) (clock' 0%nat)), (Z.ltb_spec (clock' 0%nat) (clock 0%nat + d));
    try lia; by eexists.
Qed.
(** Further: DEL over the protocol deletes every key it names and no other, and
    answers how many of them were there; a key named twice counts once. *)
Theorem resp_del (clock : nat → Z) (name : RespValue) (keys : list RespValue)
    (st : CacheStore.CacheStore) :
  to_uppercase <$> extract_str name = Some "DEL"%string → keys ≠ [] →
  ∃ n st', handle_command clock (Array (name :: keys)) st = Returns (encode_integer n, st') ∧
    n = Z.of_nat (size (CacheStore.data st)) - Z.of_nat (size (CacheStore.data st')) ∧
    ∀ k, CacheStore.data st' !! k =
      if decide (k ∈ text_args keys) then None else CacheStore.data st !! k.
Proof.
  intros Hn Hk. rewrite (handle_named _ _ _ _ _ Hn).
  change (dispatch clock "DEL" ?a st) with (Returns (cmd_del a st)).
  destruct keys as [|key keys]; [done|]. unfold cmd_del.
  pose proof (foldl_del_arg (key :: keys) 0 st) as Hd.
  destruct (foldl del_arg (0, st) (key :: keys)) as [n st']. destruct Hd as (H1 & _ & H3).
  exists n, st'. split; [done|]. split; [lia|done].
Qed.

(** Further: TTL over the protocol answers -2 for a key that is absent or expired, -1
    for one that never expires, and otherwise the whole seconds left at the second
    reading of the clock (0 when it has run out since the first). *)
Theorem resp_ttl_codes (clock : nat → Z) (name key : RespValue) (k : string)
    (st : CacheStore.CacheStore) :
  to_uppercase <$> extract_str name = Some "TTL"%string → extract_str key = Some k →
  0 ≤ clock 0%nat ≤ clock 1%nat →
  (∀ e t, CacheStore.data st !! k = Some e → CacheStore.expires_at e = Some t → is_instant t) →
  ∃ st', handle_command clock (Array [name; key]) st = Returns (encode_integer
    match CacheStore.data st !! k with
    | Some e =>
        match CacheStore.expires_at e with
        | None => -1
        | Some t => if clock 0%nat <? t then as_secs (Z.max 0 (t - clock 1%nat)) else -2
        end
    | None => -2
    end, st').
Proof.
  intros Hn Hk Hc Ht. rewrite (handle_named _ _ _ _ _ Hn).
  change (dispatch clock "TTL" ?a st) with (Returns (cmd_ttl clock a st)).
  unfold cmd_ttl. rewrite Hk. unfold CacheStore.exists_, CacheStore.get, CacheStore.get_lookup.
  destruct (CacheStore.data st !! k) as [e|] eqn:E; [|by eexists].
  unfold CacheStore.expired. specialize (Ht e).
  destruct (CacheStore.expires_at e) as [t|] eqn:Et.
  - specialize (Ht t eq_refl eq_refl).
    destruct (Z.leb_spec t (clock 0%nat)), (Z.ltb_spec (clock 0%nat) t); try lia; simpl; [by eexists|].
    exists st. unfold CacheStore.ttl. rewrite E, Et. do 3 f_equal.
    assert (∀ d, 0 ≤ d < instant_limit → as_i64 (as_secs d) = as_secs d) as Has.
    { intros d Hd. apply as_i64_small. unfold instant_limit, as_secs, nanos_per_sec in *.
      split; [apply Z.div_pos; lia|]. apply Z.lt_succ_r. apply Z.div_lt_upper_bound; lia. }
    unfold is_instant in Ht. destruct (Z.ltb_spec (clock 1%nat) t).
    + rewrite Has by lia. by rewrite Z.max_r by lia.
    + rewrite Has by (unfold instant_limit, nanos_per_sec; machine_unfold; lia). by rewrite Z.max_l by lia.
  - simpl. exists st. unfold CacheStore.ttl. by rewrite E, Et.
Qed.

(** Further: command names are case-insensitive on ASCII, for every command and
    argument list. *)
Theorem command_case_insensitive (clock : nat → Z) (s1 s2 : string) (args : list RespValue)
    (st : CacheStore.CacheStore) :
  Forall (λ c, is_ascii c = true) (as_bytes s1) → Forall (λ c, is_ascii c = true) (as_bytes s2) →
  upper_ascii <$> as_bytes s1 = upper_ascii <$> as_bytes s2 →
  handle_command clock (Array (BulkString (as_bytes s1) :: args)) st =
  handle_command clock (Array (BulkString (as_bytes s2) :: args)) st.
Proof.
  intros H1 H2 Hu.
  assert (∀ s, Forall (λ c, is_ascii c = true) (as_bytes s) →
    to_uppercase <$> extract_str (BulkString (as_bytes s)) =
    Some (of_bytes (upper_ascii <$> as_bytes s))) as Hn.
  { intros s Hs. simpl. rewrite from_utf8_ascii by done. simpl.
    by rewrite of_bytes_as_bytes, to_uppercase_ascii. }
  rewrite (handle_named _ _ _ _ _ (Hn _ H1)), (handle_named _ _ _ _ _ (Hn _ H2)), Hu. done.
Qed.

(** Further: after a protocol error the answers depend on how the network cuts the
    stream: commands that arrive in the same read as the offending bytes are
    dropped without an answer, the same commands in the next read are served. *)
Theorem protocol_error_drops (env : Env) (bad : list ascii) (e : string) (v : RespValue)
    (st st' : CacheStore.CacheStore) (response : list ascii) :
  parse_resp bad = Returns (ParseError e) → wire_value v → (∀ k, write_ok env k = true) →
  handle_command (clock env 1%nat) v (others env 1%nat st) = Returns (response, st') →
  let err := encode_error ("ERR " +:+ e) in
  handle_connection env [ReadBytes (bad ++ encode_item v)] (mkConn [] st []) =
    Returns (Open, mkConn [] st [err]) ∧
  handle_connection env [ReadBytes bad; ReadBytes (encode_item v)] (mkConn [] st []) =
    Returns (Open, mkConn [] st' [err; response]).
Proof.
  intros Hbad Hv Hw Hh err.
  assert (∀ more fuel, process_buffer env (S fuel) (mkConn (bad ++ more) st []) =
    Returns (Open, mkConn [] st [err])) as Hp.
  { intros more fuel. cbn [process_buffer buf]. destruct bad as [|c bad]; [done|].
    rewrite parse_resp_settled by by rewrite Hbad. rewrite Hbad. simpl. by rewrite Hw. }
  assert (bad ≠ []) as Hne by by intros ->.
  destruct (encode_item v) as [|y enc] eqn:Ev;
    [pose proof (encode_item_length v) as Hl; rewrite Ev in Hl; simpl in Hl; lia|].
  split.
  - destruct bad as [|c bad]; [done|]. cbn [handle_connection app buf store sent].
    rewrite (Hp (y :: enc)). done.
  - destruct bad as [|c bad]; [done|]. cbn [handle_connection app buf store sent].
    rewrite <- (app_nil_r bad) at 2. rewrite (Hp []). cbn [outcome_bind buf store sent app].
    assert (framed (y :: enc) [v] []) as Hf.
    { rewrite <- Ev. eapply framed_value.
      - rewrite <- (app_nil_r (encode_item v)). apply parse_encoded; [done|]. rewrite app_nil_r. lia.
      - unfold buf_len. rewrite Nat2Z.id, drop_all. apply framed_empty. }
    rewrite (process_buffer_framed _ _ _ _ Hf) by (done || lia). simpl. by rewrite Hh.
Qed.
(** Further: the accept loop: as long as connections are accepted the server waits for
    more, with one task per connection, whatever becomes of the tasks (a panic of one
    is nothing to the others); the first error of [accept], which may be as passing
    as a lack of file descriptors, ends it, as an error of [bind] does. *)
Theorem resp_server_accepts (conns : list Accepted) (later : list (string + Accepted)) (e : string) :
  start_resp_server None (inr <$> conns) = (Pending, connection_task <$> conns) ∧
  start_resp_server None ((inr <$> conns) ++ inl e :: later) =
    (Ready (inl e), connection_task <$> conns) ∧
  start_resp_server (Some e) later = (Ready (inl e), []).
Proof.
  unfold start_resp_server. pose proof (accept_loop_accepted conns [] []) as Hc.
  rewrite app_nil_r in Hc. rewrite Hc, accept_loop_accepted. done.
Qed.
End properties.

(** ** Witnesses *)

Section witnesses.
Import Parser Encoder RespServer.
#[local] Existing Instance ex_layout.
Definition ex_upper : UnicodeUpper := λ b, b.
#[local] Existing Instance ex_upper.

Definition ex_clk : nat → Z := λ _, from_secs 1.
Definition ex_env : Env := mkEnv (λ k _, from_secs (Z.of_nat k)) (λ _ st, st) (λ _, true).
Definition ex_store : Store := CacheStore.new 0.
Definition ex_set : RespValue := command ["set"; "k"; "v"; "EX"; "10"]%string.
Definition ex_get : RespValue := command ["GET"; "k"]%string.
Definition ex_stream : bytes := encode_item ex_set ++ encode_item ex_get.

Lemma connection_refines_exec_witness :
  handle_connection ex_env (ReadBytes <$> [take 7 ex_stream; drop 7 ex_stream]) (mkConn [] ex_store []) =
  outcome_map (λ r, (Open, mkConn [] r.2 r.1)) (exec ex_env 0 [ex_set; ex_get] ex_store).
Proof.
  apply connection_refines_exec.
  - eapply framed_value; [vm_compute; reflexivity|].
    eapply framed_value; [vm_compute; reflexivity|]. vm_compute. apply framed_empty.
  - apply Forall_cons_2; [vm_compute; discriminate|].
    apply Forall_singleton. vm_compute. discriminate.
  - reflexivity.
Defined.

Lemma one_response_per_command_witness :
  ∃ v, parse_resp (encode_null ++ as_bytes "+") = Returns (Complete v 5).
Proof.
  apply (one_response_per_command ex_clk ((λ s, BulkString (as_bytes s)) <$> ["GET"; "k"]%string)
    ex_store ex_store encode_null (as_bytes "+")).
  - split; [by compute|]. intros arg data Harg. simpl in Harg.
    rewrite !elem_of_cons in Harg. destruct Harg as [->|[->|[]%elem_of_nil]];
      intros [= <-]; by compute.
  - intros k e He. vm_compute in He. discriminate.
  - vm_compute. reflexivity.
Defined.

Lemma resp_set_get_witness : ∃ st' st'' response,
  handle_command ex_clk ex_set ex_store = Returns (response, st') ∧
  handle_command (λ _, from_secs 12) ex_get st' = Returns (encode_null, st'').
Proof.
  eexists _, _, _. split; [vm_compute; reflexivity|].
  edestruct (resp_set_get ex_clk (λ _, from_secs 12) (BulkString (as_bytes "set"))
    (BulkString (as_bytes "GET")) (BulkString (as_bytes "k")) "k" (as_bytes "v")
    [BulkString (as_bytes "EX"); BulkString (as_bytes "10")] (Some (from_secs 10)) ex_store)
    as [_ [st'' H]]; [vm_compute; reflexivity..|].
  vm_compute. reflexivity.
Defined.

Lemma resp_del_witness : ∃ n st',
  handle_command ex_clk (command ["DEL"; "k"; "k"]%string) ex_store = Returns (encode_integer n, st').
Proof.
  destruct (resp_del ex_clk (BulkString (as_bytes "DEL"))
    [BulkString (as_bytes "k"); BulkString (as_bytes "k")] ex_store) as (n & st' & H & _);
    [vm_compute; reflexivity|discriminate|]. exists n, st'. exact H.
Defined.

Lemma resp_ttl_codes_witness : ∃ st',
  handle_command ex_clk (command ["TTL"; "k"]%string) ex_store = Returns (encode_integer (-2), st').
Proof.
  apply (resp_ttl_codes ex_clk (BulkString (as_bytes "TTL")) (BulkString (as_bytes "k")) "k" ex_store).
  - vm_compute. reflexivity.
  - vm_compute. reflexivity.
  - split; by compute.
  - intros e t He. vm_compute in He. discriminate.
Defined.

Lemma command_case_insensitive_witness :
  handle_command ex_clk (command ["pInG"]%string) ex_store =
  handle_command ex_clk (command ["PING"]%string) ex_store.
Proof.
  apply (command_case_insensitive ex_clk "pInG" "PING" [] ex_store);
    [repeat constructor|repeat constructor|vm_compute; reflexivity].
Defined.

Lemma protocol_error_drops_witness :
  handle_connection ex_env [ReadBytes (as_bytes "?" ++ encode_item ex_get)] (mkConn [] ex_store []) =
  Returns (Open, mkConn [] ex_store [encode_error "ERR unexpected byte: 0x3f"]).
Proof.
  apply (protocol_error_drops ex_env (as_bytes "?") "unexpected byte: 0x3f" ex_get ex_store ex_store
    encode_null).
  - vm_compute. reflexivity.
  - repeat split; by vm_compute.
  - reflexivity.
  - vm_compute. reflexivity.
Defined.
End witnesses.
