(* ===== verification/NodeService.v ===== *)
(** * The gRPC service of a node

    Models [crates/node/src/grpc/service.rs] and the messages of
    [proto/cache.proto].  A node's state is what its tasks share: the store, the
    membership table and the set of tombstones.  A handler is one function of the
    state; the time it reads is an argument.  A gRPC error is its [Status]. *)

From S2P Require Import Prelude Machine Text Common Store Membership.
Local Open Scope Z_scope.
Local Open Scope outcome_scope.

Module NodeService.
Abbreviation Store := CacheStore.CacheStore.
Abbreviation Table := MembershipTable.MembershipTable.

(** *** Messages *)

Record SetRequest := mkSetRequest { set_key : string; set_value : bytes; set_ttl_ms : option Z }.
Record SetResponse := mkSetResponse { set_success : bool }.
Record GetRequest := mkGetRequest { get_key : string }.
Record GetResponse := mkGetResponse { get_value : option bytes; get_found : bool }.
Record DeleteRequest := mkDeleteRequest { delete_key : string }.
Record DeleteResponse := mkDeleteResponse { delete_deleted : bool }.
Record HeartbeatRequest := mkHeartbeatRequest { hb_node_id : string }.
Record HeartbeatResponse := mkHeartbeatResponse { hb_ok : bool }.
Record ReplicateRequest := mkReplicateRequest {
  rep_key : string; rep_value : bytes; rep_ttl_ms : option Z; rep_expires_at_ms : option Z }.
Record ReplicateResponse := mkReplicateResponse { rep_success : bool }.
Record TransferRequest := mkTransferRequest {
  tr_target_node_id : string; tr_key_prefixes : list string }.
Record TransferChunk := mkTransferChunk {
  chunk_key : string; chunk_value : bytes; chunk_expires_at_ms : option Z }.

(** The errors of [tonic::Status] the program makes. *)
Inductive Status :=
  | Unavailable (msg : string)
  | Internal (msg : string)
  | Unimplemented (msg : string).

Section service.
Context `{UuidLib}.

Record Node := mkNode {
  store : Store;
  membership_table : Table;
  tombstones : gset string;
}.

Definition with_store (n : Node) (st : Store) : Node :=
  mkNode st (membership_table n) (tombstones n).
Definition with_table (n : Node) (t : Table) : Node :=
  mkNode (store n) t (tombstones n).

Definition joining (n : Node) : bool := MembershipTable.is_self_joining (membership_table n).

(** *** Handlers *)

Definition set (now : Instant) (req : SetRequest) (self : Node)
    : outcome ((Status + SetResponse) * Node) :=
  if joining self then Returns (inl (Unavailable "node is joining"), self)
  else
    let ttl := from_millis <$> set_ttl_ms req in
    let! st := CacheStore.set now (set_key req) (set_value req) ttl (store self) in
    Returns (inr (mkSetResponse true), with_store self st).

Definition get (now : Instant) (req : GetRequest) (self : Node)
    : (Status + GetResponse) * Node :=
  match CacheStore.get now (get_key req) (store self) with
  | (Some value, st) => (inr (mkGetResponse (Some value) true), with_store self st)
  | (None, st) => (inr (mkGetResponse None false), with_store self st)
  end.

Definition delete (req : DeleteRequest) (self : Node) : (Status + DeleteResponse) * Node :=
  if joining self then
    let st := (CacheStore.delete (delete_key req) (store self)).2 in
    (inl (Unavailable "node is joining"),
     mkNode st (membership_table self) ({[ delete_key req ]} ∪ tombstones self))
  else
    let '(deleted, st) := CacheStore.delete (delete_key req) (store self) in
    (inr (mkDeleteResponse deleted), with_store self st).

Definition heartbeat (req : HeartbeatRequest) (self : Node)
    : (Status + HeartbeatResponse) * Node := (inr (mkHeartbeatResponse true), self).

Definition replicate_write (now : Instant) (req : ReplicateRequest) (self : Node)
    : outcome ((Status + ReplicateResponse) * Node) :=
  let ttl := from_millis <$> rep_ttl_ms req in
  let! st := CacheStore.set now (rep_key req) (rep_value req) ttl (store self) in
  Returns (inr (mkReplicateResponse true), with_store self st).

(** The whole stream: the entries are collected when the call arrives, and sent
    one by one while the receiver listens. *)
Definition transfer_keys `{HashIter} (now : Instant) (req : TransferRequest) (self : Node)
    : list TransferChunk :=
  (λ kvr, mkTransferChunk kvr.1.1 kvr.1.2 kvr.2) <$>
    CacheStore.entries_for_transfer now (store self).

(** The first of the two accesses of a delete at a joining node: the tombstone. *)
Definition record_delete (req : DeleteRequest) (self : Node) : Node :=
  mkNode (store self) (membership_table self) ({[ delete_key req ]} ∪ tombstones self).

(** The key an operation of the store writes or deletes. *)
Definition written_key (o : CacheStore.op) : option string :=
  match o with
  | CacheStore.OSet k _ _ | CacheStore.ODelete k | CacheStore.OExpire k _ => Some k
  | _ => None
  end.

(** What the tasks of a node that is not rebalancing do to it, one access at a time: the
    gRPC handlers, the RESP commands (each is a sequence of operations of the store), the
    sweeper and the gossip.  [may] says which keys clients write or delete, [clock] what
    the clock may show.  A handler that panics leaves the node as it is.  A delete
    that found the node joining is two accesses, the tombstone ([step_record]) and the
    removal (one of the store's operations), between which the node may stop joining; a
    read that finds an expired entry is two as well, of which the second ([step_expired])
    removes whatever is there by then. *)
Inductive handles (may : string → Prop) (clock : Instant → Prop) (n : Node) : Node → Prop :=
  | step_set now req r n' : clock now → may (set_key req) → set now req n = Returns (r, n') →
      handles may clock n n'
  | step_get now req : clock now → handles may clock n (get now req n).2
  | step_expired key : may key → handles may clock n (with_store n (CacheStore.remove_key key (store n)))
  | step_delete req : may (delete_key req) → joining n = false → handles may clock n (delete req n).2
  | step_record req : may (delete_key req) → handles may clock n (record_delete req n)
  | step_replicate now req r n' : clock now → may (rep_key req) →
      replicate_write now req n = Returns (r, n') → handles may clock n n'
  | step_store now o r st : clock now → (∀ k, written_key o = Some k → may k) →
      CacheStore.run_op now o (store n) = Returns (r, st) → handles may clock n (with_store n st)
  | step_table t : MembershipTable.table_step (membership_table n) t →
      handles may clock n (with_table n t).

(** Any of it. *)
Definition node_step : relation Node := handles (λ _, True) (λ _, True).
End service.
End NodeService.

(** ** Lemmas *)

Section lemmas.
Context `{UuidLib}.
Import NodeService.

Lemma handles_tombstones may clock n n' : handles may clock n n' → tombstones n ⊆ tombstones n'.
Proof.
  destruct 1 as [now req r n' _ _ Hs|now req _|key _|req _ Hj|req _|now req r n' _ _ Hs|now o r st _ _ _|t _];
    try done.
  - unfold set in Hs. destruct (joining n); [by simplify_eq|].
    apply outcome_bind_Returns in Hs as (? & _ & [= <- <-]). done.
  - unfold get. by destruct (CacheStore.get _ _ _) as [[?|] ?].
  - unfold delete. by rewrite Hj.
  - cbn. set_solver.
  - apply outcome_bind_Returns in Hs as (? & _ & [= <- <-]). done.
Qed.

(** A delete at a joining node is its two accesses. *)
Lemma delete_two_accesses req n : joining n = true →
  (delete req n).2 = with_store (record_delete req n)
    (CacheStore.delete (delete_key req) (store (record_delete req n))).2.
Proof. intros Hj. unfold delete. by rewrite Hj. Qed.

Lemma delete_node_steps req n : rtc node_step n (delete req n).2.
Proof.
  destruct (joining n) eqn:Hj; [|apply rtc_once; by constructor].
  rewrite delete_two_accesses by done. eapply rtc_l; [by apply step_record|]. apply rtc_once.
  by apply (step_store _ _ _ 0 (CacheStore.ODelete (delete_key req)) (CacheStore.RBool
    (CacheStore.delete (delete_key req) (store (record_delete req n))).1)).
Qed.

(** *** What is left alone

    What happens to a key that no client writes or deletes: nothing appears under it, and
    a live entry stays. *)

Lemma set_lookup now req n r n' key : set now req n = Returns (r, n') → set_key req ≠ key →
  CacheStore.data (store n') !! key = CacheStore.data (store n) !! key.
Proof.
  unfold set. destruct (joining n); [by intros [= _ <-]|].
  intros (st & ->%set_Returns & [= _ <-])%outcome_bind_Returns Hne. by apply lookup_insert_ne.
Qed.

Lemma replicate_lookup now req n r n' key : replicate_write now req n = Returns (r, n') → rep_key req ≠ key →
  CacheStore.data (store n') !! key = CacheStore.data (store n) !! key.
Proof. intros (st & ->%set_Returns & [= _ <-])%outcome_bind_Returns Hne. by apply lookup_insert_ne. Qed.

Lemma delete_lookup req n key : delete_key req ≠ key →
  CacheStore.data (store (delete req n).2) !! key = CacheStore.data (store n) !! key.
Proof. intros Hne. unfold delete. destruct (joining n); by apply lookup_delete_ne. Qed.

(** An entry stays, or goes because it has expired. *)
Definition lapses (t : Instant) (o o' : option CacheStore.CacheEntry) : Prop :=
  o' = o ∨ o' = None ∧ ∀ e, o = Some e → CacheStore.live t e = false.

Lemma get_lapses t k st key :
  lapses t (CacheStore.data st !! key) (CacheStore.data (CacheStore.get t k st).2 !! key).
Proof.
  unfold CacheStore.get, CacheStore.get_lookup.
  destruct (CacheStore.data st !! k) as [e|] eqn:E; [|by left].
  destruct (CacheStore.expired t e) eqn:Ee; [|by left]. cbn.
  destruct (decide (key = k)) as [->|Hne]; [right|left; by apply lookup_delete_ne].
  rewrite lookup_delete_eq, E. split; [done|]. intros e' [= <-]. by rewrite live_expired, Ee.
Qed.

Lemma run_op_lapses t o st r st' key : CacheStore.run_op t o st = Returns (r, st') →
  written_key o ≠ Some key → lapses t (CacheStore.data st !! key) (CacheStore.data st' !! key).
Proof.
  destruct o as [k v d|k|k|k|k|k d| |]; cbn [CacheStore.run_op written_key]; intros Hr Hne.
  - apply outcome_bind_Returns in Hr as (st1 & ->%set_Returns & [= _ <-]). left.
    apply lookup_insert_ne. congruence.
  - pose proof (get_lapses t k st key) as Hl. destruct (CacheStore.get t k st). by injection Hr as _ <-.
  - injection Hr as _ <-. left. apply lookup_delete_ne. congruence.
  - unfold CacheStore.exists_ in Hr. pose proof (get_lapses t k st key) as Hl.
    destruct (CacheStore.get t k st). by injection Hr as _ <-.
  - injection Hr as _ <-. by left.
  - apply outcome_bind_Returns in Hr as ([b st1] & Hx & [= _ <-]). left.
    unfold CacheStore.expire in Hx. destruct (CacheStore.data st !! k); [|by injection Hx as _ <-].
    apply outcome_bind_Returns in Hx as (x & _ & [= _ <-]). apply lookup_insert_ne. congruence.
  - injection Hr as _ <-. by left.
  - injection Hr as _ <-. cbn. destruct (CacheStore.data st !! key) as [e|] eqn:E.
    + destruct (CacheStore.live t e) eqn:El.
      * left. by apply map_lookup_filter_Some_2.
      * right. split; [|by intros e' [= <-]]. apply map_lookup_filter_None_2. right.
        intros e' He'. rewrite E in He'. injection He' as <-. cbn. congruence.
    + left. apply map_lookup_filter_None_2. by left.
Qed.

Lemma handles_lapses may t n n' key : handles may (eq t) n n' → ¬ may key →
  lapses t (CacheStore.data (store n) !! key) (CacheStore.data (store n') !! key).
Proof.
  intros Hs Hm. destruct Hs as [now req r n' _ Hk Hs|now req <-|k Hk|req Hk _|req _ _|now req r n' _ Hk Hs|
    now o r st <- Hk Hs|tb _].
  - left. eapply set_lookup; [done|]. by intros <-.
  - pose proof (get_lapses t (get_key req) (store n) key) as Hl. unfold get.
    by destruct (CacheStore.get _ _ _) as [[v|] st].
  - left. apply lookup_delete_ne. by intros <-.
  - left. apply delete_lookup. by intros <-.
  - by left.
  - left. eapply replicate_lookup; [done|]. by intros <-.
  - eapply run_op_lapses; [done|]. intros Hw. by apply Hm, Hk.
  - by left.
Qed.

(** A key written at a time is read back as long as its TTL runs. *)
Lemma set_then_get now now' k v ttl st st' :
  CacheStore.set now k v ttl st = Returns st' →
  (CacheStore.get now' k st').1 =
  if match ttl with Some d => now' <? now + d | None => true end then Some v else None.
Proof.
  intros ->%set_Returns. unfold CacheStore.get, CacheStore.get_lookup, CacheStore.expired.
  simpl. rewrite lookup_insert_eq. destruct ttl as [d|]; simpl; [|done].
  destruct (Z.leb_spec (now + d) now'), (Z.ltb_spec now' (now + d)); done || lia.
Qed.

Lemma get_response now k n :
  (get now (mkGetRequest k) n).1 =
  inr (mkGetResponse (CacheStore.get now k (store n)).1
    (bool_decide (is_Some (CacheStore.get now k (store n)).1))).
Proof. unfold get. simpl. by destruct (CacheStore.get now k (store n)) as [[v|] st]. Qed.
End lemmas.

(** ** Properties *)

Section properties.
Context `{UuidLib}.
Import NodeService.

(** Further: a joining node refuses client writes and deletes: both answer
    "unavailable", a write changes nothing, a delete still removes the key and
    records a tombstone, and nothing else changes. *)
Theorem joining_refuses (now : Z) (sreq : SetRequest) (dreq : DeleteRequest) (n : Node) :
  joining n = true →
  set now sreq n = Returns (inl (Unavailable "node is joining"), n) ∧
  (delete dreq n).1 = inl (Unavailable "node is joining") ∧
  delete_key dreq ∈ tombstones (delete dreq n).2 ∧
  tombstones n ⊆ tombstones (delete dreq n).2 ∧
  membership_table (delete dreq n).2 = membership_table n ∧
  ∀ k, CacheStore.data (store (delete dreq n).2) !! k =
    if decide (k = delete_key dreq) then None else CacheStore.data (store n) !! k.
Proof.
  intros Hj. unfold set, delete. rewrite Hj. simpl. repeat split; try set_solver.
  intros k. case_decide as Hk; [by rewrite Hk, lookup_delete_eq|by rewrite lookup_delete_ne].
Qed.

(** Further: a node that is not joining serves writes: the value of an accepted write
    is what a get answers while its TTL runs, and "not found" afterwards; and a
    replica write is accepted and served the same way in every state, joining
    included (its absolute expiry is ignored). *)
Theorem write_then_get (now now' : Z) (req : SetRequest) (rreq : ReplicateRequest) (n n1 n2 : Node)
    (r1 : Status + SetResponse) (r2 : Status + ReplicateResponse) :
  joining n = false → set now req n = Returns (r1, n1) →
  replicate_write now rreq n = Returns (r2, n2) →
  let readable ttl := match ttl with Some ms => now' <? now + from_millis ms | None => true end in
  r1 = inr (mkSetResponse true) ∧ r2 = inr (mkReplicateResponse true) ∧
  (get now' (mkGetRequest (set_key req)) n1).1 = inr
    (if readable (set_ttl_ms req) then mkGetResponse (Some (set_value req)) true
     else mkGetResponse None false) ∧
  (get now' (mkGetRequest (rep_key rreq)) n2).1 = inr
    (if readable (rep_ttl_ms rreq) then mkGetResponse (Some (rep_value rreq)) true
     else mkGetResponse None false).
Proof.
  intros Hj. unfold set, replicate_write. rewrite Hj. cbv zeta.
  intros (st1 & H1 & [= <- <-])%outcome_bind_Returns (st2 & H2 & [= <- <-])%outcome_bind_Returns.
  split; [done|]. split; [done|]. rewrite !get_response. cbn [store with_store].
  rewrite (set_then_get _ now' _ _ _ _ _ H1), (set_then_get _ now' _ _ _ _ _ H2).
  split; [destruct (set_ttl_ms req) as [ms|]|destruct (rep_ttl_ms rreq) as [ms|]]; simpl;
    try destruct (_ <? _); done.
Qed.

(** Further: a delete that is accepted is final and reported truthfully: it answers
    whether the key was in the store, and the key is then absent at every time. *)
Theorem delete_exact (now : Z) (req : DeleteRequest) (n : Node) :
  joining n = false →
  (delete req n).1 = inr (mkDeleteResponse
    (bool_decide (is_Some (CacheStore.data (store n) !! delete_key req)))) ∧
  (get now (mkGetRequest (delete_key req)) (delete req n).2).1 = inr (mkGetResponse None false).
Proof.
  intros Hj. rewrite get_response. unfold delete. rewrite Hj. simpl. split; [done|].
  unfold CacheStore.get, CacheStore.get_lookup. simpl. by rewrite lookup_delete_eq.
Qed.
End properties.

(** ** Witnesses *)

Section witnesses.
#[local] Existing Instance Examples.string_uuid.
Import NodeService.

Definition ex_joining : Node := mkNode (CacheStore.new 0) ex_table ∅.
Definition ex_alone : Node :=
  mkNode (CacheStore.new 0) (MembershipTable.new 0 (ex_id "a") []) ∅.

Lemma joining_refuses_witness :
  set 0 (mkSetRequest "k" [] None) ex_joining =
  Returns (inl (Unavailable "node is joining"), ex_joining).
Proof.
  apply (joining_refuses 0 (mkSetRequest "k" [] None) (mkDeleteRequest "k") ex_joining).
  vm_compute. reflexivity.
Defined.

Definition ex_request : SetRequest := mkSetRequest "k" (as_bytes "v") (Some 5).
Definition ex_replicate : ReplicateRequest := mkReplicateRequest "k" [] None None.
Definition node_of {A} (r : outcome (A * Node)) : Node :=
  match r with Returns (_, n) => n | _ => ex_alone end.
Definition ex_written : Node := node_of (set 0 ex_request ex_alone).
Definition ex_replicated : Node := node_of (replicate_write 0 ex_replicate ex_alone).

Lemma write_then_get_witness :
  (get (from_millis 5) (mkGetRequest "k") ex_written).1 = inr (mkGetResponse None false).
Proof.
  apply (write_then_get 0 (from_millis 5) ex_request ex_replicate ex_alone ex_written ex_replicated
    (inr (mkSetResponse true)) (inr (mkReplicateResponse true)) eq_refl eq_refl eq_refl).
Defined.

Lemma delete_exact_witness :
  (delete (mkDeleteRequest "k") ex_alone).1 = inr (mkDeleteResponse false).
Proof.
  apply (delete_exact 0 (mkDeleteRequest "k") ex_alone). vm_compute. reflexivity.
Defined.
End witnesses.
