(* ===== verification/Rebalance.v ===== *)
(** * Rebalancing: a joining node pulls its keys

    Models [crates/node/src/rebalance/mod.rs].  While the rebalancer waits (for a
    peer, a stream, a message, the timer) the node's other tasks run: [others env
    k] is what they do before its [k]-th step.  [serve env k addr] is what the
    network and the peer at [addr] make of a [TransferKeys] call started at step
    [k]: an error, or a stream of chunks that ends or breaks off. *)

From S2P Require Import Prelude Machine Text Common BTree Ring Store Membership NodeService.
Local Open Scope Z_scope.
Local Open Scope outcome_scope.

Module Rebalance.
Import NodeService.

Inductive StreamItem :=
  | Chunk (c : TransferChunk)
  | StreamError (msg : string).

Section rebalance.
Context `{UuidLib} `{Xxh3} `{HashIter}.

Record Env := mkEnv {
  clock : nat → Z;
  others : nat → Node → Node;
  serve : nat → string → string + list StreamItem;
}.

(** The rebalancer's progress: the node and the number of steps taken. *)
Definition Progress : Type := nat * Node.

(** The loop over the stream, after which [count] chunks have been stored; an
    error ends it and the count is lost. *)
Fixpoint pull_loop (env : Env) (local_id : NodeId) (ring : HashRing.HashRing)
    (items : list StreamItem) (count : Z) (p : Progress)
    : outcome ((string + Z) * Progress) :=
  let '(k, n0) := p in
  let n := others env k n0 in
  match items with
  | [] => Returns (inr count, (S k, n))
  | StreamError e :: _ => Returns (inl e, (S k, n))
  | Chunk c :: items' =>
      match HashRing.get_node ring (chunk_key c) with
      | Some owner =>
          if decide (id owner = local_id) then
            let! st := CacheStore.set_from_transfer (clock env k) (chunk_key c) (chunk_value c)
                         (chunk_expires_at_ms c) (store n) in
            pull_loop env local_id ring items' (count + 1) (S k, with_store n st)
          else pull_loop env local_id ring items' count (S k, n)
      | None => pull_loop env local_id ring items' count (S k, n)
      end
  end.

Definition pull_keys_from (env : Env) (local_id : NodeId) (source_addr : string)
    (ring : HashRing.HashRing) (p : Progress) : outcome ((string + Z) * Progress) :=
  let '(k, n) := p in
  match serve env k source_addr with
  | inl e => Returns (inl e, (S k, others env k n))
  | inr items => pull_loop env local_id ring items 0 (S k, others env k n)
  end.

Fixpoint rebalance_loop (env : Env) (local_id : NodeId) (peers : list NodeInfo)
    (ring : HashRing.HashRing) (total : Z) (p : Progress) : outcome (Z * Progress) :=
  match peers with
  | [] => Returns (total, p)
  | peer :: peers' =>
      if decide (id peer = local_id) then rebalance_loop env local_id peers' ring total p
      else
        let! (r, p') := pull_keys_from env local_id (addr peer) ring p in
        match r with
        | inr count => rebalance_loop env local_id peers' ring (total + count) p'
        | inl _ => rebalance_loop env local_id peers' ring total p'
        end
  end.

Definition rebalance (env : Env) (local_id : NodeId) (peers : list NodeInfo)
    (ring : HashRing.HashRing) (p : Progress) : outcome (Z * Progress) :=
  rebalance_loop env local_id peers ring 0 p.

(** The polling loop; [fuel] bounds the number of polls. *)
Fixpoint wait_for_peers (fuel : nat) (env : Env) (p : Progress) : outcome Progress :=
  let '(k, n) := p in
  match MembershipTable.routable_peers (membership_table n) with
  | [] => match fuel with
          | O => OutOfFuel
          | S f => wait_for_peers f env (S k, others env k n)
          end
  | _ => Returns p
  end.

(** The ring built from the node itself and its routable peers. *)
Definition rebalance_ring (local_id : NodeId) (local_addr : string) (peers : list NodeInfo)
    : HashRing.HashRing :=
  foldl HashRing.add_node (HashRing.add_node HashRing.new (mkNodeInfo local_id local_addr)) peers.

(** [for key in self.tombstones.iter() { self.store.delete(key.key()) }], over the
    tombstones there are when the loop begins.  (The iterator may also meet one
    inserted during the loop, whose key the handler that inserted it deletes as
    well.) *)
Fixpoint apply_tombstones (env : Env) (keys : list string) (p : Progress) : Progress :=
  match keys with
  | [] => p
  | key :: keys' =>
      let '(k, n0) := p in
      let n := others env k n0 in
      apply_tombstones env keys' (S k, with_store n (CacheStore.delete key (store n)).2)
  end.

(** The node's table is read twice, for the peers and for the own address. *)
Definition wait_and_rebalance (fuel : nat) (env : Env) (local_id : NodeId) (p : Progress)
    : outcome (Z * Progress) :=
  let! (k0, n0) := wait_for_peers fuel env p in
  let '(k1, n1) := (S k0, others env k0 n0) in
  let peers := MembershipTable.info <$> MembershipTable.routable_peers (membership_table n1) in
  let '(k2, n2) := (S k1, others env k1 n1) in
  let ring := rebalance_ring local_id (MembershipTable.local_addr (membership_table n2)) peers in
  let! (count, (k3, n3)) := rebalance env local_id peers ring (k2, n2) in
  let n4 := others env k3 n3 in
  let '(k5, n5) := apply_tombstones env (elements (tombstones n4)) (S k3, n4) in
  let n6 := others env k5 n5 in
  Returns (count, (S k5, with_table n6 (MembershipTable.mark_self_alive (membership_table n6)))).

(** The interference the theorems allow: any handlers of the node. *)
Definition fair (env : Env) : Prop := ∀ k n, rtc node_step n (others env k n).

(** An environment without interference. *)
Definition quiet (env : Env) : Prop := ∀ k n, others env k n = n.

(** A step of the node's tasks, with the number of deletes of [key] of which the tombstone
    is recorded and the removal still to come. *)
Inductive delete_step (key : string) : relation (Node * nat) :=
  | delete_recorded req n p : delete_key req = key →
      delete_step key (n, p) (record_delete req n, S p)
  | delete_removed n p : delete_step key (n, S p) (with_store n (CacheStore.remove_key key (store n)), p)
  | delete_elsewhere n n' p : node_step n n' → (key ∈ tombstones n' → key ∈ tombstones n) →
      delete_step key (n, p) (n', p).

(** Besides the rebalance itself, only handlers that leave entries of [W] write the key;
    [half_done k] deletes of it are between their two accesses before the [k]-th step. *)
Definition writes_only (env : Env) (key : string) (W : CacheStore.CacheEntry → Prop)
    (half_done : nat → nat) : Prop :=
  ∀ k n, rtc (λ a b, delete_step key a b ∧ ∀ e, CacheStore.data (store b.1) !! key = Some e →
    CacheStore.data (store a.1) !! key = Some e ∨ W e)
    (n, half_done k) (others env k n, half_done (S k)).
End rebalance.
End Rebalance.

(** ** Lemmas *)

Section lemmas.
Context `{UuidLib} `{Xxh3} `{HashIter}.
Import NodeService Rebalance.

(** *** What every step of the rebalance keeps *)

Definition keeps (n n' : Node) : Prop :=
  tombstones n ⊆ tombstones n' ∧
  rtc MembershipTable.table_step (membership_table n) (membership_table n').

#[export] Instance keeps_preorder : PreOrder keeps.
Proof.
  split; [by intros n|]. intros n1 n2 n3 [? ?] [? ?]. split; [set_solver|by etrans].
Qed.

Lemma node_step_keeps n n' : node_step n n' → keeps n n'.
Proof.
  intros Hs. split; [by eapply handles_tombstones|].
  destruct Hs as [now req r n' _ _ Hs|now req _|key _|req _ Hj|req _ _|now req r n' _ _ Hs|now o r st _ _ _|t Ht];
    try done.
  - unfold set in Hs. destruct (joining n); [by simplify_eq|].
    apply outcome_bind_Returns in Hs as (? & _ & [= <- <-]). done.
  - unfold get. by destruct (CacheStore.get _ _ _) as [[?|] ?].
  - unfold delete. by rewrite Hj.
  - apply outcome_bind_Returns in Hs as (? & _ & [= <- <-]). done.
  - by apply rtc_once.
Qed.

Lemma fair_keeps env k n : fair env → keeps n (others env k n).
Proof.
  intros Hf. specialize (Hf k n). generalize dependent (others env k n). intros n' Hs.
  induction Hs as [|n1 n2 n3 Hs _ IH]; [reflexivity|].
  etrans; [by apply node_step_keeps|done].
Qed.

Lemma pull_loop_keeps env i ring items : fair env → ∀ count k n r k' n',
  pull_loop env i ring items count (k, n) = Returns (r, (k', n')) → keeps n n'.
Proof.
  intros Hf. induction items as [|[c|e] items IH]; intros count k n r k' n'; simpl.
  - intros [= <- <- <-]. by apply fair_keeps.
  - intros Hr. pose proof (fair_keeps env k n Hf) as Hk. etrans; [exact Hk|].
    destruct (HashRing.get_node ring (chunk_key c)) as [owner|]; [case_decide|].
    + apply outcome_bind_Returns in Hr as (st & _ & Hr). apply IH in Hr. exact Hr.
    + by apply IH in Hr.
    + by apply IH in Hr.
  - intros [= <- <- <-]. by apply fair_keeps.
Qed.

Lemma rebalance_keeps env i ring peers : fair env → ∀ total k n c k' n',
  rebalance_loop env i peers ring total (k, n) = Returns (c, (k', n')) → keeps n n'.
Proof.
  intros Hf. induction peers as [|peer peers IH]; intros total k n c k' n'; simpl.
  - intros [= <- <- <-]. reflexivity.
  - case_decide; [apply IH|]. intros ([r [k1 n1]] & Hp & Hr)%outcome_bind_Returns.
    assert (keeps n n1) as Hk1.
    { unfold pull_keys_from in Hp. pose proof (fair_keeps env k n Hf) as Hk.
      destruct (serve env k (addr peer)) as [e|items]; [by simplify_eq|].
      etrans; [exact Hk|]. by eapply pull_loop_keeps. }
    etrans; [exact Hk1|]. destruct r as [e|count]; by apply IH in Hr.
Qed.

Lemma wait_keeps env fuel : fair env → ∀ k n k' n',
  wait_for_peers fuel env (k, n) = Returns (k', n') → keeps n n'.
Proof.
  intros Hf. induction fuel as [|f IH]; intros k n k' n'; simpl;
    destruct (MembershipTable.routable_peers _); try by intros [= <- <-].
  intros Hr. etrans; [by apply (fair_keeps env k)|]. by apply IH in Hr.
Qed.

(** *** The tombstones *)

(** While the tombstones [ks] are still to be applied: what is left under a key of
    which a delete was recorded is written by a handler, or still goes. *)
Definition purged (key : string) (W : CacheStore.CacheEntry → Prop) (ks : list string) (p : nat) (n : Node) : Prop :=
  key ∉ tombstones n ∨ key ∈ ks ∨ (0 < p)%nat ∨ ∀ e, CacheStore.data (store n) !! key = Some e → W e.

Lemma purged_step key W ks a b : delete_step key a b →
  (∀ e, CacheStore.data (store b.1) !! key = Some e → CacheStore.data (store a.1) !! key = Some e ∨ W e) →
  purged key W ks a.2 a.1 → purged key W ks b.2 b.1.
Proof.
  destruct 1 as [req n p Hj Hk|n p|n n' p Hs Ht]; cbn [fst snd]; intros Hw Hp.
  - right; right; left. lia.
  - right; right; right. intros e. cbn. by rewrite lookup_delete_eq.
  - destruct Hp as [Hn|[?|[?|He]]]; [left; tauto|right; by left|right; right; by left|].
    right; right; right. intros e Hin. destruct (Hw e Hin); auto.
Qed.

Lemma purged_others env key W half ks k n : writes_only env key W half →
  purged key W ks (half k) n → purged key W ks (half (S k)) (others env k n).
Proof.
  intros Hw. specialize (Hw k n).
  change (purged key W ks (half k) n) with (purged key W ks (n, half k).2 (n, half k).1).
  change (purged key W ks (half (S k)) (others env k n)) with
    (purged key W ks (others env k n, half (S k)).2 (others env k n, half (S k)).1).
  generalize dependent (others env k n, half (S k)). generalize (n, half k). intros a b Hs.
  induction Hs as [|n1 n2 n3 [Hs Hw] _ IH]; [done|]. intros Hp. apply IH. by eapply purged_step.
Qed.

Lemma apply_tombstones_purged env key W half ks : writes_only env key W half → ∀ p,
  purged key W ks (half p.1) p.2 →
  let p' := apply_tombstones env ks p in purged key W [] (half p'.1) p'.2.
Proof.
  intros Hw. induction ks as [|k1 ks IH]; intros [k n] Hp; cbn [apply_tombstones]; [done|].
  apply IH. apply (purged_others env key W half (k1 :: ks) k n Hw) in Hp. cbn [fst snd].
  destruct Hp as [Hn|[[Hk|Hk]%elem_of_cons|[?|He]]].
  - by left.
  - right; right; right. simpl. intros e. by rewrite Hk, lookup_delete_eq.
  - right. by left.
  - right; right. by left.
  - right; right; right. simpl. intros e [_ Hd]%lookup_delete_Some. by apply He.
Qed.

Lemma apply_tombstones_keeps env ks : fair env → ∀ p, keeps p.2 (apply_tombstones env ks p).2.
Proof.
  intros Hf. induction ks as [|k1 ks IH]; intros [k n]; cbn [apply_tombstones]; [done|].
  etrans; [by apply (fair_keeps env k)|].
  exact (IH (S k, with_store (others env k n) (CacheStore.delete k1 (store (others env k n))).2)).
Qed.

Lemma mark_self_alive_alive t : MembershipTable.wf t →
  MembershipTable.is_self_joining (MembershipTable.mark_self_alive t) = false ∧
  MembershipTable.is_alive (MembershipTable.local_id t) (MembershipTable.mark_self_alive t) = true.
Proof.
  intros Hwf. destruct (MembershipTable.wf_self _ Hwf) as (e & He & _).
  unfold MembershipTable.is_self_joining, MembershipTable.is_alive, MembershipTable.mark_self_alive.
  rewrite He. simpl. by rewrite lookup_insert_eq.
Qed.

Lemma wait_and_rebalance_end fuel env i k n c k' n' :
  fair env → MembershipTable.wf (membership_table n) →
  wait_and_rebalance fuel env i (k, n) = Returns (c, (k', n')) →
  tombstones n ⊆ tombstones n' ∧
  (∀ key W half_done e, writes_only env key W half_done → half_done k' = 0%nat → key ∈ tombstones n' →
     CacheStore.data (store n') !! key = Some e → W e) ∧
  joining n' = false ∧
  MembershipTable.is_alive (MembershipTable.local_id (membership_table n)) (membership_table n') = true ∧
  rtc MembershipTable.table_step (membership_table n) (membership_table n').
Proof.
  intros Hf Hwf. unfold wait_and_rebalance.
  intros ([k1 n1] & Hw & ([c' [k3 n3]] & Hr & Hend)%outcome_bind_Returns)%outcome_bind_Returns.
  set (n4 := others env k3 n3) in *. set (ks := elements (tombstones n4)) in *.
  destruct (apply_tombstones env ks (S k3, n4)) as [k5 n5] eqn:E.
  set (n6 := others env k5 n5) in *. injection Hend as -> <- <-.
  assert (keeps n n6) as [Ht Hs].
  { etrans; [by eapply wait_keeps|]. etrans; [by apply (fair_keeps env k1)|].
    etrans; [by apply (fair_keeps env (S k1))|]. etrans; [by eapply rebalance_keeps|].
    etrans; [by apply (fair_keeps env k3)|]. etrans; [|by apply (fair_keeps env k5)].
    pose proof (apply_tombstones_keeps env ks Hf (S k3, n4)) as Hk. by rewrite E in Hk. }
  destruct (table_steps_wf _ _ Hs Hwf) as [Hwf6 Hl].
  destruct (mark_self_alive_alive _ Hwf6) as [Hj Ha]. rewrite <- Hl.
  split; [done|]. split.
  { intros key W half e Hwr Hh Hk He.
    assert (purged key W [] (half (S k5)) n6) as [Hn|[Hin|[Hpos|HW]]];
      [|done|by apply elem_of_nil in Hin|lia|by apply HW].
    apply (purged_others env key W half [] k5 n5 Hwr).
    pose proof (apply_tombstones_purged env key W half ks Hwr (S k3, n4)) as Hp. rewrite E in Hp. apply Hp.
    destruct (decide (key ∈ tombstones n4)); [right; left; by apply elem_of_elements|by left]. }
  split; [done|]. split; [done|]. etrans; [exact Hs|]. apply rtc_once. constructor.
Qed.

(** *** What a stream stores *)

(** The keys the ring assigns to the node. *)
Definition owned (i : NodeId) (ring : HashRing.HashRing) (key : string) : bool :=
  bool_decide (id <$> HashRing.get_node ring key = Some i).

(** The entry a chunk received at [now] leaves in the place of [old]. *)
Definition received (now : Z) (c : TransferChunk) (old : option CacheStore.CacheEntry)
    : option CacheStore.CacheEntry :=
  match chunk_expires_at_ms c with
  | Some 0 => old
  | Some ms => Some (CacheStore.mkCacheEntry (chunk_value c) (Some (now + from_millis ms)))
  | None => Some (CacheStore.mkCacheEntry (chunk_value c) None)
  end.

(** Clocks within the range in which a [u64] of milliseconds can be added. *)
Definition clocks_ok (env : Env) : Prop :=
  ∀ k, is_instant (clock env k) ∧ clock env k < from_secs (2 ^ 62).
Definition chunk_u64 (c : TransferChunk) : Prop :=
  ∀ ms, chunk_expires_at_ms c = Some ms → is_u64 ms.

Lemma set_from_transfer_chunk now c st : is_instant now → now < from_secs (2 ^ 62) → chunk_u64 c →
  ∃ st', CacheStore.set_from_transfer now (chunk_key c) (chunk_value c) (chunk_expires_at_ms c) st
    = Returns st' ∧
  ∀ j, CacheStore.data st' !! j =
    if decide (j = chunk_key c) then received now c (CacheStore.data st !! j)
    else CacheStore.data st !! j.
Proof.
  intros Hi Hnow Hc. unfold CacheStore.set_from_transfer, received.
  assert (∀ r d, CacheStore.expiry_of now r = Returns d → ∃ st',
    CacheStore.set now (chunk_key c) (chunk_value c) r st = Returns st' ∧
    ∀ j, CacheStore.data st' !! j = if decide (j = chunk_key c)
      then Some (CacheStore.mkCacheEntry (chunk_value c) d) else CacheStore.data st !! j) as Hset.
  { intros r d Hd. unfold CacheStore.set. rewrite Hd. eexists. split; [done|]. intros j. simpl.
    case_decide as Hj; [by rewrite Hj, lookup_insert_eq|by rewrite lookup_insert_ne]. }
  assert (∀ ms, is_u64 ms → CacheStore.expiry_of now (Some (from_millis ms)) =
    Returns (Some (now + from_millis ms))) as Hexp.
  { intros ms Hms. simpl. unfold instant_add. rewrite (proj2 (Z.ltb_lt _ _)); [done|].
    time_unfold. machine_unfold. lia. }
  destruct (chunk_expires_at_ms c) as [ms|] eqn:E; [|by apply Hset].
  specialize (Hc ms E). destruct ms as [|p|p].
  - exists st. split; [done|]. intros j. by case_decide as Hj.
  - by apply Hset, Hexp.
  - machine_unfold. lia.
Qed.

Lemma pull_loop_total env i ring items : clocks_ok env →
  (∀ c, Chunk c ∈ items → chunk_u64 c) →
  ∀ count p, ∃ r p', pull_loop env i ring items count p = Returns (r, p').
Proof.
  intros Hck. induction items as [|[c|e] items IH]; intros Hu count [k n]; simpl; [by eauto| |by eauto].
  assert (∀ c, Chunk c ∈ items → chunk_u64 c) as Hu' by (intros ? ?; apply Hu; by right).
  destruct (HashRing.get_node ring (chunk_key c)) as [owner|]; [case_decide|]; try by apply IH.
  destruct (Hck k) as [Hi Hn].
  destruct (set_from_transfer_chunk (clock env k) c (store (others env k n)) Hi Hn) as (st & -> & _);
    [apply Hu; by left|]. by apply IH.
Qed.

Lemma pull_loop_exact env i ring l : quiet env → clocks_ok env → Forall chunk_u64 l →
  NoDup (chunk_key <$> l) → ∀ count k n, ∃ k' n',
  pull_loop env i ring (Chunk <$> l) count (k, n) = Returns (inr (count +
    Z.of_nat (length (List.filter (λ c, owned i ring (chunk_key c)) l))), (k', n')) ∧
  membership_table n' = membership_table n ∧ tombstones n' = tombstones n ∧
  (∀ c, c ∈ l → owned i ring (chunk_key c) = true → ∃ m,
     CacheStore.data (store n') !! chunk_key c =
     received (clock env m) c (CacheStore.data (store n) !! chunk_key c)) ∧
  ∀ j, owned i ring j = false ∨ j ∉ chunk_key <$> l →
    CacheStore.data (store n') !! j = CacheStore.data (store n) !! j.
Proof.
  intros Hq Hck Hu. induction Hu as [|c l Hc _ IH]; intros Hnd count k n.
  { exists (S k), n. simpl. rewrite Hq, Z.add_0_r. repeat (split; [done|]).
    split; [by intros ? ?%elem_of_nil|done]. }
  rewrite fmap_cons, NoDup_cons in Hnd. destruct Hnd as [Hnin Hnd]. specialize (IH Hnd).
  assert (owned i ring (chunk_key c) = true ↔
    ∃ o, HashRing.get_node ring (chunk_key c) = Some o ∧ id o = i) as Hown.
  { unfold owned. rewrite bool_decide_eq_true, fmap_Some. naive_solver. }
  rewrite fmap_cons. cbn [pull_loop List.filter]. rewrite Hq.
  destruct (owned i ring (chunk_key c)) eqn:Eo.
  - destruct (proj1 Hown eq_refl) as (o & -> & Ho). rewrite decide_True by done.
    destruct (Hck k) as [Hi Hn].
    destruct (set_from_transfer_chunk (clock env k) c (store n) Hi Hn Hc) as (st & -> & Hst).
    cbn [outcome_bind].
    destruct (IH (count + 1) (S k) (with_store n st)) as (k' & n' & Hr & Ht & Hts & Hin & Hout).
    exists k', n'. rewrite Hr. split; [cbn [length]; do 3 f_equal; lia|]. split; [done|]. split; [done|].
    split.
    + intros c' [->|Hc']%elem_of_cons Hoc.
      * exists k. rewrite Hout by by right. simpl. by rewrite Hst, decide_True.
      * destruct (Hin c' Hc' Hoc) as [m Hm]. exists m. rewrite Hm. simpl. rewrite Hst, decide_False; [done|].
        intros Heq. apply Hnin. rewrite <- Heq. by apply list_elem_of_fmap_2.
    + intros j Hj. rewrite Hout.
      * simpl. rewrite Hst, decide_False; [done|]. intros ->. destruct Hj as [Hj|Hj]; [congruence|].
        apply Hj. by left.
      * destruct Hj as [?|Hj]; [by left|right]. intros Hx. apply Hj. by right.
  - assert (pull_loop env i ring (Chunk <$> l) count (S k, n) =
      match HashRing.get_node ring (chunk_key c) with
      | Some o => if decide (id o = i) then
          let! st := CacheStore.set_from_transfer (clock env k) (chunk_key c) (chunk_value c)
                       (chunk_expires_at_ms c) (store n) in
          pull_loop env i ring (Chunk <$> l) (count + 1) (S k, with_store n st)
          else pull_loop env i ring (Chunk <$> l) count (S k, n)
      | None => pull_loop env i ring (Chunk <$> l) count (S k, n)
      end) as Hskip.
    { destruct (HashRing.get_node ring (chunk_key c)) as [o|]; [|done].
      rewrite decide_False; [done|]. intros Ho. destruct Hown as [_ Hx].
      discriminate Hx. eauto. }
    rewrite <- Hskip.
    destruct (IH count (S k) n) as (k' & n' & Hr & Ht & Hts & Hin & Hout).
    exists k', n'. split; [exact Hr|]. split; [done|]. split; [done|]. split.
    + intros c' [->|Hc']%elem_of_cons Hoc; [congruence|by apply Hin].
    + intros j Hj. apply Hout. destruct Hj as [?|Hj]; [by left|right].
      intros Hx. apply Hj. by right.
Qed.
(** *** A peer's stream *)

Lemma elem_of_transfer_keys now req src c :
  c ∈ transfer_keys now req src ↔
  ∃ e, CacheStore.view now (store src) !! chunk_key c = Some e ∧
    chunk_value c = CacheStore.value e ∧
    chunk_expires_at_ms c = (λ t, as_u64 (as_millis (t - now))) <$> CacheStore.expires_at e.
Proof.
  unfold transfer_keys. rewrite list_elem_of_fmap. split.
  - intros ([[k v] r] & -> & (e & ? & -> & ->)%elem_of_transfer). simpl. eauto.
  - intros (e & Hk & Hv & Hr). exists (chunk_key c, chunk_value c, chunk_expires_at_ms c).
    rewrite elem_of_transfer. destruct c. simpl in *. eauto.
Qed.

Lemma transfer_keys_NoDup now req src : NoDup (chunk_key <$> transfer_keys now req src).
Proof.
  unfold transfer_keys. rewrite <- list_fmap_compose.
  pose proof (transfer_NoDup now (store src)) as Hnd. by rewrite <- list_fmap_compose in Hnd.
Qed.

Lemma transfer_keys_u64 now req src : Forall chunk_u64 (transfer_keys now req src).
Proof.
  apply Forall_forall. intros c (e & _ & _ & Hr)%elem_of_transfer_keys ms Hms. rewrite Hr in Hms.
  destruct (CacheStore.expires_at e); simpl in Hms; [|done]. injection Hms as <-. apply as_u64_range.
Qed.

Lemma foldl_add_node_nodes l : ∀ r,
  HashRing.nodes (foldl HashRing.add_node r l) = HashRing.nodes r ++ l.
Proof.
  induction l as [|n l IH]; intros r; simpl; [by rewrite app_nil_r|]. rewrite IH. simpl.
  by rewrite <- app_assoc.
Qed.

Lemma get_node_in_nodes r key n : HashRing.get_node r key = Some n → n ∈ HashRing.nodes r.
Proof.
  unfold HashRing.get_node. destruct (HashRing.ring r); [done|].
  destruct (bt_range_from _ _) as [|[??] ?]; intros Hf; by apply HashRing.find_node_Some in Hf as [? _].
Qed.

(** Pulling from a peer that serves the live entries it has at [t0]. *)
Lemma pull_keys_exact (env : Env) (i : NodeId) (ring : HashRing.HashRing) (a : string)
    (t0 : Z) (req : TransferRequest) (src n : Node) (k : nat) :
  quiet env → clocks_ok env → serve env k a = inr (Chunk <$> transfer_keys t0 req src) →
  ∃ k' n', pull_keys_from env i a ring (k, n) = Returns (inr (Z.of_nat (length
      (List.filter (λ c, owned i ring (chunk_key c)) (transfer_keys t0 req src)))), (k', n')) ∧
    membership_table n' = membership_table n ∧ tombstones n' = tombstones n ∧
    ∀ j, match CacheStore.view t0 (store src) !! j with
         | Some e =>
             if owned i ring j then ∃ m, CacheStore.data (store n') !! j =
               received (clock env m) (mkTransferChunk j (CacheStore.value e)
                 ((λ t, as_u64 (as_millis (t - t0))) <$> CacheStore.expires_at e))
                 (CacheStore.data (store n) !! j)
             else CacheStore.data (store n') !! j = CacheStore.data (store n) !! j
         | None => CacheStore.data (store n') !! j = CacheStore.data (store n) !! j
         end.
Proof.
  intros Hq Hck Hs. unfold pull_keys_from. rewrite Hs, Hq.
  destruct (pull_loop_exact env i ring (transfer_keys t0 req src) Hq Hck
    (transfer_keys_u64 _ _ _) (transfer_keys_NoDup _ _ _) 0 (S k) n)
    as (k' & n' & Hr & Ht & Hts & Hin & Hout).
  exists k', n'. split; [exact Hr|]. split; [done|]. split; [done|]. intros j.
  destruct (CacheStore.view t0 (store src) !! j) as [e|] eqn:E.
  - destruct (owned i ring j) eqn:Eo; [|apply Hout; by left].
    set (c := mkTransferChunk j _ _). apply (Hin c); [|done].
    apply elem_of_transfer_keys. exists e. done.
  - apply Hout. right. intros (c & -> & (e & He & _)%elem_of_transfer_keys)%list_elem_of_fmap.
    congruence.
Qed.
End lemmas.

(** ** Properties *)

Section properties.
Context `{UuidLib} `{Xxh3} `{HashIter}.
Import NodeService Rebalance.

(** C23: no resurrection: when the rebalance ends, the node is no longer joining
    but Alive, and what it holds under a key of which a delete was recorded, before
    or while the rebalance ran, was written by its handlers meanwhile, never
    transferred; where they wrote nothing, the key is absent.  All this whatever the
    node's handlers, its gossip and its peers did between the rebalancer's steps,
    also between the two accesses of a delete, as long as no delete of the key is
    left between these at the end. *)
Theorem no_resurrection (fuel : nat) (env : Env) (i : NodeId) (k k' : nat) (n n' : Node) (c : Z) :
  fair env → MembershipTable.wf (membership_table n) →
  wait_and_rebalance fuel env i (k, n) = Returns (c, (k', n')) →
  tombstones n ⊆ tombstones n' ∧
  (∀ key W half_done now, writes_only env key W half_done → half_done k' = 0%nat → key ∈ tombstones n' →
     (get now (mkGetRequest key) n').1 = inr (mkGetResponse None false) ∨
     ∃ e, W e ∧ (get now (mkGetRequest key) n').1 = inr (mkGetResponse (Some (CacheStore.value e)) true)) ∧
  joining n' = false ∧
  MembershipTable.is_alive (MembershipTable.local_id (membership_table n)) (membership_table n') = true.
Proof.
  intros Hf Hwf Hr. destruct (wait_and_rebalance_end _ _ _ _ _ _ _ _ Hf Hwf Hr) as (Ht & Hd & Hj & Ha & _).
  split; [done|]. split; [|done]. intros key W half now Hw Hh Hk. rewrite get_response.
  unfold CacheStore.get, CacheStore.get_lookup.
  destruct (CacheStore.data (store n') !! key) as [e|] eqn:E; [|by left].
  specialize (Hd key W half e Hw Hh Hk E). destruct (CacheStore.expired now e); [by left|]. right. eauto.
Qed.

(** C24: pulling from a peer transfers exactly the keys this node owns: every
    live entry the peer had when the call reached it, whose key the ring assigns to
    this node, arrives with its value and remaining TTL (an entry with less than a
    millisecond left is dropped); every other key, the table and the tombstones
    stay as they were; and the count is the number of owned entries received. *)
Theorem pull_transfers_owned (env : Env) (i : NodeId) (ring : HashRing.HashRing) (a : string)
    (t0 : Z) (req : TransferRequest) (src n : Node) (k : nat) :
  quiet env → clocks_ok env → serve env k a = inr (Chunk <$> transfer_keys t0 req src) →
  ∃ k' n', pull_keys_from env i a ring (k, n) = Returns (inr (Z.of_nat (length
      (List.filter (λ c, owned i ring (chunk_key c)) (transfer_keys t0 req src)))), (k', n')) ∧
    membership_table n' = membership_table n ∧ tombstones n' = tombstones n ∧
    ∀ j, match CacheStore.view t0 (store src) !! j with
         | Some e =>
             if owned i ring j then ∃ m, CacheStore.data (store n') !! j =
               received (clock env m) (mkTransferChunk j (CacheStore.value e)
                 ((λ t, as_u64 (as_millis (t - t0))) <$> CacheStore.expires_at e))
                 (CacheStore.data (store n) !! j)
             else CacheStore.data (store n') !! j = CacheStore.data (store n) !! j
         | None => CacheStore.data (store n') !! j = CacheStore.data (store n) !! j
         end.
Proof. apply pull_keys_exact. Qed.

(** Further: a rebalance never fails: whatever the peers answer (errors, streams that
    break off, chunks with any [u64] TTL), it goes through all of them, in
    whatever interference, and returns. *)
Theorem rebalance_returns (env : Env) (i : NodeId) (peers : list NodeInfo)
    (ring : HashRing.HashRing) (p : nat * Node) :
  clocks_ok env →
  (∀ k a items c, serve env k a = inr items → Chunk c ∈ items → chunk_u64 c) →
  ∃ total p', rebalance env i peers ring p = Returns (total, p').
Proof.
  intros Hck Hserve. unfold rebalance. generalize 0 as total. revert p.
  induction peers as [|peer peers IH]; intros p total; simpl; [eauto|].
  case_decide; [apply IH|].
  assert (∃ r p', pull_keys_from env i (addr peer) ring p = Returns (r, p')) as (r & p' & ->).
  { unfold pull_keys_from. destruct p as [k n]. destruct (serve env k (addr peer)) as [e|items] eqn:E;
      [eauto|]. apply pull_loop_total; [done|]. intros c Hc. by eapply Hserve. }
  cbn [outcome_bind]. destruct r; apply IH.
Qed.

(** Further: a transfer overwrites newer data: a value replicated to the joining node
    after the peer took its snapshot is replaced, when the chunk arrives, by the
    peer's older value. *)
Theorem transfer_overwrites_newer (env : Env) (i : NodeId) (ring : HashRing.HashRing)
    (now now' : Z) (key : string) (v_old v_new : list ascii) (n n1 : Node)
    (r : Status + ReplicateResponse) (k : nat) :
  quiet env → clocks_ok env → owned i ring key = true →
  replicate_write now (mkReplicateRequest key v_new None None) n = Returns (r, n1) →
  (get now' (mkGetRequest key) n1).1 = inr (mkGetResponse (Some v_new) true) ∧
  ∃ p n2, pull_loop env i ring [Chunk (mkTransferChunk key v_old None)] 0 (k, n1) =
      Returns (inr 1, (p, n2)) ∧
    (get now' (mkGetRequest key) n2).1 = inr (mkGetResponse (Some v_old) true).
Proof.
  intros Hq Hck Ho (st & Hset & [= <- <-])%outcome_bind_Returns. split.
  { rewrite get_response. simpl. by rewrite (set_then_get _ _ _ _ _ _ _ Hset). }
  destruct (pull_loop_exact env i ring [mkTransferChunk key v_old None] Hq Hck) with
    (count := 0) (k := k) (n := with_store n st) as (k' & n' & Hr & _ & _ & Hin & _).
  { apply Forall_singleton. by intros ms. }
  { apply NoDup_singleton. }
  destruct (Hin (mkTransferChunk key v_old None)) as [m Hm]; [by left|done|].
  exists k', n'. simpl in Hr. rewrite Ho in Hr. split; [exact Hr|].
  rewrite get_response. unfold CacheStore.get, CacheStore.get_lookup. simpl in *. by rewrite Hm.
Qed.

(** Further: a tombstone outlives the write that follows it: a key deleted and then
    written again (by replication) before the rebalance is lost when it ends, although
    the write was acknowledged. *)
Theorem tombstone_kills_newer_write (fuel : nat) (env : Env) (i : NodeId) (k k' : nat)
    (now now' : Z) (key : string) (v : list ascii) (n n1 n' : Node)
    (r : Status + ReplicateResponse) (c : Z) (half_done : nat → nat) :
  fair env → writes_only env key (λ _, False) half_done → half_done k' = 0%nat →
  MembershipTable.wf (membership_table n) → joining n = true →
  replicate_write now (mkReplicateRequest key v None None) (delete (mkDeleteRequest key) n).2
    = Returns (r, n1) →
  wait_and_rebalance fuel env i (k, n1) = Returns (c, (k', n')) →
  (get now' (mkGetRequest key) n1).1 = inr (mkGetResponse (Some v) true) ∧
  (get now' (mkGetRequest key) n').1 = inr (mkGetResponse None false).
Proof.
  intros Hf Hw Hh Hwf Hj (st & Hset & [= <- <-])%outcome_bind_Returns Hr. split.
  { rewrite get_response. simpl. by rewrite (set_then_get _ _ _ _ _ _ _ Hset). }
  unfold delete in Hr. rewrite Hj in Hr.
  apply wait_and_rebalance_end in Hr as (Ht & Hd & _); [|done|done].
  rewrite get_response. unfold CacheStore.get, CacheStore.get_lookup.
  destruct (CacheStore.data (store n') !! key) as [e|] eqn:E; [|done].
  exfalso. apply (Hd key _ half_done e Hw Hh); [|done]. simpl in Ht. set_solver.
Qed.

(** Further: the first rebalance knows no real peer: right after the start the wait is
    over at once, and the ring that decides which keys to pull holds, besides the
    node, only the identifiers made up for the seeds. *)
Theorem first_rebalance_ring (fuel : nat) (env : Env) (now : Z) (i : NodeId)
    (seeds : list NodeInfo) (st : CacheStore.CacheStore) (tombs : gset string) (k : nat)
    (local_addr key : string) (o : NodeInfo) :
  (∃ s, s ∈ seeds ∧ id s ≠ i) →
  let n := mkNode st (MembershipTable.new now i seeds) tombs in
  let peers := MembershipTable.info <$> MembershipTable.routable_peers (membership_table n) in
  wait_for_peers fuel env (k, n) = Returns (k, n) ∧
  (HashRing.get_node (rebalance_ring i local_addr peers) key = Some o →
   id o = i ∨ ∃ s, s ∈ seeds ∧ id o = id s).
Proof.
  intros (s & Hs & Hne) n peers.
  assert (∀ e, e ∈ MembershipTable.routable_peers (membership_table n) →
    ∃ s, s ∈ seeds ∧ id (MembershipTable.info e) = id s) as Hpeers.
  { intros e He. apply elem_of_routable_peers in He as (Hi & He & _); [|apply table_new_wf].
    apply new_lookup in He as [[? _]|(_ & m & Hm & Hid & _)]; [done|]. exists m. by rewrite Hid. }
  split.
  - assert (MembershipTable.routable_peers (membership_table n) ≠ []) as Hrp.
    { destruct (new_lookup_is_Some now i seeds (id s)) as [e He]; [right; eauto|].
      apply new_lookup in He as Hc. destruct Hc as [[? _]|(_ & m & _ & Hm & ->)]; [done|].
      assert (MembershipTable.mkMemberEntry m MembershipTable.Alive 0 now ∈
        MembershipTable.routable_peers (membership_table n)) as Hin.
      { apply elem_of_routable_peers; [apply table_new_wf|]. simpl. by rewrite Hm. }
      intros Hnil. rewrite Hnil in Hin. by apply elem_of_nil in Hin. }
    destruct fuel; cbn [wait_for_peers]; by destruct (MembershipTable.routable_peers (membership_table n)).
  - intros Ho%get_node_in_nodes. unfold rebalance_ring in Ho. rewrite foldl_add_node_nodes in Ho.
    simpl in Ho. apply elem_of_cons in Ho as [->|Ho]; [by left|right].
    apply list_elem_of_fmap in Ho as (e & -> & He). by apply Hpeers.
Qed.
End properties.

(** ** Witnesses: node [a] joins through [b], which holds the key [k] *)

Section witnesses.
#[local] Existing Instance Examples.string_uuid.
#[local] Existing Instance Examples.sorted_iter.
Import NodeService Rebalance.

(** A hash that is quick to evaluate, with many collisions. *)
Definition ex_hash (b : bytes) : Z := as_u64 (fold_left (λ h c, h + byte_val c) b 0).
Lemma ex_hash_range b : is_u64 (ex_hash b).
Proof. apply as_u64_range. Qed.
Definition ex_xxh3 : Xxh3 := {| xxh3_64 := ex_hash; xxh3_64_range := ex_hash_range |}.
#[local] Existing Instance ex_xxh3.

Definition ex_source : Node :=
  mkNode (CacheStore.mkCacheStore {[ "k"%string := CacheStore.mkCacheEntry (as_bytes "old") None ]} 0)
    (MembershipTable.new 0 (ex_id "b") []) ∅.
Definition ex_transfer : TransferRequest := mkTransferRequest "a" [].
Definition ex_env : Env :=
  mkEnv (λ _, 7) (λ _ n, n) (λ _ _, inr (Chunk <$> transfer_keys 5 ex_transfer ex_source)).
(** A ring that gives every key to [a]. *)
Definition ex_own_ring : HashRing.HashRing :=
  HashRing.add_node (HashRing.with_vnode_count 2) (mkNodeInfo (ex_id "a") "a:5001").

Lemma ex_fair : fair ex_env.
Proof. intros k n. reflexivity. Qed.
Lemma ex_unwritten key W : writes_only ex_env key W (λ _, 0%nat).
Proof. intros k n. reflexivity. Qed.
Lemma ex_quiet : quiet ex_env.
Proof. intros k n. reflexivity. Qed.
Lemma ex_clocks_ok : clocks_ok ex_env.
Proof. intros k. by compute. Qed.

(** A delete has been handled; the peer still holds the key. *)
Definition ex_deleted : Node := (delete (mkDeleteRequest "k") ex_joining).2.
Definition run_result (r : outcome (Z * Progress)) : nat * Node :=
  match r with Returns (_, p) => p | _ => (0%nat, ex_joining) end.
Definition returns (r : outcome (Z * Progress)) : bool :=
  match r with Returns _ => true | _ => false end.
Lemma run_result_eq r : returns r = true →
  ∃ c, r = Returns (c, ((run_result r).1, (run_result r).2)).
Proof. destruct r as [[c [k n]]| |]; [by exists c|done|done]. Qed.
Definition ex_rejoined : nat * Node :=
  run_result (wait_and_rebalance 1 ex_env (ex_id "a") (0%nat, ex_deleted)).

Lemma ex_rejoined_eq : ∃ c, wait_and_rebalance 1 ex_env (ex_id "a") (0%nat, ex_deleted) =
  Returns (c, (ex_rejoined.1, ex_rejoined.2)).
Proof. apply run_result_eq. vm_compute. reflexivity. Qed.

Lemma no_resurrection_witness :
  (get 9 (mkGetRequest "k") ex_rejoined.2).1 = inr (mkGetResponse None false).
Proof.
  destruct ex_rejoined_eq as [c Hc].
  destruct (no_resurrection 1 ex_env (ex_id "a") 0 ex_rejoined.1 ex_deleted ex_rejoined.2 c ex_fair
    (table_new_wf _ _ _) Hc) as (Hsub & Hget & _).
  destruct (Hget "k"%string (λ _, False) (λ _, 0%nat) 9 (ex_unwritten _ _) eq_refl) as [Hk|(e & [] & _)]; [|exact Hk].
  apply Hsub, (bool_decide_unpack _). vm_compute. exact I.
Defined.

Lemma ex_owned : owned (ex_id "a") ex_own_ring "k" = true.
Proof. vm_compute. reflexivity. Qed.
Lemma ex_view : CacheStore.view 5 (store ex_source) !! "k"%string =
  Some (CacheStore.mkCacheEntry (as_bytes "old") None).
Proof. vm_compute. reflexivity. Qed.

Lemma pull_transfers_owned_witness : ∃ c k' n',
  pull_keys_from ex_env (ex_id "a") "b:5001" ex_own_ring (0%nat, ex_joining) =
    Returns (inr c, (k', n')) ∧
  CacheStore.data (store n') !! "k"%string = Some (CacheStore.mkCacheEntry (as_bytes "old") None).
Proof.
  destruct (pull_transfers_owned ex_env (ex_id "a") ex_own_ring "b:5001" 5 ex_transfer ex_source
    ex_joining 0 ex_quiet ex_clocks_ok eq_refl) as (k' & n' & Hr & _ & _ & Hd).
  eexists _, k', n'. split; [exact Hr|]. specialize (Hd "k"%string).
  rewrite ex_view, ex_owned in Hd. destruct Hd as [m Hm]. exact Hm.
Defined.

Lemma rebalance_returns_witness : ∃ total p',
  rebalance ex_env (ex_id "a") [mkNodeInfo (ex_id "b") "b:5001"] ex_own_ring (0%nat, ex_joining) =
  Returns (total, p').
Proof.
  apply rebalance_returns; [exact ex_clocks_ok|].
  intros k a items c [= <-] Hc ms Hms. vm_compute in Hc. exfalso. revert Hms.
  apply list_elem_of_In in Hc. destruct Hc as [[= <-]|[]]. discriminate.
Defined.

Definition ex_write : ReplicateRequest := mkReplicateRequest "k" (as_bytes "new") None None.
Definition ex_rewritten (n : Node) : Node :=
  match replicate_write 6 ex_write n with Returns (_, n') => n' | _ => n end.

Lemma transfer_overwrites_newer_witness :
  (get 9 (mkGetRequest "k") (ex_rewritten ex_joining)).1 = inr (mkGetResponse (Some (as_bytes "new")) true).
Proof.
  apply (transfer_overwrites_newer ex_env (ex_id "a") ex_own_ring 6 9 "k" (as_bytes "old")
    (as_bytes "new") ex_joining (ex_rewritten ex_joining) (inr (mkReplicateResponse true)) 0
    ex_quiet ex_clocks_ok ex_owned eq_refl).
Defined.

Definition ex_lost : nat * Node :=
  run_result (wait_and_rebalance 1 ex_env (ex_id "a") (0%nat, ex_rewritten ex_deleted)).

Lemma ex_lost_eq : ∃ c, wait_and_rebalance 1 ex_env (ex_id "a") (0%nat, ex_rewritten ex_deleted) =
  Returns (c, (ex_lost.1, ex_lost.2)).
Proof. apply run_result_eq. vm_compute. reflexivity. Qed.

Lemma tombstone_kills_newer_write_witness :
  (get 9 (mkGetRequest "k") ex_lost.2).1 = inr (mkGetResponse None false).
Proof.
  destruct ex_lost_eq as [c Hc].
  apply (tombstone_kills_newer_write 1 ex_env (ex_id "a") 0 ex_lost.1 6 9 "k" (as_bytes "new")
    ex_joining (ex_rewritten ex_deleted) ex_lost.2 (inr (mkReplicateResponse true)) c (λ _, 0%nat)
    ex_fair (ex_unwritten _ _) eq_refl (table_new_wf _ _ _) eq_refl eq_refl Hc).
Defined.

Lemma first_rebalance_ring_witness :
  wait_for_peers 0 ex_env (0%nat, ex_joining) = Returns (0%nat, ex_joining).
Proof.
  apply (first_rebalance_ring 0 ex_env 0 (ex_id "a") ex_seeds (CacheStore.new 0) ∅ 0 "" "k"
    (mkNodeInfo (ex_id "a") "")).
  exists (mkNodeInfo (ex_id "b") "b:5001"). split; [left|vm_compute; discriminate].
Defined.
End witnesses.
