(* ===== verification/NodeMain.v ===== *)
(** * The start and the end of a node

    Models [crates/node/src/main.rs]: the identifier, the seed list of the command
    line, the state the tasks of the node share, whether a rebalance is started, and
    which of its servers ends the node.  Listening and spawning are the runtime's.
    [new_v4] gives the random identifiers in the order they are drawn. *)

From S2P Require Import Prelude Machine Text Common Store Membership Parser RespServer NodeService Ring Rebalance.
Local Open Scope Z_scope.

Module NodeMain.
Import NodeService.

(** *** [str::split(',')], [str::trim] *)

Fixpoint split_comma (l : bytes) : list bytes :=
  match l with
  | [] => [[]]
  | c :: l' =>
      if bool_decide (c = ","%char) then [] :: split_comma l'
      else match split_comma l' with w :: ws => (c :: w) :: ws | [] => [[c]] end
  end.

(** The bytes of the character of Unicode's [White_Space] a text starts with. *)
Definition white_prefix (l : list Z) : nat :=
  match l with
  | 194 :: c :: _ => if (c =? 133) || (c =? 160) then 2%nat else 0%nat
  | 225 :: 154 :: 128 :: _ => 3%nat
  | 226 :: 128 :: c :: _ =>
      if ((128 <=? c) && (c <=? 138)) || (c =? 168) || (c =? 169) || (c =? 175) then 3%nat else 0%nat
  | 226 :: 129 :: 159 :: _ => 3%nat
  | 227 :: 128 :: 128 :: _ => 3%nat
  | c :: _ => if ((9 <=? c) && (c <=? 13)) || (c =? 32) then 1%nat else 0%nat
  | [] => 0%nat
  end.

(** The same for the end of a text, read backwards. *)
Definition white_suffix (l : list Z) : nat :=
  match l with
  | c :: 194 :: _ => if (c =? 133) || (c =? 160) then 2%nat else 0%nat
  | 128 :: 154 :: 225 :: _ => 3%nat
  | 159 :: 129 :: 226 :: _ => 3%nat
  | 128 :: 128 :: 227 :: _ => 3%nat
  | c :: 128 :: 226 :: _ =>
      if ((128 <=? c) && (c <=? 138)) || (c =? 168) || (c =? 169) || (c =? 175) then 3%nat else 0%nat
  | c :: _ => if ((9 <=? c) && (c <=? 13)) || (c =? 32) then 1%nat else 0%nat
  | [] => 0%nat
  end.

(** Each round drops at least a byte, so the length is enough fuel. *)
Fixpoint drop_white (white : list Z → nat) (fuel : nat) (l : bytes) : bytes :=
  match fuel with
  | O => l
  | S f => match white (byte_val <$> l) with
           | O => l
           | n => drop_white white f (drop n l)
           end
  end.
Definition trim (l : bytes) : bytes :=
  let l1 := drop_white white_prefix (length l) l in
  reverse (drop_white white_suffix (length l1) (reverse l1)).

Section node_main.
Context `{UuidLib} `{Xxh3} `{HashIter}.

Record Args := mkArgs { arg_id : option string; seed_nodes : string }.

Definition seed_addrs (args : Args) : list string :=
  (λ s, of_bytes (trim s)) <$>
    List.filter (λ s, negb (bool_decide (s = []))) (split_comma (as_bytes (seed_nodes args))).

Definition seed_infos (new_v4 : nat → Uuid) (addrs : list string) : list NodeInfo :=
  imap (λ k addr, mkNodeInfo (from_uuid (new_v4 (S k))) addr) addrs.

(** The identifier, the shared state, and whether the rebalancer is spawned; [None]
    when the identifier does not parse. *)
Definition start (new_v4 : nat → Uuid) (store_clock table_clock : Instant) (args : Args)
    : option (NodeId * Node * bool) :=
  let node_id := match arg_id args with
                 | Some id_str => NodeId_parse id_str
                 | None => Some (from_uuid (new_v4 0%nat))
                 end in
  i ← node_id;
  let seeds := seed_infos new_v4 (seed_addrs args) in
  let is_joining := negb (bool_decide (seeds = [])) in
  Some (i, mkNode (CacheStore.new store_clock) (MembershipTable.new table_clock i seeds) ∅, is_joining).

(** ** Specifications *)

Fixpoint join_comma (pieces : list bytes) : bytes :=
  match pieces with
  | [] => []
  | [p] => p
  | p :: pieces' => p ++ ","%char :: join_comma pieces'
  end.
Definition piece_ok (p : bytes) : Prop := p ≠ [] ∧ ","%char ∉ p.

(** *** The end of [main] *)

(** Which branch of [tokio::select!] has ended the node. *)
Inductive Stopped :=
  | GrpcEnded (error : option string)
  | RespEnded (error : option string)
  | CtrlC.

Definition ended (f : RespServer.Future) : option (option string) :=
  match f with
  | RespServer.Pending => None
  | RespServer.Ready (inl e) => Some (Some e)
  | RespServer.Ready (inr _) => Some None
  end.

(** The branches that are ready, of which [select!] takes one: none, and the node
    goes on running. *)
Definition select (grpc_future resp_future : RespServer.Future) (ctrl_c : bool) : list Stopped :=
  option_list (GrpcEnded <$> ended grpc_future) ++ option_list (RespEnded <$> ended resp_future) ++
  (if ctrl_c then [CtrlC] else []).

(** The result of [main] in each branch: the errors are logged. *)
Definition main_result (_ : Stopped) : string + unit := inr ().

End node_main.
End NodeMain.

(** ** Lemmas *)

Section lemmas.
Context `{UuidLib} `{Xxh3} `{HashIter}.
Import NodeService NodeMain.

Lemma split_comma_piece p : ","%char ∉ p → split_comma p = [p].
Proof.
  induction p as [|c p IH]; intros Hp; [done|]. cbn [split_comma].
  rewrite bool_decide_eq_false_2 by (intros ->; apply Hp; by left).
  rewrite IH; [done|]. intros Hin. apply Hp. by right.
Qed.

Lemma split_comma_cons p l : ","%char ∉ p → split_comma (p ++ ","%char :: l) = p :: split_comma l.
Proof.
  induction p as [|c p IH]; intros Hp; [done|]. cbn [app split_comma].
  rewrite bool_decide_eq_false_2 by (intros ->; apply Hp; by left).
  rewrite IH; [done|]. intros Hin. apply Hp. by right.
Qed.

Lemma split_join pieces : pieces ≠ [] → Forall piece_ok pieces → split_comma (join_comma pieces) = pieces.
Proof.
  intros Hne. induction 1 as [|p pieces [_ Hp] Hall IH]; [done|]. cbn [join_comma].
  destruct pieces as [|p' pieces]; [by apply split_comma_piece|].
  rewrite split_comma_cons by done. f_equal. by apply IH.
Qed.

(** *** RESP commands are sequences of operations of the store *)

Definition store_step (st st' : CacheStore.CacheStore) : Prop :=
  ∃ now o r, CacheStore.run_op now o st = Returns (r, st').

Lemma store_step_get now k st r st' : CacheStore.get now k st = (r, st') → rtc store_step st st'.
Proof.
  intros Hg. apply rtc_once. exists now, (CacheStore.OGet k), (CacheStore.RValue r).
  cbn. by rewrite Hg.
Qed.

Lemma store_step_exists now k st b st' : CacheStore.exists_ now k st = (b, st') → rtc store_step st st'.
Proof.
  unfold CacheStore.exists_. destruct (CacheStore.get now k st) as [r st1] eqn:E.
  intros [= _ <-]. by eapply store_step_get.
Qed.

Lemma store_step_set now k v d st st' : CacheStore.set now k v d st = Returns st' → rtc store_step st st'.
Proof.
  intros Hs. apply rtc_once. exists now, (CacheStore.OSet k v d), CacheStore.RUnit. cbn. by rewrite Hs.
Qed.

Lemma store_step_expire now k d st b st' : CacheStore.expire now k d st = Returns (b, st') →
  rtc store_step st st'.
Proof.
  intros Hs. apply rtc_once. exists now, (CacheStore.OExpire k d), (CacheStore.RBool b).
  cbn. by rewrite Hs.
Qed.

Lemma store_step_del keys : ∀ acc, rtc store_step acc.2 (foldl RespServer.del_arg acc keys).2.
Proof.
  induction keys as [|a keys IH]; intros [n st]; cbn [foldl]; [done|].
  etrans; [|apply IH]. unfold RespServer.del_arg.
  destruct (RespServer.extract_str a) as [key|]; [|done].
  assert (store_step st (CacheStore.delete key st).2) as Hd.
  { exists 0, (CacheStore.ODelete key), (CacheStore.RBool (CacheStore.delete key st).1). done. }
  destruct (CacheStore.delete key st) as [[] st']; by apply rtc_once.
Qed.

Lemma command_steps `{UnicodeUpper} clock v st r st' :
  RespServer.handle_command clock v st = Returns (r, st') → rtc store_step st st'.
Proof.
  unfold RespServer.handle_command. intros Hc.
  destruct v as [| | | | |parts]; try by simplify_eq.
  destruct parts as [|name args]; [by simplify_eq|].
  destruct (to_uppercase <$> RespServer.extract_str name) as [cmd|]; [|by simplify_eq].
  unfold RespServer.dispatch in Hc. repeat case_match; simplify_eq; try done.
  - unfold RespServer.cmd_set in Hc. repeat case_match; simplify_eq; try done.
    apply outcome_bind_Returns in Hc as (st1 & Hs & [= _ <-]). by eapply store_step_set.
  - unfold RespServer.cmd_get in *. repeat case_match; simplify_eq; try done;
      by eapply store_step_get.
  - unfold RespServer.cmd_del in *. repeat case_match; simplify_eq; try done.
    match goal with E : foldl _ (0, st) ?l = _ |- _ =>
      pose proof (store_step_del l (0, st)) as Hd; rewrite E in Hd end. done.
  - unfold RespServer.cmd_exists in *. repeat case_match; simplify_eq; try done;
      by eapply store_step_exists.
  - unfold RespServer.cmd_ttl in *. repeat case_match; simplify_eq; try done;
      by eapply store_step_exists.
  - unfold RespServer.cmd_expire in Hc. repeat case_match; simplify_eq; try done.
    apply outcome_bind_Returns in Hc as ([b st1] & Hs & [= _ <-]). by eapply store_step_expire.
Qed.
End lemmas.

(** ** Properties *)

Section properties.
Context `{UuidLib} `{Xxh3} `{HashIter}.
Import NodeService NodeMain.

(** Further: the seed list is read back: the addresses of a comma-separated list, each
    with white space around it, are the seeds, in order; the empty text has none. *)
Theorem seeds_roundtrip (i : option string) (pieces : list (list ascii)) :
  Forall piece_ok pieces →
  seed_addrs (mkArgs i (of_bytes (join_comma pieces))) = (λ p, of_bytes (trim p)) <$> pieces.
Proof.
  intros Hall. unfold seed_addrs. cbn [seed_nodes]. rewrite as_bytes_of_bytes.
  destruct pieces as [|p pieces]; [done|]. rewrite split_join by done.
  rewrite filterb_all; [done|]. intros q Hq. rewrite Forall_forall in Hall.
  destruct (Hall q Hq) as [Hne _]. by rewrite bool_decide_eq_false_2.
Qed.

(** Further: the life of a node: started without seeds it serves at once and rebalances
    nothing; started with seeds it is joining, so it refuses writes, and a rebalance
    is started; when that ends, whatever the node's tasks did meanwhile, the node
    serves. *)
Theorem started_node (new_v4 : nat → Uuid) (c1 c2 : Z) (args : Args) (i : NodeId) (n : Node)
    (rebalances : bool) :
  start new_v4 c1 c2 args = Some (i, n, rebalances) →
  MembershipTable.wf (membership_table n) ∧
  MembershipTable.local_id (membership_table n) = i ∧
  rebalances = negb (bool_decide (seed_addrs args = [])) ∧ joining n = rebalances ∧
  (∀ now req, rebalances = true →
     NodeService.set now req n = Returns (inl (Unavailable "node is joining"), n)) ∧
  (∀ fuel env c k k' n', Rebalance.fair env →
     Rebalance.wait_and_rebalance fuel env i (k, n) = Returns (c, (k', n')) → joining n' = false).
Proof.
  unfold start. intros (j & Hj & [= <- <- <-])%bind_Some. cbn [membership_table].
  set (seeds := seed_infos new_v4 (seed_addrs args)).
  assert (bool_decide (seeds = []) = bool_decide (seed_addrs args = [])) as Hs.
  { apply bool_decide_ext. unfold seeds, seed_infos. by destruct (seed_addrs args). }
  assert (joining (mkNode (CacheStore.new c1) (MembershipTable.new c2 j seeds) ∅) =
    negb (bool_decide (seeds = []))) as Hjoin.
  { unfold joining, MembershipTable.is_self_joining. cbn [membership_table].
    change (MembershipTable.local_id _) with j. rewrite new_self. simpl.
    case_decide; case_bool_decide; done. }
  split; [apply table_new_wf|]. split; [done|]. split; [by rewrite Hs|]. split; [done|]. split.
  - intros now req Hr. unfold NodeService.set. by rewrite Hjoin, Hr.
  - intros fuel env c k k' n' Hf Hr.
    by apply wait_and_rebalance_end in Hr as (_ & _ & ? & _); [|done|apply table_new_wf].
Qed.

(** Further: a RESP command is nothing the rebalance does not reckon with: whatever a
    client sends, in whatever state the node is, what it does to the node is a
    sequence of the accesses that [Rebalance.fair] lets happen meanwhile, so it
    leaves the table and the tombstones alone. *)
Theorem resp_is_node_steps `{UnicodeUpper} (clock : nat → Z) (v : Parser.RespValue)
    (n : Node) (r : list ascii) (st : CacheStore.CacheStore) :
  RespServer.handle_command clock v (store n) = Returns (r, st) →
  rtc node_step n (with_store n st).
Proof.
  intros Hs%command_steps. destruct n as [st0 t ts]. cbn [store] in Hs.
  change (with_store (mkNode st0 t ts) st) with (mkNode st t ts).
  induction Hs as [|a b c (now & o & r' & Ho) _ IH]; [done|].
  eapply rtc_l; [|exact IH]. exact (step_store _ _ (mkNode a t ts) now o r' b I (λ _ _, I) Ho).
Qed.

(** Further: the RESP server takes the node with it: when [accept] fails once, or the
    RESP address cannot be bound, the node stops, whatever its gRPC server is doing
    and whatever connections it has, and [main] reports success. *)
Theorem resp_error_stops_node `{UnicodeUpper} `{Parser.RespLayout} (conns : list RespServer.Accepted)
    (later : list (string + RespServer.Accepted)) (e : string) (ctrl_c : bool) :
  select RespServer.Pending (RespServer.start_resp_server None (inr <$> conns)).1 false = [] ∧
  ∀ (bind : option string) (accepts : list (string + RespServer.Accepted)),
    (bind = Some e ∨ bind = None ∧ accepts = (inr <$> conns) ++ inl e :: later) →
    RespEnded (Some e) ∈ select RespServer.Pending (RespServer.start_resp_server bind accepts).1 ctrl_c ∧
    ∀ s, s ∈ select RespServer.Pending (RespServer.start_resp_server bind accepts).1 ctrl_c →
      main_result s = inr ().
Proof.
  split.
  { unfold RespServer.start_resp_server. pose proof (accept_loop_accepted conns [] []) as Hc.
    rewrite app_nil_r in Hc. by rewrite Hc. }
  intros bind accepts Hb.
  assert ((RespServer.start_resp_server bind accepts).1 = RespServer.Ready (inl e)) as ->.
  { destruct Hb as [->|[-> ->]]; [done|]. unfold RespServer.start_resp_server.
    by rewrite accept_loop_accepted. }
  split; [by left|done].
Qed.

(** Further: empty pieces of the list are dropped before the white space is: a blank
    piece becomes a seed with the empty address, so a node started with a blank
    list is joining, with a peer it cannot reach. *)
Theorem blank_seed_kept (new_v4 : nat → Uuid) (c1 c2 : Z) :
  let args := mkArgs None " " in
  seed_addrs args = [""%string] ∧
  ∃ n, start new_v4 c1 c2 args = Some (from_uuid (new_v4 0%nat), n, true).
Proof. split; [by vm_compute|]. eexists. reflexivity. Qed.
End properties.

(** ** Witnesses *)

Section witnesses.
#[local] Existing Instance Examples.string_uuid.
#[local] Existing Instance Examples.poly_xxh3.
#[local] Existing Instance Examples.sorted_iter.
Import NodeService NodeMain.

Definition ex_uuids : nat → Uuid := λ k, of_bytes (int_to_string (Z.of_nat k)).

Lemma seeds_roundtrip_witness :
  seed_addrs (mkArgs None "h1:1, h2:1") = ["h1:1"; "h2:1"]%string.
Proof.
  apply (seeds_roundtrip None [as_bytes "h1:1"; as_bytes " h2:1"]).
  repeat constructor; try discriminate; apply (bool_decide_unpack _); vm_compute; exact I.
Defined.

Lemma resp_is_node_steps_witness :
  rtc node_step (mkNode (CacheStore.new 0) (MembershipTable.new 0 (ex_id "a") []) ∅)
    (mkNode (CacheStore.mkCacheStore {[ "k"%string := CacheStore.mkCacheEntry (as_bytes "v") None ]} 0)
       (MembershipTable.new 0 (ex_id "a") []) ∅).
Proof.
  apply (@resp_is_node_steps _ RespServer.ex_upper (λ _, 0) (RespServer.command ["SET"; "k"; "v"]%string)
    (mkNode (CacheStore.new 0) (MembershipTable.new 0 (ex_id "a") []) ∅) (as_bytes "+OK" ++ CRLF)
    (CacheStore.mkCacheStore {[ "k"%string := CacheStore.mkCacheEntry (as_bytes "v") None ]} 0)).
  vm_compute. reflexivity.
Defined.

Lemma resp_error_stops_node_witness :
  RespEnded (Some "Address already in use"%string) ∈
    select RespServer.Pending
      (@RespServer.start_resp_server RespServer.ex_upper Parser.ex_layout
         (Some "Address already in use"%string) []).1 false.
Proof.
  apply (@resp_error_stops_node RespServer.ex_upper Parser.ex_layout [] []
    "Address already in use" false). by left.
Defined.

Definition ex_started : Node :=
  mkNode (CacheStore.new 0) (MembershipTable.new 0 (ex_id "a") [mkNodeInfo (ex_id "1") "h1:1"]) ∅.

Lemma started_node_witness : joining ex_started = true.
Proof.
  apply (started_node ex_uuids 0 0 (mkArgs (Some "a"%string) "h1:1") (ex_id "a") ex_started true).
  reflexivity.
Defined.
End witnesses.
