(* ===== verification/Health.v ===== *)
(** * The router's health monitor

    Models [crates/router/src/health/mod.rs] and the client pool of
    [crates/router/src/client.rs].  The asynchronous [RwLock] makes each operation
    of the monitor atomic. *)

From S2P Require Import Prelude Machine Text Common.
Local Open Scope Z_scope.
Local Open Scope outcome_scope.

Module ClientPool.
Section pool.
(** The part of the crates [http] and [tonic] the pool asks: whether
    [Channel::from_shared] accepts a URI. *)
Class UriLib := uri_valid : string → bool.
Context `{UriLib}.

(** A cached client is a handle on its address. *)
Record NodeClientPool := mkNodeClientPool { clients : gset string }.

Definition new : NodeClientPool := mkNodeClientPool ∅.

(** [connects]: whether [connect()] succeeds, if it is called; the result is
    whether there is a client. *)
Definition get_client (connects : bool) (addr : string) (self : NodeClientPool)
    : outcome (bool * NodeClientPool) :=
  if decide (addr ∈ clients self) then Returns (true, self)
  else if uri_valid ("http://" +:+ addr) then
    if connects then Returns (true, mkNodeClientPool ({[ addr ]} ∪ clients self))
    else Returns (false, self)
  else Panics "invalid address".
End pool.
End ClientPool.

Module HealthMonitor.

Inductive NodeHealth := Alive | Suspect | Dead | Joining.
#[export] Instance NodeHealth_eq_dec : EqDecision NodeHealth.
Proof. solve_decision. Defined.

(** [Display for NodeHealth] *)
Definition NodeHealth_to_string (h : NodeHealth) : string :=
  match h with
  | Alive => "Alive" | Suspect => "Suspect" | Dead => "Dead" | Joining => "Joining"
  end.

Record NodeHealthEntry := mkNodeHealthEntry {
  health : NodeHealth;
  last_checked : Z;
  consecutive_failures : Z;
}.

Section monitor.
Context `{UuidLib}.

Record HealthMonitor := mkHealthMonitor {
  nodes : gmap NodeId NodeHealthEntry;
  failure_threshold : Z;
}.

Definition new : HealthMonitor := mkHealthMonitor ∅ 3.
Definition with_failure_threshold (self : HealthMonitor) (threshold : Z) : HealthMonitor :=
  mkHealthMonitor (nodes self) threshold.

Definition put (self : HealthMonitor) (node_id : NodeId) (e : NodeHealthEntry) : HealthMonitor :=
  mkHealthMonitor (<[node_id := e]> (nodes self)) (failure_threshold self).

Definition mark_alive (now : Instant) (node_id : NodeId) (self : HealthMonitor) : HealthMonitor :=
  put self node_id (mkNodeHealthEntry Alive now 0).

Definition mark_joining (now : Instant) (node_id : NodeId) (self : HealthMonitor) : HealthMonitor :=
  put self node_id (mkNodeHealthEntry Joining now 0).

Definition record_failure (now : Instant) (node_id : NodeId) (self : HealthMonitor)
    : HealthMonitor :=
  let entry := match nodes self !! node_id with
               | Some e => e
               | None => mkNodeHealthEntry Alive now 0
               end in
  let failures := u32_add (consecutive_failures entry) 1 in
  let health' :=
    match health entry with
    | Alive => Suspect
    | Joining => Suspect
    | Suspect => if failure_threshold self <=? failures then Dead else Suspect
    | Dead => Dead
    end in
  put self node_id (mkNodeHealthEntry health' now failures).

Definition is_alive (node_id : NodeId) (self : HealthMonitor) : bool :=
  match nodes self !! node_id with
  | Some entry => bool_decide (health entry ≠ Dead) && bool_decide (health entry ≠ Joining)
  | None => true
  end.

Definition dead_nodes `{HashIter} (self : HealthMonitor) : list NodeId :=
  (List.filter (λ kv, bool_decide (health kv.2 = Dead)) (hash_iter (nodes self))).*1.

Definition all_health (self : HealthMonitor) : gmap NodeId NodeHealth := health <$> nodes self.

(** One probe of the health checker: [connects] and [heartbeat_ok] are what the
    network makes of it. *)
Definition check_node `{ClientPool.UriLib} (now : Instant) (connects heartbeat_ok : bool)
    (node : NodeId * string) (p : ClientPool.NodeClientPool * HealthMonitor)
    : outcome (ClientPool.NodeClientPool * HealthMonitor) :=
  let '(node_id, addr) := node in
  let '(pool, self) := p in
  let! (client, pool') := ClientPool.get_client connects addr pool in
  if client then
    if heartbeat_ok then Returns (pool', mark_alive now node_id self)
    else Returns (pool', record_failure now node_id self)
  else Returns (pool', record_failure now node_id self).

(** One tick of the checker over all the nodes; [probe i] is the [i]-th probe. *)
Fixpoint check_all `{ClientPool.UriLib} (probe : nat → Z * bool * bool) (i : nat)
    (node_addrs : list (NodeId * string)) (p : ClientPool.NodeClientPool * HealthMonitor)
    : outcome (ClientPool.NodeClientPool * HealthMonitor) :=
  match node_addrs with
  | [] => Returns p
  | node :: node_addrs' =>
      let '(now, connects, heartbeat_ok) := probe i in
      let! p' := check_node now connects heartbeat_ok node p in
      check_all probe (S i) node_addrs' p'
  end.

(** ** Specifications *)

(** What happens to one node in the monitor: news of it, by heartbeat or gossip. *)
Inductive event := Ok | Join | Fail.

Definition apply_event (now : Instant) (node_id : NodeId) (self : HealthMonitor) (e : event)
    : HealthMonitor :=
  match e with
  | Ok => mark_alive now node_id self
  | Join => mark_joining now node_id self
  | Fail => record_failure now node_id self
  end.

Definition apply_events (now : Instant) (node_id : NodeId) (es : list event) (self : HealthMonitor)
    : HealthMonitor := foldl (apply_event now node_id) self es.

(** The health a history of events stands for: the last good news and the number
    of failures since. *)
Fixpoint failures_since (es : list event) : option event * Z :=
  match es with
  | [] => (None, 0)
  | Fail :: es' => let '(base, n) := failures_since es' in (base, n + 1)
  | e :: _ => (Some e, 0)
  end.

Definition spec_health (threshold : Z) (base : option event) (failures : Z) : option NodeHealth :=
  if failures =? 0 then
    match base with None => None | Some Join => Some Joining | Some _ => Some Alive end
  else if Z.max 2 threshold <=? failures then Some Dead
  else Some Suspect.
End monitor.
End HealthMonitor.

(** ** Lemmas *)

Section lemmas.
Context `{UuidLib}.
Import HealthMonitor.

Lemma apply_event_other now i self e j : j ≠ i →
  nodes (apply_event now i self e) !! j = nodes self !! j.
Proof. intros Hj. by destruct e; simpl; apply lookup_insert_ne. Qed.

Lemma apply_event_threshold now i self e :
  failure_threshold (apply_event now i self e) = failure_threshold self.
Proof. by destruct e. Qed.

Lemma apply_events_threshold now i es : ∀ self,
  failure_threshold (apply_events now i es self) = failure_threshold self.
Proof.
  induction es as [|e es IH]; intros self; simpl; [done|]. unfold apply_events in *. simpl.
  by rewrite IH, apply_event_threshold.
Qed.

Lemma failures_since_nonneg es : 0 ≤ (failures_since es).2.
Proof.
  induction es as [|[] es IH]; simpl; try lia. destruct (failures_since es) as [b n]. simpl in *. lia.
Qed.

(** The entry a history (latest event first) leaves. *)
Lemma apply_events_entry now i threshold es : 0 ≤ threshold ≤ u32_max →
  let '(base, n) := failures_since es in
  nodes (apply_events now i (rev es) (with_failure_threshold new threshold)) !! i =
  (λ h, mkNodeHealthEntry h now (n mod 2 ^ 32)) <$> spec_health threshold base n.
Proof.
  intros Ht. induction es as [|e es IH]; [done|].
  simpl rev. unfold apply_events in *. rewrite foldl_app. simpl.
  set (m := foldl _ _ (rev es)) in *.
  assert (failure_threshold m = threshold) as Hm by (apply apply_events_threshold).
  destruct e; simpl; [by rewrite lookup_insert_eq..|].
  pose proof (failures_since_nonneg es) as Hn.
  destruct (failures_since es) as [base n]. simpl in Hn. unfold record_failure.
  rewrite Hm. simpl. rewrite lookup_insert_eq, IH. unfold spec_health. machine_unfold.
  rewrite (proj2 (Z.eqb_neq (n + 1) 0)) by lia.
  destruct (Z.eqb_spec n 0) as [->|Hn0].
  - destruct base as [[]|]; simpl; by rewrite (proj2 (Z.leb_gt (Z.max 2 threshold) _)) by lia.
  - assert (∀ c : Z, (n mod 2 ^ 32 + 1) mod 2 ^ 32 = (n + 1) mod 2 ^ 32) as Hmod
      by (intros; by rewrite Z.add_mod_idemp_l).
    destruct (Z.leb_spec (Z.max 2 threshold) n); simpl; rewrite Hmod by exact 0.
    + by rewrite (proj2 (Z.leb_le (Z.max 2 threshold) _)) by lia.
    + rewrite (Z.mod_small (n + 1)) by lia.
      destruct (Z.leb_spec threshold (n + 1)), (Z.leb_spec (Z.max 2 threshold) (n + 1)); (done || lia).
Qed.

Lemma apply_events_other now i es j : j ≠ i → ∀ self,
  nodes (apply_events now i es self) !! j = nodes self !! j.
Proof.
  intros Hj. induction es as [|e es IH]; intros self; simpl; [done|]. unfold apply_events in *. simpl.
  by rewrite IH, apply_event_other.
Qed.

Lemma is_alive_mark_alive now i self : is_alive i (mark_alive now i self) = true.
Proof. unfold is_alive. simpl. by rewrite lookup_insert_eq. Qed.
End lemmas.

(** ** Properties *)

Section properties.
Context `{UuidLib}.
Import HealthMonitor.

(** C28: the monitor's verdict is a function of the node's history: after any
    sequence of good news, joining news and failures, the node is Dead exactly when
    at least max(2, threshold) failures have come since the last good or joining
    news (or ever), Suspect when fewer but some have, and otherwise what the last
    news said; a node never heard of is routable.  Other nodes are unaffected. *)
Theorem health_is_history (now threshold : Z) (i : NodeId) (es : list event) :
  0 ≤ threshold ≤ u32_max →
  let m := apply_events now i (rev es) (with_failure_threshold new threshold) in
  let '(base, n) := failures_since es in
  all_health m !! i = spec_health threshold base n ∧
  (is_alive i m = true ↔
     n < Z.max 2 threshold ∧ ¬ (base = Some Join ∧ n = 0)) ∧
  ∀ j, j ≠ i → is_alive j m = true.
Proof.
  intros Ht m. pose proof (apply_events_entry now i threshold es Ht) as He. fold m in He.
  pose proof (failures_since_nonneg es) as Hn.
  destruct (failures_since es) as [base n]. simpl in Hn. split; [|split].
  - unfold all_health. rewrite lookup_fmap, He. by destruct (spec_health threshold base n).
  - unfold is_alive. rewrite He. unfold spec_health.
    destruct (Z.eqb_spec n 0) as [->|Hn0].
    + assert (0 < Z.max 2 threshold) by lia. destruct base as [[]|]; simpl; naive_solver.
    + destruct (Z.leb_spec (Z.max 2 threshold) n); simpl; split; [done|lia|naive_solver|done].
  - intros j Hj. unfold is_alive. unfold m. by rewrite apply_events_other.
Qed.

(** Further: a probe overrules the exclusion of joining nodes: the heartbeat handler
    of a joining node answers like any other, so the next successful probe makes
    the node routable although its rebalance has not finished. *)
Theorem heartbeat_routes_joining `{ClientPool.UriLib} (now now' : Z) (i : NodeId) (a : string)
    (pool pool' : ClientPool.NodeClientPool) (m : HealthMonitor) :
  ClientPool.get_client true a pool = Returns (true, pool') →
  is_alive i (mark_joining now i m) = false ∧
  ∃ m', check_node now' true true (i, a) (pool, mark_joining now i m) = Returns (pool', m') ∧
    is_alive i m' = true.
Proof.
  intros Hc. split.
  - unfold is_alive. simpl. by rewrite lookup_insert_eq.
  - exists (mark_alive now' i (mark_joining now i m)). split; [|apply is_alive_mark_alive].
    unfold check_node. by rewrite Hc.
Qed.
End properties.

(** ** Witnesses *)

Section witnesses.
#[local] Existing Instance Examples.string_uuid.
Import HealthMonitor.
Definition ex_uri : ClientPool.UriLib := λ s, negb (s =? "http://")%string.
#[local] Existing Instance ex_uri.
Definition ex_n : NodeId := @mkNodeId Examples.string_uuid "n".

Lemma health_is_history_witness :
  is_alive ex_n (apply_events 0 ex_n [Ok; Fail; Fail; Fail] (with_failure_threshold new 3)) = false ∧
  all_health (apply_events 0 ex_n [Ok; Fail; Fail; Fail] (with_failure_threshold new 3)) !! ex_n
    = Some Dead.
Proof.
  destruct (health_is_history 0 3 ex_n [Fail; Fail; Fail; Ok]) as (H1 & H2 & _);
    [by compute|]. split; [|exact H1].
  apply not_true_is_false. intros Ha. apply H2 in Ha as [Ha _]. by compute in Ha.
Defined.

Lemma heartbeat_routes_joining_witness : ∃ m',
  check_node 1 true true (ex_n, "127.0.0.1:5001"%string)
    (ClientPool.new, mark_joining 0 ex_n new) =
  Returns (ClientPool.mkNodeClientPool {["127.0.0.1:5001"%string]}, m') ∧ is_alive ex_n m' = true.
Proof.
  apply (heartbeat_routes_joining 0 1 ex_n "127.0.0.1:5001" ClientPool.new).
  vm_compute. reflexivity.
Defined.
End witnesses.
