(* ===== verification/Coordinator.v ===== *)
(** * The router's replication coordinator

    Models [crates/router/src/replication/coordinator.rs] and [config.rs].

    What the coordinator needs of the network is the interface [Network]: a world
    in which a connection is attempted and an RPC is made.  [Cluster] implements it
    by the nodes of [NodeService]; the properties of whole requests are proved
    against it.  While one request is served, the ring and the health monitor are
    the ones it started with. *)

From S2P Require Import Prelude Machine Text Common Ring Store NodeService Health.
Local Open Scope Z_scope.
Local Open Scope outcome_scope.

(** ** The interface of the network *)

Class Network := {
  World : Type;
  connect : string → World → bool * World;
  rpc_set : string → NodeService.SetRequest → World →
    (NodeService.Status + NodeService.SetResponse) * World;
  rpc_get : string → NodeService.GetRequest → World →
    (NodeService.Status + NodeService.GetResponse) * World;
  rpc_delete : string → NodeService.DeleteRequest → World →
    (NodeService.Status + NodeService.DeleteResponse) * World;
}.

Module Coordinator.
Import NodeService.

Record ReplicationConfig := mkReplicationConfig {
  replication_factor : Z;
  max_retries : nat;
}.
Definition default_config : ReplicationConfig := mkReplicationConfig 3 1.

Section coordinator.
Context `{UuidLib} `{Xxh3} `{ClientPool.UriLib} `{Network}.

(** What a request is served with. *)
Record ReplicationCoordinator := mkReplicationCoordinator {
  hash_ring : HashRing.HashRing;
  config : ReplicationConfig;
  health_monitor : HealthMonitor.HealthMonitor;
}.

(** What it changes: the client pool and the world. *)
Definition State : Type := ClientPool.NodeClientPool * World.

(** [client_pool.get_client(addr)]: the network is asked only when no client is
    cached. *)
Definition get_client (addr : string) (s : State) : outcome (bool * State) :=
  let '(pool, w) := s in
  let '(connects, w') := connect addr w in
  let! (client, pool') := ClientPool.get_client connects addr pool in
  Returns (client, (pool', if decide (addr ∈ ClientPool.clients pool) then w else w')).

(** The loop of [alive_preference_list]. *)
Fixpoint alive_loop (rf : Z) (h : HealthMonitor.HealthMonitor) (candidates alive_nodes : list NodeInfo)
    : list NodeInfo :=
  match candidates with
  | [] => alive_nodes
  | node :: candidates' =>
      let alive_nodes' :=
        if HealthMonitor.is_alive (id node) h then alive_nodes ++ [node] else alive_nodes in
      if rf <=? Z.of_nat (length alive_nodes') then alive_nodes'
      else alive_loop rf h candidates' alive_nodes'
  end.

Definition alive_preference_list (self : ReplicationCoordinator) (key : string) : list NodeInfo :=
  let rf := replication_factor (config self) in
  let extra := u64_add rf 2 in
  alive_loop rf (health_monitor self) (HashRing.get_preference_list (hash_ring self) key extra) [].

(** The attempts on one node in [set]. *)
Fixpoint set_attempts (attempts : nat) (addr : string) (req : SetRequest) (s : State)
    : outcome (bool * State) :=
  match attempts with
  | O => Returns (false, s)
  | S attempts' =>
      let! (client, (pool, w)) := get_client addr s in
      if client then
        match rpc_set addr req w with
        | (inr resp, w') => Returns (set_success resp, (pool, w'))
        | (inl _, w') => set_attempts attempts' addr req (pool, w')
        end
      else set_attempts attempts' addr req (pool, w)
  end.

Fixpoint set_nodes (attempts : nat) (nodes : list NodeInfo) (req : SetRequest) (s : State)
    : outcome (list bool * State) :=
  match nodes with
  | [] => Returns ([], s)
  | node :: nodes' =>
      let! (success, s1) := set_attempts attempts (addr node) req s in
      let! (results, s2) := set_nodes attempts nodes' req s1 in
      Returns (success :: results, s2)
  end.

Definition set (self : ReplicationCoordinator) (key : string) (value : bytes) (ttl_ms : option Z)
    (s : State) : outcome ((string + SetResponse) * State) :=
  match alive_preference_list self key with
  | [] => Returns (inl "No alive nodes available for write"%string, s)
  | pref_list =>
      let! (results, s') := set_nodes (max_retries (config self)) pref_list
                              (mkSetRequest key value ttl_ms) s in
      match results with
      | true :: _ => Returns (inr (mkSetResponse true), s')
      | _ => Returns (inl "Primary write failed"%string, s')
      end
  end.

(** The attempts on one node in [get]; a response only when the key was found. *)
Fixpoint get_attempts (attempts : nat) (addr : string) (req : GetRequest) (s : State)
    : outcome (option GetResponse * State) :=
  match attempts with
  | O => Returns (None, s)
  | S attempts' =>
      let! (client, (pool, w)) := get_client addr s in
      if client then
        match rpc_get addr req w with
        | (inr inner, w') =>
            if get_found inner then Returns (Some inner, (pool, w')) else Returns (None, (pool, w'))
        | (inl _, w') => get_attempts attempts' addr req (pool, w')
        end
      else get_attempts attempts' addr req (pool, w)
  end.

Fixpoint get_nodes (attempts : nat) (nodes : list NodeInfo) (req : GetRequest) (s : State)
    : outcome (GetResponse * State) :=
  match nodes with
  | [] => Returns (mkGetResponse None false, s)
  | node :: nodes' =>
      let! (r, s1) := get_attempts attempts (addr node) req s in
      match r with
      | Some inner => Returns (inner, s1)
      | None => get_nodes attempts nodes' req s1
      end
  end.

Definition get (self : ReplicationCoordinator) (key : string) (s : State)
    : outcome ((string + GetResponse) * State) :=
  match alive_preference_list self key with
  | [] => Returns (inl "No alive nodes available for read"%string, s)
  | pref_list =>
      let! (inner, s') := get_nodes (max_retries (config self)) pref_list (mkGetRequest key) s in
      Returns (inr inner, s')
  end.

(** The attempts on one node in [delete]: a failed connection ends them. *)
Fixpoint delete_attempts (attempts : nat) (addr : string) (req : DeleteRequest) (s : State)
    : outcome (bool * State) :=
  match attempts with
  | O => Returns (false, s)
  | S attempts' =>
      let! (client, (pool, w)) := get_client addr s in
      if client then
        match rpc_delete addr req w with
        | (inr resp, w') => Returns (delete_deleted resp, (pool, w'))
        | (inl _, w') => delete_attempts attempts' addr req (pool, w')
        end
      else Returns (false, (pool, w))
  end.

Fixpoint delete_nodes (attempts : nat) (nodes : list NodeInfo) (req : DeleteRequest)
    (any_deleted : bool) (s : State) : outcome (bool * State) :=
  match nodes with
  | [] => Returns (any_deleted, s)
  | node :: nodes' =>
      let! (deleted, s1) := delete_attempts attempts (addr node) req s in
      delete_nodes attempts nodes' req (any_deleted || deleted) s1
  end.

Definition delete (self : ReplicationCoordinator) (key : string) (s : State)
    : outcome ((string + DeleteResponse) * State) :=
  match alive_preference_list self key with
  | [] => Returns (inl "No alive nodes available for delete"%string, s)
  | pref_list =>
      let! (any_deleted, s') :=
        delete_nodes (max_retries (config self)) pref_list (mkDeleteRequest key) false s in
      Returns (inr (mkDeleteResponse any_deleted), s')
  end.
End coordinator.
End Coordinator.

(** ** A network of nodes *)

Module Cluster.
Import NodeService.
Section cluster.
Context `{UuidLib}.

(** The nodes by address, which of them can be reached, and the time. *)
Record World := mkWorld {
  nodes_at : gmap string Node;
  reachable : string → bool;
  time : Z;
}.

Definition put (w : World) (addr : string) (n : Node) : World :=
  mkWorld (<[addr := n]> (nodes_at w)) (reachable w) (time w).

(** The node that answers at an address. *)
Definition answering (w : World) (addr : string) : option Node :=
  if reachable w addr then nodes_at w !! addr else None.

Definition unreachable : Status := Unavailable "transport error".

Definition call {A} (addr : string) (handler : Node → outcome ((Status + A) * Node)) (w : World)
    : (Status + A) * World :=
  match answering w addr with
  | Some n =>
      match handler n with
      | Returns (r, n') => (r, put w addr n')
      | _ => (inl (Internal "stream closed"), w)
      end
  | None => (inl unreachable, w)
  end.

Definition cluster_network : Network := {|
  Coordinator.World := World;
  connect addr w := (bool_decide (is_Some (answering w addr)), w);
  rpc_set addr req w := call addr (set (time w) req) w;
  rpc_get addr req w := call addr (λ n, Returns (get (time w) req n)) w;
  rpc_delete addr req w := call addr (λ n, Returns (delete req n)) w;
|}.
End cluster.
End Cluster.

(** ** Lemmas: the preference list *)

Section preference.
Context `{UuidLib} `{Xxh3}.
Import Coordinator.

Lemma alive_loop_spec rf h candidates : ∀ acc, (Z.of_nat (length acc) < rf) →
  alive_loop rf h candidates acc =
  take (Z.to_nat rf) (acc ++ List.filter (λ n, HealthMonitor.is_alive (id n) h) candidates).
Proof.
  induction candidates as [|n candidates IH]; intros acc Hacc; simpl.
  { rewrite app_nil_r, take_ge by lia. done. }
  destruct (HealthMonitor.is_alive (id n) h).
  - destruct (Z.leb_spec rf (Z.of_nat (length (acc ++ [n])))) as [Hle|Hlt].
    + rewrite length_app in Hle. simpl in Hle.
      rewrite (cons_middle n acc (List.filter _ _)), app_assoc, take_app_length';
        [done|rewrite length_app; simpl; lia].
    + rewrite IH by done. by rewrite <- app_assoc.
  - rewrite (proj2 (Z.leb_gt _ _)) by lia. by apply IH.
Qed.

Lemma filter_fmap_ids (p : NodeId → bool) (l : list NodeInfo) :
  id <$> List.filter (λ n, p (id n)) l = List.filter p (id <$> l).
Proof.
  induction l as [|n l IH]; [done|]. rewrite fmap_cons. cbn [List.filter].
  destruct (p (id n)); [rewrite fmap_cons; by f_equal|done].
Qed.

Lemma alive_preference_ids (self : ReplicationCoordinator) key rf : HashRing.wf (hash_ring self) →
  replication_factor (config self) = rf → 1 ≤ rf ≤ u64_max - 2 →
  id <$> alive_preference_list self key =
  take (Z.to_nat rf) (List.filter (λ i, HealthMonitor.is_alive i (health_monitor self))
    (take (Z.to_nat (rf + 2))
       (HashRing.clockwise_ids (hash_ring self) (HashRing.hash_key key)))).
Proof.
  intros Hwf <- Hrf. unfold alive_preference_list.
  rewrite alive_loop_spec by (simpl; lia). cbn [app].
  rewrite fmap_take, (filter_fmap_ids (λ i, HealthMonitor.is_alive i (health_monitor self))).
  rewrite HashRing.preference_ids by done. rewrite u64_add_small by (machine_unfold; lia).
  by rewrite Z.max_r by lia.
Qed.

Lemma alive_preference_nodes (self : ReplicationCoordinator) key n :
  1 ≤ replication_factor (config self) →
  n ∈ alive_preference_list self key → n ∈ HashRing.nodes (hash_ring self).
Proof.
  intros Hrf. unfold alive_preference_list. rewrite alive_loop_spec by (simpl; lia).
  intros (k & Hk & _)%elem_of_take. apply list_elem_of_lookup_2 in Hk.
  cbn [app] in Hk. apply elem_of_filterb in Hk as [_ Hk]. by eapply HashRing.preference_list_nodes.
Qed.

Lemma alive_preference_nonempty (self : ReplicationCoordinator) key :
  HashRing.wf (hash_ring self) → 1 ≤ replication_factor (config self) ≤ u64_max - 2 →
  HashRing.ring (hash_ring self) ≠ [] →
  (∀ i, HealthMonitor.is_alive i (health_monitor self) = true) →
  alive_preference_list self key ≠ [].
Proof.
  intros Hwf Hrf Hring Halive Hnil.
  pose proof (alive_preference_ids self key _ Hwf eq_refl Hrf) as Hids. rewrite Hnil in Hids.
  destruct (HashRing.ring (hash_ring self)) as [|[p i] l] eqn:E; [done|].
  assert (i ∈ HashRing.clockwise_ids (hash_ring self) (HashRing.hash_key key)) as Hi.
  { apply HashRing.elem_of_clockwise_ids. exists p. rewrite E. by left. }
  destruct (HashRing.clockwise_ids _ _) as [|j js]; [by apply elem_of_nil in Hi|].
  destruct (Z.to_nat (replication_factor (config self) + 2)) as [|a] eqn:Ea; [lia|].
  destruct (Z.to_nat (replication_factor (config self))) as [|b] eqn:Eb; [lia|].
  cbn [take List.filter] in Hids. by rewrite Halive in Hids.
Qed.
End preference.

(** ** Lemmas: requests against a cluster *)

Section cluster.
Context `{UuidLib} `{Xxh3} `{ClientPool.UriLib}.
Import NodeService Coordinator Cluster.
#[local] Existing Instance cluster_network.

(** The node that results when the node at an address accepts a write. *)
Definition accepted (req : SetRequest) (w : Cluster.World) (addr : string) : option Node :=
  n ← answering w addr;
  match NodeService.set (time w) req n with Returns (inr _, n') => Some n' | _ => None end.

Definition apply_set (req : SetRequest) (w : Cluster.World) (addr : string) : Cluster.World :=
  match accepted req w addr with Some n' => put w addr n' | None => w end.

(** The value the node at an address answers. *)
Definition found (key : string) (w : Cluster.World) (addr : string) : option bytes :=
  n ← answering w addr; (CacheStore.get (time w) key (store n)).1.

Definition valid_addr (addr : string) : Prop := ClientPool.uri_valid ("http://" +:+ addr) = true.

Lemma get_client_cluster addr pool w : valid_addr addr → ∃ client pool',
  get_client addr (pool, w) = Returns (client, (pool', w)) ∧
  (is_Some (answering w addr) → client = true).
Proof.
  intros Hv. unfold get_client, ClientPool.get_client. cbn [connect cluster_network].
  destruct (decide (addr ∈ ClientPool.clients pool)) as [Hin|Hin]; cbn [outcome_bind]; [by eauto|].
  rewrite Hv. case_bool_decide; cbn [outcome_bind]; [by eauto|].
  exists false, pool. by split.
Qed.

Lemma put_same w addr n : answering w addr = Some n → put w addr n = w.
Proof.
  unfold answering, put. destruct (reachable w addr); [|done]. intros Hn.
  rewrite insert_id by done. by destruct w.
Qed.

Lemma set_outcomes now req n : 
  (∃ r, NodeService.set now req n = Returns (inr (mkSetResponse true), with_store n r)) ∨
  (∃ e, NodeService.set now req n = Returns (inl e, n)) ∨
  (∃ msg, NodeService.set now req n = Panics msg).
Proof.
  unfold NodeService.set. destruct (joining n); [right; left; eauto|].
  unfold CacheStore.set. destruct (CacheStore.expiry_of now _) as [t|msg|] eqn:E; simpl; [eauto|eauto|].
  destruct (set_ttl_ms req); simpl in E; [|done]. unfold instant_add in E. by destruct (_ <? _).
Qed.

Lemma rpc_set_cluster req w addr :
  rpc_set addr req w = match accepted req w addr with
    | Some n' => (inr (mkSetResponse true), put w addr n')
    | None => (match rpc_set addr req w with (inl e, _) => inl e | _ => inl unreachable end, w)
    end.
Proof.
  cbn [rpc_set cluster_network]. unfold call, accepted.
  destruct (answering w addr) as [n|] eqn:Ea; simpl; [|done].
  destruct (set_outcomes (time w) req n) as [[st ->]|[[e ->]|[msg ->]]]; [done| |done].
  by rewrite (put_same w addr n).
Qed.

Lemma rpc_set_refused req w addr : accepted req w addr = None →
  ∃ e, rpc_set addr req w = (inl e, w).
Proof.
  cbn [rpc_set cluster_network]. unfold call, accepted.
  destruct (answering w addr) as [n|] eqn:Ea; simpl; [|eauto].
  destruct (set_outcomes (time w) req n) as [[st ->]|[[e ->]|[msg ->]]]; [done| |eauto].
  intros _. exists e. by rewrite (put_same w addr n).
Qed.

Lemma rpc_set_accepted req w addr n' : accepted req w addr = Some n' →
  rpc_set addr req w = (inr (mkSetResponse true), put w addr n').
Proof. intros Ha. by rewrite rpc_set_cluster, Ha. Qed.

Lemma set_attempts_cluster req addr attempts : valid_addr addr → ∀ pool w, ∃ pool',
  set_attempts attempts addr req (pool, w) = Returns
    (match attempts with O => false | _ => bool_decide (is_Some (accepted req w addr)) end,
     (pool', match attempts with O => w | _ => apply_set req w addr end)).
Proof.
  intros Hv. induction attempts as [|a IH]; intros pool w; [by exists pool|]. cbn [set_attempts].
  destruct (get_client_cluster addr pool w Hv) as (client & pool1 & -> & Hc). cbn [outcome_bind].
  unfold apply_set in *. destruct client.
  - rewrite rpc_set_cluster. destruct (accepted req w addr) as [n'|] eqn:Ea; [by exists pool1|].
    assert (∃ pool', set_attempts a addr req (pool1, w) =
      Returns (bool_decide (is_Some (None : option Node)), (pool', w))) as He.
    { destruct (IH pool1 w) as [pool2 Heq]. rewrite Ea in Heq. exists pool2.
      rewrite Heq. by destruct a. }
    destruct (rpc_set addr req w) as [[e|r] w']; exact He.
  - assert (accepted req w addr = None) as Ea.
    { unfold accepted. destruct (answering w addr); [|done]. by discriminate Hc. }
    destruct (IH pool1 w) as [pool2 Heq]. rewrite Ea in *. exists pool2. rewrite Heq. by destruct a.
Qed.

Lemma accepted_apply req w x a : accepted req (apply_set req w x) a = accepted req w a.
Proof.
  unfold apply_set. destruct (accepted req w x) as [n'|] eqn:Ex; [|done].
  destruct (decide (a = x)) as [->|Hne].
  - rewrite Ex. unfold accepted in *. destruct (answering w x) as [n|] eqn:Ea; [|done].
    simpl in Ex. assert (answering (put w x n') x = Some n') as ->.
    { unfold answering in *. simpl. destruct (reachable w x); [|done]. by rewrite lookup_insert_eq. }
    simpl. destruct (set_outcomes (time w) req n) as [[st Hs]|[[e Hs]|[msg Hs]]];
      rewrite Hs in Ex; try done. injection Ex as <-.
    unfold NodeService.set in *. change (joining (with_store n st)) with (joining n).
    destruct (joining n); [done|]. unfold CacheStore.set in *.
    destruct (CacheStore.expiry_of _ _) as [t| |]; simpl in *; try done.
    injection Hs as <-. simpl. unfold with_store, CacheStore.with_data. simpl.
    by rewrite insert_insert_eq.
  - unfold accepted. assert (answering (put w x n') a = answering w a) as ->; [|done].
    unfold answering. simpl. destruct (reachable w a); [|done]. by rewrite lookup_insert_ne.
Qed.
(** The world after writing to a list of addresses. *)
Definition apply_sets (req : SetRequest) (addrs : list string) (w : Cluster.World) : Cluster.World :=
  foldl (apply_set req) w addrs.

Lemma apply_set_frame req w x :
  reachable (apply_set req w x) = reachable w ∧ time (apply_set req w x) = time w.
Proof. unfold apply_set. by destruct (accepted req w x). Qed.

Lemma apply_sets_frame req addrs : ∀ w,
  reachable (apply_sets req addrs w) = reachable w ∧ time (apply_sets req addrs w) = time w.
Proof.
  induction addrs as [|x addrs IH]; intros w; [done|].
  destruct (IH (apply_set req w x)) as [H1' H2']. destruct (apply_set_frame req w x) as [H3' H4'].
  split; [by rewrite <- H3'|by rewrite <- H4'].
Qed.

Lemma apply_sets_lookup req addrs : ∀ w a,
  nodes_at (apply_sets req addrs w) !! a =
  if decide (a ∈ addrs) then
    match accepted req w a with Some n' => Some n' | None => nodes_at w !! a end
  else nodes_at w !! a.
Proof.
  induction addrs as [|x addrs IH]; intros w a; cbn [apply_sets foldl].
  { by rewrite decide_False by by apply not_elem_of_nil. }
  fold (apply_sets req addrs (apply_set req w x)). rewrite IH, accepted_apply.
  assert (nodes_at (apply_set req w x) !! a =
    if decide (a = x) then match accepted req w a with Some n' => Some n' | None => nodes_at w !! a end
    else nodes_at w !! a) as ->.
  { unfold apply_set. case_decide as Ha.
    - subst. destruct (accepted req w x); simpl; [by rewrite lookup_insert_eq|done].
    - destruct (accepted req w x); simpl; [by rewrite lookup_insert_ne|done]. }
  destruct (decide (a ∈ addrs)) as [Hin|Hin].
  - rewrite (decide_True (P := a ∈ x :: addrs)) by by right.
    destruct (accepted req w a); [done|by case_decide].
  - destruct (decide (a = x)) as [->|Hne].
    + by rewrite decide_True by by left.
    + rewrite decide_False; [done|]. by intros [?|?]%elem_of_cons.
Qed.

Lemma set_nodes_cluster req attempts nodes : Forall (λ n, valid_addr (addr n)) nodes →
  ∀ pool w, ∃ results pool', set_nodes (S attempts) nodes req (pool, w) =
    Returns (results, (pool', apply_sets req (addr <$> nodes) w)) ∧
  results = (λ n, bool_decide (is_Some (accepted req w (addr n)))) <$> nodes.
Proof.
  induction 1 as [|n nodes Hn _ IH]; intros pool w; [by exists [], pool|].
  cbn [set_nodes]. destruct (set_attempts_cluster req (addr n) (S attempts) Hn pool w) as [pool1 ->].
  cbn [outcome_bind]. destruct (IH pool1 (apply_set req w (addr n))) as (results & pool2 & -> & ->).
  cbn [outcome_bind]. eexists _, pool2. split; [reflexivity|]. rewrite fmap_cons. f_equal.
  apply list_fmap_ext. intros k n' _. by rewrite accepted_apply.
Qed.

(** Reading changes no value anyone can read. *)
Definition same_values (w w' : Cluster.World) : Prop := ∀ key a, found key w' a = found key w a.

Lemma get_same_values w a n k : answering w a = Some n →
  same_values w (put w a (NodeService.get (time w) (mkGetRequest k) n).2).
Proof.
  intros Ha key b. unfold found. destruct (decide (b = a)) as [->|Hne].
  - rewrite Ha. unfold answering in *. simpl. destruct (reachable w a); [|done].
    rewrite lookup_insert_eq. simpl.
    assert (store (NodeService.get (time w) (mkGetRequest k) n).2 =
      (CacheStore.get (time w) k (store n)).2) as ->.
    { unfold NodeService.get. simpl. by destruct (CacheStore.get _ _ _) as [[?|] ?]. }
    destruct (get_view (time w) key (store n)) as [-> _].
    destruct (get_view (time w) key (CacheStore.get (time w) k (store n)).2) as [-> _]. simpl.
    by destruct (get_view (time w) k (store n)) as [_ ->].
  - assert (answering (put w a (NodeService.get (time w) (mkGetRequest k) n).2) b = answering w b)
      as ->; [|done].
    unfold answering. simpl. destruct (reachable w b); [|done]. by rewrite lookup_insert_ne.
Qed.

Lemma get_attempts_cluster key addr attempts : valid_addr addr → ∀ pool w, ∃ pool' w',
  get_attempts attempts addr (mkGetRequest key) (pool, w) = Returns
    (match attempts with
     | O => None
     | _ => (λ v, mkGetResponse (Some v) true) <$> found key w addr
     end, (pool', w')) ∧ same_values w w'.
Proof.
  intros Hv. induction attempts as [|a IH]; intros pool w; [by exists pool, w|]. cbn [get_attempts].
  destruct (get_client_cluster addr pool w Hv) as (client & pool1 & -> & Hc). cbn [outcome_bind].
  assert (answering w addr = None → ∃ pool' w',
    get_attempts a addr (mkGetRequest key) (pool1, w) =
    Returns ((λ v, mkGetResponse (Some v) true) <$> found key w addr, (pool', w')) ∧ same_values w w')
    as Hretry.
  { intros Hn. destruct (IH pool1 w) as (pool2 & w2 & -> & Hs). exists pool2, w2. split; [|done].
    unfold found. rewrite Hn. by destruct a. }
  destruct client; [|apply Hretry; destruct (answering w addr); [by discriminate Hc|done]].
  cbn [rpc_get cluster_network]. unfold call.
  destruct (answering w addr) as [n|] eqn:Ea; [|by apply Hretry].
  pose proof (get_same_values w addr n key Ea) as Hs. unfold found. rewrite Ea. cbn [mbind option_bind].
  unfold NodeService.get in *. cbn [get_key] in *.
  destruct (CacheStore.get (time w) key (store n)) as [[v|] st]; simpl in *; eauto.
Qed.

Lemma get_nodes_cluster key attempts nodes : Forall (λ n, valid_addr (addr n)) nodes →
  ∀ pool w, ∃ s', get_nodes (S attempts) nodes (mkGetRequest key) (pool, w) = Returns
    (match head (omap (λ n, found key w (addr n)) nodes) with
     | Some v => mkGetResponse (Some v) true
     | None => mkGetResponse None false
     end, s').
Proof.
  induction 1 as [|n nodes Hn _ IH]; intros pool w; [eauto|]. cbn [get_nodes].
  destruct (get_attempts_cluster key (addr n) (S attempts) Hn pool w) as (pool1 & w1 & -> & Hs).
  cbn [outcome_bind omap list_omap]. destruct (found key w (addr n)) as [v|];
    cbn [fmap option_fmap option_map head]; [by eauto|].
  destruct (IH pool1 w1) as [s' ->]. exists s'. do 2 f_equal.
  assert (head (omap (λ n, found key w1 (addr n)) nodes) =
    head (omap (λ n, found key w (addr n)) nodes)) as Hh; [|simpl in *; by rewrite Hh].
  f_equal. apply list_omap_ext. apply Forall_Forall2_diag, Forall_forall. intros n' _. apply Hs.
Qed.

(** A node that accepted a write answers it, as long as it has not expired. *)
Lemma accepted_found key v ttl w a n' now :
  accepted (mkSetRequest key v ttl) w a = Some n' →
  answering w a ≠ None ∧
  (CacheStore.get now key (store n')).1 =
    if match ttl with Some ms => now <? time w + from_millis ms | None => true end
    then Some v else None.
Proof.
  unfold accepted. destruct (answering w a) as [n|]; [|done]. simpl.
  destruct (set_outcomes (time w) (mkSetRequest key v ttl) n) as [[st Hs]|[[e Hs]|[msg Hs]]];
    rewrite Hs; try done. intros [= <-]. split; [done|].
  unfold NodeService.set in Hs. destruct (joining n); [done|].
  apply outcome_bind_Returns in Hs as (st' & Hset & [= <-]).
  cbn [set_key set_value set_ttl_ms] in Hset. cbn [store with_store].
  rewrite (set_then_get _ now _ _ _ _ _ Hset). by destruct ttl.
Qed.

(** *** Deletes *)

(** The node a delete leaves at an address, and whether it reports a deletion. *)
Definition deleting (key : string) (w : Cluster.World) (addr : string) : option (bool * Node) :=
  n ← answering w addr;
  let '(r, n') := NodeService.delete (mkDeleteRequest key) n in
  Some (match r with inr resp => delete_deleted resp | inl _ => false end, n').

Definition deleted_at (key : string) (w : Cluster.World) (addr : string) : bool :=
  match deleting key w addr with Some (b, _) => b | None => false end.

Definition apply_delete (key : string) (w : Cluster.World) (addr : string) : Cluster.World :=
  match deleting key w addr with Some (_, n') => put w addr n' | None => w end.

Lemma answering_put w x n' a : is_Some (answering w x) →
  answering (put w x n') a = if decide (a = x) then Some n' else answering w a.
Proof.
  unfold answering. simpl. intros [n Hn]. case_decide as Ha.
  - subst. destruct (reachable w x); [by rewrite lookup_insert_eq|done].
  - by rewrite lookup_insert_ne.
Qed.

(** A second delete of the key finds nothing to do. *)
Lemma delete_idem key n : let '(r, n') := NodeService.delete (mkDeleteRequest key) n in
  NodeService.delete (mkDeleteRequest key) n' =
    (match r with inr _ => inr (mkDeleteResponse false) | inl e => inl e end, n') ∧
  (∀ now, (CacheStore.get now key (store n')).1 = None).
Proof.
  assert (∀ now st, (CacheStore.get now key (CacheStore.remove_key key st)).1 = None) as Hget.
  { intros now st. destruct (get_view now key (CacheStore.remove_key key st)) as [-> _].
    rewrite view_remove. cbn [fst]. by rewrite lookup_delete_eq. }
  assert (∀ st, CacheStore.remove_key key (CacheStore.remove_key key st) =
    CacheStore.remove_key key st) as Hidem.
  { intros st. unfold CacheStore.remove_key, CacheStore.with_data. simpl. by rewrite delete_delete_eq. }
  unfold NodeService.delete. cbn [delete_key]. destruct (joining n) eqn:Ej;
    unfold CacheStore.delete; cbn [fst snd].
  - split; [|intros now; apply Hget]. unfold joining in *. simpl. rewrite Ej, Hidem.
    do 2 f_equal. set_solver.
  - split; [|intros now; apply Hget]. unfold joining, with_store in *. simpl. rewrite Ej, Hidem.
    rewrite bool_decide_eq_false_2; [done|]. rewrite lookup_delete_eq. by intros [? ?].
Qed.

Lemma apply_delete_idem key w a : apply_delete key (apply_delete key w a) a = apply_delete key w a.
Proof.
  unfold apply_delete at 1 3. unfold deleting.
  destruct (answering w a) as [n|] eqn:Ha; simpl.
  - pose proof (delete_idem key n) as Hd. destruct (NodeService.delete _ n) as [r n'] eqn:E.
    destruct Hd as [Hd _].
    assert (apply_delete key w a = put w a n') as Hw.
    { unfold apply_delete, deleting. rewrite Ha. simpl. by rewrite E. }
    rewrite Hw, answering_put, decide_True by (done || by rewrite Ha). simpl. rewrite Hd.
    apply put_same. rewrite answering_put, decide_True; [done|done|by rewrite Ha].
  - assert (apply_delete key w a = w) as Hw by (unfold apply_delete, deleting; by rewrite Ha).
    by rewrite Hw, Ha.
Qed.

(** Retrying after a refusal changes nothing. *)
Lemma deleting_refused key w a n e n' : answering w a = Some n →
  NodeService.delete (mkDeleteRequest key) n = (inl e, n') →
  deleted_at key (put w a n') a = false ∧ apply_delete key (put w a n') a = put w a n'.
Proof.
  intros Ha Hd. pose proof (delete_idem key n) as Hi. rewrite Hd in Hi. destruct Hi as [Hi _].
  assert (apply_delete key w a = put w a n') as Hw
    by (unfold apply_delete, deleting; rewrite Ha; simpl; by rewrite Hd).
  split; [|by rewrite <- Hw, apply_delete_idem].
  unfold deleted_at, deleting. rewrite answering_put, decide_True by (done || by rewrite Ha).
  simpl. by rewrite Hi.
Qed.

Lemma delete_attempts_cluster key addr attempts : valid_addr addr → ∀ pool w, ∃ pool',
  delete_attempts attempts addr (mkDeleteRequest key) (pool, w) = Returns
    (match attempts with O => false | _ => deleted_at key w addr end,
     (pool', match attempts with O => w | _ => apply_delete key w addr end)).
Proof.
  intros Hv. induction attempts as [|a IH]; intros pool w; [by exists pool|]. cbn [delete_attempts].
  destruct (get_client_cluster addr pool w Hv) as (client & pool1 & -> & Hc). cbn [outcome_bind].
  assert (∀ w' : Cluster.World, deleted_at key w' addr = false →
    apply_delete key w' addr = w' → ∃ pool',
    delete_attempts a addr (mkDeleteRequest key) (pool1, w') = Returns (false, (pool', w'))) as Hretry.
  { intros w' Hb Hw. destruct (IH pool1 w') as [pool2 He]. exists pool2.
    refine (eq_trans He _). destruct a; [done|].
    by rewrite Hb, Hw. }
  destruct (answering w addr) as [n|] eqn:Ea.
  - rewrite Hc by done. cbn [rpc_delete cluster_network]. unfold call. rewrite Ea.
    destruct (NodeService.delete (mkDeleteRequest key) n) as [r n'] eqn:Ed.
    assert (deleting key w addr =
      Some (match r with inr resp => delete_deleted resp | inl _ => false end, n')) as Hdel
      by (unfold deleting; rewrite Ea; simpl; by rewrite Ed).
    unfold deleted_at at 1, apply_delete at 1. rewrite Hdel. destruct r as [e|resp]; [|by exists pool1].
    destruct (deleting_refused key w addr n e n' Ea Ed) as [Hb Hw]. by apply Hretry.
  - assert (deleting key w addr = None) as Hdel by (unfold deleting; by rewrite Ea).
    assert (deleted_at key w addr = false) as Hb by (unfold deleted_at; by rewrite Hdel).
    assert (apply_delete key w addr = w) as Hw by (unfold apply_delete; by rewrite Hdel).
    rewrite Hb, Hw. destruct client; [|by exists pool1].
    cbn [rpc_delete cluster_network]. unfold call. rewrite Ea. by apply Hretry.
Qed.

(** The world after deleting at a list of addresses. *)
Definition apply_deletes (key : string) (addrs : list string) (w : Cluster.World) : Cluster.World :=
  foldl (apply_delete key) w addrs.

Lemma apply_delete_frame key w x :
  reachable (apply_delete key w x) = reachable w ∧ time (apply_delete key w x) = time w.
Proof. unfold apply_delete. by destruct (deleting key w x) as [[]|]. Qed.

Lemma apply_deletes_frame key addrs : ∀ w,
  reachable (apply_deletes key addrs w) = reachable w ∧ time (apply_deletes key addrs w) = time w.
Proof.
  induction addrs as [|x addrs IH]; intros w; [done|].
  destruct (IH (apply_delete key w x)) as [H1' H2']. destruct (apply_delete_frame key w x) as [H3' H4'].
  split; [by rewrite <- H3'|by rewrite <- H4'].
Qed.

Lemma apply_delete_nodes key w x a : nodes_at (apply_delete key w x) !! a =
  if decide (a = x) then match deleting key w a with Some (_, n') => Some n' | None => nodes_at w !! a end
  else nodes_at w !! a.
Proof.
  unfold apply_delete. case_decide as Ha.
  - subst. destruct (deleting key w x) as [[]|]; simpl; [by rewrite lookup_insert_eq|done].
  - destruct (deleting key w x) as [[]|]; simpl; [by rewrite lookup_insert_ne|done].
Qed.

Lemma deleting_apply_ne key w x a : a ≠ x → deleting key (apply_delete key w x) a = deleting key w a.
Proof.
  intros Ha. unfold deleting. assert (answering (apply_delete key w x) a = answering w a) as ->; [|done].
  unfold answering. destruct (apply_delete_frame key w x) as [-> _].
  rewrite apply_delete_nodes, decide_False by done. done.
Qed.

Lemma apply_deletes_lookup key addrs : ∀ w a,
  nodes_at (apply_deletes key addrs w) !! a =
  if decide (a ∈ addrs) then
    match deleting key w a with Some (_, n') => Some n' | None => nodes_at w !! a end
  else nodes_at w !! a.
Proof.
  induction addrs as [|x addrs IH]; intros w a; cbn [apply_deletes foldl].
  { by rewrite decide_False by by apply not_elem_of_nil. }
  fold (apply_deletes key addrs (apply_delete key w x)). rewrite IH.
  destruct (decide (a = x)) as [->|Hne].
  - rewrite (decide_True (P := x ∈ x :: addrs)) by by left.
    assert (match deleting key (apply_delete key w x) x with
      | Some (_, n') => Some n' | None => nodes_at (apply_delete key w x) !! x end =
      nodes_at (apply_delete key w x) !! x) as He.
    { pose proof (apply_delete_idem key w x) as Hi. unfold apply_delete at 1 in Hi.
      destruct (deleting key (apply_delete key w x) x) as [[b n']|]; [|done].
      rewrite <- Hi. simpl. by rewrite lookup_insert_eq. }
    rewrite He, apply_delete_nodes, (decide_True (P := x = x)) by done. by case_decide.
  - rewrite deleting_apply_ne, apply_delete_nodes, (decide_False (P := a = x)) by done.
    apply decide_ext. rewrite elem_of_cons. naive_solver.
Qed.

Lemma deleted_at_apply key w x a : deleted_at key (apply_delete key w x) a =
  if decide (a = x) then false else deleted_at key w a.
Proof.
  case_decide as Ha; [subst|unfold deleted_at; by rewrite deleting_apply_ne].
  unfold deleted_at, apply_delete. unfold deleting at 2.
  destruct (answering w x) as [n|] eqn:Ea; simpl; [|unfold deleting; by rewrite Ea].
  pose proof (delete_idem key n) as Hi. destruct (NodeService.delete _ n) as [r n'].
  destruct Hi as [Hi _]. unfold deleting. rewrite answering_put, decide_True by (done || by rewrite Ea).
  simpl. rewrite Hi. by destruct r.
Qed.

Lemma delete_nodes_cluster key attempts nodes : Forall (λ n, valid_addr (addr n)) nodes →
  ∀ any pool w, ∃ pool', delete_nodes (S attempts) nodes (mkDeleteRequest key) any (pool, w) =
    Returns (any || existsb (λ n, deleted_at key w (addr n)) nodes,
             (pool', apply_deletes key (addr <$> nodes) w)).
Proof.
  induction 1 as [|n nodes Hn _ IH]; intros any pool w.
  { exists pool. simpl. by rewrite orb_false_r. }
  cbn [delete_nodes].
  destruct (delete_attempts_cluster key (addr n) (S attempts) Hn pool w) as [pool1 ->].
  cbn [outcome_bind].
  destruct (IH (any || deleted_at key w (addr n)) pool1 (apply_delete key w (addr n))) as [pool2 Hr].
  exists pool2. refine (eq_trans Hr _). do 2 f_equal. cbn [existsb]. rewrite <- orb_assoc. f_equal.
  destruct (deleted_at key w (addr n)) eqn:Eb; [done|]. simpl. clear -Eb.
  induction nodes as [|n' nodes IH]; [done|]. simpl. rewrite IH. f_equal.
  rewrite deleted_at_apply. case_decide as Ha; [by rewrite Ha, Eb|done].
Qed.

(** What a read finds after a delete, when other nodes can be reached. *)
Lemma found_after_deletes key addrs w r a : a ∈ addrs →
  let w' := apply_deletes key addrs w in
  let w'' := Cluster.mkWorld (nodes_at w') r (time w') in
  found key w'' a =
    match answering w a with
    | Some _ => None
    | None => found key (Cluster.mkWorld (nodes_at w) r (time w)) a
    end.
Proof.
  intros Ha w' w''.
  pose proof (apply_deletes_lookup key addrs w a) as Hl. rewrite decide_True in Hl by done.
  fold w' in Hl. unfold found, answering at 1 3. simpl.
  destruct (apply_deletes_frame key addrs w) as [_ Ht]. fold w' in Ht.
  destruct (r a); [|by destruct (answering w a)]. rewrite Hl, Ht. unfold deleting.
  destruct (answering w a) as [n|]; simpl; [|done].
  pose proof (delete_idem key n) as Hi. destruct (NodeService.delete _ n) as [res n'].
  destruct Hi as [_ Hi]. simpl. apply Hi.
Qed.
End cluster.

(** Rewrites a run, up to the unfolding of the network's instance. *)
Ltac rewrite_run H :=
  match type of H with
  | _ = ?r =>
      match goal with
      | |- context [outcome_bind ?m ?k] =>
          let Hm := fresh in assert (m = r) as Hm by exact H; rewrite Hm; clear Hm
      end
  end; cbn [outcome_bind].

(** ** Properties *)

Section properties.
Context `{UuidLib} `{Xxh3} `{ClientPool.UriLib}.
Import NodeService Coordinator Cluster.
#[local] Existing Instance cluster_network.

(** C27: the nodes a request goes to: the first [rf] routable nodes among the
    [rf + 2] that a clockwise walk from the key meets first; they are distinct and
    routable, and when at most two of those [rf + 2] are not routable, there are
    exactly [rf]. *)
Theorem alive_preference_list_correct (self : ReplicationCoordinator) (key : string) (rf : Z) :
  HashRing.wf (hash_ring self) → replication_factor (config self) = rf → 1 ≤ rf ≤ u64_max - 2 →
  let routable i := HealthMonitor.is_alive i (health_monitor self) in
  let candidates := take (Z.to_nat (rf + 2))
    (HashRing.clockwise_ids (hash_ring self) (HashRing.hash_key key)) in
  id <$> alive_preference_list self key = take (Z.to_nat rf) (List.filter routable candidates) ∧
  NoDup (id <$> alive_preference_list self key) ∧
  (∀ n, n ∈ alive_preference_list self key → routable (id n) = true) ∧
  (length candidates = Z.to_nat (rf + 2) →
   (length (List.filter (λ i, negb (routable i)) candidates) ≤ 2)%nat →
   length (alive_preference_list self key) = Z.to_nat rf).
Proof.
  intros Hwf Hc Hrf routable candidates.
  pose proof (alive_preference_ids self key rf Hwf Hc Hrf) as Hids. fold candidates in Hids.
  fold routable in Hids. change (λ i, routable i) with routable in Hids.
  split; [exact Hids|]. split; [|split].
  - rewrite Hids. apply NoDup_take_le, NoDup_filterb, NoDup_take_le, HashRing.clockwise_ids_NoDup.
  - intros n Hn. apply (list_elem_of_fmap_2 id) in Hn. rewrite Hids in Hn.
    apply elem_of_take in Hn as (k & Hk & _). apply list_elem_of_lookup_2, elem_of_filterb in Hk.
    apply Hk.
  - intros Hlen Hdead. rewrite <- (length_fmap id), Hids, length_take.
    pose proof (List.filter_length routable candidates) as Hf. lia.
Qed.

(** C25: a replicated write, against a cluster: every node of the preference list
    that can be reached and accepts the write has it, every other node of the
    cluster is as before; the answer is success exactly when the first node of the
    list accepted. *)
Theorem replicated_set_exact (self : ReplicationCoordinator) (key : string) (value : list ascii)
    (ttl_ms : option Z) (pool : ClientPool.NodeClientPool) (w : Cluster.World)
    (primary : NodeInfo) (replicas : list NodeInfo) :
  alive_preference_list self key = primary :: replicas →
  Forall (λ n, valid_addr (addr n)) (primary :: replicas) → max_retries (config self) ≠ 0%nat →
  let req := mkSetRequest key value ttl_ms in
  ∃ r pool' w', set self key value ttl_ms (pool, w) = Returns (r, (pool', w')) ∧
    r = (if bool_decide (is_Some (accepted req w (addr primary)))
         then inr (mkSetResponse true) else inl "Primary write failed"%string) ∧
    ∀ a, nodes_at w' !! a =
      if decide (a ∈ addr <$> primary :: replicas) then
        match accepted req w a with Some n' => Some n' | None => nodes_at w !! a end
      else nodes_at w !! a.
Proof.
  intros Hp Hv Hm req. subst req. set (req := mkSetRequest key value ttl_ms).
  unfold set. rewrite Hp. change (mkSetRequest key value ttl_ms) with req. destruct (max_retries (config self)) as [|k]; [done|].
  destruct (set_nodes_cluster req k _ Hv pool w) as (results & pool' & Hr & ->).
  rewrite_run Hr. rewrite fmap_cons.
  exists (if bool_decide (is_Some (accepted req w (addr primary)))
         then inr (mkSetResponse true) else inl "Primary write failed"%string),
    pool', (apply_sets req (addr <$> primary :: replicas) w).
  split; [by case_bool_decide|]. split; [done|]. intros a. apply apply_sets_lookup.
Qed.

(** Further: a replicated read, against a cluster: the answer is the value of the
    first node of the preference list that can be reached and has one; when none
    has, and also when none can be reached, the answer is "not found". *)
Theorem replicated_get_exact (self : ReplicationCoordinator) (key : string)
    (pool : ClientPool.NodeClientPool) (w : Cluster.World) :
  alive_preference_list self key ≠ [] →
  Forall (λ n, valid_addr (addr n)) (alive_preference_list self key) →
  max_retries (config self) ≠ 0%nat →
  ∃ s', get self key (pool, w) = Returns (inr
    match head (omap (λ n, found key w (addr n)) (alive_preference_list self key)) with
    | Some v => mkGetResponse (Some v) true
    | None => mkGetResponse None false
    end, s').
Proof.
  intros Hne Hv Hm. unfold get. destruct (max_retries (config self)) as [|k]; [done|].
  destruct (get_nodes_cluster key k _ Hv pool w) as [s' Hs]. exists s'.
  destruct (alive_preference_list self key); [done|]. by rewrite_run Hs.
Qed.

(** Further: read your writes: after an acknowledged write, a read of the key through
    the same router finds the value, unless its TTL is 0, as long as the ring, the
    health of the nodes and the cluster stay as they are. *)
Theorem read_your_writes (self : ReplicationCoordinator) (key : string) (value : list ascii)
    (ttl_ms : option Z) (s : State) (pool1 : ClientPool.NodeClientPool) (w1 : Cluster.World)
    (r : SetResponse) :
  Forall (λ n, valid_addr (addr n)) (alive_preference_list self key) →
  (∀ ms, ttl_ms = Some ms → 0 < ms) →
  set self key value ttl_ms s = Returns (inr r, (pool1, w1)) →
  ∃ s2, get self key (pool1, w1) = Returns (inr (mkGetResponse (Some value) true), s2).
Proof.
  intros Hv Httl Hset. destruct s as [pool w]. unfold set, get in *.
  destruct (max_retries (config self)) as [|k].
  { exfalso. destruct (alive_preference_list self key) as [|n l]; [done|]. simpl in Hset.
    destruct (set_nodes 0 l _ _) as [[? ?]| |]; done. }
  destruct (alive_preference_list self key) as [|n l]; [done|].
  destruct (set_nodes_cluster (mkSetRequest key value ttl_ms) k _ Hv pool w)
    as (results & pool' & Hr & ->).
  revert Hset. rewrite_run Hr. intros Hset. rewrite fmap_cons in Hset.
  destruct (accepted (mkSetRequest key value ttl_ms) w (addr n)) as [n'|] eqn:Ea;
    [rewrite bool_decide_eq_true_2 in Hset by done|by rewrite bool_decide_eq_false_2 in Hset by by intros [? ?]].
  injection Hset as _ -> <-.
  destruct (get_nodes_cluster key k _ Hv pool1
    (apply_sets (mkSetRequest key value ttl_ms) (addr <$> n :: l) w)) as [s2 Hg].
  exists s2. rewrite_run Hg. do 3 f_equal.
  assert (found key (apply_sets (mkSetRequest key value ttl_ms) (addr <$> n :: l) w) (addr n) =
    Some value) as Hf; [|cbn [omap list_omap]; by rewrite Hf].
  destruct (accepted_found _ _ _ _ _ _ (time w) Ea) as [Hans Hval].
  pose proof (apply_sets_lookup (mkSetRequest key value ttl_ms) (addr <$> n :: l) w (addr n)) as Hl.
  rewrite decide_True in Hl by (rewrite fmap_cons; by left). rewrite Ea in Hl.
  destruct (apply_sets_frame (mkSetRequest key value ttl_ms) (addr <$> n :: l) w) as [Hre Hti].
  unfold found, answering in *. rewrite Hre, Hti, Hl.
  destruct (reachable w (addr n)); [|done]. simpl. rewrite Hval.
  destruct ttl_ms as [ms|]; [|done]. specialize (Httl ms eq_refl).
  rewrite (proj2 (Z.ltb_lt _ _)); [done|]. unfold from_millis, nanos_per_milli. lia.
Qed.

(** Further: a replicated delete, against a cluster: every node of the preference list
    that can be reached drops the key, a joining one included, and the answer tells
    whether one of those that serve requests had it; no other node changes. *)
Theorem replicated_delete_exact (self : ReplicationCoordinator) (key : string)
    (pool : ClientPool.NodeClientPool) (w : Cluster.World) :
  alive_preference_list self key ≠ [] →
  Forall (λ n, valid_addr (addr n)) (alive_preference_list self key) →
  max_retries (config self) ≠ 0%nat →
  ∃ pool' w', delete self key (pool, w) = Returns
      (inr (mkDeleteResponse
              (existsb (λ n, deleted_at key w (addr n)) (alive_preference_list self key))),
       (pool', w')) ∧
    ∀ a, nodes_at w' !! a =
      if decide (a ∈ addr <$> alive_preference_list self key) then
        match deleting key w a with Some (_, n') => Some n' | None => nodes_at w !! a end
      else nodes_at w !! a.
Proof.
  intros Hne Hv Hm. unfold delete. destruct (max_retries (config self)) as [|k]; [done|].
  destruct (delete_nodes_cluster key k _ Hv false pool w) as [pool' Hr].
  exists pool', (apply_deletes key (addr <$> alive_preference_list self key) w).
  split; [|intros a; apply apply_deletes_lookup].
  destruct (alive_preference_list self key); [done|]. by rewrite_run Hr.
Qed.

(** C26: what a read through the same router finds after a delete, when the nodes
    that can be reached may have changed: only what the nodes that could not be
    reached by the delete still hold.  In particular the key is gone as long as
    nothing changes, and is back when such a node is. *)
Theorem get_after_delete (self : ReplicationCoordinator) (key : string)
    (r : DeleteResponse) (pool pool1 : ClientPool.NodeClientPool) (w w1 : Cluster.World)
    (reach : string → bool) :
  Forall (λ n, valid_addr (addr n)) (alive_preference_list self key) →
  max_retries (config self) ≠ 0%nat →
  delete self key (pool, w) = Returns (inr r, (pool1, w1)) →
  ∃ s2, get self key (pool1, Cluster.mkWorld (nodes_at w1) reach (time w1)) = Returns (inr
    match head (omap (λ n, match answering w (addr n) with
                           | Some _ => None
                           | None => found key (Cluster.mkWorld (nodes_at w) reach (time w)) (addr n)
                           end) (alive_preference_list self key)) with
    | Some v => mkGetResponse (Some v) true
    | None => mkGetResponse None false
    end, s2).
Proof.
  intros Hv Hm Hdel. unfold delete, get in *. destruct (max_retries (config self)) as [|k]; [done|].
  destruct (delete_nodes_cluster key k _ Hv false pool w) as [pool' Hr].
  destruct (alive_preference_list self key) as [|n l]; [done|].
  revert Hdel. rewrite_run Hr. intros [= _ <- <-].
  destruct (get_nodes_cluster key k _ Hv pool' (Cluster.mkWorld
    (nodes_at (apply_deletes key (addr <$> n :: l) w)) reach
    (time (apply_deletes key (addr <$> n :: l) w)))) as [s2 Hg].
  exists s2. rewrite_run Hg. do 3 f_equal.
  set (nodes := n :: l) in *. clearbody nodes. clear. apply (f_equal (λ o, match o with
    | Some v => mkGetResponse (Some v) true | None => mkGetResponse None false end)).
  f_equal. apply list_omap_ext, Forall_Forall2_diag, Forall_forall. intros n' Hn'.
  apply found_after_deletes. by apply list_elem_of_fmap_2.
Qed.
End properties.

Section network_properties.
Context `{UuidLib} `{Xxh3} `{ClientPool.UriLib} `{Network}.
Import NodeService Coordinator.

(** Further: [max_retries] is the number of attempts, not of retries: with 0, whatever
    the network, no node is contacted, every write is refused, every read answers
    "not found" and every delete "not deleted". *)
Theorem zero_retries_contact_nobody (self : ReplicationCoordinator) (key : string)
    (value : list ascii) (ttl_ms : option Z) (s : State) :
  alive_preference_list self key ≠ [] → max_retries (config self) = 0%nat →
  set self key value ttl_ms s = Returns (inl "Primary write failed"%string, s) ∧
  get self key s = Returns (inr (mkGetResponse None false), s) ∧
  delete self key s = Returns (inr (mkDeleteResponse false), s).
Proof.
  intros Hne Hm. unfold set, get, delete. rewrite Hm.
  assert (∀ nodes req, set_nodes 0 nodes req s = Returns ((λ _, false) <$> nodes, s)) as Hs.
  { intros nodes req. induction nodes as [|n nodes IH]; [done|]. simpl. by rewrite IH. }
  assert (∀ nodes req, get_nodes 0 nodes req s = Returns (mkGetResponse None false, s)) as Hg.
  { intros nodes req. induction nodes as [|n nodes IH]; [done|]. simpl. by rewrite IH. }
  assert (∀ nodes req, delete_nodes 0 nodes req false s = Returns (false, s)) as Hd.
  { intros nodes req. induction nodes as [|n nodes IH]; [done|]. simpl. by rewrite IH. }
  destruct (alive_preference_list self key) as [|n l]; [done|]. by rewrite Hs, Hg, Hd.
Qed.

(** Further: an address the URI parser refuses, such as the empty address a node
    advertises, is not an error but a panic of the task that serves the request, as
    soon as the node comes first in the preference list. *)
Theorem invalid_address_panics (self : ReplicationCoordinator) (key : string)
    (value : list ascii) (ttl_ms : option Z) (pool : ClientPool.NodeClientPool) (w : World)
    (n : NodeInfo) (l : list NodeInfo) :
  alive_preference_list self key = n :: l → max_retries (config self) ≠ 0%nat →
  ClientPool.uri_valid ("http://" +:+ addr n) = false → addr n ∉ ClientPool.clients pool →
  set self key value ttl_ms (pool, w) = Panics "invalid address" ∧
  get self key (pool, w) = Panics "invalid address" ∧
  delete self key (pool, w) = Panics "invalid address".
Proof.
  intros Hp Hm Hu Hn. unfold set, get, delete. rewrite Hp.
  destruct (max_retries (config self)) as [|k]; [done|].
  cbn [set_nodes set_attempts get_nodes get_attempts delete_nodes delete_attempts].
  assert (get_client (addr n) (pool, w) = Panics "invalid address") as ->; [|done].
  unfold get_client, ClientPool.get_client. destruct (connect (addr n) w).
  rewrite decide_False by done. by rewrite Hu.
Qed.
End network_properties.

(** ** Witnesses: a cluster of two nodes *)

Section witnesses.
#[local] Existing Instance Examples.string_uuid.
#[local] Existing Instance Examples.poly_xxh3.
#[local] Existing Instance Examples.sorted_iter.
#[local] Existing Instance ex_uri.
#[local] Existing Instance Cluster.cluster_network.
Import NodeService Coordinator Cluster.

Definition ex_n1 : NodeInfo := mkNodeInfo (@mkNodeId Examples.string_uuid "n1") "h1:1".
Definition ex_n2 : NodeInfo := mkNodeInfo (@mkNodeId Examples.string_uuid "n2") "h2:1".
Definition ex_two_ring : HashRing.HashRing :=
  HashRing.add_node (HashRing.add_node (HashRing.with_vnode_count 2) ex_n1) ex_n2.
Definition ex_coordinator (rf : Z) (retries : nat) : ReplicationCoordinator :=
  mkReplicationCoordinator ex_two_ring (mkReplicationConfig rf retries) HealthMonitor.new.
Definition ex_world : Cluster.World :=
  Cluster.mkWorld {[ "h1:1"%string := ex_alone; "h2:1"%string := ex_alone ]} (λ _, true) 5.
Definition ex_pool : ClientPool.NodeClientPool := ClientPool.new.

Lemma ex_two_ring_wf : HashRing.wf ex_two_ring.
Proof. apply HashRing.add_node_wf, HashRing.add_node_wf, HashRing.new_wf. Qed.

(** The preference list of the key [k]. *)
Definition ex_list : list NodeInfo := [ex_n1; ex_n2].
Lemma ex_list_eq rf retries : rf = 2 →
  alive_preference_list (ex_coordinator rf retries) "k" = ex_list.
Proof. intros ->. vm_compute. reflexivity. Qed.
Lemma ex_list_valid : Forall (λ n, valid_addr (addr n)) ex_list.
Proof. repeat constructor. Qed.

Lemma alive_preference_list_correct_witness :
  NoDup (id <$> alive_preference_list (ex_coordinator 2 1) "k").
Proof.
  apply (alive_preference_list_correct (ex_coordinator 2 1) "k" 2 ex_two_ring_wf eq_refl).
  by compute.
Defined.

Lemma replicated_set_exact_witness : ∃ pool' w',
  Coordinator.set (ex_coordinator 2 1) "k" (as_bytes "v") None (ex_pool, ex_world) =
    Returns (inr (mkSetResponse true), (pool', w')).
Proof.
  destruct (replicated_set_exact (ex_coordinator 2 1) "k" (as_bytes "v") None ex_pool ex_world
    ex_n1 [ex_n2] (ex_list_eq 2 1 eq_refl) ex_list_valid ltac:(discriminate))
    as (r & pool' & w' & Hs & Hr & _).
  exists pool', w'. rewrite Hs, Hr. rewrite bool_decide_eq_true_2; [reflexivity|].
  apply (bool_decide_unpack _). vm_compute. exact I.
Defined.

Lemma replicated_get_exact_witness : ∃ s',
  Coordinator.get (ex_coordinator 2 1) "k" (ex_pool, ex_world) =
    Returns (inr (mkGetResponse None false), s').
Proof.
  destruct (replicated_get_exact (ex_coordinator 2 1) "k" ex_pool ex_world) as [s' Hs].
  - rewrite ex_list_eq by reflexivity. discriminate.
  - rewrite ex_list_eq by reflexivity. exact ex_list_valid.
  - discriminate.
  - exists s'. rewrite Hs. rewrite ex_list_eq by reflexivity. vm_compute. reflexivity.
Defined.

Definition state_of {A} (r : outcome (A * State)) : ClientPool.NodeClientPool * Cluster.World :=
  match r with Returns (_, s) => s | _ => (ex_pool, ex_world) end.
(** A successful answer, without the state that comes with it. *)
Definition answered {A} (r : outcome ((string + A) * State)) : option A :=
  match r with Returns (inr a, _) => Some a | _ => None end.
Lemma answered_eq {A} (r : outcome ((string + A) * State)) a :
  answered r = Some a → r = Returns (inr a, ((state_of r).1, (state_of r).2)).
Proof. destruct r as [[[?|?] [? ?]]| |]; naive_solver. Qed.
Definition ex_after : ClientPool.NodeClientPool * Cluster.World :=
  state_of (Coordinator.set (ex_coordinator 2 1) "k" (as_bytes "v") None (ex_pool, ex_world)).

Lemma ex_after_eq :
  Coordinator.set (ex_coordinator 2 1) "k" (as_bytes "v") None (ex_pool, ex_world) =
    Returns (inr (mkSetResponse true), (ex_after.1, ex_after.2)).
Proof. apply answered_eq. vm_compute. reflexivity. Qed.

Lemma read_your_writes_witness : ∃ s2,
  Coordinator.get (ex_coordinator 2 1) "k" (ex_after.1, ex_after.2) =
    Returns (inr (mkGetResponse (Some (as_bytes "v")) true), s2).
Proof.
  apply (read_your_writes (ex_coordinator 2 1) "k" (as_bytes "v") None (ex_pool, ex_world)
    ex_after.1 ex_after.2 (mkSetResponse true)); [|intros ms; discriminate|exact ex_after_eq].
  rewrite ex_list_eq by reflexivity. exact ex_list_valid.
Defined.

(** The same cluster, without its second node. *)
Definition ex_cut : Cluster.World :=
  Cluster.mkWorld (nodes_at ex_after.2) (λ a, bool_decide (a = "h1:1"%string)) 5.
Definition ex_deleted : ClientPool.NodeClientPool * Cluster.World :=
  state_of (Coordinator.delete (ex_coordinator 2 1) "k" (ex_pool, ex_cut)).
Lemma ex_deleted_eq : Coordinator.delete (ex_coordinator 2 1) "k" (ex_pool, ex_cut) =
    Returns (inr (mkDeleteResponse true), (ex_deleted.1, ex_deleted.2)).
Proof. apply answered_eq. vm_compute. reflexivity. Qed.
Lemma ex_missed : omap (λ n, match answering ex_cut (addr n) with
    | Some _ => None
    | None => found "k" (Cluster.mkWorld (nodes_at ex_cut) (λ _, true) (time ex_cut)) (addr n)
    end) ex_list = [as_bytes "v"].
Proof. vm_compute. reflexivity. Qed.

Lemma replicated_delete_exact_witness : ∃ s',
  Coordinator.delete (ex_coordinator 2 1) "k" (ex_pool, ex_world) =
    Returns (inr (mkDeleteResponse false), s').
Proof.
  destruct (replicated_delete_exact (ex_coordinator 2 1) "k" ex_pool ex_world)
    as (pool' & w' & Hd & _).
  - rewrite ex_list_eq by reflexivity. discriminate.
  - rewrite ex_list_eq by reflexivity. exact ex_list_valid.
  - discriminate.
  - exists (pool', w'). rewrite Hd. rewrite ex_list_eq by reflexivity. vm_compute. reflexivity.
Defined.

(** A delete that missed a node is undone when the node is back. *)
Lemma get_after_delete_witness : ∃ s2,
  Coordinator.get (ex_coordinator 2 1) "k"
    (ex_deleted.1, Cluster.mkWorld (nodes_at ex_deleted.2) (λ _, true) (time ex_deleted.2)) =
    Returns (inr (mkGetResponse (Some (as_bytes "v")) true), s2).
Proof.
  destruct (get_after_delete (ex_coordinator 2 1) "k" (mkDeleteResponse true) ex_pool ex_deleted.1
    ex_cut ex_deleted.2 (λ _, true)) as [s2 Hs].
  - rewrite ex_list_eq by reflexivity. exact ex_list_valid.
  - discriminate.
  - exact ex_deleted_eq.
  - exists s2. rewrite Hs. rewrite ex_list_eq by reflexivity. rewrite ex_missed. reflexivity.
Defined.

Lemma zero_retries_contact_nobody_witness :
  Coordinator.get (ex_coordinator 2 0) "k" (ex_pool, ex_world) =
    Returns (inr (mkGetResponse None false), (ex_pool, ex_world)).
Proof.
  apply (@zero_retries_contact_nobody _ _ _ cluster_network (ex_coordinator 2 0) "k" [] None
    (ex_pool, ex_world));
    [|reflexivity].
  rewrite ex_list_eq by reflexivity. discriminate.
Defined.

(** A ring with the node that advertises no address. *)
Definition ex_bad : ReplicationCoordinator :=
  mkReplicationCoordinator
    (HashRing.add_node (HashRing.with_vnode_count 2) (mkNodeInfo (@mkNodeId Examples.string_uuid "n1") ""))
    default_config HealthMonitor.new.

Lemma invalid_address_panics_witness :
  Coordinator.get ex_bad "k" (ex_pool, ex_world) = Panics "invalid address".
Proof.
  apply (@invalid_address_panics _ _ _ cluster_network ex_bad "k" [] None ex_pool ex_world
    (mkNodeInfo (@mkNodeId Examples.string_uuid "n1") "") []);
    [vm_compute; reflexivity|discriminate|reflexivity|].
  apply (bool_decide_unpack _). vm_compute. exact I.
Defined.
End witnesses.
