(* ===== verification/RouterGossip.v ===== *)
(** * The router's view of the cluster

    Models [crates/router/src/membership/mod.rs] (the configured nodes),
    [crates/router/src/gossip/mod.rs] (the passive gossip client) and the start of
    the router ([crates/router/src/main.rs]): how the ring and the health monitor
    the router serves requests with come about. *)

From S2P Require Import Prelude Machine Text Common Ring Membership Gossip Rebalance Health.
Local Open Scope Z_scope.
Local Open Scope outcome_scope.

Module RouterGossip.
Import Gossip.

Section router_gossip.
Context `{UuidLib} `{Xxh3} `{HashIter}.

(** *** Configuration *)

Record NodeConfigEntry := mkNodeConfigEntry { cfg_id : string; cfg_addr : string }.
Record ClusterConfig := mkClusterConfig { cfg_nodes : list NodeConfigEntry }.

(** The closure of [to_node_infos] over the entries, in order. *)
Fixpoint node_infos (entries : list NodeConfigEntry) : outcome (list NodeInfo) :=
  match entries with
  | [] => Returns []
  | n :: entries' =>
      match NodeId_parse (cfg_id n) with
      | None => Panics "invalid UUID in config"
      | Some i =>
          let! infos := node_infos entries' in
          Returns (mkNodeInfo i (cfg_addr n) :: infos)
      end
  end.
Definition to_node_infos (self : ClusterConfig) : outcome (list NodeInfo) :=
  node_infos (cfg_nodes self).

(** *** What the router knows *)

Record View := mkView {
  hash_ring : HashRing.HashRing;
  health_monitor : HealthMonitor.HealthMonitor;
}.

(** The start of [main]: the ring of the configured nodes, and nothing known of
    their health. *)
Definition start (config : ClusterConfig) : outcome View :=
  let! members := to_node_infos config in
  Returns (mkView (foldl HashRing.add_node HashRing.new members) HealthMonitor.new).

(** One iteration of the loop of [exchange_gossip]. *)
Definition observe (now : Instant) (v : View) (member : ProtoMemberEntry) : View :=
  match NodeId_parse (m_node_id member) with
  | None => v
  | Some node_id =>
      match proto_status_try_from (m_status member) with
      | None => v
      | Some P_Alive =>
          let h := HealthMonitor.mark_alive now node_id (health_monitor v) in
          let r := if HashRing.contains_node (hash_ring v) node_id then hash_ring v
                   else HashRing.add_node (hash_ring v) (mkNodeInfo node_id (m_addr member)) in
          mkView r h
      | Some P_Joining =>
          mkView (hash_ring v) (HealthMonitor.mark_joining now node_id (health_monitor v))
      | Some P_Suspect =>
          mkView (hash_ring v) (HealthMonitor.record_failure now node_id (health_monitor v))
      | Some P_Dead =>
          let fail := HealthMonitor.record_failure now node_id in
          let h := fail (fail (fail (health_monitor v))) in
          let r := if HashRing.contains_node (hash_ring v) node_id
                   then HashRing.remove_node (hash_ring v) node_id else hash_ring v in
          mkView r h
      end
  end.

(** The request of the router, and what it does with the answer ([None]: the
    exchange failed). *)
Definition gossip_request : GossipMessage := mkGossipMessage [] "router".
Definition exchange_gossip (now : Instant) (response : option GossipMessage) (v : View) : View :=
  match response with
  | Some msg => foldl (observe now) v (msg_members msg)
  | None => v
  end.

(** One round of the loop of [run]: [choose] is the random choice of the targets
    among the seeds, [answer k addr] what the [k]-th target answers and when. *)
Fixpoint gossip_targets (answer : nat → string → Instant * option GossipMessage) (k : nat)
    (targets : list string) (v : View) : View :=
  match targets with
  | [] => v
  | addr :: targets' =>
      let '(now, response) := answer k addr in
      gossip_targets answer (S k) targets' (exchange_gossip now response v)
  end.
Definition gossip_round (choose : nat → list string → list string)
    (answer : nat → string → Instant * option GossipMessage) (seed_addrs : list string) (v : View)
    : View :=
  gossip_targets answer 0 (choose (length seed_addrs `min` 2)%nat seed_addrs) v.

(** ** Specifications *)

Inductive view_step (v : View) : View → Prop :=
  | view_round choose answer seeds : view_step v (gossip_round choose answer seeds v)
  | view_probe h : view_step v (mkView (hash_ring v) h).

(** The member a message names, when the router can read it. *)
Definition named (m : ProtoMemberEntry) : option (NodeId * ProtoMemberStatus) :=
  i ← NodeId_parse (m_node_id m); s ← proto_status_try_from (m_status m); Some (i, s).

(** What a report does to the health of its subject. *)
Definition reported (now : Instant) (i : NodeId) (s : ProtoMemberStatus)
    (h : HealthMonitor.HealthMonitor) : HealthMonitor.HealthMonitor :=
  HealthMonitor.apply_events now i
    match s with
    | P_Alive => [HealthMonitor.Ok]
    | P_Joining => [HealthMonitor.Join]
    | P_Suspect => [HealthMonitor.Fail]
    | P_Dead => [HealthMonitor.Fail; HealthMonitor.Fail; HealthMonitor.Fail]
    end h.

(** Rings whose nodes have distinct identifiers. *)
Definition distinct_ids (r : HashRing.HashRing) : Prop := NoDup (id <$> HashRing.nodes r).
End router_gossip.
End RouterGossip.

(** ** Lemmas *)

Section lemmas.
Context `{UuidLib} `{Xxh3} `{HashIter}.
Import Gossip RouterGossip.

Lemma contains_node_spec (r : HashRing.HashRing) i :
  HashRing.contains_node r i = true ↔ i ∈ id <$> HashRing.nodes r.
Proof.
  unfold HashRing.contains_node. rewrite existsb_exists, list_elem_of_fmap.
  setoid_rewrite bool_decide_eq_true. setoid_rewrite list_elem_of_In. naive_solver.
Qed.

Lemma contains_add_node r n j :
  HashRing.contains_node (HashRing.add_node r n) j =
  bool_decide (id n = j) || HashRing.contains_node r j.
Proof.
  apply eq_true_iff_eq. rewrite orb_true_iff, !contains_node_spec, bool_decide_eq_true. simpl.
  rewrite fmap_app, elem_of_app. cbn [fmap list_fmap]. rewrite list_elem_of_singleton. naive_solver.
Qed.

Lemma contains_remove_node r i j :
  HashRing.contains_node (HashRing.remove_node r i) j =
  bool_decide (i ≠ j) && HashRing.contains_node r j.
Proof.
  apply eq_true_iff_eq. rewrite andb_true_iff, !contains_node_spec, bool_decide_eq_true.
  rewrite !list_elem_of_fmap. setoid_rewrite HashRing.elem_of_remove_node_nodes. naive_solver.
Qed.

(** The ring membership a report leaves. *)
Definition in_ring_after (s : ProtoMemberStatus) (before : bool) : bool :=
  match s with P_Alive => true | P_Dead => false | P_Joining | P_Suspect => before end.

Lemma observe_unnamed now v m : named m = None → observe now v m = v.
Proof.
  unfold named, observe. destruct (NodeId_parse (m_node_id m)); simpl; [|done].
  by destruct (proto_status_try_from (m_status m)).
Qed.

Lemma observe_named now v m i s : named m = Some (i, s) →
  health_monitor (observe now v m) = reported now i s (health_monitor v) ∧
  ∀ j, HashRing.contains_node (hash_ring (observe now v m)) j =
    if decide (j = i) then in_ring_after s (HashRing.contains_node (hash_ring v) j)
    else HashRing.contains_node (hash_ring v) j.
Proof.
  unfold named, observe. destruct (NodeId_parse (m_node_id m)) as [i'|]; simpl; [|done].
  destruct (proto_status_try_from (m_status m)) as [s'|]; simpl; [|done]. intros [= -> ->].
  split; [by destruct s|]. intros j. destruct s; simpl; [|by case_decide| |by case_decide].
  - destruct (HashRing.contains_node (hash_ring v) i) eqn:E.
    + case_decide as Hj; [by subst|done].
    + rewrite contains_add_node. simpl. case_decide as Hj.
      * subst. by rewrite bool_decide_eq_true_2.
      * by rewrite bool_decide_eq_false_2 by done.
  - destruct (HashRing.contains_node (hash_ring v) i) eqn:E.
    + rewrite contains_remove_node. case_decide as Hj.
      * subst. by rewrite bool_decide_eq_false_2 by tauto.
      * by rewrite bool_decide_eq_true_2 by done.
    + case_decide as Hj; [by subst|done].
Qed.

(** A report depends on the subject's entry and the threshold only. *)
Lemma apply_events_local now i es : ∀ h1 h2 : HealthMonitor.HealthMonitor,
  HealthMonitor.nodes h1 !! i = HealthMonitor.nodes h2 !! i →
  HealthMonitor.failure_threshold h1 = HealthMonitor.failure_threshold h2 →
  HealthMonitor.nodes (HealthMonitor.apply_events now i es h1) !! i =
  HealthMonitor.nodes (HealthMonitor.apply_events now i es h2) !! i.
Proof.
  induction es as [|e es IH]; intros h1 h2 Hn Ht; [done|].
  apply (IH (HealthMonitor.apply_event now i h1 e) (HealthMonitor.apply_event now i h2 e)).
  - destruct e; cbn [HealthMonitor.apply_event];
      unfold HealthMonitor.mark_alive, HealthMonitor.mark_joining, HealthMonitor.record_failure,
        HealthMonitor.put; cbn [HealthMonitor.nodes]; by rewrite !lookup_insert_eq, ?Hn, ?Ht.
  - by rewrite !apply_event_threshold.
Qed.

Lemma reported_frame now i s h j : j ≠ i →
  HealthMonitor.nodes (reported now i s h) !! j = HealthMonitor.nodes h !! j ∧
  HealthMonitor.failure_threshold (reported now i s h) = HealthMonitor.failure_threshold h.
Proof.
  intros Hj. unfold reported. split; [by apply apply_events_other|apply apply_events_threshold].
Qed.

(** Two and three failures of a node that answered its last probe. *)
Lemma three_failures now i h :
  HealthMonitor.nodes h !! i = Some (HealthMonitor.mkNodeHealthEntry HealthMonitor.Alive now 0) →
  let fail := HealthMonitor.record_failure now i in
  HealthMonitor.is_alive i (fail (fail h)) =
    bool_decide (2 < HealthMonitor.failure_threshold h) ∧
  (HealthMonitor.failure_threshold h ≤ 3 →
   HealthMonitor.is_alive i (fail (fail (fail h))) = false).
Proof.
  intros Hi. cbv zeta. set (fail := HealthMonitor.record_failure now i).
  set (T := HealthMonitor.failure_threshold h).
  assert (∀ g e, HealthMonitor.nodes g !! i = Some e →
    HealthMonitor.failure_threshold g = T →
    HealthMonitor.nodes (fail g) !! i = Some (HealthMonitor.mkNodeHealthEntry
      match HealthMonitor.health e with
      | HealthMonitor.Alive | HealthMonitor.Joining => HealthMonitor.Suspect
      | HealthMonitor.Suspect =>
          if T <=? u32_add (HealthMonitor.consecutive_failures e) 1
          then HealthMonitor.Dead else HealthMonitor.Suspect
      | HealthMonitor.Dead => HealthMonitor.Dead
      end now (u32_add (HealthMonitor.consecutive_failures e) 1))) as Hf.
  { intros g e Hg Hg'. unfold fail, HealthMonitor.record_failure, HealthMonitor.put.
    cbn [HealthMonitor.nodes]. by rewrite lookup_insert_eq, Hg, Hg'. }
  pose proof (Hf _ _ Hi eq_refl) as Hf1. pose proof (Hf _ _ Hf1 eq_refl) as Hf2.
  pose proof (Hf _ _ Hf2 eq_refl) as Hf3.
  cbn [HealthMonitor.health HealthMonitor.consecutive_failures] in Hf2, Hf3.
  unfold HealthMonitor.is_alive.
  rewrite Hf2, Hf3. change (u32_add (u32_add 0 1) 1) with 2.
  change (u32_add 2 1) with 3. cbn [HealthMonitor.health]. split.
  - fold T. destruct (Z.leb_spec T 2); 
      [by rewrite (bool_decide_eq_false_2 (2 < T)) by lia|by rewrite (bool_decide_eq_true_2 (2 < T))].
  - intros HT. rewrite (proj2 (Z.leb_le T 3)) by done. by destruct (T <=? 2).
Qed.

Lemma observe_wf now v m : HashRing.wf (hash_ring v) ∧ distinct_ids (hash_ring v) →
  HashRing.wf (hash_ring (observe now v m)) ∧ distinct_ids (hash_ring (observe now v m)).
Proof.
  intros [Hwf Hd]. unfold observe. destruct (NodeId_parse (m_node_id m)) as [i|]; [|done].
  destruct (proto_status_try_from (m_status m)) as [[]|]; simpl; try done.
  - destruct (HashRing.contains_node (hash_ring v) i) eqn:E; [done|].
    split; [by apply HashRing.add_node_wf|]. unfold distinct_ids in *. simpl.
    rewrite fmap_app. apply NoDup_app. split; [done|]. split; [|apply NoDup_singleton].
    intros j Hj Hj'%list_elem_of_singleton. subst. apply contains_node_spec in Hj. simpl in Hj. congruence.
  - destruct (HashRing.contains_node (hash_ring v) i); [|done].
    split; [by apply HashRing.remove_node_wf|]. unfold distinct_ids in *. simpl.
    clear -Hd. induction (HashRing.nodes (hash_ring v)) as [|n l IH]; [done|].
    rewrite fmap_cons, NoDup_cons in Hd. destruct Hd as [Hn Hd]. simpl.
    case_bool_decide; [|by apply IH]. rewrite fmap_cons. constructor; [|by apply IH].
    intros (m & Hm & [_ Hin]%elem_of_filterb)%list_elem_of_fmap. apply Hn. rewrite Hm.
    by apply list_elem_of_fmap_2.
Qed.

Lemma exchange_wf now response v : HashRing.wf (hash_ring v) ∧ distinct_ids (hash_ring v) →
  HashRing.wf (hash_ring (exchange_gossip now response v)) ∧
  distinct_ids (hash_ring (exchange_gossip now response v)).
Proof.
  destruct response as [msg|]; [|done]. unfold exchange_gossip. revert v.
  induction (msg_members msg) as [|m ms IH]; intros v Hv; simpl; [done|].
  apply IH. by apply observe_wf.
Qed.

Lemma targets_wf answer targets : ∀ k v,
  HashRing.wf (hash_ring v) ∧ distinct_ids (hash_ring v) →
  HashRing.wf (hash_ring (gossip_targets answer k targets v)) ∧
  distinct_ids (hash_ring (gossip_targets answer k targets v)).
Proof.
  induction targets as [|a targets IH]; intros k v Hv; simpl; [done|].
  destruct (answer k a) as [now response]. apply IH. by apply exchange_wf.
Qed.
End lemmas.

(** ** Properties *)

Section properties.
Context `{UuidLib} `{Xxh3} `{HashIter}.
Import Gossip RouterGossip.

(** C29: one exchange brings the router's view in line with the message: a member
    reported Alive is in the ring and routable, one reported Dead is out of the ring
    and has failed three times, one reported Suspect has failed once, one reported
    Joining is marked so; what the message does not name, or what cannot be read,
    changes nothing. *)
Theorem exchange_exact (now : Z) (msg : GossipMessage) (v : View) :
  NoDup (fst <$> omap named (msg_members msg)) →
  let v' := exchange_gossip now (Some msg) v in
  (∀ i s, (i, s) ∈ omap named (msg_members msg) →
     HashRing.contains_node (hash_ring v') i =
       in_ring_after s (HashRing.contains_node (hash_ring v) i) ∧
     HealthMonitor.nodes (health_monitor v') !! i =
       HealthMonitor.nodes (reported now i s (health_monitor v)) !! i) ∧
  (∀ i, i ∉ fst <$> omap named (msg_members msg) →
     HashRing.contains_node (hash_ring v') i = HashRing.contains_node (hash_ring v) i ∧
     HealthMonitor.nodes (health_monitor v') !! i = HealthMonitor.nodes (health_monitor v) !! i).
Proof.
  unfold exchange_gossip. simpl. revert v.
  induction (msg_members msg) as [|m ms IH]; intros v Hnd; cbn [foldl omap list_omap].
  { split; [by intros i s ?%elem_of_nil|done]. }
  destruct (named m) as [[i0 s0]|] eqn:E; cbn [omap list_omap] in Hnd; rewrite E in Hnd.
  - destruct (observe_named now v m i0 s0 E) as [Hh Hr].
    apply NoDup_cons in Hnd as [Hnin Hnd]. destruct (IH (observe now v m) Hnd) as [IH1 IH2].
    split.
    + intros i s [[= -> ->]|Hin]%elem_of_cons.
      * destruct (IH2 i0 Hnin) as [-> ->]. rewrite Hr, decide_True, Hh by done. done.
      * assert (i ≠ i0) as Hne.
        { intros ->. apply Hnin. apply list_elem_of_fmap. by exists (i0, s). }
        destruct (IH1 i s Hin) as [-> ->]. rewrite Hr, decide_False, Hh by done. split; [done|].
        destruct (reported_frame now i0 s0 (health_monitor v) i Hne). by apply apply_events_local.
    + intros i Hi. assert (i ≠ i0 ∧ i ∉ fst <$> omap named ms) as [Hne Hi'].
      { split; [intros ->; apply Hi; by left|]. intros Hx. apply Hi. by right. }
      destruct (IH2 i Hi') as [-> ->]. rewrite Hr, decide_False, Hh by done. split; [done|].
      by apply reported_frame.
  - rewrite observe_unnamed by done. by apply IH.
Qed.

(** Further: whatever the seeds answer and the probes find, the router's ring stays
    well-formed and holds each node once, provided the configuration names each
    node once. *)
Theorem reachable_router_ring (config : ClusterConfig) (members : list NodeInfo) (v0 v : View) :
  to_node_infos config = Returns members → NoDup (id <$> members) →
  start config = Returns v0 → rtc view_step v0 v →
  HashRing.wf (hash_ring v) ∧ distinct_ids (hash_ring v).
Proof.
  intros Hm Hnd Hs Hr. unfold start in Hs. rewrite Hm in Hs. injection Hs as <-.
  refine (rtc_invariant view_step (λ v, HashRing.wf (hash_ring v) ∧ distinct_ids (hash_ring v))
    _ _ _ Hr _).
  - intros u u' Hu [choose answer seeds|h]; [|done]. by apply targets_wf.
  - simpl. unfold distinct_ids. rewrite foldl_add_node_nodes. split; [|done].
    assert (∀ l r, HashRing.wf r → HashRing.wf (foldl HashRing.add_node r l)) as Hwf.
    { induction l as [|n l IH]; intros r Hwf; simpl; [done|]. apply IH. by apply HashRing.add_node_wf. }
    apply Hwf, HashRing.new_wf.
Qed.

(** Further: gossip about a suspicion counts as a failed probe: with the router's
    threshold, three reports that a node is Suspect, or one that it is Dead, take a
    node that answered its last probe out of the routing. *)
Theorem suspicion_reports_kill (now : Z) (i : NodeId) (m : ProtoMemberEntry) (v : View)
    (s : ProtoMemberStatus) :
  HealthMonitor.failure_threshold (health_monitor v) ≤ 3 →
  HealthMonitor.nodes (health_monitor v) !! i =
    Some (HealthMonitor.mkNodeHealthEntry HealthMonitor.Alive now 0) →
  named m = Some (i, s) →
  let after n := foldl (observe now) v (replicate n m) in
  (s = P_Suspect →
   HealthMonitor.is_alive i (health_monitor (after 2%nat)) = bool_decide
     (2 < HealthMonitor.failure_threshold (health_monitor v)) ∧
   HealthMonitor.is_alive i (health_monitor (after 3%nat)) = false) ∧
  (s = P_Dead → HealthMonitor.is_alive i (health_monitor (after 1%nat)) = false).
Proof.
  intros Ht Hi Hm after.
  assert (∀ n u, health_monitor (foldl (observe now) u (replicate n m)) =
    Nat.iter n (reported now i s) (health_monitor u)) as Hn.
  { induction n as [|n IH]; intros u; [done|]. simpl replicate. cbn [foldl].
    rewrite IH. destruct (observe_named now u m i s Hm) as [-> _]. by rewrite Nat.iter_succ_r. }
  destruct (three_failures now i (health_monitor v) Hi) as [H2 H3].
  unfold after. split; intros ->; rewrite !Hn; [split; [exact H2|]|]; by apply H3.
Qed.
End properties.

(** ** Witnesses *)

Section witnesses.
#[local] Existing Instance Examples.string_uuid.
#[local] Existing Instance Examples.poly_xxh3.
#[local] Existing Instance Examples.sorted_iter.
Import Gossip RouterGossip.

Definition ex_id (s : string) : NodeId := @mkNodeId Examples.string_uuid s.
Definition ex_config : ClusterConfig :=
  mkClusterConfig [mkNodeConfigEntry "n1" "h1:1"; mkNodeConfigEntry "n2" "h2:1"].
Definition ex_members : list NodeInfo :=
  [mkNodeInfo (ex_id "n1") "h1:1"; mkNodeInfo (ex_id "n2") "h2:1"].
Definition ex_view : View :=
  mkView (foldl HashRing.add_node HashRing.new ex_members) HealthMonitor.new.
Definition ex_report (i : string) (s : Z) : ProtoMemberEntry := mkProtoMemberEntry i "h3:1" s 7 0.
Definition ex_msg : GossipMessage :=
  mkGossipMessage [ex_report "n1" 2; ex_report "n3" 0; ex_report "n2" 9] "n1".

Lemma ex_named : omap named (msg_members ex_msg) = [(ex_id "n1", P_Dead); (ex_id "n3", P_Alive)].
Proof. reflexivity. Qed.

Lemma exchange_exact_witness :
  HashRing.contains_node (hash_ring (exchange_gossip 5 (Some ex_msg) ex_view)) (ex_id "n1") = false ∧
  HashRing.contains_node (hash_ring (exchange_gossip 5 (Some ex_msg) ex_view)) (ex_id "n3") = true.
Proof.
  destruct (exchange_exact 5 ex_msg ex_view) as [Hin _].
  - apply (bool_decide_unpack _). vm_compute. exact I.
  - split.
    + apply (Hin (ex_id "n1") P_Dead). rewrite ex_named. left.
    + apply (Hin (ex_id "n3") P_Alive). rewrite ex_named. right. left.
Defined.

Lemma reachable_router_ring_witness :
  HashRing.wf (hash_ring (exchange_gossip 5 (Some ex_msg) ex_view)).
Proof.
  apply (reachable_router_ring ex_config ex_members ex_view (exchange_gossip 5 (Some ex_msg) ex_view)).
  - reflexivity.
  - apply (bool_decide_unpack _). vm_compute. exact I.
  - reflexivity.
  - apply rtc_once.
    exact (view_round ex_view (λ _, take 1) (λ _ _, (5, Some ex_msg)) ["h1:1"%string]).
Defined.

Lemma suspicion_reports_kill_witness :
  let v := mkView (hash_ring ex_view)
             (HealthMonitor.mark_alive 5 (ex_id "n1") (health_monitor ex_view)) in
  HealthMonitor.is_alive (ex_id "n1")
    (health_monitor (foldl (observe 5) v (replicate 3 (ex_report "n1" 1)))) = false.
Proof.
  intros v. destruct (suspicion_reports_kill 5 (ex_id "n1") (ex_report "n1" 1) v P_Suspect)
    as [Hs _]; [by compute|by apply lookup_insert_eq|reflexivity|].
  exact (proj2 (Hs eq_refl)).
Defined.
End witnesses.
