(* ===== verification/Router.v ===== *)
(** * The router

    Models [crates/router/src/router.rs] and the gRPC service of
    [crates/router/src/grpc/service.rs], over the interface [Network]. *)

From S2P Require Import Prelude Machine Text Common Ring Store NodeService Health Coordinator.
Local Open Scope Z_scope.
Local Open Scope outcome_scope.

Module Router.
Import NodeService.

(** The boxed errors of the router: its own messages, a status a node answered, a
    connection that was not made. *)
Inductive RouterError :=
  | ErrMessage (msg : string)
  | ErrStatus (status : Status)
  | ErrTransport.

Section router.
Context `{UuidLib} `{Xxh3} `{ClientPool.UriLib} `{Network}.

(** The ring of [main] is shared with the coordinator; the client pool is part of
    [Coordinator.State]. *)
Record Router := mkRouter {
  hash_ring : HashRing.HashRing;
  coordinator : Coordinator.ReplicationCoordinator;
}.

Definition resolve_addr (self : Router) (_key : string) (target : option NodeId)
    : RouterError + string :=
  match target with
  | Some i =>
      match List.find (λ n, bool_decide (id n = i)) (HashRing.nodes (hash_ring self)) with
      | Some node => inr (addr node)
      | None => inl (ErrMessage "target node not found in ring")
      end
  | None => inl (ErrMessage "resolve_addr called without target")
  end.

(** A call of one node: the address, a client, the call and its [into_inner]. *)
Definition call_target {A} (rpc : string → World → (Status + A) * World)
    (resolved : RouterError + string) (s : Coordinator.State)
    : outcome ((RouterError + A) * Coordinator.State) :=
  match resolved with
  | inl e => Returns (inl e, s)
  | inr addr =>
      let! (client, (pool, w)) := Coordinator.get_client addr s in
      if client then
        match rpc addr w with
        | (inr response, w') => Returns (inr response, (pool, w'))
        | (inl status, w') => Returns (inl (ErrStatus status), (pool, w'))
        end
      else Returns (inl ErrTransport, (pool, w))
  end.

(** What the coordinator answers, as the router's own result. *)
Definition of_coordinator {A} (r : outcome ((string + A) * Coordinator.State))
    : outcome ((RouterError + A) * Coordinator.State) :=
  let! (response, s) := r in
  Returns (match response with inr a => inr a | inl msg => inl (ErrMessage msg) end, s).

Definition set (self : Router) (key : string) (value : bytes) (ttl_ms : option Z)
    (target : option NodeId) (s : Coordinator.State)
    : outcome ((RouterError + SetResponse) * Coordinator.State) :=
  if bool_decide (is_Some target) then
    call_target (λ addr, rpc_set addr (mkSetRequest key value ttl_ms))
      (resolve_addr self key target) s
  else of_coordinator (Coordinator.set (coordinator self) key value ttl_ms s).

Definition get (self : Router) (key : string) (target : option NodeId) (s : Coordinator.State)
    : outcome ((RouterError + GetResponse) * Coordinator.State) :=
  if bool_decide (is_Some target) then
    call_target (λ addr, rpc_get addr (mkGetRequest key)) (resolve_addr self key target) s
  else of_coordinator (Coordinator.get (coordinator self) key s).

Definition delete (self : Router) (key : string) (target : option NodeId) (s : Coordinator.State)
    : outcome ((RouterError + DeleteResponse) * Coordinator.State) :=
  if bool_decide (is_Some target) then
    call_target (λ addr, rpc_delete addr (mkDeleteRequest key)) (resolve_addr self key target) s
  else of_coordinator (Coordinator.delete (coordinator self) key s).
End router.
End Router.

Module RouterServiceImpl.
Import NodeService Router.

(** How [tonic] displays a status and a transport error. *)
Class TonicDisplay := {
  status_to_string : Status → string;
  transport_to_string : string;
}.

Section service.
Context `{UuidLib} `{Xxh3} `{ClientPool.UriLib} `{Network} `{TonicDisplay}.

Definition error_to_string (e : RouterError) : string :=
  match e with
  | ErrMessage msg => msg
  | ErrStatus s => status_to_string s
  | ErrTransport => transport_to_string
  end.

(** The [match] of each handler: an error becomes an internal status. *)
Definition respond {A} (prefix : string) (r : outcome ((RouterError + A) * Coordinator.State))
    : outcome ((Status + A) * Coordinator.State) :=
  let! (result, s) := r in
  match result with
  | inr resp => Returns (inr resp, s)
  | inl e => Returns (inl (Internal (prefix +:+ error_to_string e)), s)
  end.

Definition set (req : SetRequest) (router : Router) (s : Coordinator.State)
    : outcome ((Status + SetResponse) * Coordinator.State) :=
  respond "router set failed: "
    (Router.set router (set_key req) (set_value req) (set_ttl_ms req) None s).

Definition get (req : GetRequest) (router : Router) (s : Coordinator.State)
    : outcome ((Status + GetResponse) * Coordinator.State) :=
  respond "router get failed: " (Router.get router (get_key req) None s).

Definition delete (req : DeleteRequest) (router : Router) (s : Coordinator.State)
    : outcome ((Status + DeleteResponse) * Coordinator.State) :=
  respond "router delete failed: " (Router.delete router (delete_key req) None s).

Definition heartbeat (req : HeartbeatRequest) : Status + HeartbeatResponse :=
  inr (mkHeartbeatResponse true).
Definition replicate_write (req : ReplicateRequest) : Status + ReplicateResponse :=
  inl (Unimplemented "replicate_write not supported on router").
Definition transfer_keys (req : TransferRequest) : Status + list TransferChunk :=
  inl (Unimplemented "transfer_keys not supported on router").
End service.
End RouterServiceImpl.

(** ** Lemmas *)

Section lemmas.
Context `{UuidLib} `{Xxh3} `{ClientPool.UriLib}.
Import NodeService Router.

Lemma find_node_by_id (r : HashRing.HashRing) i :
  match List.find (λ n, bool_decide (id n = i)) (HashRing.nodes r) with
  | Some n => n ∈ HashRing.nodes r ∧ id n = i
  | None => i ∉ id <$> HashRing.nodes r
  end.
Proof.
  destruct (List.find _ _) as [n|] eqn:E.
  - apply List.find_some in E as [Hin Hi]. split; [by apply list_elem_of_In|].
    by apply bool_decide_eq_true in Hi.
  - intros (n & -> & Hn)%list_elem_of_fmap. apply list_elem_of_In in Hn.
    pose proof (List.find_none _ _ E n Hn) as Hf. simpl in Hf.
    by apply bool_decide_eq_false in Hf.
Qed.

(** The whole answer of the service's [set], [get] and [delete], by the
    coordinator's. *)
Lemma service_of_coordinator `{Network} `{RouterServiceImpl.TonicDisplay} {A} prefix
    (r : outcome ((string + A) * Coordinator.State)) :
  RouterServiceImpl.respond prefix (of_coordinator r) =
  let! (response, s) := r in
  Returns (match response with inr a => inr a | inl msg => inl (Internal (prefix +:+ msg)) end, s).
Proof. by destruct r as [[[msg|a] s]| |]. Qed.
End lemmas.

(** ** Properties *)

Section properties.
Context `{UuidLib} `{Xxh3} `{ClientPool.UriLib}.
Import NodeService Router Cluster.
#[local] Existing Instance cluster_network.

(** Further: an explicit target overrides everything else: a write with a target goes
    to the one ring node with that identifier, whatever its health, the replication
    factor, the number of attempts and the other nodes; it succeeds exactly when
    that node accepts, and no other node changes.  A target that is not in the ring
    is an error that touches nothing. *)
Theorem target_write_exact (self : Router) (key : string) (value : list ascii) (ttl_ms : option Z)
    (i : NodeId) (pool : ClientPool.NodeClientPool) (w : Cluster.World) :
  (∀ n, n ∈ HashRing.nodes (hash_ring self) → id n = i → valid_addr (addr n)) →
  (i ∉ id <$> HashRing.nodes (hash_ring self) →
   set self key value ttl_ms (Some i) (pool, w) =
     Returns (inl (ErrMessage "target node not found in ring"), (pool, w))) ∧
  (i ∈ id <$> HashRing.nodes (hash_ring self) →
   ∃ n r pool', n ∈ HashRing.nodes (hash_ring self) ∧ id n = i ∧
     let req := mkSetRequest key value ttl_ms in
     set self key value ttl_ms (Some i) (pool, w) =
       Returns (r, (pool', apply_set req w (addr n))) ∧
     (r = inr (mkSetResponse true) ↔ is_Some (accepted req w (addr n)))).
Proof.
  intros Hv. unfold set. rewrite bool_decide_eq_true_2 by done. unfold resolve_addr.
  pose proof (find_node_by_id (hash_ring self) i) as Hf.
  destruct (List.find _ _) as [n|] eqn:En; [destruct Hf as [Hin Hid]|by split].
  split; intros Hi.
  - exfalso. apply Hi. rewrite <- Hid. by apply list_elem_of_fmap_2.
  - destruct (get_client_cluster (addr n) pool w (Hv n Hin Hid)) as (client & pool' & Hc & Hans).
    unfold call_target. rewrite_run Hc.
    set (req := mkSetRequest key value ttl_ms).
    destruct client.
    + unfold apply_set. destruct (accepted req w (addr n)) as [n'|] eqn:Ea.
      * rewrite (rpc_set_accepted _ _ _ _ Ea). exists n, (inr (mkSetResponse true)), pool'.
        rewrite Ea. repeat split; (done || by eexists).
      * destruct (rpc_set_refused _ _ _ Ea) as [e He]. rewrite He.
        exists n, (inl (ErrStatus e)), pool'. rewrite Ea. repeat split; (done || by intros [? ?]).
    + assert (accepted req w (addr n) = None) as Ea.
      { unfold accepted. destruct (answering w (addr n)); [|done]. by discriminate Hans. }
      exists n, (inl ErrTransport), pool'. unfold apply_set. rewrite Ea.
      repeat split; (done || by intros [? ?]).
Qed.
End properties.

Section service_properties.
Context `{UuidLib} `{Xxh3} `{ClientPool.UriLib} `{Network} `{RouterServiceImpl.TonicDisplay}.
Import NodeService Router.

(** C37: whatever the network does, the router's service answers a write with
    success or with one of two internal errors, a read with an answer and a delete
    with an answer or the one error of an empty preference list: no status of a
    node, and no transport error, ever reaches a client. *)
Theorem service_answers (router : Router) (sreq : SetRequest) (greq : GetRequest)
    (dreq : DeleteRequest) (s : Coordinator.State) :
  let no_alive key := Coordinator.alive_preference_list (coordinator router) key = [] in
  (∀ r s', RouterServiceImpl.set sreq router s = Returns (r, s') →
     (no_alive (set_key sreq) ∧ s' = s ∧
        r = inl (Internal "router set failed: No alive nodes available for write")) ∨
     (¬ no_alive (set_key sreq) ∧
        r ∈ [inr (mkSetResponse true); inl (Internal "router set failed: Primary write failed")])) ∧
  (∀ r s', RouterServiceImpl.get greq router s = Returns (r, s') →
     (no_alive (get_key greq) ∧ s' = s ∧
        r = inl (Internal "router get failed: No alive nodes available for read")) ∨
     (¬ no_alive (get_key greq) ∧ ∃ a, r = inr a)) ∧
  (∀ r s', RouterServiceImpl.delete dreq router s = Returns (r, s') →
     (no_alive (delete_key dreq) ∧ s' = s ∧
        r = inl (Internal "router delete failed: No alive nodes available for delete")) ∨
     (¬ no_alive (delete_key dreq) ∧ ∃ a, r = inr a)).
Proof.
  intros no_alive. unfold RouterServiceImpl.set, RouterServiceImpl.get, RouterServiceImpl.delete.
  unfold set, get, delete. rewrite bool_decide_eq_false_2 by by intros [? ?].
  rewrite !service_of_coordinator. unfold Coordinator.set, Coordinator.get, Coordinator.delete.
  unfold no_alive. split; [|split].
  - destruct (Coordinator.alive_preference_list _ _) as [|n l]; intros r s' Hr; [left; by simplify_eq/=|right].
    split; [done|]. destruct (Coordinator.set_nodes _ _ _ _) as [[res s1]| |]; simplify_eq/=.
    destruct res as [|[] res]; simplify_eq/=; set_solver.
  - destruct (Coordinator.alive_preference_list _ _) as [|n l]; intros r s' Hr; [left; by simplify_eq/=|right].
    split; [done|]. destruct (Coordinator.get_nodes _ _ _ _) as [[res s1]| |]; simplify_eq/=. eauto.
  - destruct (Coordinator.alive_preference_list _ _) as [|n l]; intros r s' Hr; [left; by simplify_eq/=|right].
    split; [done|]. destruct (Coordinator.delete_nodes _ _ _ _ _) as [[res s1]| |]; simplify_eq/=. eauto.
Qed.
End service_properties.

(** ** Witnesses *)

Section witnesses.
#[local] Existing Instance Examples.string_uuid.
#[local] Existing Instance Examples.poly_xxh3.
#[local] Existing Instance ex_uri.
#[local] Existing Instance Cluster.cluster_network.
Import NodeService Router Cluster.

(** Replication is switched off; the target is written to all the same. *)
Definition ex_router : Router := mkRouter ex_two_ring (ex_coordinator 2 0).

Lemma target_write_exact_witness : ∃ n r pool',
  id n = @mkNodeId Examples.string_uuid "n2" ∧
  Router.set ex_router "k" (as_bytes "v") None (Some (id n)) (ex_pool, ex_world) =
    Returns (r, (pool', apply_set (mkSetRequest "k" (as_bytes "v") None) ex_world (addr n))).
Proof.
  destruct (target_write_exact ex_router "k" (as_bytes "v") None (@mkNodeId Examples.string_uuid "n2")
    ex_pool ex_world) as [_ Ht].
  - intros n Hn _. cbn in Hn. rewrite !elem_of_cons in Hn.
    destruct Hn as [->|[->|[]%elem_of_nil]]; reflexivity.
  - destruct Ht as (n & r & pool' & _ & Hid & Hs & _).
    + cbn. right. left.
    + exists n, r, pool'. split; [exact Hid|]. rewrite Hid. exact Hs.
Defined.
End witnesses.
