(* ===== verification/Replicated.v ===== *)
(** * The replicated store

    The composition of the router's service, its coordinator and the nodes'
    handlers, sweepers and stores: as long as the membership is stable, the whole
    cluster behaves like one map. *)

From S2P Require Import Prelude Machine Text Common Store Membership NodeService Health Coordinator Router.
Local Open Scope Z_scope.
Local Open Scope outcome_scope.

Module Replicated.
Import NodeService CacheStore Cluster.

Section replicated.
Context `{UuidLib} `{Xxh3} `{ClientPool.UriLib} `{RouterServiceImpl.TonicDisplay}.
#[local] Existing Instance cluster_network.

(** What happens: requests of clients to the router, and what goes on beside them:
    time passes, a sweeper runs, gossip changes the table of a node. *)
Inductive op :=
  | OpSet (req : SetRequest)
  | OpGet (req : GetRequest)
  | OpDelete (req : DeleteRequest)
  | Tick (d : Z)
  | Sweep (addr : string)
  | Learn (addr : string) (t : Table).

Inductive reply :=
  | RSet (r : Status + SetResponse)
  | RGet (r : Status + GetResponse)
  | RDelete (r : Status + DeleteResponse)
  | RNone.

Definition State : Type := ClientPool.NodeClientPool * Cluster.World.

(** A change of the node at an address. *)
Definition at_node (addr : string) (f : Node → Node) (w : Cluster.World) : Cluster.World :=
  match nodes_at w !! addr with Some n => put w addr (f n) | None => w end.

Definition step (router : Router.Router) (o : op) (s : State) : outcome (reply * State) :=
  let '(pool, w) := s in
  match o with
  | OpSet req => let! (r, s') := RouterServiceImpl.set req router (pool, w) in Returns (RSet r, s')
  | OpGet req => let! (r, s') := RouterServiceImpl.get req router (pool, w) in Returns (RGet r, s')
  | OpDelete req =>
      let! (r, s') := RouterServiceImpl.delete req router (pool, w) in Returns (RDelete r, s')
  | Tick d => Returns (RNone, (pool, mkWorld (nodes_at w) (reachable w) (time w + d)))
  | Sweep addr =>
      Returns (RNone, (pool, at_node addr (λ n, with_store n (sweep (time w) (store n))) w))
  | Learn addr t => Returns (RNone, (pool, at_node addr (λ n, with_table n t) w))
  end.

Fixpoint run (router : Router.Router) (ops : list op) (s : State) : outcome (list reply * State) :=
  match ops with
  | [] => Returns ([], s)
  | o :: ops' =>
      let! (r, s1) := step router o s in
      let! (rs, s2) := run router ops' s1 in
      Returns (r :: rs, s2)
  end.

(** ** The specification: one map of entries and a clock *)

Definition spec : Type := gmap string CacheEntry * Instant.

Definition spec_value (t : Instant) (e : option CacheEntry) : GetResponse :=
  match e with
  | Some e => if live t e then mkGetResponse (Some (value e)) true else mkGetResponse None false
  | None => mkGetResponse None false
  end.

(** The replies a step may have and the map it leaves.  Whether a delete of an
    expired key reports a deletion depends on the sweepers. *)
Definition spec_step (o : op) (sp : spec) : (reply → Prop) * spec :=
  let '(m, t) := sp in
  match o with
  | OpSet req =>
      match expiry_of t (from_millis <$> set_ttl_ms req) with
      | Returns e => (eq (RSet (inr (mkSetResponse true))),
                      (<[set_key req := mkCacheEntry (set_value req) e]> m, t))
      | _ => (eq (RSet (inl (Internal "router set failed: Primary write failed"))), (m, t))
      end
  | OpGet req => (eq (RGet (inr (spec_value t (m !! get_key req)))), (m, t))
  | OpDelete req =>
      (λ r, ∃ b, r = RDelete (inr (mkDeleteResponse b)) ∧
              match m !! delete_key req with
              | None => b = false
              | Some e => live t e = true → b = true
              end,
       (base.delete (delete_key req) m, t))
  | Tick d => (eq RNone, (m, t + d))
  | Sweep _ | Learn _ _ => (eq RNone, (m, t))
  end.

Fixpoint spec_run (ops : list op) (sp : spec) (rs : list reply) : Prop :=
  match ops, rs with
  | [], [] => True
  | o :: ops', r :: rs' => (spec_step o sp).1 r ∧ spec_run ops' (spec_step o sp).2 rs'
  | _, _ => False
  end.

(** Time goes forward, and no node starts joining. *)
Definition op_ok (o : op) : Prop :=
  match o with
  | Tick d => 0 ≤ d
  | Learn _ t => MembershipTable.is_self_joining t = false
  | _ => True
  end.

(** The membership the router sees is that of the cluster: the nodes of every
    preference list can be reached and serve. *)
Record stable (self : Coordinator.ReplicationCoordinator) (w : Cluster.World) : Prop := {
  stable_retries : Coordinator.max_retries (Coordinator.config self) ≠ 0%nat;
  stable_list : ∀ key, Coordinator.alive_preference_list self key ≠ [];
  stable_addr : ∀ key, Forall (λ n, valid_addr (addr n)) (Coordinator.alive_preference_list self key);
  stable_serves : ∀ key n, n ∈ Coordinator.alive_preference_list self key →
    ∃ nd, answering w (addr n) = Some nd ∧ joining nd = false;
}.

(** What a store holds of a key of the map: its entry, or, once that is expired,
    possibly nothing. *)
Definition holds (t : Instant) (m d : gmap string CacheEntry) (k : string) : Prop :=
  match m !! k with
  | None => d !! k = None
  | Some e => d !! k = Some e ∨ (d !! k = None ∧ live t e = false)
  end.

Definition represents (self : Coordinator.ReplicationCoordinator) (m : gmap string CacheEntry)
    (w : Cluster.World) : Prop :=
  ∀ key n nd, n ∈ Coordinator.alive_preference_list self key → answering w (addr n) = Some nd →
    holds (time w) m (data (store nd)) key.
End replicated.
End Replicated.

(** ** Lemmas *)

Section lemmas.
Context `{UuidLib} `{Xxh3} `{ClientPool.UriLib}.
Import NodeService CacheStore Cluster Replicated.
#[local] Existing Instance cluster_network.

Implicit Types (self : Coordinator.ReplicationCoordinator) (w : Cluster.World).

Definition good self (m : gmap string CacheEntry) w : Prop := stable self w ∧ represents self m w.

(** A step that changes the nodes one by one keeps the invariant when each change
    does. *)
Lemma good_evolves self m m' w w' (R : string → Node → Node → Prop) :
  good self m w → time w ≤ time w' →
  (∀ a, option_Forall2 (R a) (answering w a) (answering w' a)) →
  (∀ a nd nd', R a nd nd' → joining nd = false → joining nd' = false) →
  (∀ key n nd nd', n ∈ Coordinator.alive_preference_list self key → joining nd = false →
     R (addr n) nd nd' → holds (time w) m (data (store nd)) key →
     holds (time w') m' (data (store nd')) key) →
  good self m' w'.
Proof.
  intros [Hs Hr] Ht Hev Hj Hh. split.
  - destruct Hs as [Hs1 Hs2 Hs3 Hs4]. split; try done. intros key n Hn.
    destruct (Hs4 key n Hn) as (nd & Hnd & Hnj). specialize (Hev (addr n)). rewrite Hnd in Hev.
    inversion Hev as [? nd' HR Heq1 Heq2|]; subst. exists nd'. split; [done|]. eauto.
  - intros key n nd' Hn Hnd'. destruct (stable_serves _ _ Hs key n Hn) as (nd & Hnd & Hnj).
    specialize (Hev (addr n)). rewrite Hnd, Hnd' in Hev. inversion Hev; subst. eauto.
Qed.

Lemma good_init self w : stable self w →
  (∀ a nd, answering w a = Some nd → data (store nd) = ∅) → good self ∅ w.
Proof.
  intros Hs He. split; [done|]. intros key n nd _ Hnd. unfold holds.
  by rewrite lookup_empty, (He _ _ Hnd), lookup_empty.
Qed.

Lemma live_later t t' e : t ≤ t' → live t e = false → live t' e = false.
Proof. unfold live. destruct (expires_at e); [|done]. rewrite !Z.ltb_ge. lia. Qed.

Lemma holds_later t t' m d k : t ≤ t' → holds t m d k → holds t' m d k.
Proof.
  unfold holds. destruct (m !! k) as [e|]; [|done]. intros Ht [Hd|[Hd Hl]]; [by left|right].
  eauto using live_later.
Qed.

Lemma holds_insert t m d k k' e : holds t m d k' → holds t (<[k:=e]> m) (<[k:=e]> d) k'.
Proof.
  unfold holds. destruct (decide (k' = k)) as [->|Hne].
  - rewrite !lookup_insert_eq. by left.
  - by rewrite !lookup_insert_ne.
Qed.

Lemma holds_insert_ne t m d k k' e : k' ≠ k → holds t m d k' → holds t (<[k:=e]> m) d k'.
Proof. intros Hne. unfold holds. by rewrite lookup_insert_ne. Qed.

Lemma holds_delete t m d k k' : holds t m d k' → holds t (base.delete k m) (base.delete k d) k'.
Proof.
  unfold holds. destruct (decide (k' = k)) as [->|Hne].
  - by rewrite !lookup_delete_eq.
  - by rewrite !lookup_delete_ne.
Qed.

Lemma holds_delete_ne t m d k k' : k' ≠ k → holds t m d k' → holds t (base.delete k m) d k'.
Proof. intros Hne. unfold holds. by rewrite lookup_delete_ne. Qed.

(** *** Writes *)

(** The node a write leaves. *)
Definition written (req : SetRequest) (e : option Instant) (nd : Node) : Node :=
  with_store nd (with_data (store nd)
    (<[set_key req := mkCacheEntry (set_value req) e]> (data (store nd)))).

Lemma accepted_serving req w a nd : answering w a = Some nd → joining nd = false →
  accepted req w a = match expiry_of (time w) (from_millis <$> set_ttl_ms req) with
                     | Returns e => Some (written req e nd)
                     | _ => None
                     end.
Proof.
  intros Ha Hj. unfold accepted. rewrite Ha. cbn [mbind option_bind]. unfold NodeService.set.
  rewrite Hj. unfold CacheStore.set.
  destruct (expiry_of _ _); by cbn [outcome_bind].
Qed.

Lemma answering_apply_sets req addrs w a nd : answering w a = Some nd → 
  answering (apply_sets req addrs w) a =
  Some (if decide (a ∈ addrs) then default nd (accepted req w a) else nd).
Proof.
  intros Ha. unfold answering in *. destruct (apply_sets_frame req addrs w) as [-> _].
  destruct (reachable w a); [|done]. rewrite apply_sets_lookup.
  case_decide; [|done]. by destruct (accepted req w a).
Qed.

Lemma answering_apply_sets_None req addrs w a : answering w a = None →
  answering (apply_sets req addrs w) a = None.
Proof.
  intros Ha. unfold answering in Ha |- *. destruct (apply_sets_frame req addrs w) as [-> _].
  destruct (reachable w a) eqn:Er; [|done]. rewrite apply_sets_lookup.
  case_decide; [|done]. unfold accepted, answering. by rewrite Er, Ha.
Qed.

(** The map after a write. *)
Definition spec_set (t : Instant) (req : SetRequest) (m : gmap string CacheEntry) :=
  match expiry_of t (from_millis <$> set_ttl_ms req) with
  | Returns e => <[set_key req := mkCacheEntry (set_value req) e]> m
  | _ => m
  end.

Lemma good_set self m w req : good self m w →
  good self (spec_set (time w) req m)
    (apply_sets req (addr <$> Coordinator.alive_preference_list self (set_key req)) w).
Proof.
  intros Hg. set (addrs := addr <$> _).
  apply (good_evolves self m _ w _ (λ a nd nd', answering w a = Some nd ∧
    nd' = if decide (a ∈ addrs) then default nd (accepted req w a) else nd)); [done|..].
  - by destruct (apply_sets_frame req addrs w) as [_ ->].
  - intros a. destruct (answering w a) as [nd|] eqn:Ha.
    + rewrite (answering_apply_sets req addrs w a nd Ha). by constructor.
    + rewrite answering_apply_sets_None by done. constructor.
  - intros a nd nd' [Ha ->] Hj. case_decide; [|done]. rewrite (accepted_serving _ _ _ _ Ha Hj).
    by destruct (expiry_of _ _).
  - intros key n nd nd' Hn Hj [Ha ->] Hh. destruct (apply_sets_frame req addrs w) as [_ ->].
    rewrite (accepted_serving _ _ _ _ Ha Hj). unfold spec_set.
    destruct (expiry_of (time w) _) as [e| |]; [|by case_decide..].
    case_decide as Hin; [by apply holds_insert|]. apply holds_insert_ne; [|done].
    intros ->. apply Hin. by apply list_elem_of_fmap_2.
Qed.

(** *** Deletes *)

Lemma answering_apply_deletes key addrs w a nd : answering w a = Some nd →
  answering (apply_deletes key addrs w) a =
  Some (if decide (a ∈ addrs) then (NodeService.delete (mkDeleteRequest key) nd).2 else nd).
Proof.
  intros Ha. pose proof (apply_deletes_lookup key addrs w a) as Hl. unfold deleting in Hl.
  rewrite Ha in Hl. unfold answering in *. destruct (apply_deletes_frame key addrs w) as [-> _].
  destruct (reachable w a); [|done]. rewrite Hl. case_decide; [|done].
  cbn [mbind option_bind]. by destruct (NodeService.delete _ nd).
Qed.

Lemma answering_apply_deletes_None key addrs w a : answering w a = None →
  answering (apply_deletes key addrs w) a = None.
Proof.
  intros Ha. pose proof (apply_deletes_lookup key addrs w a) as Hl. unfold deleting in Hl.
  rewrite Ha in Hl. unfold answering in *. destruct (apply_deletes_frame key addrs w) as [-> _].
  destruct (reachable w a); [|done]. rewrite Hl, Ha. by case_decide.
Qed.

Lemma delete_serving key nd : joining nd = false →
  NodeService.delete (mkDeleteRequest key) nd =
  (inr (mkDeleteResponse (bool_decide (is_Some (data (store nd) !! key)))),
   with_store nd (remove_key key (store nd))).
Proof. intros Hj. unfold NodeService.delete. by rewrite Hj. Qed.

Lemma good_delete self m w key : good self m w →
  good self (base.delete key m)
    (apply_deletes key (addr <$> Coordinator.alive_preference_list self key) w).
Proof.
  intros Hg. set (addrs := addr <$> _).
  apply (good_evolves self m _ w _ (λ a nd nd', answering w a = Some nd ∧
    nd' = if decide (a ∈ addrs) then (NodeService.delete (mkDeleteRequest key) nd).2 else nd));
    [done|..].
  - by destruct (apply_deletes_frame key addrs w) as [_ ->].
  - intros a. destruct (answering w a) as [nd|] eqn:Ha.
    + rewrite (answering_apply_deletes key addrs w a nd Ha). by constructor.
    + rewrite answering_apply_deletes_None by done. constructor.
  - intros a nd nd' [_ ->] Hj. case_decide; [|done]. by rewrite delete_serving.
  - intros k n nd nd' Hn Hj [Ha ->] Hh. destruct (apply_deletes_frame key addrs w) as [_ ->].
    rewrite delete_serving by done.
    case_decide as Hin; [by apply holds_delete|]. apply holds_delete_ne; [|done].
    intros ->. apply Hin. by apply list_elem_of_fmap_2.
Qed.

(** What the delete reports. *)
Lemma good_deleted self m w key : good self m w →
  let b := existsb (λ n, deleted_at key w (addr n)) (Coordinator.alive_preference_list self key) in
  match m !! key with None => b = false | Some e => live (time w) e = true → b = true end.
Proof.
  intros [Hs Hr] b.
  assert (∀ n, n ∈ Coordinator.alive_preference_list self key → ∃ nd,
    deleted_at key w (addr n) = bool_decide (is_Some (data (store nd) !! key)) ∧
    holds (time w) m (data (store nd)) key) as Hn.
  { intros n Hn. destruct (stable_serves _ _ Hs key n Hn) as (nd & Hnd & Hj). exists nd.
    split; [|by apply (Hr key n)]. unfold deleted_at, deleting. rewrite Hnd.
    cbn [mbind option_bind]. by rewrite delete_serving. }
  unfold holds in Hn. subst b. destruct (m !! key) as [e|].
  - intros Hl. pose proof (stable_list _ _ Hs key) as Hne.
    destruct (Coordinator.alive_preference_list self key) as [|n l]; [done|].
    destruct (Hn n (list_elem_of_here _ _)) as (nd & Hd & [Hh|[_ Hh]]); [|congruence].
    simpl. rewrite Hd, bool_decide_eq_true_2 by by rewrite Hh. done.
  - apply not_true_is_false. intros (n & Hin & Hd)%existsb_exists.
    apply list_elem_of_In in Hin. destruct (Hn n Hin) as (nd & Hd' & Hh).
    rewrite Hd', Hh in Hd. by apply bool_decide_eq_true in Hd as [? ?].
Qed.

(** *** Reads and sweeps: only expired entries go *)

Definition lazily (t : Instant) (_ : string) (nd nd' : Node) : Prop :=
  joining nd' = joining nd ∧
  ∀ k, data (store nd') !! k = data (store nd) !! k ∨
    data (store nd') !! k = None ∧ ∀ e, data (store nd) !! k = Some e → live t e = false.

Definition lazy_world w w' : Prop :=
  time w' = time w ∧ ∀ a, option_Forall2 (lazily (time w) a) (answering w a) (answering w' a).

Lemma lazily_refl t a nd : lazily t a nd nd.
Proof. split; [done|]. by left. Qed.

Lemma lazy_world_refl w : lazy_world w w.
Proof.
  split; [done|]. intros a. destruct (answering w a); constructor. apply lazily_refl.
Qed.

Lemma lazy_world_trans w1 w2 w3 : lazy_world w1 w2 → lazy_world w2 w3 → lazy_world w1 w3.
Proof.
  intros [Ht1 Ha1] [Ht2 Ha2]. split; [congruence|]. rewrite Ht1 in Ha2. intros a.
  specialize (Ha1 a). specialize (Ha2 a).
  destruct Ha1 as [x y [Hj1 Hk1]|]; inversion Ha2 as [? z [Hj2 Hk2]|]; subst; constructor.
  split; [congruence|]. intros k. destruct (Hk2 k) as [E2|[E2 D2]], (Hk1 k) as [E1|[E1 D1]];
    rewrite ?E1 in *; rewrite ?E2 in *; naive_solver.
Qed.

Lemma good_lazy self m w w' : good self m w → lazy_world w w' → good self m w'.
Proof.
  intros Hg [Ht Ha]. apply (good_evolves self m m w w' (lazily (time w))); try done.
  - by rewrite Ht.
  - intros a nd nd' [Hj _] Hnd. by rewrite Hj.
  - intros key n nd nd' Hn _ [_ Hk] Hh. rewrite Ht. unfold holds in *.
    destruct (m !! key) as [e|], (Hk key) as [E|[E D]]; rewrite E; try done.
    destruct Hh as [Hh|[Hh Hl]]; right; eauto.
Qed.

Lemma lazy_put w a nd nd' : answering w a = Some nd → lazily (time w) a nd nd' →
  lazy_world w (put w a nd').
Proof.
  intros Ha Hl. split; [done|]. intros b. rewrite answering_put by by rewrite Ha.
  case_decide as Hb; [subst; rewrite Ha; by constructor|].
  destruct (answering w b); constructor. apply lazily_refl.
Qed.

Lemma lazily_get t a key nd : lazily t a nd (NodeService.get t (mkGetRequest key) nd).2.
Proof.
  unfold NodeService.get, CacheStore.get, get_lookup. cbn [get_key].
  destruct (data (store nd) !! key) as [e|] eqn:E; [|split; [done|by left]].
  destruct (expired t e) eqn:Ex; simpl; (split; [done|]); [|by left].
  intros k. simpl. destruct (decide (k = key)) as [->|Hne].
  - right. rewrite lookup_delete_eq. split; [done|]. intros e' He'. rewrite E in He'.
    injection He' as <-. by rewrite live_expired, Ex.
  - left. by apply lookup_delete_ne.
Qed.

Lemma get_attempts_lazy key addr attempts : valid_addr addr → ∀ pool w, ∃ r pool' w',
  Coordinator.get_attempts attempts addr (mkGetRequest key) (pool, w) = Returns (r, (pool', w')) ∧
  lazy_world w w'.
Proof.
  intros Hv. induction attempts as [|k IH]; intros pool w.
  { exists None, pool, w. split; [done|apply lazy_world_refl]. }
  cbn [Coordinator.get_attempts].
  destruct (get_client_cluster addr pool w Hv) as (client & pool1 & Hc & _). rewrite_run Hc.
  destruct client; [|apply IH]. cbn [rpc_get cluster_network]. unfold call.
  destruct (answering w addr) as [n|] eqn:Ea; [|apply IH].
  pose proof (lazy_put w addr n _ Ea (lazily_get (time w) addr key n)) as Hl.
  destruct (NodeService.get (time w) (mkGetRequest key) n) as [[e|inner] n'] eqn:Eg; cbn [snd] in Hl.
  - destruct (IH pool1 (put w addr n')) as (r & pool2 & w2 & Hr & Hl2).
    exists r, pool2, w2. split; [exact Hr|]. by eapply lazy_world_trans.
  - destruct (get_found inner); eauto.
Qed.

Lemma get_nodes_lazy key attempts nodes : Forall (λ n, valid_addr (addr n)) nodes →
  ∀ pool w r pool' w',
  Coordinator.get_nodes attempts nodes (mkGetRequest key) (pool, w) = Returns (r, (pool', w')) →
  lazy_world w w'.
Proof.
  induction 1 as [|n nodes Hn _ IH]; intros pool w r pool' w'.
  { intros [= _ _ <-]. apply lazy_world_refl. }
  cbn [Coordinator.get_nodes].
  destruct (get_attempts_lazy key (addr n) attempts Hn pool w) as (r1 & pool1 & w1 & Hr & Hl).
  rewrite_run Hr. destruct r1 as [inner|].
  - intros [= _ _ <-]. done.
  - intros Hg. eapply lazy_world_trans; [done|]. by eapply IH.
Qed.

(** What the nodes of the list answer to a read. *)
Lemma good_found self m w key n : good self m w →
  n ∈ Coordinator.alive_preference_list self key →
  found key w (addr n) = get_value (spec_value (time w) (m !! key)).
Proof.
  intros [Hs Hr] Hn. destruct (stable_serves _ _ Hs key n Hn) as (nd & Hnd & _).
  pose proof (Hr key n nd Hn Hnd) as Hh. unfold found. rewrite Hnd. cbn [mbind option_bind].
  unfold CacheStore.get, get_lookup, holds, spec_value in *. destruct (m !! key) as [e|].
  - rewrite live_expired. destruct Hh as [->|[-> Hl]]; [by destruct (expired (time w) e)|].
    rewrite live_expired in Hl. by rewrite Hl.
  - by rewrite Hh.
Qed.

Lemma good_read self m w key : good self m w →
  match head (omap (λ n, found key w (addr n)) (Coordinator.alive_preference_list self key)) with
  | Some v => mkGetResponse (Some v) true
  | None => mkGetResponse None false
  end = spec_value (time w) (m !! key).
Proof.
  intros Hg. pose proof (stable_list _ _ (proj1 Hg) key) as Hne.
  pose proof (λ n, good_found self m w key n Hg) as Hf.
  assert (∀ l, (∀ n, n ∈ l → n ∈ Coordinator.alive_preference_list self key) → l ≠ [] →
    head (omap (λ n, found key w (addr n)) l) = get_value (spec_value (time w) (m !! key))) as Hl.
  { induction l as [|n l IH]; intros Hin Hnil; [done|]. cbn [omap list_omap].
    rewrite (Hf n) by (apply Hin; by left).
    destruct (get_value (spec_value (time w) (m !! key))) eqn:E; [done|].
    destruct l as [|n' l]; [done|]. apply IH; [|done]. intros x Hx. apply Hin. by right. }
  rewrite Hl by done. unfold spec_value. destruct (m !! key) as [e|]; [|done]. by destruct (live _ e).
Qed.

(** *** What goes on beside the requests *)

Lemma answering_at_node a f w b :
  answering (at_node a f w) b = (if decide (b = a) then f else λ n, n) <$> answering w b.
Proof.
  unfold at_node, answering. destruct (nodes_at w !! a) as [n|] eqn:Ea; simpl.
  - destruct (reachable w b); [|done]. case_decide as Hb.
    + subst. by rewrite lookup_insert_eq, Ea.
    + rewrite lookup_insert_ne by done. by destruct (nodes_at w !! b).
  - destruct (reachable w b); [|done]. case_decide as Hb.
    + subst. by rewrite Ea.
    + by destruct (nodes_at w !! b).
Qed.

Lemma good_sweep self m w a : good self m w →
  good self m (at_node a (λ n, with_store n (sweep (time w) (store n))) w).
Proof.
  intros Hg. apply (good_lazy self m w); [done|]. split; [unfold at_node; by destruct (_ !! a)|].
  intros b. rewrite answering_at_node. destruct (answering w b) as [nd|]; constructor.
  case_decide; [|apply lazily_refl]. split; [done|]. intros k. simpl.
  destruct (data (store nd) !! k) as [e|] eqn:E.
  - destruct (live (time w) e) eqn:El.
    + left. by apply map_lookup_filter_Some.
    + right. split; [apply map_lookup_filter_None; right; intros e' He'; by simplify_eq/=; rewrite El|].
      intros e' He'. by simplify_eq.
  - left. apply map_lookup_filter_None. by left.
Qed.

Lemma good_learn self m w a t : MembershipTable.is_self_joining t = false → good self m w →
  good self m (at_node a (λ n, with_table n t) w).
Proof.
  intros Ht Hg. assert (time (at_node a (λ n, with_table n t) w) = time w) as Htime
    by (unfold at_node; by destruct (_ !! a)).
  apply (good_evolves self m m w _ (λ _ nd nd', nd' = nd ∨ nd' = with_table nd t)); try done.
  - by rewrite Htime.
  - intros b. rewrite answering_at_node. destruct (answering w b); constructor.
    case_decide; [by right|by left].
  - by intros b nd nd' [->| ->].
  - intros key n nd nd' Hn _ [->| ->]; by rewrite Htime.
Qed.

Lemma good_tick self m w d : 0 ≤ d → good self m w →
  good self m (mkWorld (nodes_at w) (reachable w) (time w + d)).
Proof.
  intros Hd Hg. apply (good_evolves self m m w _ (λ _ nd nd', nd' = nd)); [done|simpl; lia|..].
  - intros a. unfold answering. simpl. destruct (reachable w a); [|constructor].
    destruct (nodes_at w !! a); by constructor.
  - by intros a nd nd' ->.
  - intros key n nd nd' Hn _ -> Hh. by apply (holds_later (time w)); [simpl; lia|].
Qed.
End lemmas.

(** *** The simulation *)

Section simulation.
Context `{UuidLib} `{Xxh3} `{ClientPool.UriLib} `{RouterServiceImpl.TonicDisplay}.
Import NodeService CacheStore Cluster Replicated.
#[local] Existing Instance cluster_network.

Definition simulates (router : Router.Router) (o : op) (m : gmap string CacheEntry)
    (s : Replicated.State) : Prop :=
  ∃ r pool' w', step router o s = Returns (r, (pool', w')) ∧
    let '(allowed, (m', t')) := spec_step o (m, time s.2) in
    allowed r ∧ t' = time w' ∧ good (Router.coordinator router) m' w'.

Lemma simulate_set router req m pool w : good (Router.coordinator router) m w →
  simulates router (OpSet req) m (pool, w).
Proof.
  intros Hg. pose proof (proj1 Hg) as Hs. set (self := Router.coordinator router) in *.
  unfold simulates. cbn [step]. unfold RouterServiceImpl.set, Router.set. cbn [bool_decide].
  rewrite bool_decide_eq_false_2, service_of_coordinator by by intros [? ?].
  unfold Coordinator.set. fold self. pose proof (stable_list _ _ Hs (set_key req)) as Hne.
  pose proof (stable_retries _ _ Hs) as Hm. pose proof (good_set self m w req Hg) as Hg'.
  destruct (Coordinator.max_retries (Coordinator.config self)) as [|k]; [done|].
  destruct (set_nodes_cluster (mkSetRequest (set_key req) (set_value req) (set_ttl_ms req)) k _
    (stable_addr _ _ Hs (set_key req)) pool w) as (results & pool' & Hr & ->).
  pose proof (λ n, stable_serves _ _ Hs (set_key req) n) as Hserve.
  destruct (Coordinator.alive_preference_list self (set_key req)) as [|n l] eqn:El; [done|].
  rewrite_run Hr. destruct (Hserve n (list_elem_of_here _ _)) as (nd & Hnd & Hj).
  rewrite fmap_cons, (accepted_serving _ _ _ _ Hnd Hj).
  cbn [set_ttl_ms]. unfold spec_set in Hg'. destruct req as [key v ttl]. cbn [set_ttl_ms] in *.
  cbn [spec_step snd set_ttl_ms].
  destruct (apply_sets_frame (mkSetRequest key v ttl) (addr <$> n :: l) w) as [_ Ht].
  destruct (expiry_of (time w) (from_millis <$> ttl)) as [e|msg|].
  - rewrite bool_decide_eq_true_2 by done. cbn [outcome_bind].
    eexists _, pool', _. split; [reflexivity|]. by split.
  - rewrite bool_decide_eq_false_2 by by intros [? ?]. cbn [outcome_bind].
    eexists _, pool', _. split; [reflexivity|]. by split.
  - rewrite bool_decide_eq_false_2 by by intros [? ?]. cbn [outcome_bind].
    eexists _, pool', _. split; [reflexivity|]. by split.
Qed.

Lemma simulate_get router req m pool w : good (Router.coordinator router) m w →
  simulates router (OpGet req) m (pool, w).
Proof.
  intros Hg. pose proof (proj1 Hg) as Hs. set (self := Router.coordinator router) in *.
  unfold simulates. cbn [step]. unfold RouterServiceImpl.get, Router.get.
  rewrite bool_decide_eq_false_2, service_of_coordinator by by intros [? ?].
  unfold Coordinator.get. fold self.
  pose proof (stable_list _ _ Hs (get_key req)) as Hne.
  pose proof (stable_retries _ _ Hs) as Hm. pose proof (good_read self m w (get_key req) Hg) as Hread.
  pose proof (get_nodes_lazy (get_key req) (Coordinator.max_retries (Coordinator.config self))
    _ (stable_addr _ _ Hs (get_key req)) pool w) as Hlazy.
  destruct (Coordinator.max_retries (Coordinator.config self)) as [|k]; [done|].
  destruct (get_nodes_cluster (get_key req) k _ (stable_addr _ _ Hs (get_key req)) pool w)
    as [[pool' w'] Hr].
  rewrite Hread in Hr. specialize (Hlazy _ _ _ Hr).
  destruct (Coordinator.alive_preference_list self (get_key req)) as [|n l]; [done|].
  rewrite_run Hr. eexists _, pool', w'. split; [reflexivity|]. cbn [spec_step snd].
  split; [done|]. split; [by destruct Hlazy as [-> _]|]. by apply (good_lazy self m w).
Qed.

Lemma simulate_delete router req m pool w : good (Router.coordinator router) m w →
  simulates router (OpDelete req) m (pool, w).
Proof.
  intros Hg. pose proof (proj1 Hg) as Hs. set (self := Router.coordinator router) in *.
  unfold simulates. cbn [step]. unfold RouterServiceImpl.delete, Router.delete.
  rewrite bool_decide_eq_false_2, service_of_coordinator by by intros [? ?].
  unfold Coordinator.delete. fold self.
  pose proof (stable_list _ _ Hs (delete_key req)) as Hne.
  pose proof (stable_retries _ _ Hs) as Hm. pose proof (good_deleted self m w (delete_key req) Hg) as Hb.
  pose proof (good_delete self m w (delete_key req) Hg) as Hg'.
  destruct (Coordinator.max_retries (Coordinator.config self)) as [|k]; [done|].
  destruct (delete_nodes_cluster (delete_key req) k _ (stable_addr _ _ Hs (delete_key req)) false
    pool w) as [pool' Hr].
  destruct (Coordinator.alive_preference_list self (delete_key req)) as [|n l] eqn:El; [done|].
  rewrite_run Hr. eexists _, pool', _. split; [reflexivity|]. cbn [spec_step snd].
  split; [by eexists|]. split; [|done].
  by destruct (apply_deletes_frame (delete_key req) (addr <$> n :: l) w) as [_ ->].
Qed.

Lemma simulate_step router o m pool w : op_ok o → good (Router.coordinator router) m w →
  simulates router o m (pool, w).
Proof.
  intros Ho Hg. destruct o as [req|req|req|d|a|a t].
  - by apply simulate_set.
  - by apply simulate_get.
  - by apply simulate_delete.
  - eexists _, _, _. split; [reflexivity|]. split; [done|]. split; [done|]. by apply good_tick.
  - eexists _, _, _. split; [reflexivity|]. split; [done|].
    split; [unfold at_node; by destruct (_ !! a)|]. by apply good_sweep.
  - eexists _, _, _. split; [reflexivity|]. split; [done|].
    split; [unfold at_node; by destruct (_ !! a)|]. by apply good_learn.
Qed.

Lemma simulate_run router ops : Forall op_ok ops → ∀ m pool w,
  good (Router.coordinator router) m w →
  ∃ rs s', run router ops (pool, w) = Returns (rs, s') ∧ spec_run ops (m, time w) rs.
Proof.
  induction 1 as [|o ops Ho _ IH]; intros m pool w Hg; [by exists [], (pool, w)|].
  destruct (simulate_step router o m pool w Ho Hg) as (r & pool1 & w1 & Hstep & Hsim).
  cbn [run spec_run]. rewrite Hstep. cbn [outcome_bind snd] in *.
  destruct (spec_step o (m, time w)) as [allowed [m1 t1]]. destruct Hsim as (Hr & -> & Hg1).
  destruct (IH m1 pool1 w1 Hg1) as (rs & s' & -> & Hrs). cbn [outcome_bind]. by exists (r :: rs), s'.
Qed.
End simulation.

(** ** Properties *)

Section properties.
Context `{UuidLib} `{Xxh3} `{ClientPool.UriLib} `{RouterServiceImpl.TonicDisplay}.
Import NodeService CacheStore Cluster Replicated.

(** C1: the replicated cluster is one map: while the nodes of the preference lists
    can be reached and serve, every sequence of writes, reads and deletes through
    the router, interleaved with the passing of time, sweeps and gossip on the nodes,
    is answered as one map of entries with expiry times would answer it, whatever the
    replication factor; and every request is answered. *)
Theorem cluster_is_one_map (router : Router.Router) (ops : list op)
    (pool : ClientPool.NodeClientPool) (w : Cluster.World) :
  stable (Router.coordinator router) w →
  (∀ a nd, answering w a = Some nd → data (store nd) = ∅) →
  Forall op_ok ops →
  ∃ replies s', run router ops (pool, w) = Returns (replies, s') ∧
    spec_run ops (∅, time w) replies.
Proof.
  intros Hs He Ho. apply simulate_run; [done|]. by apply good_init.
Qed.
End properties.

(** ** Witnesses *)

Section witnesses.
#[local] Existing Instance Examples.string_uuid.
#[local] Existing Instance Examples.poly_xxh3.
#[local] Existing Instance ex_uri.
Import NodeService CacheStore Cluster Replicated.

#[local] Instance ex_display : RouterServiceImpl.TonicDisplay :=
  {| RouterServiceImpl.status_to_string _ := "status"; RouterServiceImpl.transport_to_string := "transport error" |}.
Definition ex_serving : Router.Router := Router.mkRouter ex_two_ring (ex_coordinator 2 1).

Lemma ex_stable : stable (ex_coordinator 2 1) ex_world.
Proof.
  assert (∀ key n, n ∈ Coordinator.alive_preference_list (ex_coordinator 2 1) key →
    n = ex_n1 ∨ n = ex_n2) as Hn.
  { intros key n Hn%alive_preference_nodes; [|done]. cbn in Hn. rewrite !elem_of_cons in Hn.
    destruct Hn as [->|[->|[]%elem_of_nil]]; auto. }
  split.
  - done.
  - intros key. apply alive_preference_nonempty; [apply ex_two_ring_wf|by compute|by compute|done].
  - intros key. apply Forall_forall. intros n [->| ->]%Hn; reflexivity.
  - intros key n [->| ->]%Hn; exists ex_alone; split; reflexivity.
Qed.

(** A session: a write with a TTL of 5 ms is read back, and is gone 5 ms later. *)
Definition ex_ops : list op :=
  [OpSet (mkSetRequest "k" (as_bytes "v") (Some 5)); OpGet (mkGetRequest "k");
   Tick (from_millis 5); Sweep "h1:1"; OpGet (mkGetRequest "k")].

Lemma cluster_is_one_map_witness : ∃ replies s',
  run ex_serving ex_ops (ex_pool, ex_world) = Returns (replies, s') ∧
  replies = [RSet (inr (mkSetResponse true)); RGet (inr (mkGetResponse (Some (as_bytes "v")) true));
             RNone; RNone; RGet (inr (mkGetResponse None false))].
Proof.
  destruct (cluster_is_one_map ex_serving ex_ops ex_pool ex_world ex_stable) as (rs & s' & Hr & Hrs).
  - intros a nd. unfold answering. simpl. rewrite lookup_insert_Some, lookup_singleton_Some.
    by intros [[_ <-]|[_ [_ <-]]].
  - repeat constructor; by compute.
  - exists rs, s'. split; [exact Hr|].
    destruct rs as [|r1 [|r2 [|r3 [|r4 [|r5 [|r6 rs]]]]]]; try (exfalso; vm_compute in Hrs; tauto).
    vm_compute in Hrs. destruct Hrs as (<- & <- & <- & <- & <- & _). reflexivity.
Defined.
End witnesses.
