(* ===== verification/LostReplies.v ===== *)
(** * Lost replies

    The network of [Cluster] answers whenever a node has handled a request.  Here the
    reply to a request may be lost after the node has handled it, and the coordinator,
    which sees an error, sends the request again as long as it has attempts left. *)

From S2P Require Import Prelude Machine Text Common Ring Store NodeService Health Coordinator.
Local Open Scope Z_scope.
Local Open Scope outcome_scope.

Module LostReplies.
Import NodeService Cluster.

Section network.
Context `{UuidLib}.

(** The calls are counted; [lost] says of which the reply is lost. *)
Definition lossy_network (lost : nat → bool) : Network :=
  let call {A} (f : Cluster.World → (Status + A) * Cluster.World) (kw : nat * Cluster.World)
      : (Status + A) * (nat * Cluster.World) :=
    let '(r, w') := f kw.2 in (if lost kw.1 then inl unreachable else r, (S kw.1, w')) in
  {| Coordinator.World := nat * Cluster.World;
     connect addr kw := let '(client, w') := @connect cluster_network addr kw.2 in (client, (kw.1, w'));
     rpc_set addr req := call (@rpc_set cluster_network addr req);
     rpc_get addr req := call (@rpc_get cluster_network addr req);
     rpc_delete addr req := call (@rpc_delete cluster_network addr req) |}.
End network.
End LostReplies.

(** ** Lemmas *)

Section lemmas.
Context `{UuidLib} `{Xxh3} `{ClientPool.UriLib} (lost : nat → bool).
Import NodeService Coordinator Cluster LostReplies.
#[local] Instance lossy : Network := lossy_network lost.

Lemma get_client_lossy addr pool k w : valid_addr addr → ∃ client pool',
  get_client addr (pool, (k, w)) = Returns (client, (pool', (k, w))) ∧
  (is_Some (answering w addr) → client = true).
Proof.
  intros Hv. unfold get_client, ClientPool.get_client. cbn [connect lossy lossy_network cluster_network fst snd].
  destruct (decide (addr ∈ ClientPool.clients pool)) as [Hin|Hin]; cbn [outcome_bind]; [by eauto|].
  rewrite Hv. case_bool_decide; cbn [outcome_bind]; [by eauto|]. exists false, pool. by split.
Qed.

(** A write that is repeated is the write. *)
Lemma apply_set_again req w a : apply_set req (apply_set req w a) a = apply_set req w a.
Proof.
  unfold apply_set at 1. rewrite accepted_apply. destruct (accepted req w a) as [n'|] eqn:E; [|done].
  unfold apply_set. rewrite E. unfold put. cbn. by rewrite insert_insert_eq.
Qed.

(** A reply arrives, of the calls from the [k]-th on. *)
Definition heard (k attempts : nat) : bool := existsb (λ j, negb (lost j)) (seq k attempts).

Lemma set_attempts_lossy req a : valid_addr a → ∀ attempts pool k w, ∃ pool' k',
  set_attempts attempts a req (pool, (k, w)) =
    Returns (bool_decide (is_Some (accepted req w a)) && heard k attempts,
      (pool', (k', match attempts with O => w | _ => apply_set req w a end))).
Proof.
  intros Hv. induction attempts as [|n IH]; intros pool k w.
  { exists pool, k. by rewrite andb_false_r. }
  cbn [set_attempts]. destruct (get_client_lossy a pool k w Hv) as (client & pool1 & -> & Hc).
  cbn [outcome_bind]. destruct client.
  2:{ assert (accepted req w a = None) as Ea.
      { unfold accepted. destruct (answering w a); [|done]. by discriminate Hc. }
      destruct (IH pool1 k w) as (pool2 & k2 & Heq). exists pool2, k2. etransitivity; [exact Heq|].
      unfold apply_set. rewrite Ea. by destruct n. }
  cbn [rpc_set lossy lossy_network fst snd]. destruct (accepted req w a) as [n'|] eqn:Ea.
  - rewrite (rpc_set_accepted _ _ _ _ Ea). unfold heard. cbn [seq existsb].
    assert (put w a n' = apply_set req w a) as Hp by (unfold apply_set; by rewrite Ea).
    rewrite Hp. destruct (lost k); cbn [negb orb andb].
    + destruct (IH pool1 (S k) (apply_set req w a)) as (pool2 & k2 & Heq). exists pool2, k2.
      etransitivity; [exact Heq|]. rewrite accepted_apply, Ea, apply_set_again. unfold heard. by destruct n.
    + exists pool1, (S k). done.
  - destruct (rpc_set_refused _ _ _ Ea) as [e ->].
    destruct (IH pool1 (S k) w) as (pool2 & k2 & Heq). rewrite Ea in Heq. cbn in Heq.
    assert (apply_set req w a = w) as Hw by (unfold apply_set; by rewrite Ea). rewrite Hw in *.
    exists pool2, k2. destruct (lost k); (etransitivity; [exact Heq|]); by destruct n.
Qed.

(** The first node decides; every node of the list has had the request. *)
Lemma set_nodes_lossy req attempts nodes : Forall (λ n, valid_addr (addr n)) nodes → ∀ pool k w,
  ∃ results pool' k', set_nodes (S attempts) nodes req (pool, (k, w)) =
    Returns (results, (pool', (k', apply_sets req (addr <$> nodes) w))) ∧
  head results = (λ n, bool_decide (is_Some (accepted req w (addr n))) && heard k (S attempts)) <$> head nodes.
Proof.
  induction 1 as [|n nodes Hn _ IH]; intros pool k w; [by exists [], pool, k|].
  cbn [set_nodes]. destruct (set_attempts_lossy req (addr n) Hn (S attempts) pool k w) as (pool1 & k1 & ->).
  cbn [outcome_bind]. destruct (IH pool1 k1 (apply_set req w (addr n))) as (results & pool2 & k2 & -> & _).
  cbn [outcome_bind]. by eexists _, pool2, k2.
Qed.
End lemmas.

(** ** Properties *)

Section properties.
Context `{UuidLib} `{Xxh3} `{ClientPool.UriLib}.
Import NodeService Coordinator Cluster LostReplies.

(** Further: a write over a network that loses replies: whatever replies are lost, the nodes of
    the list that would have accepted the write have it afterwards, exactly as without a
    loss (a repeated request changes nothing), and the coordinator acknowledges it exactly
    if the first of them is among these and one of the replies to its attempts arrives.
    So an acknowledged write is stored, and a write that is answered "Primary write
    failed" may be stored as well, at all the nodes of its list: nothing takes it back. *)
Theorem write_with_lost_replies (lost : nat → bool) (self : ReplicationCoordinator) (key : string)
    (value : bytes) (ttl_ms : option Z) (pool : ClientPool.NodeClientPool) (k : nat) (w : Cluster.World)
    (primary : NodeInfo) (replicas : list NodeInfo) :
  alive_preference_list self key = primary :: replicas →
  Forall (λ n, valid_addr (addr n)) (primary :: replicas) → max_retries (config self) ≠ 0%nat →
  let req := mkSetRequest key value ttl_ms in
  ∃ pool' k', @Coordinator.set _ _ _ (lossy_network lost) self key value ttl_ms (pool, (k, w)) =
    Returns (if bool_decide (is_Some (accepted req w (addr primary))) &&
                existsb (λ j, negb (lost j)) (seq k (max_retries (config self)))
             then inr (mkSetResponse true) else inl "Primary write failed"%string,
      (pool', (k', apply_sets req (addr <$> primary :: replicas) w))) ∧
  ∀ a, nodes_at (apply_sets req (addr <$> primary :: replicas) w) !! a =
    if decide (a ∈ addr <$> primary :: replicas) then
      match accepted req w a with Some n' => Some n' | None => nodes_at w !! a end
    else nodes_at w !! a.
Proof.
  intros Hp Hv Hm req. unfold Coordinator.set. rewrite Hp. destruct (max_retries (config self)) as [|n]; [done|].
  destruct (set_nodes_lossy lost req n _ Hv pool k w) as (results & pool' & k' & Hr & Hhead).
  exists pool', k'. split; [|intros a; apply apply_sets_lookup].
  unfold lossy in Hr. rewrite_run Hr. fold (heard lost k (S n)). cbn [head fmap option_fmap option_map] in Hhead.
  destruct results as [|b results]; [done|]. injection Hhead as ->. by destruct (_ && _).
Qed.
End properties.

(** ** Witnesses *)

Section witnesses.
#[local] Existing Instance Examples.string_uuid.
#[local] Existing Instance Examples.poly_xxh3.
#[local] Existing Instance ex_uri.
Import NodeService Coordinator Cluster LostReplies.

(** All replies are lost: the write is refused, and stored at both nodes. *)
Lemma write_with_lost_replies_witness : ∃ pool' k' w',
  @Coordinator.set _ _ _ (lossy_network (λ _, true)) (ex_coordinator 2 1) "k" (as_bytes "v") None
    (ex_pool, (0%nat, ex_world)) = Returns (inl "Primary write failed"%string, (pool', (k', w'))) ∧
  found "k" w' "h1:1" = Some (as_bytes "v") ∧ found "k" w' "h2:1" = Some (as_bytes "v").
Proof.
  destruct (write_with_lost_replies (λ _, true) (ex_coordinator 2 1) "k" (as_bytes "v") None ex_pool 0
    ex_world ex_n1 [ex_n2]) as (pool' & k' & Hs & _).
  - by apply ex_list_eq.
  - exact ex_list_valid.
  - discriminate.
  - eexists pool', k', _. split; [exact Hs|]. split; vm_compute; reflexivity.
Defined.
End witnesses.
