(* ===== verification/Overlap.v ===== *)
(** * Requests that overlap

    A request to the router is several accesses to the network, and while it is
    served other requests, other routers, the gossip, the sweepers and the clock go
    on.  Here the handlers of [Coordinator] run on a network where [others] acts
    before each access.  What others do with other keys does not disturb a client
    ([keys_are_independent]); two writes of one key that overlap leave the replicas
    different for good ([overlapping_writes_diverge]). *)

From S2P Require Import Prelude Machine Text Common Store Membership NodeService Health Coordinator Router Replicated.
Local Open Scope Z_scope.
Local Open Scope outcome_scope.

Module Overlap.
Import NodeService CacheStore Cluster.

Section overlap.
Context `{UuidLib} `{Xxh3} `{ClientPool.UriLib}.

(** The cluster with others at work: the world counts the accesses, and [others k] is
    what has happened when the [k]-th is made. *)
Definition busy_network (others : nat → Cluster.World → Cluster.World) : Network :=
  let access {A} (f : Cluster.World → A * Cluster.World) (kw : nat * Cluster.World)
      : A * (nat * Cluster.World) :=
    let '(r, w') := f (others kw.1 kw.2) in (r, (S kw.1, w')) in
  {| Coordinator.World := nat * Cluster.World;
     connect addr := access (@connect cluster_network addr);
     rpc_set addr req := access (@rpc_set cluster_network addr req);
     rpc_get addr req := access (@rpc_get cluster_network addr req);
     rpc_delete addr req := access (@rpc_delete cluster_network addr req) |}.

(** *** What others may do while a client works on a key *)

(** An expired entry may go. *)
Definition leaves (key : string) (t : Instant) (nd nd' : Node) : Prop :=
  data (store nd') !! key = data (store nd) !! key ∨
  data (store nd') !! key = None ∧ ∀ e, data (store nd) !! key = Some e → live t e = false.

Inductive elsewhere (key : string) (w : Cluster.World) : Cluster.World → Prop :=
  | elsewhere_time d : 0 ≤ d → elsewhere key w (mkWorld (nodes_at w) (reachable w) (time w + d))
  | elsewhere_node a nd nd' : nodes_at w !! a = Some nd → node_step nd nd' →
      (joining nd = false → joining nd' = false) → leaves key (time w) nd nd' →
      elsewhere key w (put w a nd').

(** *** A client of one key *)

Inductive key_op := KSet (v : bytes) (ttl_ms : option Z) | KGet | KDelete.
Inductive key_reply :=
  | KWritten (r : string + SetResponse)
  | KRead (r : string + GetResponse)
  | KDeleted (r : string + DeleteResponse).

Section client.
Context (others : nat → Cluster.World → Cluster.World).
#[local] Instance busy : Network := busy_network others.

Definition perform (self : Coordinator.ReplicationCoordinator) (key : string) (o : key_op)
    (s : Coordinator.State) : outcome (key_reply * Coordinator.State) :=
  match o with
  | KSet v ttl => let! (r, s') := Coordinator.set self key v ttl s in Returns (KWritten r, s')
  | KGet => let! (r, s') := Coordinator.get self key s in Returns (KRead r, s')
  | KDelete => let! (r, s') := Coordinator.delete self key s in Returns (KDeleted r, s')
  end.

(** The replies, each with the times at which its request began and ended. *)
Fixpoint client_run (self : Coordinator.ReplicationCoordinator) (key : string) (ops : list key_op)
    (s : Coordinator.State) : outcome (list (Instant * key_reply * Instant) * Coordinator.State) :=
  match ops with
  | [] => Returns ([], s)
  | o :: ops' =>
      let! (r, s1) := perform self key o s in
      let! (rs, s2) := client_run self key ops' s1 in
      Returns ((time s.2.2, r, time s1.2.2) :: rs, s2)
  end.
End client.

(** *** Two writes of one key: what a second one does when it is served as a whole
    between the first two accesses of another. *)

Definition second_write (self : Coordinator.ReplicationCoordinator) (key : string) (v : bytes)
    (pool : ClientPool.NodeClientPool) (w : Cluster.World) : Cluster.World :=
  match @Coordinator.set _ _ _ cluster_network self key v None (pool, w) with
  | Returns (_, (_, w')) => w'
  | _ => w
  end.
Definition race (self : Coordinator.ReplicationCoordinator) (key : string) (v : bytes)
    (pool : ClientPool.NodeClientPool) (k : nat) (w : Cluster.World) : Cluster.World :=
  if decide (k = 1%nat) then second_write self key v pool w else w.

(** *** The specification: one cell

    A value, and the first and last time at which it may expire: the replicas of a
    write count its TTL from when each of them is written. *)

Definition Cell : Type := option (bytes * option (Instant * Instant)).

Definition window (t0 t1 : Instant) (ttl_ms : option Z) : option (Instant * Instant) :=
  (λ ms, (t0 + from_millis ms, t1 + from_millis ms)) <$> ttl_ms.

Definition found_reply (v : bytes) : key_reply := KRead (inr (mkGetResponse (Some v) true)).
Definition missing_reply : key_reply := KRead (inr (mkGetResponse None false)).

(** What a request that lasts from [t0] to [t1] may answer, and the cell it leaves. *)
Definition cell_step (o : key_op) (t0 t1 : Instant) (c : Cell) (r : key_reply) : Prop :=
  match o, c with
  | KSet _ _, _ => r = KWritten (inr (mkSetResponse true))
  | KGet, None => r = missing_reply
  | KGet, Some (v, None) => r = found_reply v
  | KGet, Some (v, Some (lo, hi)) => r = found_reply v ∧ t0 < hi ∨ r = missing_reply ∧ lo ≤ t1
  | KDelete, None => r = KDeleted (inr (mkDeleteResponse false))
  | KDelete, Some (_, None) => r = KDeleted (inr (mkDeleteResponse true))
  | KDelete, Some (_, Some (lo, _)) =>
      ∃ b, r = KDeleted (inr (mkDeleteResponse b)) ∧ (b = true ∨ lo ≤ t1)
  end.
Definition cell_after (o : key_op) (t0 t1 : Instant) (c : Cell) : Cell :=
  match o with
  | KSet v ttl => Some (v, window t0 t1 ttl)
  | KGet => c
  | KDelete => None
  end.

Fixpoint cell_run (ops : list key_op) (c : Cell) (trace : list (Instant * key_reply * Instant)) : Prop :=
  match ops, trace with
  | [], [] => True
  | o :: ops', (t0, r, t1) :: trace' =>
      t0 ≤ t1 ∧ cell_step o t0 t1 c r ∧ cell_run ops' (cell_after o t0 t1 c) trace'
  | _, _ => False
  end.

(** No expiry overflows as long as the clock stays below the horizon. *)
Definition op_fits (horizon : Instant) (o : key_op) : Prop :=
  match o with
  | KSet _ (Some ms) => horizon + from_millis ms < instant_limit
  | _ => True
  end.
End overlap.
End Overlap.

(** ** Lemmas: what a key goes through while others work *)

Section quiet.
Context `{UuidLib}.
Import NodeService CacheStore Cluster Overlap.

(** The nodes that answer go on answering and serving, and the key keeps its entry
    until that expires. *)
Definition quiet_node (key : string) (t : Instant) (nd nd' : Node) : Prop :=
  (joining nd = false → joining nd' = false) ∧ leaves key t nd nd'.
Definition quiet (key : string) (w w' : Cluster.World) : Prop :=
  time w ≤ time w' ∧
  ∀ a, option_Forall2 (quiet_node key (time w')) (answering w a) (answering w' a).

Lemma leaves_refl key t nd : leaves key t nd nd.
Proof. by left. Qed.
Lemma leaves_later key t t' nd nd' : t ≤ t' → leaves key t nd nd' → leaves key t' nd nd'.
Proof. intros Ht [Hd|[Hd Hl]]; [by left|right]. eauto using live_later. Qed.
Lemma leaves_trans key t nd1 nd2 nd3 : leaves key t nd1 nd2 → leaves key t nd2 nd3 → leaves key t nd1 nd3.
Proof.
  intros H1 [H2|[H2 H3]]; [unfold leaves; by rewrite H2|].
  right. split; [done|]. destruct H1 as [<-|[_ H1]]; [done|by apply H1].
Qed.

#[export] Instance quiet_preorder key : PreOrder (quiet key).
Proof.
  split.
  - intros w. split; [done|]. intros a. destruct (answering w a); constructor. split; [done|apply leaves_refl].
  - intros w1 w2 w3 [Ht1 Ha1] [Ht2 Ha2]. split; [lia|]. intros a. specialize (Ha1 a). specialize (Ha2 a).
    destruct Ha1 as [nd1 nd2 [Hj1 Hl1]|]; inversion Ha2 as [? nd3 [Hj2 Hl2]|]; subst; constructor.
    split; [auto|]. eapply leaves_trans; [by eapply leaves_later|done].
Qed.

Lemma quiet_put key w a nd nd' : answering w a = Some nd → quiet_node key (time w) nd nd' →
  quiet key w (put w a nd').
Proof.
  intros Ha Hq. split; [done|]. intros b. rewrite answering_put by by rewrite Ha.
  case_decide as Hb; [subst; rewrite Ha; by constructor|].
  destruct (answering w b); constructor. split; [done|apply leaves_refl].
Qed.

Lemma elsewhere_quiet key w w' : elsewhere key w w' → quiet key w w'.
Proof.
  intros [d Hd|a nd nd' Hn _ Hj Hl].
  - split; [simpl; lia|]. intros a. change (answering (mkWorld _ _ _) a) with (answering w a).
    destruct (answering w a); constructor. split; [done|apply leaves_refl].
  - destruct (reachable w a) eqn:Er.
    + apply (quiet_put key w a nd nd'); [unfold answering; by rewrite Er|done].
    + split; [done|]. intros b. destruct (decide (b = a)) as [->|Hb].
      * unfold answering. simpl. rewrite Er. constructor.
      * unfold answering. simpl. rewrite lookup_insert_ne by done.
        destruct (reachable w b); [|constructor]. destruct (nodes_at w !! b); constructor.
        split; [done|apply leaves_refl].
Qed.

Lemma elsewheres_quiet key w w' : rtc (elsewhere key) w w' → quiet key w w'.
Proof.
  induction 1 as [w|w1 w2 w3 H1 _ IH]; [done|]. etrans; [by apply elsewhere_quiet|done].
Qed.

(** *** Cells *)

Definition entry_in (t : Instant) (c : Cell) (o : option CacheEntry) : Prop :=
  match c, o with
  | None, None => True
  | None, Some _ => False
  | Some (v, x), Some e =>
      value e = v ∧ match x, expires_at e with
                    | None, None => True
                    | Some (lo, hi), Some t' => lo ≤ t' ≤ hi
                    | _, _ => False
                    end
  | Some (_, Some (lo, _)), None => lo ≤ t
  | Some (_, None), None => False
  end.

(** The node of an address of the list serves, and its entry is in the cell. *)
Definition holds_cell (key : string) (c : Cell) (w : Cluster.World) (n : NodeInfo) : Prop :=
  ∃ nd, answering w (addr n) = Some nd ∧ joining nd = false ∧ entry_in (time w) c (data (store nd) !! key).
Definition serves (w : Cluster.World) (n : NodeInfo) : Prop :=
  ∃ nd, answering w (addr n) = Some nd ∧ joining nd = false.

Lemma entry_in_later t t' c nd nd' key : t ≤ t' → leaves key t' nd nd' →
  entry_in t c (data (store nd) !! key) → entry_in t' c (data (store nd') !! key).
Proof.
  intros Ht Hl He. unfold entry_in in *. destruct Hl as [->|[-> Hl]].
  - destruct c as [[v [[lo hi]|]]|]; destruct (data (store nd) !! key); try done. lia.
  - destruct c as [[v [[lo hi]|]]|]; destruct (data (store nd) !! key) as [e|]; try done; try lia.
    + specialize (Hl e eq_refl). unfold live in Hl. destruct He as [_ He], (expires_at e); [|done].
      apply Z.ltb_ge in Hl. lia.
    + specialize (Hl e eq_refl). unfold live in Hl. by destruct He as [_ He], (expires_at e).
Qed.

Lemma holds_quiet key c w w' n : quiet key w w' → holds_cell key c w n → holds_cell key c w' n.
Proof.
  intros [Ht Ha] (nd & Hnd & Hj & He). specialize (Ha (addr n)). rewrite Hnd in Ha.
  inversion Ha as [? nd' [Hj' Hl] Heq1 Heq2|]; subst. exists nd'. split; [done|]. split; [auto|].
  by eapply entry_in_later.
Qed.

Lemma serves_quiet key w w' n : quiet key w w' → serves w n → serves w' n.
Proof.
  intros [_ Ha] (nd & Hnd & Hj). specialize (Ha (addr n)). rewrite Hnd in Ha.
  inversion Ha as [? nd' [Hj' _]|]; subst. exists nd'. auto.
Qed.

Lemma holds_serves key c w n : holds_cell key c w n → serves w n.
Proof. intros (nd & ? & ? & _). by exists nd. Qed.

(** A change of one node: it has the new cell, the others what they had. *)
Lemma holds_put_same key c w n nd : serves w n → joining nd = false →
  entry_in (time w) c (data (store nd) !! key) → holds_cell key c (put w (addr n) nd) n.
Proof.
  intros (nd0 & Hnd0 & _) Hj He. exists nd. split; [|done].
  by rewrite answering_put, decide_True by (done || by rewrite Hnd0).
Qed.
Lemma holds_put key c w a n nd : is_Some (answering w a) → joining nd = false →
  entry_in (time w) c (data (store nd) !! key) → holds_cell key c w n → holds_cell key c (put w a nd) n.
Proof.
  intros Ha Hj He (nd0 & Hnd0 & H0). unfold holds_cell. rewrite answering_put by done.
  case_decide; [by exists nd|by exists nd0].
Qed.
Lemma serves_put w a n nd : is_Some (answering w a) → joining nd = false →
  serves w n → serves (put w a nd) n.
Proof.
  intros Ha Hj (nd0 & Hnd0 & H0). unfold serves. rewrite answering_put by done.
  case_decide; [by exists nd|by exists nd0].
Qed.

Lemma entry_widen t v t0 t1 t1' ttl o : t1 ≤ t1' →
  entry_in t (Some (v, window t0 t1 ttl)) o → entry_in t (Some (v, window t0 t1' ttl)) o.
Proof.
  intros Ht. unfold entry_in, window. destruct ttl as [ms|], o as [e|]; simpl; try done.
  intros [? He]. split; [done|]. destruct (expires_at e); lia || done.
Qed.
Lemma holds_widen key v t0 t1 t1' ttl w n : t1 ≤ t1' →
  holds_cell key (Some (v, window t0 t1 ttl)) w n → holds_cell key (Some (v, window t0 t1' ttl)) w n.
Proof. intros Ht (nd & ? & ? & He). exists nd. split; [done|]. split; [done|]. by eapply entry_widen. Qed.
End quiet.

(** ** Lemmas: a client of one key on the busy network *)

Section client.
Context `{UuidLib} `{Xxh3} `{ClientPool.UriLib}.
Import NodeService CacheStore Cluster Overlap.
Context (others : nat → Cluster.World → Cluster.World) (key : string) (horizon : Instant).
Hypothesis others_quiet : ∀ k w, quiet key w (others k w).
Hypothesis others_clock : ∀ k w, time w ≤ horizon → time (others k w) ≤ horizon.
#[local] Instance busy : Network := busy_network others.

(** From one world to a later one, below the horizon. *)
Definition next (w w' : Cluster.World) : Prop := quiet key w w' ∧ time w' ≤ horizon.

Lemma next_trans w1 w2 w3 : next w1 w2 → next w2 w3 → next w1 w3.
Proof. intros [Hq _] [Hq' ?]. split; [by etrans|done]. Qed.
Lemma next_others k w : time w ≤ horizon → next w (others k w).
Proof. split; auto. Qed.
Lemma next_time w w' : next w w' → time w ≤ time w' ≤ horizon.
Proof. by intros [[? _] ?]. Qed.

Lemma busy_client n pool k w : valid_addr (addr n) → serves w n → time w ≤ horizon →
  ∃ pool' k' w', Coordinator.get_client (addr n) (pool, (k, w)) = Returns (true, (pool', (k', w'))) ∧
    next w w'.
Proof.
  intros Hv Hs Ht. unfold Coordinator.get_client, ClientPool.get_client.
  cbn [connect busy busy_network cluster_network fst snd].
  destruct (serves_quiet key _ _ _ (others_quiet k w) Hs) as (nd & Hnd & _).
  rewrite Hnd, bool_decide_eq_true_2 by done.
  destruct (decide (addr n ∈ ClientPool.clients pool)); cbn [outcome_bind].
  - exists pool, k, w. split; [done|]. by split.
  - rewrite Hv. cbn [outcome_bind]. eexists _, _, _. split; [reflexivity|]. by apply next_others.
Qed.

(** One write lands, with an expiry counted from when it is made. *)
Lemma busy_set_attempt n m v ttl pool k w :
  valid_addr (addr n) → serves w n → time w ≤ horizon → op_fits horizon (KSet v ttl) →
  ∃ pool' k' w1 nd, Coordinator.set_attempts (S m) (addr n) (mkSetRequest key v ttl) (pool, (k, w)) =
      Returns (true, (pool', (k', put w1 (addr n) nd))) ∧
    next w w1 ∧ is_Some (answering w1 (addr n)) ∧ joining nd = false ∧
    entry_in (time w1) (Some (v, window (time w1) (time w1) ttl)) (data (store nd) !! key).
Proof.
  intros Hv Hs Ht Hfit. destruct (busy_client n pool k w Hv Hs Ht) as (pool1 & k1 & w1 & Hc & Hn1).
  cbn [Coordinator.set_attempts]. rewrite Hc. cbn [outcome_bind].
  pose proof (next_others k1 w1 (proj2 (next_time _ _ Hn1))) as Hn2. set (w2 := others k1 w1) in *.
  destruct (serves_quiet key _ _ _ (proj1 (next_trans _ _ _ Hn1 Hn2)) Hs) as (nd & Hnd & Hj).
  assert (∃ e, expiry_of (time w2) (from_millis <$> ttl) = Returns e ∧
    match window (time w2) (time w2) ttl, e with
    | None, None => True | Some (lo, hi), Some t => lo ≤ t ≤ hi | _, _ => False end) as (e & He & Hw).
  { apply next_time in Hn2. destruct ttl as [ms|]; [|by exists None]. cbn in Hfit |- *.
    unfold instant_add. rewrite (proj2 (Z.ltb_lt (time w2 + from_millis ms) instant_limit)) by lia.
    eexists. split; [done|]. by split. }
  exists pool1, (S k1), w2, (written (mkSetRequest key v ttl) e nd). split.
  - cbn [rpc_set busy busy_network cluster_network fst snd]. fold w2. unfold call. rewrite Hnd.
    unfold NodeService.set. rewrite Hj. unfold CacheStore.set. cbn [set_ttl_ms]. by rewrite He.
  - split; [by eapply next_trans|]. split; [by rewrite Hnd|]. split; [done|].
    cbn [written store with_store data with_data set_key set_value]. rewrite lookup_insert_eq.
    unfold entry_in. destruct ttl as [ms|]; (split; [done|exact Hw]).
Qed.

Lemma busy_set_nodes m v ttl t0 : op_fits horizon (KSet v ttl) → ∀ todo done_ pool k w,
  Forall (λ n, valid_addr (addr n)) todo → Forall (serves w) todo →
  Forall (holds_cell key (Some (v, window t0 (time w) ttl)) w) done_ → t0 ≤ time w ≤ horizon →
  ∃ pool' k' w', Coordinator.set_nodes (S m) todo (mkSetRequest key v ttl) (pool, (k, w)) =
      Returns (replicate (length todo) true, (pool', (k', w'))) ∧
    time w ≤ time w' ≤ horizon ∧
    Forall (holds_cell key (Some (v, window t0 (time w') ttl)) w') (done_ ++ todo).
Proof.
  intros Hfit. induction todo as [|n todo IH]; intros done_ pool k w Hv Hs Hd Ht.
  { exists pool, k, w. rewrite app_nil_r. split; [done|]. split; [lia|done]. }
  apply Forall_cons in Hv as [Hvn Hv]. apply Forall_cons in Hs as [Hsn Hs].
  destruct (busy_set_attempt n m v ttl pool k w Hvn Hsn (proj2 Ht) Hfit)
    as (pool1 & k1 & w1 & nd & Hr & Hn & Ha & Hj & He).
  pose proof (next_time _ _ Hn) as Ht1.
  assert (entry_in (time w1) (Some (v, window t0 (time w1) ttl)) (data (store nd) !! key)) as He'.
  { revert He. unfold entry_in, window. destruct ttl as [ms|], (data (store nd) !! key) as [e|]; simpl; try done.
    - intros [? Hx]. split; [done|]. destruct (expires_at e); [lia|done].
    - lia. }
  destruct (IH (done_ ++ [n]) pool1 k1 (put w1 (addr n) nd)) as (pool' & k' & w' & Hr' & Ht' & Hall).
  - done.
  - eapply Forall_impl; [exact Hs|]. intros n' Hs'. apply serves_put; [done..|].
    by eapply serves_quiet; [apply Hn|].
  - apply Forall_app. split.
    + eapply Forall_impl; [exact Hd|]. intros n' Hd'. apply holds_put; [done..|]. cbn [time put].
      eapply (holds_widen key v t0 (time w)); [lia|]. by eapply holds_quiet; [apply Hn|].
    + apply Forall_singleton. apply holds_put_same; [|done..]. by eapply serves_quiet; [apply Hn|].
  - cbn [time put]. lia.
  - cbn [Coordinator.set_nodes]. rewrite Hr. cbn [outcome_bind]. rewrite Hr'. cbn [outcome_bind length replicate].
    eexists _, _, _. split; [reflexivity|]. cbn [time put] in Ht'. split; [lia|]. by rewrite <- app_assoc in Hall.
Qed.

(** What a read of the cell may find, from [t0] to [t1]. *)
Definition read_ok (c : Cell) (t0 t1 : Instant) (r : option GetResponse) : Prop :=
  match c, r with
  | None, None => True
  | Some (v, None), Some resp => resp = mkGetResponse (Some v) true
  | Some (v, Some (_, hi)), Some resp => resp = mkGetResponse (Some v) true ∧ t0 < hi
  | Some (_, Some (lo, _)), None => lo ≤ t1
  | _, _ => False
  end.

Lemma read_widen c t0 t0' t1 t1' r : t0' ≤ t0 → t1 ≤ t1' → read_ok c t0 t1 r → read_ok c t0' t1' r.
Proof.
  unfold read_ok. destruct c as [[v [[lo hi]|]]|], r; try done; [|lia]. intros ? ? [? ?]. split; [done|lia].
Qed.

Lemma read_entry c t st : entry_in t c (data st !! key) →
  read_ok c t t ((λ v, mkGetResponse (Some v) true) <$> (CacheStore.get t key st).1).
Proof.
  unfold CacheStore.get, get_lookup, entry_in, read_ok.
  destruct c as [[v [[lo hi]|]]|], (data st !! key) as [e|]; try done; unfold expired; intros [Hv He];
    destruct (expires_at e) as [x|]; try done; subst v; simpl; [|done].
  destruct (Z.leb_spec x t); simpl; [lia|]. split; [done|lia].
Qed.

Lemma busy_get_attempt n m c pool k w : valid_addr (addr n) → holds_cell key c w n → time w ≤ horizon →
  ∃ r pool' k' w', Coordinator.get_attempts (S m) (addr n) (mkGetRequest key) (pool, (k, w)) =
      Returns (r, (pool', (k', w'))) ∧ next w w' ∧ read_ok c (time w) (time w') r.
Proof.
  intros Hv Hh Ht.
  destruct (busy_client n pool k w Hv (holds_serves _ _ _ _ Hh) Ht) as (pool1 & k1 & w1 & Hc & Hn1).
  cbn [Coordinator.get_attempts]. rewrite Hc. cbn [outcome_bind].
  pose proof (next_others k1 w1 (proj2 (next_time _ _ Hn1))) as Hn2. set (w2 := others k1 w1) in *.
  pose proof (next_trans _ _ _ Hn1 Hn2) as Hn. pose proof (next_time _ _ Hn) as Ht2.
  destruct (holds_quiet _ _ _ _ _ (proj1 Hn) Hh) as (nd & Hnd & Hj & He).
  cbn [rpc_get busy busy_network cluster_network fst snd]. fold w2. unfold call. rewrite Hnd.
  pose proof (lazily_get (time w2) (addr n) key nd) as [Hj' Hl].
  assert (next w (put w2 (addr n) (NodeService.get (time w2) (mkGetRequest key) nd).2)) as Hnext.
  { eapply next_trans; [exact Hn|]. split; [|by apply Hn]. apply (quiet_put _ _ _ nd); [done|].
    split; [by rewrite Hj'|apply Hl]. }
  pose proof (read_entry c (time w2) (store nd) He) as Hr. apply (read_widen _ _ (time w) _ (time w2)) in Hr; [|lia..].
  unfold NodeService.get in *. cbn [get_key] in *.
  destruct (CacheStore.get (time w2) key (store nd)) as [[v|] st]; cbn [fst snd get_found] in *; eauto 10.
Qed.

Lemma busy_get_nodes m c l : l ≠ [] → Forall (λ n, valid_addr (addr n)) l → ∀ pool k w,
  Forall (holds_cell key c w) l → time w ≤ horizon →
  ∃ resp pool' k' w', Coordinator.get_nodes (S m) l (mkGetRequest key) (pool, (k, w)) =
      Returns (resp, (pool', (k', w'))) ∧ next w w' ∧
    (read_ok c (time w) (time w') (Some resp) ∨
     resp = mkGetResponse None false ∧ read_ok c (time w) (time w') None).
Proof.
  intros Hne. induction l as [|n l IH]; [done|]. intros Hv pool k w Hh Ht.
  apply Forall_cons in Hv as [Hvn Hv]. apply Forall_cons in Hh as [Hhn Hh].
  destruct (busy_get_attempt n m c pool k w Hvn Hhn Ht) as (r & pool1 & k1 & w1 & Hr & Hn1 & Hok).
  cbn [Coordinator.get_nodes]. rewrite Hr. cbn [outcome_bind].
  destruct r as [resp|]; [by eauto 10|]. destruct l as [|n' l'].
  { eexists _, pool1, k1, w1. split; [reflexivity|]. by auto. }
  destruct (IH ltac:(done) Hv pool1 k1 w1) as (resp & pool2 & k2 & w2 & Hr2 & Hn2 & Hok2).
  - eapply Forall_impl; [exact Hh|]. intros n0. apply holds_quiet, Hn1.
  - apply Hn1.
  - exists resp, pool2, k2, w2. split; [exact Hr2|]. split; [by eapply next_trans|].
    apply next_time in Hn1. destruct Hok2 as [Hok2|[? Hok2]]; [left|right; split; [done|]];
      (eapply read_widen; [| |exact Hok2]; lia).
Qed.

(** *** Deletes *)

(** What a delete of the cell may report. *)
Definition deleted_ok (c : Cell) (t : Instant) (b : bool) : Prop :=
  match c with
  | None => b = false
  | Some (_, None) => b = true
  | Some (_, Some (lo, _)) => b = true ∨ lo ≤ t
  end.

Lemma busy_delete_attempt n m c pool k w : valid_addr (addr n) → holds_cell key c w n → time w ≤ horizon →
  ∃ b pool' k' w1 nd, Coordinator.delete_attempts (S m) (addr n) (mkDeleteRequest key) (pool, (k, w)) =
      Returns (b, (pool', (k', put w1 (addr n) nd))) ∧
    next w w1 ∧ is_Some (answering w1 (addr n)) ∧ joining nd = false ∧
    data (store nd) !! key = None ∧ deleted_ok c (time w1) b.
Proof.
  intros Hv Hh Ht.
  destruct (busy_client n pool k w Hv (holds_serves _ _ _ _ Hh) Ht) as (pool1 & k1 & w1 & Hc & Hn1).
  cbn [Coordinator.delete_attempts]. rewrite Hc. cbn [outcome_bind].
  pose proof (next_others k1 w1 (proj2 (next_time _ _ Hn1))) as Hn2. set (w2 := others k1 w1) in *.
  pose proof (next_trans _ _ _ Hn1 Hn2) as Hn.
  destruct (holds_quiet _ _ _ _ _ (proj1 Hn) Hh) as (nd & Hnd & Hj & He).
  cbn [rpc_delete busy busy_network cluster_network fst snd]. fold w2. unfold call.
  rewrite Hnd, delete_serving by done.
  eexists _, pool1, (S k1), w2, _. split; [reflexivity|]. split; [done|]. split; [by rewrite Hnd|].
  split; [done|]. split; [apply lookup_delete_eq|]. unfold deleted_ok, entry_in in *. cbn [delete_deleted].
  destruct c as [[v [[lo hi]|]]|], (data (store nd) !! key) as [e|]; try done.
  - left. by apply bool_decide_eq_true.
  - by right.
Qed.

Lemma deleted_or c t t' a b : t ≤ t' → deleted_ok c t a → deleted_ok c t' b → deleted_ok c t' (a || b).
Proof.
  unfold deleted_ok. intros Ht. destruct c as [[v [[lo hi]|]]|]; [|by intros -> _|by intros -> ->].
  intros [->|?] [->|?]; rewrite ?orb_true_r; auto; right; lia.
Qed.
Lemma deleted_later c t t' b : t ≤ t' → deleted_ok c t b → deleted_ok c t' b.
Proof. unfold deleted_ok. destruct c as [[v [[lo hi]|]]|]; try done. intros ? [?|?]; [by left|right; lia]. Qed.

(** A replica that is still to be deleted holds the cell, or is the same node as one
    already cleared. *)
Definition to_clear (c : Cell) (any : bool) (w : Cluster.World) (n : NodeInfo) : Prop :=
  holds_cell key c w n ∨ holds_cell key None w n ∧ deleted_ok c (time w) any.

Lemma to_clear_put c any w w1 n n' nd : next w w1 → is_Some (answering w1 (addr n)) → joining nd = false →
  data (store nd) !! key = None → deleted_ok c (time w1) any → holds_cell key c w n' ∨ holds_cell key None w n' →
  to_clear c any (put w1 (addr n) nd) n'.
Proof.
  intros Hn Ha Hj Hd Hok Hh.
  assert (holds_cell key c w1 n' ∨ holds_cell key None w1 n') as [Hh1|Hh1]
    by (destruct Hh as [Hh|Hh]; [left|right]; exact (holds_quiet _ _ _ _ _ (proj1 Hn) Hh)).
  - destruct Hh1 as (nd1 & Hnd1 & Hj1 & He1). unfold to_clear, holds_cell. rewrite answering_put by done.
    case_decide; [|by left; exists nd1]. right. split; [|done]. exists nd. by rewrite Hd.
  - right. split; [|done]. apply holds_put; [done|done|by rewrite Hd|done].
Qed.

Lemma busy_delete_nodes m c : ∀ todo cleared any pool k w,
  Forall (λ n, valid_addr (addr n)) todo → Forall (to_clear c any w) todo →
  Forall (holds_cell key None w) cleared → time w ≤ horizon →
  (cleared = [] ∧ any = false ∨ deleted_ok c (time w) any) → cleared ++ todo ≠ [] →
  ∃ b pool' k' w', Coordinator.delete_nodes (S m) todo (mkDeleteRequest key) any (pool, (k, w)) =
      Returns (b, (pool', (k', w'))) ∧ time w ≤ time w' ≤ horizon ∧
    Forall (holds_cell key None w') (cleared ++ todo) ∧ deleted_ok c (time w') b.
Proof.
  induction todo as [|n todo IH]; intros cleared any pool k w Hv Hc Hd Ht Hany Hne.
  { exists any, pool, k, w. rewrite app_nil_r in *. split; [done|]. split; [lia|]. split; [done|].
    by destruct Hany as [[? _]|?]. }
  apply Forall_cons in Hv as [Hvn Hv]. apply Forall_cons in Hc as [Hcn Hc].
  assert (∃ b pool' k' w1 nd, Coordinator.delete_attempts (S m) (addr n) (mkDeleteRequest key) (pool, (k, w)) =
      Returns (b, (pool', (k', put w1 (addr n) nd))) ∧
    next w w1 ∧ is_Some (answering w1 (addr n)) ∧ joining nd = false ∧
    data (store nd) !! key = None ∧ deleted_ok c (time w1) (any || b))
    as (b & pool1 & k1 & w1 & nd & Hr & Hn & Ha & Hj & Hnd & Hok).
  { destruct Hcn as [Hcn|[Hcn Hok]].
    - destruct (busy_delete_attempt n m c pool k w Hvn Hcn Ht)
        as (b & pool1 & k1 & w1 & nd & Hr & Hn & Ha & Hj & Hnd & Hok).
      exists b, pool1, k1, w1, nd. repeat (split; [done|]).
      destruct Hany as [[_ ->]|Hany]; [done|]. eapply deleted_or; [|exact Hany|exact Hok].
      apply next_time in Hn. lia.
    - destruct (busy_delete_attempt n m None pool k w Hvn Hcn Ht)
        as (b & pool1 & k1 & w1 & nd & Hr & Hn & Ha & Hj & Hnd & ->).
      exists false, pool1, k1, w1, nd. repeat (split; [done|]). rewrite orb_false_r.
      eapply deleted_later; [|exact Hok]. apply next_time in Hn. lia. }
  pose proof (next_time _ _ Hn) as Ht1.
  destruct (IH (cleared ++ [n]) (any || b) pool1 k1 (put w1 (addr n) nd)) as (b' & pool2 & k2 & w2 & Hr2 & Ht2 & Hall & Hb).
  - done.
  - eapply Forall_impl; [exact Hc|]. intros n' Hn'. apply (to_clear_put c _ w); try done.
    destruct Hn' as [?|[? _]]; auto.
  - apply Forall_app. split.
    + eapply Forall_impl; [exact Hd|]. intros n' Hn'. apply holds_put; [done|done|by rewrite Hnd|].
      by eapply holds_quiet; [apply Hn|].
    + apply Forall_singleton. apply holds_put_same; [|done|by rewrite Hnd].
      eapply serves_quiet; [apply Hn|]. destruct Hcn as [Hcn|[Hcn _]]; by eapply holds_serves.
  - cbn [time put]. lia.
  - right. exact Hok.
  - by destruct cleared.
  - cbn [Coordinator.delete_nodes]. rewrite Hr. cbn [outcome_bind]. rewrite Hr2.
    eexists _, _, _, _. split; [reflexivity|]. cbn [time put] in Ht2. split; [lia|].
    rewrite <- app_assoc in Hall. by split.
Qed.

(** *** Whole requests *)

Section requests.
Context (self : Coordinator.ReplicationCoordinator).
Let l := Coordinator.alive_preference_list self key.
Hypothesis list_ne : l ≠ [].
Hypothesis list_valid : Forall (λ n, valid_addr (addr n)) l.
Hypothesis retries : Coordinator.max_retries (Coordinator.config self) ≠ 0%nat.

Definition stands (o : key_op) (c : Cell) (pool : ClientPool.NodeClientPool) (k : nat)
    (w : Cluster.World) : Prop :=
  ∃ r pool' k' w', perform others self key o (pool, (k, w)) = Returns (r, (pool', (k', w'))) ∧
    time w ≤ time w' ≤ horizon ∧ cell_step o (time w) (time w') c r ∧
    Forall (holds_cell key (cell_after o (time w) (time w') c) w') l.

Lemma perform_set v ttl c pool k w : Forall (holds_cell key c w) l → time w ≤ horizon →
  op_fits horizon (KSet v ttl) → stands (KSet v ttl) c pool k w.
Proof.
  intros Hh Ht Hfit. destruct (Coordinator.max_retries (Coordinator.config self)) as [|m] eqn:Em; [done|].
  assert (Forall (serves w) l) as Hs by (eapply Forall_impl; [exact Hh|]; apply holds_serves).
  destruct (busy_set_nodes m v ttl (time w) Hfit l [] pool k w list_valid Hs (Forall_nil_2 _)) as (pool' & k' & w' & Hr & Ht' & Hall);
    [lia|]. unfold stands, perform, Coordinator.set. rewrite Em. revert list_ne Hr Hall. unfold l in *. clear list_valid Hh Hs.
  destruct (Coordinator.alive_preference_list self key) as [|n l']; [done|]. intros _ Hr Hall.
  cbn [outcome_bind]. rewrite_run Hr. eexists _, pool', k', w'. split; [reflexivity|]. by split.
Qed.

Lemma perform_get c pool k w : Forall (holds_cell key c w) l → time w ≤ horizon → stands KGet c pool k w.
Proof.
  intros Hh Ht. destruct (Coordinator.max_retries (Coordinator.config self)) as [|m] eqn:Em; [done|].
  destruct (busy_get_nodes m c l list_ne list_valid pool k w Hh Ht) as (resp & pool' & k' & w' & Hr & Hn & Hok).
  assert (Forall (holds_cell key c w') l) as Hh'
    by (eapply Forall_impl; [exact Hh|]; intros n; apply holds_quiet, Hn).
  unfold stands, perform, Coordinator.get. rewrite Em. revert list_ne Hr Hh'. unfold l in *. clear list_valid Hh.
  destruct (Coordinator.alive_preference_list self key) as [|n l']; [done|]. intros _ Hr Hh'.
  cbn [outcome_bind]. rewrite_run Hr. eexists _, pool', k', w'. split; [reflexivity|].
  split; [by apply next_time|]. split; [|done]. unfold cell_step, found_reply, missing_reply, read_ok in *.
  destruct c as [[v [[lo hi]|]]|]; naive_solver.
Qed.

Lemma perform_delete c pool k w : Forall (holds_cell key c w) l → time w ≤ horizon → stands KDelete c pool k w.
Proof.
  intros Hh Ht. destruct (Coordinator.max_retries (Coordinator.config self)) as [|m] eqn:Em; [done|].
  assert (Forall (to_clear c false w) l) as Hc by (eapply Forall_impl; [exact Hh|]; by left).
  destruct (busy_delete_nodes m c l [] false pool k w list_valid Hc (Forall_nil_2 _) Ht) as (b & pool' & k' & w' & Hr & Ht' & Hall & Hok);
    [by left|done|].
  unfold stands, perform, Coordinator.delete. rewrite Em. revert list_ne Hr Hall. unfold l in *. clear list_valid Hh Hc.
  destruct (Coordinator.alive_preference_list self key) as [|n l']; [done|]. intros _ Hr Hall.
  cbn [outcome_bind]. rewrite_run Hr. eexists _, pool', k', w'. split; [reflexivity|].
  split; [done|]. split; [|done]. unfold cell_step, deleted_ok in *.
  destruct c as [[v [[lo hi]|]]|]; naive_solver.
Qed.

Lemma client_stands ops : Forall (op_fits horizon) ops → ∀ c pool k w,
  Forall (holds_cell key c w) l → time w ≤ horizon →
  ∃ trace s', client_run others self key ops (pool, (k, w)) = Returns (trace, s') ∧ cell_run ops c trace.
Proof.
  induction 1 as [|o ops Ho _ IH]; intros c pool k w Hh Ht; [by exists [], (pool, (k, w))|].
  assert (stands o c pool k w) as (r & pool1 & k1 & w1 & Hr & Ht1 & Hst & Hh1).
  { destruct o; [by apply perform_set|by apply perform_get|by apply perform_delete]. }
  destruct (IH _ pool1 k1 w1 Hh1 (proj2 Ht1)) as (trace & s' & Hrs & Hrun).
  cbn [client_run]. rewrite Hr. cbn [outcome_bind]. rewrite Hrs. cbn [outcome_bind fst snd].
  eexists _, s'. split; [reflexivity|]. cbn [cell_run]. split; [lia|done].
Qed.
End requests.
End client.

(** ** Lemmas: clients of other keys are elsewhere *)

Section elsewhere.
Context `{UuidLib}.
Import NodeService CacheStore Cluster Overlap.
#[local] Existing Instance cluster_network.

Lemma call_elsewhere {A} key a (handler : Node → outcome ((Status + A) * Node)) w :
  (∀ nd r nd', handler nd = Returns (r, nd') →
     rtc (λ nd nd', node_step nd nd' ∧ (joining nd = false → joining nd' = false) ∧ leaves key (time w) nd nd')
       nd nd') →
  rtc (elsewhere key) w (call a handler w).2.
Proof.
  intros Hh. unfold call. destruct (answering w a) as [nd|] eqn:Ha; [|done].
  destruct (handler nd) as [[r nd']|msg|] eqn:Hr; [|done..]. specialize (Hh _ _ _ Hr). cbn [snd].
  assert (nodes_at w !! a = Some nd) as Hn by (unfold answering in Ha; by destruct (reachable w a)).
  clear Ha Hr handler. assert (put w a nd = w) as Hw.
  { unfold put. rewrite insert_id by done. by destruct w. }
  rewrite <- Hw at 1. clear Hw. assert (nodes_at (put w a nd) !! a = Some nd) as Hn'
    by apply lookup_insert_eq. clear Hn.
  induction Hh as [nd|nd nd1 nd2 (Hs & Hj & Hl) _ IH]; [done|].
  eapply rtc_l; [by apply (elsewhere_node _ _ _ nd _ Hn' Hs Hj)|].
  replace (put (put w a nd) a nd1) with (put w a nd1); [apply IH, lookup_insert_eq|].
  unfold put. cbn. by rewrite insert_insert_eq.
Qed.

Lemma rpc_get_elsewhere key a req w : rtc (elsewhere key) w (rpc_get a req w).2.
Proof.
  apply call_elsewhere. intros nd r nd' Hg. injection Hg as Hg.
  pose proof (lazily_get (time w) a (get_key req) nd) as [Hj Hl]. destruct req as [k]. cbn [get_key] in *.
  assert (nd' = (NodeService.get (time w) (mkGetRequest k) nd).2) as -> by by rewrite Hg.
  apply rtc_once. split; [by constructor|]. split; [by rewrite Hj|apply Hl].
Qed.

Lemma rpc_set_elsewhere key a req w : set_key req ≠ key → rtc (elsewhere key) w (rpc_set a req w).2.
Proof.
  intros Hne. apply call_elsewhere. intros nd r nd' Hs. apply rtc_once. split; [by eapply step_set|].
  unfold NodeService.set in Hs. destruct (joining nd) eqn:Hj.
  - injection Hs as _ <-. split; [done|apply leaves_refl].
  - apply outcome_bind_Returns in Hs as (st & ->%set_Returns & [= _ <-]). split; [done|].
    left. by apply lookup_insert_ne.
Qed.

Lemma rpc_delete_elsewhere key a req w : delete_key req ≠ key → rtc (elsewhere key) w (rpc_delete a req w).2.
Proof.
  intros Hne. apply call_elsewhere. intros nd r nd' Hd. injection Hd as Hd.
  assert (nd' = (NodeService.delete req nd).2) as -> by by rewrite Hd.
  destruct (joining nd) eqn:Hj.
  - rewrite delete_two_accesses by done. eapply rtc_l.
    + split; [by apply (step_record _ _ nd req)|]. split; [congruence|by left].
    + apply rtc_once. split; [|split; [done|left; by apply lookup_delete_ne]].
      by apply (step_store _ _ _ 0 (ODelete (delete_key req)) (RBool
        (CacheStore.delete (delete_key req) (store (record_delete req nd))).1)).
  - apply rtc_once. split; [by apply step_delete|]. unfold NodeService.delete. rewrite Hj.
    split; [done|]. left. by apply lookup_delete_ne.
Qed.
End elsewhere.

(** ** Lemmas: two writes of one key *)

Section writes.
Context `{UuidLib} `{Xxh3} `{ClientPool.UriLib}.
Import NodeService CacheStore Cluster Overlap.

(** A write without TTL at some of the addresses, all of which serve. *)
Lemma found_apply_sets key v addrs w n : serves w n →
  serves (apply_sets (mkSetRequest key v None) addrs w) n ∧
  found key (apply_sets (mkSetRequest key v None) addrs w) (addr n) =
    if decide (addr n ∈ addrs) then Some v else found key w (addr n).
Proof.
  intros (nd & Hnd & Hj). set (req := mkSetRequest key v None).
  pose proof (answering_apply_sets req addrs w (addr n) nd Hnd) as Ha.
  rewrite (accepted_serving _ _ _ _ Hnd Hj) in Ha. cbn in Ha.
  destruct (apply_sets_frame req addrs w) as [_ Ht].
  split.
  - eexists. split; [exact Ha|]. by case_decide.
  - unfold found. rewrite Ha, Ht, Hnd. case_decide; [|done].
    cbn [mbind option_bind written store with_store]. unfold CacheStore.get, get_lookup.
    cbn [data with_data set_key set_value req]. by rewrite lookup_insert_eq.
Qed.

Lemma serves_accepted key v w n : serves w n → is_Some (accepted (mkSetRequest key v None) w (addr n)).
Proof. intros (nd & Hnd & Hj). by rewrite (accepted_serving _ _ _ _ Hnd Hj). Qed.

(** One write over a cached client: what others do, then the write. *)
Lemma cached_set_attempt others m n key v pool k w : addr n ∈ ClientPool.clients pool →
  serves (others k w) n →
  @Coordinator.set_attempts _ (busy_network others) (S m) (addr n) (mkSetRequest key v None) (pool, (k, w)) =
    Returns (true, (pool, (S k, apply_set (mkSetRequest key v None) (others k w) (addr n)))).
Proof.
  intros Hin Hs. cbn [Coordinator.set_attempts]. unfold Coordinator.get_client, ClientPool.get_client.
  cbn [connect busy_network cluster_network fst snd]. rewrite !decide_True by done. cbn [outcome_bind].
  destruct (serves_accepted key v _ _ Hs) as [nd' Hacc].
  pose proof (rpc_set_accepted _ _ _ _ Hacc) as Hr. cbn [rpc_set busy_network fst snd].
  rewrite Hr.
  unfold apply_set. by rewrite Hacc.
Qed.

(** When nobody acts any more. *)
Lemma cached_set_nodes others m key v pool nodes :
  Forall (λ n, addr n ∈ ClientPool.clients pool) nodes → ∀ k w, (∀ j u, (k ≤ j)%nat → others j u = u) →
  Forall (serves w) nodes →
  @Coordinator.set_nodes _ _ (busy_network others) (S m) nodes (mkSetRequest key v None) (pool, (k, w)) =
    Returns (replicate (length nodes) true,
      (pool, (k + length nodes, apply_sets (mkSetRequest key v None) (addr <$> nodes) w)%nat)).
Proof.
  induction 1 as [|n nodes Hn _ IH]; intros k w Hidle Hs.
  { cbn [Coordinator.set_nodes length replicate fmap list_fmap apply_sets foldl]. by rewrite Nat.add_0_r. }
  apply Forall_cons in Hs as [Hsn Hs]. cbn [Coordinator.set_nodes].
  rewrite cached_set_attempt by (done || by rewrite Hidle). cbn [outcome_bind]. rewrite Hidle by done.
  rewrite IH.
  - cbn [outcome_bind length replicate fmap list_fmap apply_sets foldl]. by rewrite Nat.add_succ_r.
  - intros j u Hj. apply Hidle. lia.
  - eapply Forall_impl; [exact Hs|]. intros n' Hn'. by apply (found_apply_sets key v [addr n] w n').
Qed.

Section race.
Context (self : Coordinator.ReplicationCoordinator) (key : string) (pool : ClientPool.NodeClientPool).
Context (n1 n2 : NodeInfo) (rest : list NodeInfo) (m : nat).
Let l := n1 :: n2 :: rest.
Hypothesis list_is : Coordinator.alive_preference_list self key = l.
Hypothesis list_valid : Forall (λ n, valid_addr (addr n)) l.
Hypothesis list_cached : Forall (λ n, addr n ∈ ClientPool.clients pool) l.
Hypothesis retries : Coordinator.max_retries (Coordinator.config self) = S m.
#[local] Existing Instance cluster_network.

Lemma serves_apply_sets v addrs w ns : Forall (serves w) ns →
  Forall (serves (apply_sets (mkSetRequest key v None) addrs w)) ns.
Proof. intros Hs. eapply Forall_impl; [exact Hs|]. intros n Hn. by apply found_apply_sets. Qed.

Lemma set_served v w : Forall (serves w) l → ∃ pool',
  Coordinator.set self key v None (pool, w) =
    Returns (inr (mkSetResponse true), (pool', apply_sets (mkSetRequest key v None) (addr <$> l) w)).
Proof.
  intros Hs. unfold Coordinator.set. rewrite list_is, retries.
  destruct (set_nodes_cluster (mkSetRequest key v None) m l list_valid pool w) as (results & pool' & Hr & ->).
  unfold l in *. rewrite_run Hr. rewrite fmap_cons, bool_decide_eq_true_2; [by exists pool'|].
  apply Forall_cons in Hs as [Hs _]. by apply serves_accepted.
Qed.

Lemma second_write_served v w : Forall (serves w) l →
  second_write self key v pool w = apply_sets (mkSetRequest key v None) (addr <$> l) w.
Proof. intros Hs. unfold second_write. by destruct (set_served v w Hs) as [pool' ->]. Qed.

(** The first write, overlapped. *)
Lemma raced_set v1 v2 w : Forall (serves w) l →
  let w2 := apply_sets (mkSetRequest key v2 None) (addr <$> l) (apply_set (mkSetRequest key v1 None) w (addr n1)) in
  ∃ k, @Coordinator.set _ _ _ (busy_network (race self key v2 pool)) self key v1 None (pool, (0%nat, w)) =
    Returns (inr (mkSetResponse true),
      (pool, (k, apply_sets (mkSetRequest key v1 None) (addr <$> n2 :: rest) w2))).
Proof.
  intros Hs w2. set (w1 := apply_set (mkSetRequest key v1 None) w (addr n1)) in *.
  assert (Forall (serves w1) l) as Hs1 by apply (serves_apply_sets v1 [addr n1] w l Hs).
  pose proof (serves_apply_sets v2 (addr <$> l) w1 l Hs1) as Hs2. fold w2 in Hs2.
  pose proof (second_write_served v2 w1 Hs1) as Hw2. fold w2 in Hw2.
  unfold l in *. apply Forall_cons in list_cached as [Hc1 [Hc2 Hc]%Forall_cons].
  apply Forall_cons in Hs as [Hsn1 _]. apply Forall_cons in Hs2 as [_ [Hsn2 Hsr]%Forall_cons].
  unfold Coordinator.set. rewrite list_is, retries. cbn [Coordinator.set_nodes].
  rewrite (cached_set_attempt (race self key v2 pool) m n1 key v1 pool 0 w Hc1 Hsn1). cbn [outcome_bind].
  change (race self key v2 pool 0 w) with w. fold w1.
  rewrite (cached_set_attempt (race self key v2 pool) m n2 key v1 pool 1 w1 Hc2);
    (change (race self key v2 pool 1 w1) with (second_write self key v2 pool w1); rewrite Hw2); [|done].
  cbn [outcome_bind].
  rewrite (cached_set_nodes (race self key v2 pool) m key v1 pool rest Hc 2).
  - cbn [outcome_bind]. by eexists.
  - intros j u Hj. unfold race. rewrite decide_False by lia. done.
  - by apply (serves_apply_sets v1 [addr n2]).
Qed.

Lemma read_served w : ∃ s',
  Coordinator.get self key (pool, w) = Returns (inr
    (match head (omap (λ n, found key w (addr n)) l) with
     | Some v => mkGetResponse (Some v) true
     | None => mkGetResponse None false
     end), s').
Proof.
  unfold Coordinator.get. rewrite list_is, retries.
  destruct (get_nodes_cluster key m l list_valid pool w) as [s' Hr]. unfold l in *. rewrite_run Hr.
  by exists s'.
Qed.
End race.
End writes.

(** ** Properties *)

Section properties.
Context `{UuidLib} `{Xxh3} `{ClientPool.UriLib}.
Import NodeService CacheStore Cluster Overlap.

(** C2: clients of different keys do not disturb each other: whatever happens before each
    of a client's accesses to the network (time passes; any node takes any step that
    leaves the key alone, among them the accesses of requests for other keys), the
    client's writes, reads and deletes of its key are answered
    as one cell would answer them: the value written last, until its TTL has run out,
    which each replica counts from when it was written; and every request is answered. *)
Theorem keys_are_independent (others : nat → Cluster.World → Cluster.World)
    (self : Coordinator.ReplicationCoordinator) (key : string) (horizon : Instant)
    (ops : list key_op) (pool : ClientPool.NodeClientPool) (w : Cluster.World) :
  let l := Coordinator.alive_preference_list self key in
  l ≠ [] → Forall (λ n, valid_addr (addr n)) l →
  Coordinator.max_retries (Coordinator.config self) ≠ 0%nat →
  (∀ k u, rtc (elsewhere key) u (others k u)) →
  (∀ k u, time u ≤ horizon → time (others k u) ≤ horizon) → time w ≤ horizon →
  Forall (op_fits horizon) ops →
  (∀ n, n ∈ l → ∃ nd, answering w (addr n) = Some nd ∧ joining nd = false ∧ data (store nd) !! key = None) →
  ∃ trace s', client_run others self key ops (pool, (0%nat, w)) = Returns (trace, s') ∧
    cell_run ops None trace.
Proof.
  intros l Hne Hv Hm Hq Hc Ht Hops Hn.
  apply (client_stands others key horizon (λ k u, elsewheres_quiet _ _ _ (Hq k u)) Hc); try done.
  apply Forall_forall. intros n Hin. destruct (Hn n Hin) as (nd & ? & ? & Hd). exists nd. by rewrite Hd.
Qed.

(** Further: what counts as elsewhere: the accesses of any request for another key, and reads
    of the same key. *)
Theorem other_requests_are_elsewhere (key a : string) (sreq : SetRequest) (greq : GetRequest)
    (dreq : DeleteRequest) (w : Cluster.World) :
  rtc (elsewhere key) w (@rpc_get cluster_network a greq w).2 ∧
  (set_key sreq ≠ key → rtc (elsewhere key) w (@rpc_set cluster_network a sreq w).2) ∧
  (delete_key dreq ≠ key → rtc (elsewhere key) w (@rpc_delete cluster_network a dreq w).2).
Proof.
  split; [apply rpc_get_elsewhere|]. split; [apply rpc_set_elsewhere|apply rpc_delete_elsewhere].
Qed.

(** C7: two writes of one key that overlap leave the replicas different: when the second
    is served while the first is between its first replica and the others, both are
    acknowledged, the first replica keeps the second value and all the others the
    first one.  A read answers the second value, and the older one again as soon as
    the first replica cannot be reached, with the same routing. *)
Theorem overlapping_writes_diverge (self : Coordinator.ReplicationCoordinator) (key : string)
    (v1 v2 : bytes) (pool : ClientPool.NodeClientPool) (w : Cluster.World)
    (n1 n2 : NodeInfo) (rest : list NodeInfo) :
  let l := n1 :: n2 :: rest in
  Coordinator.alive_preference_list self key = l → addr n1 ∉ addr <$> n2 :: rest →
  Forall (λ n, valid_addr (addr n)) l → Forall (λ n, addr n ∈ ClientPool.clients pool) l →
  Forall (serves w) l → Coordinator.max_retries (Coordinator.config self) ≠ 0%nat →
  let get u := @Coordinator.get _ _ _ cluster_network self key (pool, u) in
  let without_n1 u := mkWorld (nodes_at u) (λ a, reachable u a && negb (bool_decide (a = addr n1))) (time u) in
  ∃ k w' s2 s3 s4,
    @Coordinator.set _ _ _ (busy_network (race self key v2 pool)) self key v1 None (pool, (0%nat, w)) =
      Returns (inr (mkSetResponse true), (pool, (k, w'))) ∧
    @Coordinator.set _ _ _ cluster_network self key v2 None
        (pool, (@rpc_set cluster_network (addr n1) (mkSetRequest key v1 None) w).2) =
      Returns (inr (mkSetResponse true), s2) ∧
    found key w' (addr n1) = Some v2 ∧ (∀ n, n ∈ n2 :: rest → found key w' (addr n) = Some v1) ∧
    get w' = Returns (inr (mkGetResponse (Some v2) true), s3) ∧
    get (without_n1 w') = Returns (inr (mkGetResponse (Some v1) true), s4).
Proof.
  intros l Hl Hne Hv Hin Hs Hm get without_n1.
  destruct (Coordinator.max_retries (Coordinator.config self)) as [|m] eqn:Em; [done|].
  set (req1 := mkSetRequest key v1 None). set (w1 := apply_set req1 w (addr n1)).
  destruct (raced_set self key pool n1 n2 rest m Hl Hv Hin Em v1 v2 w Hs) as [k Hset]. fold req1 w1 in Hset.
  set (w2 := apply_sets (mkSetRequest key v2 None) (addr <$> l) w1) in *.
  set (w' := apply_sets req1 (addr <$> n2 :: rest) w2) in *.
  pose proof (serves_apply_sets key v1 [addr n1] w l Hs : Forall (serves w1) l) as Hs1.
  pose proof (serves_apply_sets key v2 (addr <$> l) w1 l Hs1 : Forall (serves w2) l) as Hs2.
  destruct (set_served self key pool n1 n2 rest m Hl Hv Em v2 w1 Hs1) as [pool2 Hset2].
  assert (∀ n, n ∈ l → found key w' (addr n) = if decide (addr n ∈ addr <$> n2 :: rest) then Some v1 else Some v2) as Hf.
  { intros n Hn. rewrite Forall_forall in Hs1, Hs2.
    destruct (found_apply_sets key v1 (addr <$> n2 :: rest) w2 n (Hs2 n Hn)) as [_ Hf1]. refine (eq_trans Hf1 _).
    case_decide; [done|]. destruct (found_apply_sets key v2 (addr <$> l) w1 n (Hs1 n Hn)) as [_ Hf2]. refine (eq_trans Hf2 _).
    rewrite decide_True; [done|]. by apply list_elem_of_fmap_2. }
  assert (found key w' (addr n1) = Some v2) as Hf1 by (rewrite Hf, decide_False; [done|done|by left]).
  assert (found key w' (addr n2) = Some v1) as Hf2 by (rewrite Hf, decide_True; [done|by left|right; by left]).
  destruct (read_served self key pool n1 n2 rest m Hl Hv Em w') as [s3 Hr3]. cbn [omap list_omap] in Hr3.
  rewrite Hf1 in Hr3. cbn [head] in Hr3.
  destruct (read_served self key pool n1 n2 rest m Hl Hv Em (without_n1 w')) as [s4 Hr4]. cbn [omap list_omap] in Hr4.
  assert (∀ a, found key (without_n1 w') a = if decide (a = addr n1) then None else found key w' a) as Hcut.
  { intros a. unfold found, answering. cbn. case_decide; [by rewrite bool_decide_eq_true_2, andb_false_r|].
    by rewrite bool_decide_eq_false_2, andb_true_r. }
  rewrite !Hcut, decide_True, decide_False, Hf2 in Hr4;
    [|intros Heq; apply Hne; rewrite <- Heq; by left|done]. cbn [head] in Hr4.
  exists k, w', (pool2, w2), s3, s4. split; [exact Hset|]. split.
  - destruct (serves_accepted key v1 w n1) as [nd Ha]; [by apply Forall_cons in Hs as [? _]|].
    assert ((@rpc_set cluster_network (addr n1) req1 w).2 = w1) as Hu
      by (refine (eq_trans (f_equal snd (rpc_set_accepted _ _ _ _ Ha)) _); unfold w1, apply_set, req1; by rewrite Ha).
    refine (eq_trans (f_equal (λ u, Coordinator.set self key v2 None (pool, u)) Hu) Hset2).
  - split; [done|]. split; [|by split].
    intros n Hn. rewrite Hf, decide_True; [done|by apply list_elem_of_fmap_2|by right].
Qed.
End properties.

(** ** Witnesses: two replicas, a clock that moves, and writes of another key *)

Section witnesses.
#[local] Existing Instance Examples.string_uuid.
#[local] Existing Instance Examples.poly_xxh3.
#[local] Existing Instance ex_uri.
Import NodeService CacheStore Cluster Overlap.

Definition ex_horizon : Instant := 1000.
Definition ex_tick (u : Cluster.World) : Cluster.World :=
  if time u + 10 <=? ex_horizon then mkWorld (nodes_at u) (reachable u) (time u + 10) else u.
Definition ex_others (_ : nat) (u : Cluster.World) : Cluster.World :=
  (@rpc_set cluster_network "h1:1" (mkSetRequest "other" (as_bytes "x") None) (ex_tick u)).2.

Lemma ex_others_elsewhere k u : rtc (elsewhere "k") u (ex_others k u).
Proof.
  etrans; [|by apply rpc_set_elsewhere]. unfold ex_tick. destruct (_ <=? _); [|done].
  apply rtc_once, elsewhere_time. lia.
Qed.
Lemma ex_others_clock k u : time u ≤ ex_horizon → time (ex_others k u) ≤ ex_horizon.
Proof.
  intros Hu. unfold ex_others. cbn [rpc_set cluster_network]. unfold call.
  assert (time (ex_tick u) ≤ ex_horizon) as Ht.
  { unfold ex_tick. destruct (Z.leb_spec (time u + 10) ex_horizon); simpl; lia. }
  destruct (answering (ex_tick u) "h1:1") as [nd|]; [|done].
  by destruct (NodeService.set _ _ nd) as [[r nd']|msg|].
Qed.
Lemma ex_two_list : Coordinator.alive_preference_list (ex_coordinator 2 1) "k" = [ex_n1; ex_n2].
Proof. vm_compute. reflexivity. Qed.
Lemma ex_two_members n : n ∈ Coordinator.alive_preference_list (ex_coordinator 2 1) "k" → n = ex_n1 ∨ n = ex_n2.
Proof. rewrite ex_two_list, !elem_of_cons. intros [->|[->|[]%elem_of_nil]]; auto. Qed.

Lemma keys_are_independent_witness : ∃ trace s',
  client_run ex_others (ex_coordinator 2 1) "k" [KSet (as_bytes "v") None; KGet; KDelete; KGet]
    (ex_pool, (0%nat, ex_world)) = Returns (trace, s') ∧
  cell_run [KSet (as_bytes "v") None; KGet; KDelete; KGet] None trace.
Proof.
  apply (keys_are_independent ex_others (ex_coordinator 2 1) "k" ex_horizon).
  - vm_compute. discriminate.
  - apply Forall_forall. intros n [-> | ->]%ex_two_members; reflexivity.
  - discriminate.
  - exact ex_others_elsewhere.
  - exact ex_others_clock.
  - vm_compute. discriminate.
  - repeat constructor.
  - intros n [-> | ->]%ex_two_members; exists ex_alone; repeat split; reflexivity.
Defined.

Lemma other_requests_are_elsewhere_witness :
  rtc (elsewhere "k") ex_world (@rpc_delete cluster_network "h1:1" (mkDeleteRequest "other") ex_world).2.
Proof.
  apply (other_requests_are_elsewhere "k" "h1:1" (mkSetRequest "other" [] None) (mkGetRequest "k")
    (mkDeleteRequest "other") ex_world). discriminate.
Defined.

Definition ex_cached : ClientPool.NodeClientPool :=
  ClientPool.mkNodeClientPool {[ "h1:1"%string; "h2:1"%string ]}.

Lemma overlapping_writes_diverge_witness : ∃ k w',
  @Coordinator.set _ _ _ (busy_network (race (ex_coordinator 2 1) "k" (as_bytes "new") ex_cached))
    (ex_coordinator 2 1) "k" (as_bytes "old") None (ex_cached, (0%nat, ex_world)) =
    Returns (inr (mkSetResponse true), (ex_cached, (k, w'))) ∧
  found "k" w' "h1:1" = Some (as_bytes "new") ∧ found "k" w' "h2:1" = Some (as_bytes "old").
Proof.
  destruct (overlapping_writes_diverge (ex_coordinator 2 1) "k" (as_bytes "old") (as_bytes "new")
    ex_cached ex_world ex_n1 ex_n2 []) as (k & w' & s2 & s3 & s4 & H1 & _ & H2 & H3 & _).
  - exact ex_two_list.
  - cbn. intros Hin%list_elem_of_singleton. discriminate.
  - repeat constructor.
  - repeat constructor; apply (bool_decide_unpack _); vm_compute; exact I.
  - repeat constructor; by exists ex_alone.
  - discriminate.
  - exists k, w'. split; [exact H1|]. split; [exact H2|]. apply (H3 ex_n2). left.
Defined.
End witnesses.
