(* ===== verification/Failover.v ===== *)
(** * Failover

    The health checker of the router at work on a cluster ([check_all] with the
    answers of [Cluster]), composed with the replicated operations: what a crash
    costs, and what the router does about it. *)

From S2P Require Import Prelude Machine Text Common Ring Store NodeService Health Coordinator.
Local Open Scope Z_scope.
Local Open Scope outcome_scope.

Module Failover.
Import NodeService Cluster HealthMonitor.

Section failover.
Context `{UuidLib} `{Xxh3} `{ClientPool.UriLib}.

(** A probe: the node at the address, if it can be reached, handles the heartbeat. *)
Definition answers (w : Cluster.World) (node : NodeId * string) : bool :=
  match answering w node.2 with
  | Some n => match (heartbeat (mkHeartbeatRequest (NodeId_to_string node.1)) n).1 with
              | inr _ => true
              | inl _ => false
              end
  | None => false
  end.
Definition probe (clock : nat → Z) (w : Cluster.World) (node_addrs : list (NodeId * string)) (j : nat)
    : Z * bool * bool :=
  let ok := match node_addrs !! j with Some node => answers w node | None => false end in
  (clock j, ok, ok).

(** One tick of the checker, and [k] of them. *)
Definition tick (clock : nat → Z) (w : Cluster.World) (node_addrs : list (NodeId * string))
    (p : ClientPool.NodeClientPool * HealthMonitor)
    : outcome (ClientPool.NodeClientPool * HealthMonitor) :=
  check_all (probe clock w node_addrs) 0 node_addrs p.
Fixpoint ticks (clock : nat → nat → Z) (w : Cluster.World) (node_addrs : list (NodeId * string)) (k : nat)
    (p : ClientPool.NodeClientPool * HealthMonitor)
    : outcome (ClientPool.NodeClientPool * HealthMonitor) :=
  match k with
  | O => Returns p
  | S k' => let! p' := tick (clock k) w node_addrs p in ticks clock w node_addrs k' p'
  end.

(** What goes on while no client writes or deletes the key: time passes, nodes crash and
    come back, their handlers, sweepers and gossip run, also for requests for other keys;
    and nodes [started] anew hold whatever their rebalance has pulled, which is the only
    task of the program that copies keys (no part of it calls [replicate_write], which
    only clients do).  A request for the key that arrived before is over. *)
Inductive meanwhile (key : string) (started : string → Prop) (w : Cluster.World) : Cluster.World → Prop :=
  | meanwhile_time d : 0 ≤ d → meanwhile key started w (mkWorld (nodes_at w) (reachable w) (time w + d))
  | meanwhile_network reach : meanwhile key started w (mkWorld (nodes_at w) reach (time w))
  | meanwhile_node a nd nd' : nodes_at w !! a = Some nd →
      handles (λ k, k ≠ key) (eq (time w)) nd nd' → meanwhile key started w (Cluster.put w a nd')
  | meanwhile_started a nd : started a → meanwhile key started w (Cluster.put w a nd).

(** Any copy of the key at an address has expired by [t]. *)
Definition no_copy (key : string) (w : Cluster.World) (t : Z) (a : string) : Prop :=
  ∀ nd e, nodes_at w !! a = Some nd → CacheStore.data (store nd) !! key = Some e →
    CacheStore.live t e = false.

(** The coordinator with another monitor, and the nodes it chooses from. *)
Definition with_monitor (self : Coordinator.ReplicationCoordinator) (h : HealthMonitor)
    : Coordinator.ReplicationCoordinator :=
  Coordinator.mkReplicationCoordinator (Coordinator.hash_ring self) (Coordinator.config self) h.
Definition candidates (self : Coordinator.ReplicationCoordinator) (key : string) : list NodeInfo :=
  HashRing.get_preference_list (Coordinator.hash_ring self) key
    (u64_add (Coordinator.replication_factor (Coordinator.config self)) 2).

(** Whether the node at an address can be reached and is not joining. *)
Definition serving (w : Cluster.World) (a : string) : bool :=
  match answering w a with Some nd => negb (joining nd) | None => false end.

(** What a write of a key is answered when the router routes to exactly the nodes that
    can be reached: the first of the candidates of the key that can be reached decides. *)
Definition write_answer (w : Cluster.World) (self : Coordinator.ReplicationCoordinator) (key : string)
    : string + SetResponse :=
  match List.find (λ n, answers w (id n, addr n)) (candidates self key) with
  | Some n =>
      if serving w (addr n) && bool_decide (Coordinator.max_retries (Coordinator.config self) ≠ 0%nat)
      then inr (mkSetResponse true) else inl "Primary write failed"%string
  | None => inl "No alive nodes available for write"%string
  end.

(** What the monitor holds of a node, without the time. *)
Definition verdict (h : HealthMonitor) (i : NodeId) : option (NodeHealth * Z) :=
  (λ e, (health e, consecutive_failures e)) <$> nodes h !! i.

(** The entries a monitor can hold: a Suspect node has failed at least once, and
    fewer times than it takes to be Dead. *)
Definition verdict_ok (threshold : Z) (v : option (NodeHealth * Z)) : Prop :=
  match v with
  | None | Some (Dead, _) => True
  | Some (Alive, c) | Some (Joining, c) => c = 0
  | Some (Suspect, c) => 1 ≤ c < Z.max 2 threshold
  end.
Definition monitor_ok (h : HealthMonitor) : Prop :=
  0 ≤ failure_threshold h ≤ u32_max ∧ ∀ i, verdict_ok (failure_threshold h) (verdict h i).

(** The failures a verdict stands for: a Dead node has had all it takes. *)
Definition failures (threshold : Z) (v : option (NodeHealth * Z)) : Z :=
  match v with
  | Some (Suspect, c) => c
  | Some (Dead, _) => Z.max 2 threshold
  | _ => 0
  end.
End failover.
End Failover.

(** ** Lemmas *)

Section lemmas.
Context `{UuidLib} `{Xxh3} `{ClientPool.UriLib}.
Import NodeService Cluster HealthMonitor Failover.

(** Every node answers heartbeats, a joining one included. *)
Lemma answers_true w node : answers w node = true ↔ ∃ n, answering w node.2 = Some n.
Proof. unfold answers. destruct (answering w node.2); naive_solver. Qed.

Lemma is_alive_verdict h i : is_alive i h =
  match verdict h i with Some (Dead, _) | Some (Joining, _) => false | _ => true end.
Proof.
  unfold is_alive, verdict. destruct (nodes h !! i) as [e|]; [|done].
  simpl. by destruct (health e).
Qed.

Lemma verdict_mark_alive now i h j :
  verdict (mark_alive now i h) j = if decide (j = i) then Some (Alive, 0) else verdict h j.
Proof.
  unfold verdict, mark_alive, put. cbn [nodes].
  case_decide as Hj; [subst; by rewrite lookup_insert_eq|by rewrite lookup_insert_ne].
Qed.

Definition fail (threshold : Z) (v : option (NodeHealth * Z)) : option (NodeHealth * Z) :=
  let '(s, c) := match v with Some sc => sc | None => (Alive, 0) end in
  let c' := u32_add c 1 in
  Some (match s with
        | Alive | Joining => Suspect
        | Suspect => if threshold <=? c' then Dead else Suspect
        | Dead => Dead
        end, c').

Lemma verdict_record_failure now i h j :
  verdict (record_failure now i h) j =
  if decide (j = i) then fail (failure_threshold h) (verdict h i) else verdict h j.
Proof.
  unfold verdict, record_failure, put. cbn [nodes].
  case_decide as Hj; [subst; rewrite lookup_insert_eq|by rewrite lookup_insert_ne].
  unfold fail. by destruct (nodes h !! i) as [e|].
Qed.

Lemma fail_spec T v : 0 ≤ T ≤ u32_max → verdict_ok T v →
  verdict_ok T (fail T v) ∧ failures T (fail T v) = Z.min (Z.max 2 T) (failures T v + 1).
Proof.
  intros HT Hv. unfold fail. destruct v as [[s c]|]; cbn [verdict_ok failures] in *.
  2: change (u32_add 0 1) with 1; lia.
  destruct s; subst; cbn [verdict_ok failures].
  1,4: change (u32_add 0 1) with 1; lia.
  - rewrite u32_add_small by (machine_unfold; lia).
    destruct (Z.leb_spec T (c + 1)); cbn [verdict_ok failures]; lia.
  - lia.
Qed.

Lemma failures_nonneg T v : 0 ≤ T ≤ u32_max → verdict_ok T v → 0 ≤ failures T v.
Proof. intros HT. destruct v as [[[] c]|]; cbn; lia. Qed.

(** A node that failed is routable until it is Dead. *)
Lemma is_alive_failed T h i : 0 ≤ T → verdict_ok T (verdict h i) → 0 < failures T (verdict h i) →
  is_alive i h = (failures T (verdict h i) <? Z.max 2 T).
Proof.
  intros HT Hv Hf. rewrite is_alive_verdict.
  destruct (verdict h i) as [[[] c]|]; cbn [verdict_ok failures] in *; lia.
Qed.

(** A probe. *)
Lemma check_node_verdict now ok i a pool h : ClientPool.uri_valid ("http://" +:+ a) = true →
  ∃ pool' h', check_node now ok ok (i, a) (pool, h) = Returns (pool', h') ∧
    failure_threshold h' = failure_threshold h ∧
    ∀ j, verdict h' j = if decide (j = i) then
      (if ok then Some (Alive, 0) else fail (failure_threshold h) (verdict h i)) else verdict h j.
Proof.
  intros Hv. unfold check_node, ClientPool.get_client.
  assert (∀ pool' : ClientPool.NodeClientPool, ∃ pool'' h',
    Returns (pool', record_failure now i h) = Returns (pool'', h') ∧
    failure_threshold h' = failure_threshold h ∧
    ∀ j, verdict h' j = if decide (j = i) then fail (failure_threshold h) (verdict h i) else verdict h j)
    as Hfail.
  { intros pool'. exists pool', (record_failure now i h). split; [done|]. split; [done|].
    intros j. apply verdict_record_failure. }
  assert (∀ pool' : ClientPool.NodeClientPool, ∃ pool'' h',
    Returns (pool', mark_alive now i h) = Returns (pool'', h') ∧
    failure_threshold h' = failure_threshold h ∧
    ∀ j, verdict h' j = if decide (j = i) then Some (Alive, 0) else verdict h j) as Halive.
  { intros pool'. exists pool', (mark_alive now i h). split; [done|]. split; [done|].
    intros j. apply verdict_mark_alive. }
  destruct (decide (a ∈ ClientPool.clients pool)); cbn [outcome_bind].
  - destruct ok; [apply Halive|apply Hfail].
  - rewrite Hv. destruct ok; cbn [outcome_bind]; [apply Halive|apply Hfail].
Qed.

(** What a tick makes of a node. *)
Definition probed (w : Cluster.World) (T : Z) (node : NodeId * string) (v : option (NodeHealth * Z)) :=
  if answers w node then Some (Alive, 0) else fail T v.

Lemma check_all_verdicts clock w all : 
  NoDup all.*1 → Forall (λ node, valid_addr node.2) all →
  ∀ l pre, all = pre ++ l → ∀ pool h, ∃ pool' h',
    check_all (probe clock w all) (length pre) l (pool, h) = Returns (pool', h') ∧
    failure_threshold h' = failure_threshold h ∧
    (∀ j, j ∉ l.*1 → verdict h' j = verdict h j) ∧
    (∀ node, node ∈ l → verdict h' node.1 = probed w (failure_threshold h) node (verdict h node.1)).
Proof.
  intros Hnd Hv. induction l as [|[i a] l IH]; intros pre Hall pool h.
  { exists pool, h. repeat split. by intros node ?%elem_of_nil. }
  assert (valid_addr a ∧ i ∉ l.*1) as [Ha Hi].
  { subst all. rewrite fmap_app, fmap_cons in Hnd. apply NoDup_app in Hnd as (_ & _ & Hnd).
    apply Forall_app in Hv as [_ Hv]. by inversion Hv; inversion Hnd. }
  cbn [check_all]. unfold probe at 1.
  assert (all !! length pre = Some (i, a)) as -> by by rewrite Hall, list_lookup_middle.
  destruct (check_node_verdict (clock (length pre)) (answers w (i, a)) i a pool h Ha)
    as (pool1 & h1 & -> & HT1 & Hv1). cbn [outcome_bind].
  destruct (IH (pre ++ [(i, a)])) with pool1 h1 as (pool2 & h2 & Hr & HT2 & Hout & Hin);
    [by rewrite <- app_assoc|].
  replace (length (pre ++ [(i, a)])) with (S (length pre)) in Hr by (rewrite length_app; simpl; lia).
  exists pool2, h2. split; [exact Hr|]. split; [congruence|]. split.
  - intros j Hj. rewrite fmap_cons, not_elem_of_cons in Hj. destruct Hj as [Hji Hj].
    by rewrite Hout, Hv1, decide_False.
  - intros node [->|Hn]%elem_of_cons.
    + cbn [fst]. by rewrite Hout, Hv1, decide_True.
    + assert (node.1 ≠ i) by (intros <-; by apply Hi, list_elem_of_fmap_2).
      by rewrite Hin, Hv1, HT1, decide_False.
Qed.

Lemma probed_spec T w node v : 0 ≤ T ≤ u32_max → verdict_ok T v →
  verdict_ok T (probed w T node v) ∧
  if answers w node then probed w T node v = Some (Alive, 0)
  else failures T (probed w T node v) = Z.min (Z.max 2 T) (failures T v + 1).
Proof.
  intros HT Hv. unfold probed. destruct (answers w node); [done|]. by apply fail_spec.
Qed.

(** What [k] ticks make of the monitor: a node that answers is Alive, and the others
    have [k] more failures, up to those that make them Dead. *)
Lemma ticks_verdicts clock w all k : NoDup all.*1 → Forall (λ node, valid_addr node.2) all →
  ∀ pool h, monitor_ok h → let T := failure_threshold h in
  ∃ pool' h', ticks clock w all k (pool, h) = Returns (pool', h') ∧
    failure_threshold h' = T ∧ monitor_ok h' ∧
    (∀ j, j ∉ all.*1 → verdict h' j = verdict h j) ∧
    ∀ node, node ∈ all →
      if answers w node then
        verdict h' node.1 = match k with O => verdict h node.1 | _ => Some (Alive, 0) end
      else failures T (verdict h' node.1) =
           Z.min (Z.max 2 T) (failures T (verdict h node.1) + Z.of_nat k).
Proof.
  intros Hnd Hv. induction k as [|k IH]; intros pool h [HT Hok] T.
  { exists pool, h. split; [done|]. split; [done|]. split; [done|]. split; [done|].
    intros node _. destruct (answers w node); [done|]. subst T. specialize (Hok node.1). destruct (verdict h node.1) as [[[] ?]|]; cbn in *; lia. }
  cbn [ticks]. unfold tick.
  destruct (check_all_verdicts (clock (S k)) w all Hnd Hv all [] eq_refl pool h)
    as (pool1 & h1 & Hr & HT1 & Hout1 & Hin1). cbn [length] in Hr. rewrite Hr. cbn [outcome_bind].
  assert (monitor_ok h1) as Hok1.
  { split; rewrite HT1; [done|]. intros i. destruct (decide (i ∈ all.*1)) as [Hi|Hi].
    - apply list_elem_of_fmap in Hi as (node & -> & Hnode). rewrite Hin1 by done.
      by apply probed_spec.
    - by rewrite Hout1. }
  destruct (IH pool1 h1 Hok1) as (pool2 & h2 & -> & HT2 & Hok2 & Hout2 & Hin2).
  exists pool2, h2. subst T. rewrite HT1 in *. split; [done|]. split; [done|]. split; [done|].
  split; [intros j Hj; by rewrite Hout2, Hout1|].
  intros node Hnode. specialize (Hin2 node Hnode).
  pose proof (probed_spec _ w node _ HT (Hok node.1)) as [_ Hp].
  rewrite <- Hin1 in Hp by done. destruct (answers w node) eqn:Ea; [|rewrite Hin2, Hp; lia].
  rewrite Hin2. destruct k; [exact Hp|done].
Qed.
End lemmas.

(** *** The preference list of a smaller cluster *)

Section survivors.
Context `{UuidLib} `{Xxh3} `{ClientPool.UriLib}.
Import NodeService Coordinator Cluster HealthMonitor Failover.
#[local] Existing Instance cluster_network.

Implicit Types (self : ReplicationCoordinator).

Lemma alive_list_filter self key : 1 ≤ replication_factor (config self) →
  alive_preference_list self key =
  take (Z.to_nat (replication_factor (config self)))
    (List.filter (λ n, is_alive (id n) (health_monitor self)) (candidates self key)).
Proof. intros Hrf. unfold alive_preference_list. by rewrite alive_loop_spec by (simpl; lia). Qed.

Lemma alive_list_valid self key : 1 ≤ replication_factor (config self) →
  Forall (λ n, valid_addr (addr n)) (HashRing.nodes (hash_ring self)) →
  Forall (λ n, valid_addr (addr n)) (alive_preference_list self key).
Proof.
  intros Hrf Hv. apply Forall_forall. intros n Hn%alive_preference_nodes; [|done].
  by eapply Forall_forall in Hv.
Qed.

(** What an acknowledged write leaves. *)
Lemma set_acknowledged self key v ttl pool w r pool1 w1 :
  Forall (λ n, valid_addr (addr n)) (alive_preference_list self key) →
  Coordinator.set self key v ttl (pool, w) = Returns (inr r, (pool1, w1)) →
  max_retries (config self) ≠ 0%nat ∧
  w1 = apply_sets (mkSetRequest key v ttl) (addr <$> alive_preference_list self key) w.
Proof.
  intros Hv. unfold Coordinator.set. destruct (max_retries (config self)) as [|k].
  { destruct (alive_preference_list self key) as [|n l]; [done|]. simpl.
    by destruct (set_nodes 0 l _ _) as [[? ?]| |]. }
  destruct (set_nodes_cluster (mkSetRequest key v ttl) k _ Hv pool w) as (results & pool' & Hr & _).
  destruct (alive_preference_list self key) as [|n l]; [done|].
  rewrite_run Hr. destruct results as [|[] results]; try done. by intros [= _ _ <-].
Qed.

(** *** The key in the meantime *)

Lemma lapses_later t t' o o' : t ≤ t' → lapses t o o' → lapses t' o o'.
Proof.
  intros Ht [->|[-> Hl]]; [by left|right]. split; [done|]. intros e He.
  apply not_true_is_false. intros Hlive. apply (live_mono t t') in Hlive; [|done]. by rewrite Hl in Hlive.
Qed.

Lemma lapses_trans t o1 o2 o3 : lapses t o1 o2 → lapses t o2 o3 → lapses t o1 o3.
Proof.
  intros H12 [->|[-> H23]]; [done|]. right. split; [done|].
  destruct H12 as [->|[-> H12]]; [exact H23|exact H12].
Qed.

Lemma meanwhile_lapses key started w w' a : ¬ started a → rtc (meanwhile key started) w w' →
  time w ≤ time w' ∧ option_Forall2 (λ nd nd', lapses (time w')
    (CacheStore.data (store nd) !! key) (CacheStore.data (store nd') !! key)) (nodes_at w !! a) (nodes_at w' !! a).
Proof.
  intros Ha. apply (rtc_ind_r (λ w', time w ≤ time w' ∧ option_Forall2 (λ nd nd', lapses (time w')
    (CacheStore.data (store nd) !! key) (CacheStore.data (store nd') !! key)) (nodes_at w !! a) (nodes_at w' !! a))).
  { split; [done|]. destruct (nodes_at w !! a); constructor. by left. }
  intros w1 w2 _ Hs [Ht Hf]. destruct Hs as [d Hd|reach|b nd nd' Hb Hh|b nd Hb]; cbn.
  - split; [lia|]. destruct Hf as [nd nd' Hl|]; constructor. eapply lapses_later; [|done]. lia.
  - done.
  - split; [done|]. destruct (decide (b = a)) as [->|Hne]; [|by rewrite lookup_insert_ne].
    rewrite lookup_insert_eq. rewrite Hb in Hf. inversion Hf as [nd0 nd1 Hl Heq1 Heq2|]; subst.
    constructor. eapply lapses_trans; [done|]. apply (handles_lapses _ _ _ _ _ Hh). tauto.
  - split; [done|]. rewrite lookup_insert_ne; [done|]. by intros ->.
Qed.

(** What is read of an entry. *)
Lemma get_lapsed t key st st' : lapses t (CacheStore.data st !! key) (CacheStore.data st' !! key) →
  (CacheStore.get t key st').1 = (CacheStore.get t key st).1.
Proof.
  unfold CacheStore.get, CacheStore.get_lookup. intros [->|[-> Hl]]; [by repeat case_match|].
  destruct (CacheStore.data st !! key) as [e|]; [|done]. specialize (Hl e eq_refl).
  rewrite live_expired in Hl. by rewrite (proj1 (negb_false_iff _) Hl).
Qed.

Lemma found_meanwhile key started w w' a : ¬ started a → rtc (meanwhile key started) w w' →
  found key w' a = if reachable w' a then
    nd ← nodes_at w !! a; (CacheStore.get (time w') key (store nd)).1 else None.
Proof.
  intros Ha Hw. destruct (meanwhile_lapses _ _ _ _ _ Ha Hw) as [_ Hf]. unfold found, answering.
  destruct (reachable w' a); [|done]. destruct Hf as [nd nd' Hl|]; [|done]. cbn. by apply get_lapsed.
Qed.

Lemma no_copy_get key w t a nd : no_copy key w t a → nodes_at w !! a = Some nd →
  (CacheStore.get t key (store nd)).1 = None.
Proof.
  intros Hn Hnd. unfold CacheStore.get, CacheStore.get_lookup.
  destruct (CacheStore.data (store nd) !! key) as [e|] eqn:E; [|done].
  specialize (Hn nd e Hnd E). rewrite live_expired in Hn. by rewrite (proj1 (negb_false_iff _) Hn).
Qed.

(** What the nodes of a written list answer in the meantime. *)
Lemma written_meanwhile key v ttl addrs w w' started a :
  rtc (meanwhile key started) (apply_sets (mkSetRequest key v ttl) addrs w) w' → ¬ started a →
  (∀ ms, ttl = Some ms → time w' < time w + from_millis ms) → a ∈ addrs →
  (is_Some (accepted (mkSetRequest key v ttl) w a) →
   found key w' a = if reachable w' a then Some v else None) ∧
  (no_copy key w (time w') a → found key w' a = None ∨ found key w' a = Some v).
Proof.
  intros Hw Ha Ht Hin. rewrite (found_meanwhile _ _ _ _ _ Ha Hw), apply_sets_lookup, decide_True by done.
  assert (∀ n', accepted (mkSetRequest key v ttl) w a = Some n' →
    (CacheStore.get (time w') key (store n')).1 = Some v) as Hacc.
  { intros n' Hn. destruct (accepted_found _ _ _ _ _ _ (time w') Hn) as [_ ->].
    destruct ttl as [ms|]; [|done]. by rewrite (proj2 (Z.ltb_lt _ _)) by by apply Ht. }
  destruct (reachable w' a); [|by split; [|left]]. split.
  - intros [n' Hn]. rewrite Hn. cbn. by apply Hacc.
  - intros Hno. destruct (accepted _ w a) as [n'|] eqn:Hn; [right; by apply Hacc|left].
    destruct (nodes_at w !! a) as [nd|] eqn:E; [|done]. by apply (no_copy_get key w _ a).
Qed.

(** Detection, as the theorems below use it. *)
Lemma detected (clock : nat → nat → Z) (w : Cluster.World) (all : list (NodeId * string))
    (k : nat) (pool : ClientPool.NodeClientPool) (h : HealthMonitor) :
  NoDup all.*1 → Forall (λ node, valid_addr node.2) all → monitor_ok h →
  Z.max 2 (failure_threshold h) ≤ Z.of_nat k →
  ∃ pool' h', ticks clock w all k (pool, h) = Returns (pool', h') ∧ monitor_ok h' ∧
    (∀ node, node ∈ all → is_alive node.1 h' = answers w node) ∧
    (∀ i, i ∉ all.*1 → is_alive i h' = is_alive i h).
Proof.
  intros Hnd Hv Hok Hk.
  destruct (ticks_verdicts clock w all k Hnd Hv pool h Hok) as (pool' & h' & Hr & HT & Hok' & Hout & Hin).
  exists pool', h'. split; [exact Hr|]. split; [done|]. split.
  - intros node Hnode. specialize (Hin node Hnode). destruct (answers w node).
    + rewrite is_alive_verdict, Hin. destruct k; [lia|done].
    + destruct Hok as [HTok Hv0]. destruct Hok' as [_ Hv']. rewrite HT in Hv'.
      pose proof (failures_nonneg _ _ HTok (Hv0 node.1)).
      rewrite (is_alive_failed (failure_threshold h)); [|lia|done|lia].
      rewrite Hin. apply Z.ltb_ge. lia.
  - intros i Hi. by rewrite !is_alive_verdict, Hout.
Qed.

Lemma omap_nothing {A B} (f : A → option B) l : (∀ x, x ∈ l → f x = None) → omap f l = [].
Proof.
  induction l as [|x l IH]; intros Hf; [done|]. cbn. rewrite (Hf x) by by left.
  apply IH. intros y Hy. apply Hf. by right.
Qed.

Lemma take_filter_nonempty {A} (p : A → bool) (x : A) k l : 0 < k → x ∈ l → p x = true →
  take (Z.to_nat k) (List.filter p l) ≠ [].
Proof.
  intros Hk Hx Hp. assert (x ∈ List.filter p l) as Hin by (by apply elem_of_filterb).
  destruct (List.filter p l); [by apply elem_of_nil in Hin|]. by destruct (Z.to_nat k) eqn:E; [lia|].
Qed.

Lemma get_nodes_no_attempts key nodes s :
  get_nodes 0 nodes (mkGetRequest key) s = Returns (mkGetResponse None false, s).
Proof. induction nodes as [|n nodes IH]; [done|exact IH]. Qed.

Lemma accepts_serving key v ttl w a :
  (∀ ms, ttl = Some ms → time w + from_millis ms < instant_limit) →
  bool_decide (is_Some (accepted (mkSetRequest key v ttl) w a)) = serving w a.
Proof.
  intros Httl. unfold serving, accepted. destruct (answering w a) as [nd|]; [|done].
  cbn [mbind option_bind]. unfold NodeService.set. destruct (joining nd); [done|].
  unfold CacheStore.set, CacheStore.expiry_of. cbn [set_ttl_ms].
  destruct ttl as [ms|]; cbn; [|done].
  unfold instant_add. by rewrite (proj2 (Z.ltb_lt _ _)) by by apply Httl.
Qed.

Lemma set_nodes_no_attempts nodes req s :
  set_nodes 0 nodes req s = Returns ((λ _, false) <$> nodes, s).
Proof. induction nodes as [|n nodes IH]; [done|]. simpl. by rewrite IH. Qed.

(** A write when the router routes to exactly the nodes that can be reached. *)
Lemma write_answered self h key value ttl_ms pool w :
  1 ≤ replication_factor (config self) →
  Forall (λ n, valid_addr (addr n)) (HashRing.nodes (hash_ring self)) →
  (∀ n, n ∈ candidates self key → is_alive (id n) h = answers w (id n, addr n)) →
  (∀ ms, ttl_ms = Some ms → time w + from_millis ms < instant_limit) →
  ∃ s, Coordinator.set (with_monitor self h) key value ttl_ms (pool, w) =
    Returns (write_answer w self key, s) ∧
    (List.find (λ n, answers w (id n, addr n)) (candidates self key) = None → s = (pool, w)).
Proof.
  intros Hrf Hv Hd Httl.
  pose proof (alive_list_valid (with_monitor self h) key Hrf Hv) as Hvl.
  pose proof (alive_list_filter (with_monitor self h) key Hrf) as Hl.
  change (candidates (with_monitor self h) key) with (candidates self key) in Hl.
  assert (List.filter (λ n, is_alive (id n) h) (candidates self key) =
    List.filter (λ n, answers w (id n, addr n)) (candidates self key)) as Hf.
  { apply List.filter_ext_in. intros n Hn%list_elem_of_In. by apply Hd. }
  cbn [health_monitor with_monitor config] in Hl. rewrite Hf in Hl. clear Hf.
  unfold Coordinator.set, write_answer. rewrite find_filter.
  change (config (with_monitor self h)) with (config self).
  destruct (List.filter _ (candidates self key)) as [|n l]; [rewrite Hl, take_nil; by exists (pool, w)|].
  destruct (Z.to_nat (replication_factor (config self))) as [|rf] eqn:Erf; [lia|]. cbn [take] in Hl.
  rewrite Hl in *. cbn [head]. destruct (max_retries (config self)) as [|retries].
  - rewrite set_nodes_no_attempts. eexists. split; [|done]. cbn. by rewrite andb_false_r.
  - destruct (set_nodes_cluster (mkSetRequest key value ttl_ms) retries _ Hvl pool w)
      as (results & pool2 & Hs & ->).
    rewrite_run Hs. rewrite fmap_cons, accepts_serving by done.
    rewrite (bool_decide_eq_true_2 (S retries ≠ 0%nat)), andb_true_r by done.
    destruct (serving w (addr n)); by eexists.
Qed.
End survivors.

(** ** Properties *)

Section properties.
Context `{UuidLib} `{Xxh3} `{ClientPool.UriLib}.
Import NodeService Coordinator Cluster HealthMonitor Failover.
#[local] Existing Instance cluster_network.

(** C5: the checker finds out: from any state of the monitor, after as many ticks as a
    node needs failures to be Dead (at least 2), the nodes the router routes to are,
    among those it checks, exactly those that can be reached; a checker never stops
    on a valid address. *)
Theorem detection (clock : nat → nat → Z) (w : Cluster.World) (all : list (NodeId * string))
    (k : nat) (pool : ClientPool.NodeClientPool) (h : HealthMonitor) :
  NoDup all.*1 → Forall (λ node, valid_addr node.2) all → monitor_ok h →
  Z.max 2 (failure_threshold h) ≤ Z.of_nat k →
  ∃ pool' h', ticks clock w all k (pool, h) = Returns (pool', h') ∧ monitor_ok h' ∧
    (∀ node, node ∈ all → is_alive node.1 h' = answers w node) ∧
    (∀ i, i ∉ all.*1 → is_alive i h' = is_alive i h).
Proof. apply detected. Qed.

(** C4: an acknowledged write survives the crash of its replicas but one: it is read, until
    it expires, as long as one node of its preference list that accepted it can be
    reached and is routed to -- whichever other nodes crash, and whatever of that the
    router has noticed -- provided that no node has become routable since, and that
    every other node of the list that can be reached has accepted the write as well, or
    holds no other copy of the key (such as one that the write missed); that no client
    writes or deletes the key meanwhile, and no node of the list that is up has started
    anew; and that the addresses in the ring are valid. *)
Theorem crash_tolerance (self : ReplicationCoordinator) (key : string) (value : list ascii)
    (ttl_ms : option Z) (pool pool1 pool2 : ClientPool.NodeClientPool) (w w1 w2 : Cluster.World)
    (r : SetResponse) (h : HealthMonitor) (started : string → Prop) (survivor : NodeInfo) :
  1 ≤ replication_factor (config self) →
  Forall (λ n, valid_addr (addr n)) (HashRing.nodes (hash_ring self)) →
  Coordinator.set self key value ttl_ms (pool, w) = Returns (inr r, (pool1, w1)) →
  rtc (meanwhile key started) w1 w2 →
  (∀ ms, ttl_ms = Some ms → time w2 < time w + from_millis ms) →
  (∀ n, n ∈ alive_preference_list self key → reachable w2 (addr n) = true →
     ¬ started (addr n) ∧
     (is_Some (accepted (mkSetRequest key value ttl_ms) w (addr n)) ∨ no_copy key w (time w2) (addr n))) →
  (∀ n, n ∈ HashRing.nodes (hash_ring self) → is_alive (id n) h = true →
     is_alive (id n) (health_monitor self) = true) →
  survivor ∈ alive_preference_list self key → reachable w2 (addr survivor) = true →
  is_Some (accepted (mkSetRequest key value ttl_ms) w (addr survivor)) → is_alive (id survivor) h = true →
  ∃ s2, Coordinator.get (with_monitor self h) key (pool2, w2) =
    Returns (inr (mkGetResponse (Some value) true), s2).
Proof.
  intros Hrf Hv Hset Hw Ht Hlist Hless Hin Hreach Hacc Halive.
  apply set_acknowledged in Hset as [Hm ->]; [|by apply alive_list_valid].
  pose proof (alive_list_valid (with_monitor self h) key Hrf Hv) as Hv'.
  assert (survivor ∈ take (Z.to_nat (replication_factor (config self)))
    (List.filter (λ n, is_alive (id n) (health_monitor self)) (candidates self key))) as Hin'
    by by rewrite <- alive_list_filter.
  destruct (take_filter_fewer (λ n, is_alive (id n) (health_monitor self)) (λ n, is_alive (id n) h)
    survivor (candidates self key)) with (k := Z.to_nat (replication_factor (config self)))
    as (pre & post & Hl & Hpre); [|done|done|].
  { intros n Hn. apply Hless. by eapply HashRing.preference_list_nodes. }
  rewrite <- (alive_list_filter self) in Hpre by done.
  assert (alive_preference_list (with_monitor self h) key = pre ++ survivor :: post) as Heq
    by (by rewrite (alive_list_filter (with_monitor self h))).
  assert (found key w2 (addr survivor) = Some value) as Hfs.
  { destruct (Hlist _ Hin Hreach) as [Hs _]. 
    destruct (written_meanwhile _ _ _ _ _ _ _ _ Hw Hs Ht (list_elem_of_fmap_2 addr _ _ Hin)) as [Hf _].
    by rewrite Hf, Hreach. }
  assert (∀ n, n ∈ pre → found key w2 (addr n) = None ∨ found key w2 (addr n) = Some value) as Hfp.
  { intros n Hn%Hpre. destruct (reachable w2 (addr n)) eqn:Er; [|left; unfold found, answering; by rewrite Er].
    destruct (Hlist n Hn Er) as [Hs Hc].
    destruct (written_meanwhile _ _ _ _ _ _ _ _ Hw Hs Ht (list_elem_of_fmap_2 addr _ _ Hn)) as [Hf1 Hf2].
    destruct Hc as [Hc|Hc]; [|by apply Hf2]. right. by rewrite Hf1, Er. }
  unfold Coordinator.get. change (config (with_monitor self h)) with (config self).
  rewrite Heq in *. destruct (max_retries (config self)) as [|k]; [done|].
  destruct (get_nodes_cluster key k _ Hv' pool2 w2) as [s2 Hs].
  rewrite (head_omap_prefix _ value) in Hs by done.
  exists s2. destruct (pre ++ survivor :: post) eqn:E; [by destruct pre|]. by rewrite_run Hs.
Qed.

(** Further: service is restored: after enough ticks, in a cluster where some nodes cannot
    be reached, a write of any key is decided by the first of its rf + 2 candidates that
    can be reached: it is acknowledged if that node is not joining (and the coordinator
    attempts calls at all), and fails if it is; when none can be reached the write is
    refused without contacting any node. *)
Theorem service_restored (clock : nat → nat → Z) (self : ReplicationCoordinator)
    (all : list (NodeId * string)) (k : nat) (pool : ClientPool.NodeClientPool) (w : Cluster.World) :
  1 ≤ replication_factor (config self) →
  NoDup all.*1 → Forall (λ node, valid_addr node.2) all →
  (∀ n, n ∈ HashRing.nodes (hash_ring self) → (id n, addr n) ∈ all) →
  monitor_ok (health_monitor self) →
  Z.max 2 (failure_threshold (health_monitor self)) ≤ Z.of_nat k →
  ∃ pool1 h, ticks clock w all k (pool, health_monitor self) = Returns (pool1, h) ∧
    ∀ key value ttl_ms, (∀ ms, ttl_ms = Some ms → time w + from_millis ms < instant_limit) →
      ∃ s, Coordinator.set (with_monitor self h) key value ttl_ms (pool1, w) =
        Returns (write_answer w self key, s) ∧
        (List.find (λ n, answers w (id n, addr n)) (candidates self key) = None → s = (pool1, w)).
Proof.
  intros Hrf Hnd Hv Hall Hok Hk.
  destruct (detected clock w all k pool _ Hnd Hv Hok Hk) as (pool1 & h & Hr & _ & Hd & _).
  exists pool1, h. split; [exact Hr|]. intros key value ttl_ms Httl. apply write_answered; [done|..|done].
  - apply Forall_forall. intros n Hn%Hall. exact (proj1 (Forall_forall _ _) Hv _ Hn).
  - intros n Hn. apply (Hd (id n, addr n)), Hall. by eapply HashRing.preference_list_nodes.
Qed.

(** C6: nothing repairs the replicas of a dead node: once the nodes a write was acknowledged
    by have crashed, at once or one after the other with any time between, and the checker
    has noticed, the router answers reads again as long as one of the candidates of the
    key is up; and the answer is that the key does not exist, however many of the other
    nodes are up, whatever their tasks have done in the meantime, and whatever the ring
    of the router has become, as long as its nodes are probed, at valid addresses: no task
    of a running node copies a key.  Set apart are candidates that started anew, whose
    rebalance does copy, and those that held another live copy before.  (The README
    promises that node failures lose no data.) *)
Theorem replicas_not_repaired (clock : nat → nat → Z) (self self' : ReplicationCoordinator)
    (all : list (NodeId * string)) (k : nat) (key : string) (value : list ascii) (ttl_ms : option Z)
    (pool pool1 pool2 : ClientPool.NodeClientPool) (w w1 w2 : Cluster.World) (r : SetResponse)
    (started : string → Prop) :
  1 ≤ replication_factor (config self) → 1 ≤ replication_factor (config self') →
  NoDup all.*1 → Forall (λ node, valid_addr node.2) all →
  Forall (λ n, valid_addr (addr n)) (HashRing.nodes (hash_ring self)) →
  (∀ n, n ∈ HashRing.nodes (hash_ring self') → (id n, addr n) ∈ all) →
  Coordinator.set self key value ttl_ms (pool, w) = Returns (inr r, (pool1, w1)) →
  rtc (meanwhile key started) w1 w2 →
  (∀ n, n ∈ alive_preference_list self key → reachable w2 (addr n) = false) →
  (∀ n, n ∈ candidates self' key → reachable w2 (addr n) = true →
     ¬ started (addr n) ∧ no_copy key w (time w2) (addr n)) →
  monitor_ok (health_monitor self') →
  Z.max 2 (failure_threshold (health_monitor self')) ≤ Z.of_nat k →
  existsb (λ n, answers w2 (id n, addr n)) (candidates self' key) = true →
  ∃ pool3 h s, ticks clock w2 all k (pool2, health_monitor self') = Returns (pool3, h) ∧
    alive_preference_list (with_monitor self' h) key ≠ [] ∧
    Coordinator.get (with_monitor self' h) key (pool3, w2) = Returns (inr (mkGetResponse None false), s).
Proof.
  intros Hrf Hrf' Hnd Hv Hvr Hall Hset Hw Hdown Helse Hok Hk Hup.
  apply set_acknowledged in Hset as [_ ->]; [|by apply alive_list_valid].
  assert (Forall (λ n, valid_addr (addr n)) (HashRing.nodes (hash_ring self'))) as Hvr'.
  { apply Forall_forall. intros n Hn%Hall. exact (proj1 (Forall_forall _ _) Hv _ Hn). }
  destruct (detected clock w2 all k pool2 _ Hnd Hv Hok Hk) as (pool3 & h & Hr & _ & Hd & _).
  pose proof (alive_list_valid (with_monitor self' h) key Hrf' Hvr') as Hvl.
  pose proof (alive_list_filter (with_monitor self' h) key Hrf') as Hl.
  change (candidates (with_monitor self' h) key) with (candidates self' key) in Hl.
  cbn [health_monitor with_monitor config] in Hl.
  assert (alive_preference_list (with_monitor self' h) key ≠ []) as Hne.
  { rewrite Hl. apply existsb_exists in Hup as (n & Hn%list_elem_of_In & Ha).
    apply (take_filter_nonempty _ n); [lia|done|]. refine (eq_trans (Hd (id n, addr n) _) Ha).
    apply Hall. by eapply HashRing.preference_list_nodes. }
  assert (∀ n, n ∈ alive_preference_list (with_monitor self' h) key → found key w2 (addr n) = None) as Hnone.
  { intros n Hn. rewrite Hl in Hn. apply elem_of_take in Hn as (j & Hn & _).
    apply list_elem_of_lookup_2, elem_of_filterb in Hn as [_ Hn].
    destruct (reachable w2 (addr n)) eqn:Er; [|unfold found, answering; by rewrite Er].
    destruct (Helse n Hn Er) as [Hs Hc]. rewrite (found_meanwhile _ _ _ _ _ Hs Hw), Er, apply_sets_lookup.
    rewrite decide_False; [|intros (m & Hm & Hin)%list_elem_of_fmap; by rewrite Hm, Hdown in Er].
    destruct (nodes_at w !! addr n) as [nd|] eqn:E; [|done]. by apply (no_copy_get key w _ (addr n)). }
  exists pool3, h. unfold Coordinator.get. change (config (with_monitor self' h)) with (config self').
  destruct (max_retries (config self')) as [|a].
  - eexists. split; [exact Hr|]. split; [done|].
    destruct (alive_preference_list (with_monitor self' h) key) as [|n l] eqn:E; [done|].
    rewrite get_nodes_no_attempts. reflexivity.
  - destruct (get_nodes_cluster key a _ Hvl pool3 w2) as [s Hs]. rewrite omap_nothing in Hs by done.
    exists s. split; [exact Hr|]. split; [done|].
    destruct (alive_preference_list (with_monitor self' h) key) as [|n l] eqn:E; [done|]. by rewrite_run Hs.
Qed.
End properties.


(** ** Witnesses *)

Section witnesses.
#[local] Existing Instance Examples.string_uuid.
#[local] Existing Instance Examples.poly_xxh3.
#[local] Existing Instance ex_uri.
#[local] Existing Instance Cluster.cluster_network.
Import NodeService Coordinator Cluster HealthMonitor Failover.

Definition ex_checked : list (NodeId * string) := [(id ex_n1, addr ex_n1); (id ex_n2, addr ex_n2)].
Lemma ex_checked_distinct : NoDup ex_checked.*1.
Proof. apply (bool_decide_unpack _). vm_compute. exact I. Qed.
Lemma ex_checked_valid : Forall (λ node, valid_addr node.2) ex_checked.
Proof. repeat constructor. Qed.
Lemma ex_monitor_ok : monitor_ok HealthMonitor.new.
Proof. split; [by compute|done]. Qed.

(** Three ticks against a cluster whose second node does not answer. *)
Definition ex_clock (tick probe : nat) : Z := 0.
Lemma detection_witness : ∃ pool' h', ticks ex_clock ex_cut ex_checked 3 (ex_pool, HealthMonitor.new) =
  Returns (pool', h') ∧ is_alive (id ex_n1) h' = true ∧ is_alive (id ex_n2) h' = false.
Proof.
  destruct (detection ex_clock ex_cut ex_checked 3 ex_pool HealthMonitor.new ex_checked_distinct
    ex_checked_valid ex_monitor_ok ltac:(by compute)) as (pool' & h' & Hr & _ & Hin & _).
  pose proof (Hin (id ex_n1, addr ex_n1) ltac:(left)) as H1.
  pose proof (Hin (id ex_n2, addr ex_n2) ltac:(right; left)) as H2. cbn [fst] in H1, H2.
  exists pool', h'. split; [exact Hr|]. rewrite H1, H2. vm_compute. split; reflexivity.
Defined.

(** The first node of the list crashes after the write, and the router has noticed. *)
Definition ex_noticed : HealthMonitor :=
  let fail := record_failure 0 (id ex_n1) in fail (fail (fail HealthMonitor.new)).
Definition ex_reach (a : string) : bool := bool_decide (a = "h2:1"%string).

(** Five milliseconds later, with another network. *)
Definition ex_meanwhile (w : Cluster.World) (reach : string → bool) : Cluster.World :=
  mkWorld (nodes_at w) reach (time w + 5).
Lemma ex_meanwhile_rtc key started w reach : rtc (meanwhile key started) w (ex_meanwhile w reach).
Proof.
  eapply rtc_l; [by apply (meanwhile_time _ _ _ 5)|]. apply rtc_once.
  apply (meanwhile_network _ _ (mkWorld (nodes_at w) (reachable w) (time w + 5))).
Qed.

Lemma crash_tolerance_witness : ∃ s2,
  Coordinator.get (with_monitor (ex_coordinator 2 1) ex_noticed) "k"
    (ex_pool, ex_meanwhile ex_after.2 ex_reach) =
  Returns (inr (mkGetResponse (Some (as_bytes "v")) true), s2).
Proof.
  apply (crash_tolerance (ex_coordinator 2 1) "k" (as_bytes "v") None ex_pool ex_after.1 ex_pool ex_world
    ex_after.2 _ (mkSetResponse true) ex_noticed (λ a, a = "h1:1"%string) ex_n2).
  - by compute.
  - repeat constructor.
  - exact ex_after_eq.
  - apply ex_meanwhile_rtc.
  - intros ms. discriminate.
  - intros n _ Hn%bool_decide_eq_true. rewrite Hn. split; [discriminate|].
    left. apply (bool_decide_unpack _). vm_compute. exact I.
  - done.
  - rewrite ex_list_eq by reflexivity. right. left.
  - reflexivity.
  - apply (bool_decide_unpack _). vm_compute. exact I.
  - vm_compute. reflexivity.
Defined.

Lemma service_restored_witness : ∃ pool1 h s,
  ticks ex_clock ex_cut ex_checked 3 (ex_pool, HealthMonitor.new) = Returns (pool1, h) ∧
  Coordinator.set (with_monitor (ex_coordinator 2 1) h) "k" (as_bytes "v") None (pool1, ex_cut) =
    Returns (inr (mkSetResponse true), s).
Proof.
  destruct (service_restored ex_clock (ex_coordinator 2 1) ex_checked 3 ex_pool ex_cut)
    as (pool1 & h & Hr & Hw).
  - by compute.
  - exact ex_checked_distinct.
  - exact ex_checked_valid.
  - intros n Hn. cbn in Hn. apply elem_of_cons in Hn as [->|Hn]; [left|].
    apply list_elem_of_singleton in Hn as ->. right. left.
  - exact ex_monitor_ok.
  - by compute.
  - destruct (Hw "k"%string (as_bytes "v") None ltac:(intros ms; discriminate)) as (s & Hs & _).
    assert (write_answer ex_cut (ex_coordinator 2 1) "k" = inr (mkSetResponse true))
      as E by (vm_compute; reflexivity).
    rewrite E in Hs. exists pool1, h, s. split; [exact Hr|exact Hs].
Defined.

(** One replica, which crashes; the other node is up. *)
Definition ex_single : outcome ((string + SetResponse) * Coordinator.State) :=
  Coordinator.set (ex_coordinator 1 1) "k" (as_bytes "v") None (ex_pool, ex_world).
Lemma ex_single_eq : ex_single =
  Returns (inr (mkSetResponse true), ((state_of ex_single).1, (state_of ex_single).2)).
Proof. apply answered_eq. vm_compute. reflexivity. Qed.
Lemma ex_single_list : alive_preference_list (ex_coordinator 1 1) "k" = [ex_n1].
Proof. vm_compute. reflexivity. Qed.

Lemma replicas_not_repaired_witness : ∃ pool3 h s,
  ticks ex_clock (ex_meanwhile (state_of ex_single).2 ex_reach) ex_checked 3
    ((state_of ex_single).1, HealthMonitor.new) = Returns (pool3, h) ∧
  alive_preference_list (with_monitor (ex_coordinator 1 1) h) "k" ≠ [] ∧
  Coordinator.get (with_monitor (ex_coordinator 1 1) h) "k"
    (pool3, ex_meanwhile (state_of ex_single).2 ex_reach) = Returns (inr (mkGetResponse None false), s).
Proof.
  apply (replicas_not_repaired ex_clock (ex_coordinator 1 1) (ex_coordinator 1 1) ex_checked 3 "k"
    (as_bytes "v") None ex_pool (state_of ex_single).1 (state_of ex_single).1 ex_world (state_of ex_single).2
    _ (mkSetResponse true) (λ _, False)).
  - by compute.
  - by compute.
  - exact ex_checked_distinct.
  - exact ex_checked_valid.
  - repeat constructor.
  - intros n Hn. cbn in Hn. apply elem_of_cons in Hn as [->|Hn]; [left|].
    apply list_elem_of_singleton in Hn as ->. right. left.
  - exact ex_single_eq.
  - apply ex_meanwhile_rtc.
  - rewrite ex_single_list. intros n ->%list_elem_of_singleton. vm_compute. reflexivity.
  - intros n Hn _. split; [tauto|]. intros nd e Hnd He.
    assert (∀ m, m = ex_n1 ∨ m = ex_n2 →
      option_map (λ nd, CacheStore.data (store nd) !! "k"%string) (nodes_at ex_world !! addr m) = Some None)
      as Hempty by (intros m [-> | ->]; vm_compute; reflexivity).
    apply HashRing.preference_list_nodes in Hn. cbn in Hn. rewrite elem_of_cons, list_elem_of_singleton in Hn.
    specialize (Hempty n Hn). rewrite Hnd in Hempty. cbn in Hempty. by rewrite He in Hempty.
  - exact ex_monitor_ok.
  - by compute.
  - vm_compute. reflexivity.
Defined.
End witnesses.
