(* ===== verification/RouterMain.v ===== *)
(** * The start of the router

    Models [crates/router/src/main.rs]: what the configuration becomes (the ring, the
    nodes the health checker probes, the seeds of the gossip client), how the services
    share it, and how the start can fail.  Parsing the command line and the file,
    listening and spawning are the runtime's. *)

From S2P Require Import Prelude Machine Text Common Ring Gossip NodeService Rebalance.
From S2P Require Import Health Coordinator RouterGossip Router Replicated Failover.
Local Open Scope Z_scope.
Local Open Scope outcome_scope.

Module RouterMain.
Import NodeService.

Section router_main.
Context `{UuidLib} `{Xxh3}.

(** The arguments the start computes with. *)
Record Args := mkArgs { arg_replication_factor : Z; arg_max_retries : nat }.
Definition default_args : Args := mkArgs 3 1.

(** What the tasks of the router are started with.  The ring and the health monitor
    are shared: [view] is what they hold, and the checker and the gossip client
    change it. *)
Record Service := mkService {
  view : RouterGossip.View;
  node_addrs : list (NodeId * string);
  seed_addrs : list string;
  replication_config : Coordinator.ReplicationConfig;
}.

Definition start (config : RouterGossip.ClusterConfig) (args : Args) : outcome Service :=
  let! members := RouterGossip.to_node_infos config in
  let! v := RouterGossip.start config in
  let node_addrs := (λ n, (id n, addr n)) <$> members in
  Returns (mkService v node_addrs (snd <$> node_addrs)
    (Coordinator.mkReplicationConfig (arg_replication_factor args) (arg_max_retries args))).

(** What a request is served with: the ring and the monitor as they are. *)
Definition coordinator_of (s : Service) : Coordinator.ReplicationCoordinator :=
  Coordinator.mkReplicationCoordinator (RouterGossip.hash_ring (view s)) (replication_config s)
    (RouterGossip.health_monitor (view s)).
Definition router_of (s : Service) : Router.Router :=
  Router.mkRouter (RouterGossip.hash_ring (view s)) (coordinator_of s).

(** The service once the health checker and the gossip client have changed what the ring
    and the monitor hold. *)
Definition with_view (s : Service) (v : RouterGossip.View) : Service :=
  mkService v (node_addrs s) (seed_addrs s) (replication_config s).
Definition checked (s : Service) (h : HealthMonitor.HealthMonitor) : Service :=
  with_view s (RouterGossip.mkView (RouterGossip.hash_ring (view s)) h).

(** *** What changes the view

    A report that names no node but the configured ones, each at its configured address
    when it says that it is Alive; and a tick of the checker, whatever the network. *)
Definition about_members (members : list NodeInfo) (m : Gossip.ProtoMemberEntry) : Prop :=
  match RouterGossip.named m with
  | Some (i, Gossip.P_Alive) => mkNodeInfo i (Gossip.m_addr m) ∈ members
  | _ => True
  end.
Inductive view_change `{ClientPool.UriLib} (members : list NodeInfo) (v : RouterGossip.View)
    : RouterGossip.View → Prop :=
  | change_report now m : about_members members m →
      view_change members v (RouterGossip.observe now v m)
  | change_tick clock w pool pool' h :
      Failover.tick clock w ((λ n, (id n, addr n)) <$> members) (pool, RouterGossip.health_monitor v) =
        Returns (pool', h) →
      view_change members v (RouterGossip.mkView (RouterGossip.hash_ring v) h).

(** *** [main] *)

(** [ClusterConfig::load]: the file, or why it cannot be read; [from_str] is
    [serde_json]'s parser. *)
Definition load (from_str : string → string + RouterGossip.ClusterConfig) (content : string + string)
    : string + RouterGossip.ClusterConfig :=
  match content with inl e => inl e | inr text => from_str text end.

(** What [main] starts its tasks with, if it gets there, and what it returns, if it does:
    [listen] is the listen address or why it does not parse, [served] what the server
    ends with, if it ends. *)
Definition main (from_str : string → string + RouterGossip.ClusterConfig) (content : string + string)
    (args : Args) (listen : string + string) (served : option (string + unit))
    : outcome (option Service * option (string + unit)) :=
  match load from_str content with
  | inl e => Returns (None, Some (inl e))
  | inr config =>
      let! s := start config args in
      match listen with
      | inl e => Returns (Some s, Some (inl e))
      | inr _ => Returns (Some s, served)
      end
  end.
End router_main.
End RouterMain.

(** ** Lemmas *)

Section lemmas.
Context `{UuidLib} `{Xxh3} `{ClientPool.UriLib}.
Import NodeService RouterMain Failover.

Lemma start_spec config args members : RouterGossip.to_node_infos config = Returns members →
  start config args = Returns (mkService
    (RouterGossip.mkView (foldl HashRing.add_node HashRing.new members) HealthMonitor.new)
    ((λ n, (id n, addr n)) <$> members) (addr <$> members)
    (Coordinator.mkReplicationConfig (arg_replication_factor args) (arg_max_retries args))).
Proof.
  intros Hm. unfold start, RouterGossip.start. rewrite Hm. cbn [outcome_bind].
  by rewrite <- list_fmap_compose.
Qed.

(** The identifiers of the file are all parsed or the router panics. *)
Lemma node_infos_spec entries :
  if existsb (λ n, bool_decide (NodeId_parse (RouterGossip.cfg_id n) = None)) entries
  then RouterGossip.node_infos entries = Panics "invalid UUID in config"
  else ∃ members, RouterGossip.node_infos entries = Returns members ∧
    addr <$> members = RouterGossip.cfg_addr <$> entries ∧
    Forall2 (λ n m, NodeId_parse (RouterGossip.cfg_id n) = Some (id m)) entries members.
Proof.
  induction entries as [|n entries IH]; [by exists []|]. cbn [existsb RouterGossip.node_infos].
  destruct (NodeId_parse (RouterGossip.cfg_id n)) as [i|] eqn:Hi; [|done].
  rewrite bool_decide_eq_false_2 by done. cbn [orb].
  destruct (existsb _ entries); [by rewrite IH|]. destruct IH as (members & -> & Ha & Hf).
  eexists. split; [reflexivity|]. rewrite !fmap_cons, Ha. split; [done|]. by constructor.
Qed.

Lemma new_monitor_ok : monitor_ok HealthMonitor.new.
Proof. split; [by compute|done]. Qed.

(** The service answers a write as the coordinator does. *)
Lemma served_set `{Network} `{RouterServiceImpl.TonicDisplay} req s h st r st' :
  Coordinator.set (with_monitor (coordinator_of s) h) (set_key req) (set_value req) (set_ttl_ms req) st =
    Returns (r, st') →
  RouterServiceImpl.set req (router_of (checked s h)) st =
    Returns (match r with
             | inr a => inr a
             | inl msg => inl (Internal ("router set failed: " +:+ msg))
             end, st').
Proof.
  intros Hset. unfold RouterServiceImpl.set, Router.set.
  rewrite bool_decide_eq_false_2, service_of_coordinator by by intros [? ?].
  change (Router.coordinator (router_of (checked s h))) with (with_monitor (coordinator_of s) h).
  rewrite Hset. by destruct r.
Qed.

(** What the checker and the gossip keep true of the monitor. *)
Definition sound_monitor (h : HealthMonitor.HealthMonitor) : Prop :=
  monitor_ok h ∧ HealthMonitor.failure_threshold h = 3.

Lemma mark_alive_sound now i h : sound_monitor h → sound_monitor (HealthMonitor.mark_alive now i h).
Proof.
  intros [[HT Hv] H3]. split; [|done]. split; [done|]. intros j. rewrite verdict_mark_alive. by case_decide.
Qed.

Lemma mark_joining_sound now i h : sound_monitor h → sound_monitor (HealthMonitor.mark_joining now i h).
Proof.
  intros [[HT Hv] H3]. split; [|done]. split; [done|]. intros j. specialize (Hv j).
  unfold verdict, HealthMonitor.mark_joining, HealthMonitor.put in *. cbn [HealthMonitor.nodes].
  destruct (decide (j = i)) as [->|Hj]; [by rewrite lookup_insert_eq|by rewrite lookup_insert_ne].
Qed.

Lemma record_failure_sound now i h :
  sound_monitor h → sound_monitor (HealthMonitor.record_failure now i h).
Proof.
  intros [[HT Hv] H3]. split; [|done]. split; [done|]. intros j. rewrite verdict_record_failure.
  case_decide; [by apply fail_spec|done].
Qed.

Lemma reported_sound now i st h : sound_monitor h → sound_monitor (RouterGossip.reported now i st h).
Proof.
  intros Hh. destruct st; cbn.
  - by apply mark_alive_sound.
  - by apply record_failure_sound.
  - by do 3 apply record_failure_sound.
  - by apply mark_joining_sound.
Qed.

Lemma new_monitor_sound : sound_monitor HealthMonitor.new.
Proof. split; [apply new_monitor_ok|done]. Qed.

(** The nodes of the ring are configured ones, and the monitor is sound, whatever has
    been reported and probed. *)
Lemma observe_members now v m members : about_members members m →
  (∀ n, n ∈ HashRing.nodes (RouterGossip.hash_ring v) → n ∈ members) →
  ∀ n, n ∈ HashRing.nodes (RouterGossip.hash_ring (RouterGossip.observe now v m)) → n ∈ members.
Proof.
  unfold about_members, RouterGossip.named, RouterGossip.observe.
  destruct (NodeId_parse (Gossip.m_node_id m)) as [i|]; [|done].
  destruct (Gossip.proto_status_try_from (Gossip.m_status m)) as [st|]; [|done].
  cbn [mbind option_bind]. intros Hm Hv. destruct st; cbn [RouterGossip.hash_ring]; [|done| |done].
  - destruct (HashRing.contains_node (RouterGossip.hash_ring v) i); [done|].
    intros n [Hn| ->%list_elem_of_singleton]%elem_of_app; [by apply Hv|done].
  - destruct (HashRing.contains_node (RouterGossip.hash_ring v) i); [|done].
    intros n [_ Hn]%HashRing.elem_of_remove_node_nodes. by apply Hv.
Qed.

Lemma view_changes members v v' : NoDup (id <$> members) → Forall (λ n, valid_addr (addr n)) members →
  rtc (view_change members) v v' →
  (∀ n, n ∈ HashRing.nodes (RouterGossip.hash_ring v) → n ∈ members) →
  sound_monitor (RouterGossip.health_monitor v) →
  (∀ n, n ∈ HashRing.nodes (RouterGossip.hash_ring v') → n ∈ members) ∧
  sound_monitor (RouterGossip.health_monitor v').
Proof.
  intros Hnd Hv. induction 1 as [|v v1 v' Hs _ IH]; intros Hin Hok; [done|].
  destruct Hs as [now m Hm|clock w pool pool' h Ht]; apply IH.
  - by apply observe_members.
  - destruct (RouterGossip.named m) as [[i st]|] eqn:E; [|by rewrite observe_unnamed].
    rewrite (proj1 (observe_named now v m i st E)). by apply reported_sound.
  - done.
  - destruct Hok as [Hok H3].
    destruct (ticks_verdicts (λ _, clock) w ((λ n, (id n, addr n)) <$> members) 1) with (pool := pool)
      (h := RouterGossip.health_monitor v) as (pool1 & h1 & Hr & HT & Hok1 & _);
      [by rewrite <- list_fmap_compose|by apply Forall_fmap|done|].
    cbn [ticks] in Hr. rewrite Ht in Hr. injection Hr as _ ->. split; [done|]. cbn. by rewrite HT.
Qed.
End lemmas.

(** ** Properties *)

Section properties.
Context `{UuidLib} `{Xxh3} `{ClientPool.UriLib} `{RouterServiceImpl.TonicDisplay}
  `{HashIter}.
Import NodeService Coordinator Cluster RouterMain Failover.
#[local] Existing Instance cluster_network.


(** C35: what a started router watches: its ring holds the configured nodes, in the order
    of the file, and the health checker probes and the gossip client asks these and no
    others.  So a node that joins later, once gossip has put it in the ring, is never
    probed: whatever becomes of it, no number of ticks takes it out of the routing. *)
Theorem late_joiner_unwatched (config : RouterGossip.ClusterConfig) (args : Args)
    (members : list NodeInfo) (s : Service) (now : Z) (m : Gossip.ProtoMemberEntry) (j : NodeId) :
  RouterGossip.to_node_infos config = Returns members → NoDup (id <$> members) →
  Forall (λ n, valid_addr (addr n)) members → start config args = Returns s →
  RouterGossip.named m = Some (j, Gossip.P_Alive) → j ∉ id <$> members →
  let v := RouterGossip.observe now (view s) m in
  HashRing.nodes (RouterGossip.hash_ring (view s)) = members ∧
  (node_addrs s).*1 = id <$> members ∧ seed_addrs s = addr <$> members ∧
  HashRing.contains_node (RouterGossip.hash_ring v) j = true ∧
  ∀ clock w k pool, ∃ pool' h,
    ticks clock w (node_addrs s) k (pool, RouterGossip.health_monitor v) = Returns (pool', h) ∧
    HealthMonitor.is_alive j h = true.
Proof.
  intros Hm Hnd Hv Hs Hj Hout v. rewrite (start_spec _ _ _ Hm) in Hs. injection Hs as <-.
  cbn [view node_addrs seed_addrs RouterGossip.hash_ring] in *.
  destruct (observe_named now (RouterGossip.mkView (foldl HashRing.add_node HashRing.new members)
    HealthMonitor.new) m j _ Hj) as [Hh Hring]. fold v in Hh, Hring.
  assert (((λ n, (id n, addr n)) <$> members).*1 = id <$> members) as Hids
    by by rewrite <- list_fmap_compose.
  split; [by rewrite foldl_add_node_nodes|]. split; [exact Hids|]. split; [done|].
  split; [by rewrite Hring, decide_True|]. intros clock w k pool.
  destruct (ticks_verdicts clock w ((λ n, (id n, addr n)) <$> members) k) with
    (pool := pool) (h := RouterGossip.health_monitor v) as (pool' & h & Hr & _ & _ & Hsame & _).
  - by rewrite Hids.
  - by apply Forall_fmap.
  - rewrite Hh. apply mark_alive_sound, new_monitor_sound.
  - exists pool', h. split; [exact Hr|]. rewrite is_alive_verdict, Hsame by by rewrite Hids.
    rewrite Hh. cbn [RouterGossip.reported HealthMonitor.apply_events foldl HealthMonitor.apply_event].
    by rewrite verdict_mark_alive, decide_True.
Qed.

(** Further: how a router starts or fails to: a file that cannot be read or parsed ends it with
    that error and nothing started; one malformed identifier anywhere in the file makes
    it panic, with nothing started; otherwise the tasks are started with all the
    addresses of the file, and a listen address that does not parse is an error only
    then, when they are already probing and gossiping. *)
Theorem router_main_outcomes (from_str : string → string + RouterGossip.ClusterConfig)
    (content : string + string) (args : Args) (listen : string + string) (served : option (string + unit)) :
  match load from_str content with
  | inl e => main from_str content args listen served = Returns (None, Some (inl e))
  | inr config =>
      if existsb (λ n, bool_decide (NodeId_parse (RouterGossip.cfg_id n) = None))
           (RouterGossip.cfg_nodes config)
      then main from_str content args listen served = Panics "invalid UUID in config"
      else ∃ s, start config args = Returns s ∧
        seed_addrs s = RouterGossip.cfg_addr <$> RouterGossip.cfg_nodes config ∧
        Forall2 (λ n ia, NodeId_parse (RouterGossip.cfg_id n) = Some ia.1 ∧ RouterGossip.cfg_addr n = ia.2)
          (RouterGossip.cfg_nodes config) (node_addrs s) ∧
        main from_str content args listen served =
          Returns (Some s, match listen with inl e => Some (inl e) | inr _ => served end)
  end.
Proof.
  unfold main. destruct (load from_str content) as [e|config]; [done|].
  pose proof (node_infos_spec (RouterGossip.cfg_nodes config)) as Hn.
  destruct (existsb _ _); [by unfold start, RouterGossip.to_node_infos; rewrite Hn|].
  destruct Hn as (members & Hm & Ha & Hf). rewrite (start_spec _ _ _ Hm). cbn [outcome_bind].
  eexists. split; [reflexivity|]. cbn [seed_addrs node_addrs]. split; [done|]. split.
  - clear Hm. revert members Ha Hf. induction (RouterGossip.cfg_nodes config) as [|n l IH]; intros members Ha Hf;
      inversion Hf; subst; [constructor|]. rewrite !fmap_cons in *. injection Ha as Ha1 Ha2.
    constructor; [done|by apply IH].
  - by destruct listen.
Qed.
End properties.

(** ** Witnesses *)

Section witnesses.
#[local] Existing Instance Examples.string_uuid.
#[local] Existing Instance Examples.poly_xxh3.
#[local] Existing Instance Examples.sorted_iter.
#[local] Existing Instance ex_uri.
#[local] Existing Instance ex_display.
#[local] Existing Instance Cluster.cluster_network.
Import NodeService RouterMain Failover.

Definition ex_service : Service :=
  mkService ex_view [(ex_id "n1", "h1:1"%string); (ex_id "n2", "h2:1"%string)]
    ["h1:1"%string; "h2:1"%string] (Coordinator.mkReplicationConfig 3 1).
Lemma ex_started : start ex_config default_args = Returns ex_service.
Proof. reflexivity. Qed.
Lemma ex_members_distinct : NoDup (id <$> ex_members).
Proof. apply (bool_decide_unpack _). vm_compute. exact I. Qed.
Lemma ex_members_valid : Forall (λ n, valid_addr (addr n)) ex_members.
Proof. repeat constructor. Qed.


Lemma late_joiner_unwatched_witness : ∃ pool' h,
  ticks ex_clock ex_cut (node_addrs ex_service) 9
    (ClientPool.new, RouterGossip.health_monitor
       (RouterGossip.observe 5 (view ex_service) (ex_report "n3" 0))) = Returns (pool', h) ∧
  HealthMonitor.is_alive (ex_id "n3") h = true.
Proof.
  apply (late_joiner_unwatched ex_config default_args ex_members ex_service 5 (ex_report "n3" 0)
    (ex_id "n3")).
  - reflexivity.
  - exact ex_members_distinct.
  - exact ex_members_valid.
  - exact ex_started.
  - reflexivity.
  - intros Hin. apply (bool_decide_pack _) in Hin. vm_compute in Hin. exact Hin.
Defined.
End witnesses.
