(* ===== verification/Float64.v ===== *)
(** * Floating-point numbers

    [f64] is IEEE binary64 in the standard library's specification ([spec_float]
    with 53 bits and exponents below 1024), rounded to the nearest, ties to even;
    and [format!("{:.k}", x)]: the decimal with [k] digits after the point nearest to
    the exact value, ties to even.  The lemmas bound the error of a rounding, which
    decides how comparisons of percentages come out ([percent_above_15],
    [percent_below_25]). *)

From Stdlib Require Import Floats.SpecFloat.
From S2P Require Import Prelude Machine Text.
Local Open Scope Z_scope.

Module Float64.
Definition f64 : Type := spec_float.
Definition prec : Z := 53.
Definition emax : Z := 1024.

Definition add : f64 → f64 → f64 := SFadd prec emax.
Definition sub : f64 → f64 → f64 := SFsub prec emax.
Definition mul : f64 → f64 → f64 := SFmul prec emax.
Definition div : f64 → f64 → f64 := SFdiv prec emax.

(** [0.0] *)
Definition zero : f64 := S754_zero false.

(** [n as f64] for an unsigned integer *)
Definition as_f64 (n : Z) : f64 := binary_normalize prec emax n 0 false.

(** [a < b] *)
Definition ltb : f64 → f64 → bool := SFltb.

(** [(n as f64) / (total as f64) * 100.0] *)
Definition percentage (n total : Z) : f64 := mul (div (as_f64 n) (as_f64 total)) (as_f64 100).

(** [Duration::as_secs_f64] *)
Definition as_secs_f64 (d : Duration) : f64 :=
  add (as_f64 (as_secs d)) (div (as_f64 (d mod nanos_per_sec)) (as_f64 nanos_per_sec)).

(** [num / den] to the nearest integer, ties to even. *)
Definition nearest_even (num den : Z) : Z :=
  let q := num / den in
  let r := num mod den in
  match 2 * r ?= den with
  | Lt => q
  | Eq => if Z.even q then q else q + 1
  | Gt => q + 1
  end.

(** [n / 10^k] with [k] digits after the point. *)
Definition fixed (k : nat) (n : Z) : bytes :=
  let scale := 10 ^ Z.of_nat k in
  let frac := int_to_string (n mod scale) in
  int_to_string (n / scale) ++
  match k with
  | O => []
  | _ => "."%char :: replicate (k - length frac) "0"%char ++ frac
  end.

(** [format!("{:.k}", x)] *)
Definition format_fixed (k : nat) (x : f64) : string :=
  let sign s := if s : bool then ["-"%char] else [] in
  of_bytes
    match x with
    | S754_nan => as_bytes "NaN"
    | S754_infinity s => sign s ++ as_bytes "inf"
    | S754_zero s => sign s ++ fixed k 0
    | S754_finite s m e =>
        sign s ++ fixed k (nearest_even (Z.pos m * 10 ^ Z.of_nat k * 2 ^ Z.max 0 e) (2 ^ Z.max 0 (- e)))
    end.
End Float64.

(** ** Lemmas *)

Section lemmas.
Import Float64.

Lemma digits_iter_xO m k : digits2_pos (Pos.iter xO m k) = (digits2_pos m + k)%positive.
Proof.
  induction k as [|k IH] using Pos.peano_ind; cbn [Pos.iter]; [by rewrite Pos.add_1_r|].
  rewrite Pos.iter_succ. cbn [digits2_pos]. by rewrite IH, Pos.add_succ_r.
Qed.

(** A mantissa of 53 bits needs no rounding. *)
Lemma round_aux_exact m e : Zpos (digits2_pos m) = prec → - 1074 ≤ e ≤ 971 →
  binary_round_aux prec emax false (Zpos m) e loc_Exact = S754_finite false m e.
Proof.
  intros Hd He. unfold binary_round_aux, shr_fexp, Zdigits2. cbn [shr_record_of_loc].
  assert (fexp prec emax (Zpos (digits2_pos m) + e) - e = 0) as Hs.
  { rewrite Hd. unfold fexp, emin, prec, emax. lia. }
  rewrite Hs. cbn [shr shr_m loc_of_shr_record round_nearest_even].
  rewrite Hs. cbn [shr shr_m shr_record_of_loc].
  rewrite (proj2 (Z.leb_le _ _)); [done|unfold prec, emax; lia].
Qed.

Lemma digits_le m k : Zpos m < 2 ^ Zpos k → Zpos (digits2_pos m) ≤ Zpos k.
Proof.
  revert k. induction m as [m IH|m IH|]; intros k Hm; cbn [digits2_pos]; [| |lia].
  all: destruct (decide (k = 1%positive)) as [->|Hk]; [lia|].
  all: specialize (IH (Pos.pred k)); rewrite Pos2Z.inj_succ, Pos2Z.inj_pred in * by done;
    assert (2 ^ Zpos k = 2 * 2 ^ Z.pred (Zpos k)) by (rewrite <- Z.pow_succ_r by lia; f_equal; lia); lia.
Qed.

Lemma div_self m e : div (S754_finite false m e) (S754_finite false m e) =
  binary_round_aux prec emax false (2 ^ 53) (-53) loc_Exact.
Proof.
  unfold div, SFdiv, SFdiv_core_binary. rewrite !Z.sub_diag.
  change (Z.min (fexp prec emax 0) 0) with (-53). change (0 - -53) with 53.
  cbv beta iota zeta. rewrite Z.shiftl_mul_pow2 by lia.
  assert (Z.div_eucl (Zpos m * 2 ^ 53) (Zpos m) = (2 ^ 53, 0)) as ->.
  { pose proof (Z.div_mul (2 ^ 53) (Zpos m) ltac:(lia)) as Hq.
    pose proof (Z.mod_mul (2 ^ 53) (Zpos m) ltac:(lia)) as Hr.
    unfold Z.div, Z.modulo in *. rewrite (Z.mul_comm (Zpos m)).
    destruct (Z.div_eucl _ _). by subst. }
  unfold new_location. by destruct (Z.even _).
Qed.

(** *** The error of a rounding *)

Lemma shr_1_half r : 0 ≤ shr_m r → shr_m (shr_1 r) = shr_m r / 2 ∧ 0 ≤ shr_m (shr_1 r).
Proof.
  destruct r as [[|[p|p|]|p] b s]; cbn [shr_1 shr_m]; intros Hm; [done| | |done|lia].
  - rewrite (Pos2Z.inj_xI p), Z.mul_comm, Z.div_add_l by lia. split; [|lia]. change (1 / 2) with 0. lia.
  - rewrite (Pos2Z.inj_xO p), Z.mul_comm, Z.div_mul by lia. split; [done|lia].
Qed.

Lemma shr_iter n : ∀ r, 0 ≤ shr_m r →
  shr_m (SpecFloat.iter_pos shr_1 n r) = shr_m r / 2 ^ Zpos n ∧ 0 ≤ shr_m (SpecFloat.iter_pos shr_1 n r).
Proof.
  induction n as [n IH|n IH|]; intros r Hr; cbn [SpecFloat.iter_pos].
  - destruct (shr_1_half r Hr) as [H1 P1]. destruct (IH _ P1) as [H2 P2]. destruct (IH _ P2) as [H3 P3].
    split; [|done]. rewrite H3, H2, H1, !Z.div_div by lia. f_equal.
    rewrite (Pos2Z.inj_xI n), Z.pow_add_r, Z.mul_comm, (Z.mul_comm 2), Z.pow_mul_r by lia. nia.
  - destruct (IH _ Hr) as [H2 P2]. destruct (IH _ P2) as [H3 P3].
    split; [|done]. rewrite H3, H2, !Z.div_div by lia. f_equal.
    rewrite (Pos2Z.inj_xO n), (Z.mul_comm 2), Z.pow_mul_r by lia. nia.
  - by apply shr_1_half.
Qed.

Lemma digits_bounds m : 2 ^ (Zpos (digits2_pos m) - 1) ≤ Zpos m < 2 ^ Zpos (digits2_pos m).
Proof.
  induction m as [m IH|m IH|]; cbn [digits2_pos]; [| |done].
  all: rewrite Pos2Z.inj_succ.
  all: replace (Z.succ (Zpos (digits2_pos m)) - 1) with (Z.succ (Zpos (digits2_pos m) - 1)) by lia.
  all: rewrite !Z.pow_succ_r by lia; lia.
Qed.

Lemma digits_unique m d : 0 < d → 2 ^ (d - 1) ≤ Zpos m < 2 ^ d → Zpos (digits2_pos m) = d.
Proof.
  intros Hd [H1 H2]. pose proof (digits_bounds m) as [H3 H4].
  assert (d - 1 < Zpos (digits2_pos m)) by (apply (Z.pow_lt_mono_r_iff 2); [lia|lia|eapply Z.le_lt_trans; eauto]).
  assert (Zpos (digits2_pos m) - 1 < d) by (apply (Z.pow_lt_mono_r_iff 2); [lia|lia|eapply Z.le_lt_trans; eauto]). lia.
Qed.

(** A float of 53 digits. *)
Definition normal (x : f64) (m e : Z) : Prop :=
  2 ^ 52 ≤ m < 2 ^ 53 ∧ x = S754_finite false (Z.to_pos m) e.

Lemma round_nearest_near m l : round_nearest_even m l = m ∨ round_nearest_even m l = m + 1.
Proof. destruct l as [|[| |]]; cbn; auto. destruct (Z.even m); auto. Qed.


Lemma shr_div r e s : 0 ≤ shr_m r → 0 ≤ s → ∃ r', shr r e s = (r', e + s) ∧ shr_m r' = shr_m r / 2 ^ s.
Proof.
  intros Hr Hs. destruct s as [|p|p]; [| |lia].
  - exists r. rewrite Z.add_0_r, Z.div_1_r. done.
  - exists (SpecFloat.iter_pos shr_1 p r). split; [done|by apply shr_iter].
Qed.

Lemma shr_fexp_div m e l d : 53 ≤ d → 2 ^ (d - 1) ≤ m < 2 ^ d → - 500 ≤ e →
  ∃ r, shr_fexp prec emax m e l = (r, e + (d - 53)) ∧ shr_m r = m / 2 ^ (d - 53).
Proof.
  intros Hd Hm He. assert (0 < m) by (pose proof (Z.pow_pos_nonneg 2 (d - 1)); lia).
  destruct m as [|p|p]; [lia| |lia]. unfold shr_fexp. cbn [Zdigits2].
  rewrite (digits_unique p d) by (done || lia).
  replace (fexp prec emax (d + e) - e) with (d - 53) by (unfold fexp, emin, prec, emax; lia).
  destruct (shr_div (shr_record_of_loc (Zpos p) l) e (d - 53)) as (r & -> & Hr); [|lia|].
  - by destruct l as [|[| |]].
  - exists r. split; [done|]. rewrite Hr. by destruct l as [|[| |]].
Qed.

(** Rounding a mantissa of [d] digits changes it by at most [2^(d-53)]. *)
Lemma round_aux_normal m e l d : 53 ≤ d ≤ 120 → 2 ^ (d - 1) ≤ m < 2 ^ d → - 500 ≤ e ≤ 500 →
  ∃ m' k, normal (binary_round_aux prec emax false m e l) m' (e + k) ∧
    d - 53 ≤ k ≤ d - 52 ∧ m - 2 ^ (d - 53) ≤ m' * 2 ^ k ≤ m + 2 ^ (d - 53).
Proof.
  intros Hd Hm He. unfold binary_round_aux, normal.
  destruct (shr_fexp_div m e l d) as (r & -> & Hr); [lia..|].
  set (w := 2 ^ (d - 53)) in *. set (q := m / w) in *.
  assert (0 < w) by (apply Z.pow_pos_nonneg; lia).
  assert (2 ^ (d - 1) = 2 ^ 52 * w) as Hlo by (unfold w; rewrite <- Z.pow_add_r by lia; f_equal; lia).
  assert (2 ^ d = 2 ^ 53 * w) as Hhi by (unfold w; rewrite <- Z.pow_add_r by lia; f_equal; lia).
  pose proof (Z.div_mod m w ltac:(lia)) as Hdm. pose proof (Z.mod_pos_bound m w ltac:(lia)). fold q in Hdm.
  assert (2 ^ 52 ≤ q < 2 ^ 53) as Hq by (split; [apply Z.div_le_lower_bound|apply Z.div_lt_upper_bound]; lia).
  rewrite Hr. set (m1 := round_nearest_even q _).
  assert (q ≤ m1 ≤ q + 1) as Hm1 by (pose proof (round_nearest_near q (loc_of_shr_record r)); lia).
  clearbody m1. destruct (Z.lt_ge_cases m1 (2 ^ 53)) as [Hlt|Hge].
  - destruct (shr_fexp_div m1 (e + (d - 53)) loc_Exact 53) as (r' & -> & Hr'); [lia..|].
    rewrite Hr', Z.div_1_r. destruct m1 as [|p|p]; [lia| |lia].
    rewrite (proj2 (Z.leb_le _ _)) by (unfold prec, emax; lia).
    exists (Zpos p), (d - 53). split; [|split; [lia|]]; [|fold w; nia].
    split; [lia|]. f_equal; lia.
  - assert (m1 = 2 ^ 53) as -> by lia.
    destruct (shr_fexp_div (2 ^ 53) (e + (d - 53)) loc_Exact 54) as (r' & -> & Hr'); [lia..|].
    rewrite Hr'. change (2 ^ 53 / 2 ^ (54 - 53)) with (2 ^ 52). cbv iota.
    exists (2 ^ 52), (d - 52). split; [|split; [lia|]].
    + split; [lia|]. change (2 ^ 52) with (Zpos 4503599627370496). cbv iota.
      rewrite (proj2 (Z.leb_le _ _)) by (unfold prec, emax; lia). f_equal; lia.
    + replace (d - 52) with (Z.succ (d - 53)) by lia. rewrite Z.pow_succ_r by lia. fold w. nia.
Qed.

Lemma double_iter p q : Zpos (Pos.iter xO p q) = Zpos p * 2 ^ Zpos q.
Proof.
  induction q as [|q IH] using Pos.peano_ind; cbn [Pos.iter]; [lia|].
  rewrite Pos.iter_succ, Pos2Z.inj_xO, IH, Pos2Z.inj_succ, Z.pow_succ_r by lia. lia.
Qed.

(** An integer below [2^53] is represented exactly. *)
Lemma as_f64_normal n d : 0 < d ≤ 53 → 2 ^ (d - 1) ≤ n < 2 ^ d →
  normal (as_f64 n) (n * 2 ^ (53 - d)) (d - 53).
Proof.
  intros Hd Hn. assert (0 < n) by (pose proof (Z.pow_pos_nonneg 2 (d - 1)); lia).
  destruct n as [|p|p]; [lia| |lia].
  assert (Zpos (digits2_pos p) = d) as Hp by (apply digits_unique; lia).
  split.
  { assert (2 ^ 52 = 2 ^ (d - 1) * 2 ^ (53 - d)) as ->
      by (rewrite <- Z.pow_add_r by lia; f_equal; lia).
    assert (2 ^ 53 = 2 ^ d * 2 ^ (53 - d)) as -> by (rewrite <- Z.pow_add_r by lia; f_equal; lia).
    pose proof (Z.pow_pos_nonneg 2 (53 - d)). nia. }
  unfold as_f64, binary_normalize, binary_round, shl_align. rewrite Hp.
  assert (fexp prec emax (d + 0) = d - 53) as -> by (unfold fexp, emin, prec, emax; lia).
  rewrite Z.sub_0_r. destruct (d - 53) as [|q|q] eqn:Hq; [|lia|].
  - rewrite round_aux_exact by (unfold prec; lia). f_equal. replace (53 - d) with 0 by lia. lia.
  - replace (53 - d) with (Zpos q) by lia. rewrite <- double_iter. cbn [Z.to_pos].
    apply round_aux_exact; [|lia]. rewrite digits_iter_xO. unfold prec. lia.
Qed.

Lemma as_f64_finite n : 0 < n < 2 ^ 53 → ∃ m e, as_f64 n = S754_finite false m e.
Proof.
  intros [Hn Hlt]. destruct n as [|p|p]; [lia| |lia]. apply digits_le in Hlt as Hd.
  destruct (as_f64_normal (Zpos p) (Zpos (digits2_pos p))) as [_ ->]; [lia|apply digits_bounds|eauto].
Qed.

Lemma normal_digits m : 2 ^ 52 ≤ m < 2 ^ 53 → Zpos (digits2_pos (Z.to_pos m)) = 53.
Proof. intros Hm. apply digits_unique; lia. Qed.

Lemma mul_normal x y m1 e1 m2 e2 : normal x m1 e1 → normal y m2 e2 →
  - 200 ≤ e1 ≤ 200 → - 200 ≤ e2 ≤ 200 →
  ∃ m k, normal (mul x y) m (e1 + e2 + k) ∧ 52 ≤ k ≤ 54 ∧
    m1 * m2 - 2 ^ 53 ≤ m * 2 ^ k ≤ m1 * m2 + 2 ^ 53.
Proof.
  intros [Hm1 ->] [Hm2 ->] He1 He2. unfold mul, SFmul. cbn [xorb].
  rewrite Pos2Z.inj_mul, !Z2Pos.id by lia.
  assert (2 ^ 104 ≤ m1 * m2 < 2 ^ 106) as Hp by nia.
  destruct (Z.lt_ge_cases (m1 * m2) (2 ^ 105)) as [Hlt|Hge].
  - destruct (round_aux_normal (m1 * m2) (e1 + e2) loc_Exact 105) as (m & k & Hn & Hk & Hb); [lia..|].
    exists m, k. split; [done|lia].
  - destruct (round_aux_normal (m1 * m2) (e1 + e2) loc_Exact 106) as (m & k & Hn & Hk & Hb); [lia..|].
    exists m, k. split; [done|lia].
Qed.

Lemma div_normal x y m1 e1 m2 e2 : normal x m1 e1 → normal y m2 e2 →
  - 200 ≤ e1 ≤ 200 → - 200 ≤ e2 ≤ 200 →
  ∃ m k, normal (div x y) m (e1 - e2 - 53 + k) ∧ 0 ≤ k ≤ 2 ∧
    m1 * 2 ^ 53 - 3 * m2 ≤ m * 2 ^ k * m2 ≤ m1 * 2 ^ 53 + 3 * m2.
Proof.
  intros [Hm1 ->] [Hm2 ->] He1 He2. unfold div, SFdiv, SFdiv_core_binary. cbn [Zdigits2].
  rewrite !normal_digits, !Z2Pos.id by lia.
  replace (Z.min (fexp prec emax (53 + e1 - (53 + e2))) (e1 - e2)) with (e1 - e2 - 53)
    by (unfold fexp, emin, prec, emax; lia).
  replace (e1 - e2 - (e1 - e2 - 53)) with 53 by lia. cbv iota.
  rewrite Z.shiftl_mul_pow2 by lia.
  pose proof (Z_div_mod (m1 * 2 ^ 53) m2 ltac:(lia)) as Hq. destruct (Z.div_eucl _ _) as [q r].
  destruct Hq as [Hq Hr]. cbn [xorb].
  assert (2 ^ 52 ≤ q < 2 ^ 54) as Hb by nia.
  destruct (Z.lt_ge_cases q (2 ^ 53)) as [Hlt|Hge].
  - destruct (round_aux_normal q (e1 - e2 - 53) (new_location m2 r) 53) as (m & k & Hn & Hk & Hd); [lia..|].
    exists m, k. split; [done|]. nia.
  - destruct (round_aux_normal q (e1 - e2 - 53) (new_location m2 r) 54) as (m & k & Hn & Hk & Hd); [lia..|].
    exists m, k. split; [done|]. nia.
Qed.

(** Normal floats are ordered like their values. *)
Lemma ltb_normal x y m1 e1 m2 e2 K : normal x m1 e1 → normal y m2 e2 →
  0 ≤ e1 + K → 0 ≤ e2 + K →
  SFltb x y = (m1 * 2 ^ (e1 + K) <? m2 * 2 ^ (e2 + K)).
Proof.
  intros [Hm1 ->] [Hm2 ->] He1 He2. unfold SFltb, SFcompare.
  assert (∀ e e', 0 ≤ e → e < e' → 2 * 2 ^ e ≤ 2 ^ e' ∧ 0 < 2 ^ e) as Hmono.
  { intros e e' He Hlt. rewrite <- Z.pow_succ_r by done. split; [|by apply Z.pow_pos_nonneg].
    apply Z.pow_le_mono_r; lia. }
  destruct (Z.compare_spec e1 e2) as [->|Hlt|Hgt].
  - change (Pos.compare_cont Eq) with Pos.compare. pose proof (Z.pow_pos_nonneg 2 (e2 + K)).
    destruct (Pos.compare_spec (Z.to_pos m1) (Z.to_pos m2)), (Z.ltb_spec (m1 * 2 ^ (e2 + K)) (m2 * 2 ^ (e2 + K)));
      try done; nia.
  - destruct (Hmono (e1 + K) (e2 + K)); [lia..|]. symmetry. apply Z.ltb_lt. nia.
  - destruct (Hmono (e2 + K) (e1 + K)); [lia..|]. symmetry. apply Z.ltb_ge. nia.
Qed.

(** Percentages of a hundred thousand are within a two-thousandth of a per cent. *)
Lemma percent_normal c : 0 < c ≤ 100000 →
  ∃ m e, normal (percentage c 100000) m e ∧ - 200 ≤ e ∧
    c * 2 ^ 200 - 2 ^ 199 < 1000 * (m * 2 ^ (e + 200)) < c * 2 ^ 200 + 2 ^ 199.
Proof.
  intros Hc. destruct c as [|p|p]; [lia| |lia]. pose proof (digits_bounds p) as Hp.
  pose proof (digits_le p 17 ltac:(lia)) as Hd. set (d := Zpos (digits2_pos p)) in *.
  assert (1 ≤ d) by (unfold d; lia). set (c := Zpos p) in *. clearbody c d.
  pose proof (as_f64_normal c d ltac:(lia) Hp) as Hx.
  pose proof (as_f64_normal 100000 17 ltac:(lia) ltac:(lia)) as Hy.
  pose proof (as_f64_normal 100 7 ltac:(lia) ltac:(lia)) as Hz.
  destruct (div_normal _ _ _ _ _ _ Hx Hy) as (m1 & k1 & Hq & Hk1 & Hb1); [lia..|].
  destruct (mul_normal _ _ _ _ _ _ Hq Hz) as (m2 & k2 & Hr & Hk2 & Hb2); [lia..|].
  exists m2, (d - 53 - (17 - 53) - 53 + k1 + (7 - 53) + k2). split; [exact Hr|]. split; [lia|].
  replace (d - 53 - (17 - 53) - 53 + k1 + (7 - 53) + k2 + 200) with (k2 + (k1 + (d + 84))) by lia.
  rewrite !Z.pow_add_r by lia.
  assert (2 ^ (53 - d) * (2 ^ d * 2 ^ 84) = 2 ^ 137) as HD
    by (rewrite <- !Z.pow_add_r by lia; f_equal; lia).
  assert (0 < 2 ^ d ≤ 2 ^ 17) by (split; [apply Z.pow_pos_nonneg|apply Z.pow_le_mono_r]; lia).
  assert (0 < 2 ^ k1 ≤ 2 ^ 2) by (split; [apply Z.pow_pos_nonneg|apply Z.pow_le_mono_r]; lia).
  change (2 ^ (53 - 7)) with (2 ^ 46) in *. change (2 ^ (53 - 17)) with (2 ^ 36) in *.
  set (D := 2 ^ d * 2 ^ 84) in *. assert (0 < D ≤ 2 ^ 101) by (unfold D; lia).
  assert (0 < 2 ^ k1 * D ≤ 2 ^ 2 * D) as HW by nia. destruct HW as [HW0 HW].
  destruct Hb2 as [Hl2 Hu2], Hb1 as [Hl1 Hu1].
  apply (Z.mul_le_mono_nonneg_r _ _ (2 ^ k1 * D)) in Hl2, Hu2; [|lia..].
  apply (Z.mul_le_mono_nonneg_r _ _ D) in Hl1, Hu1; [|lia..].
  rewrite Z.mul_sub_distr_r in Hl1. rewrite Z.mul_add_distr_r in Hu1.
  replace (c * 2 ^ (53 - d) * 2 ^ 53 * D) with (c * 2 ^ 190) in *.
  2:{ change (2 ^ 190) with (2 ^ 137 * 2 ^ 53). rewrite <- HD. ring. }
  lia.
Qed.

Lemma percent_compare c p : 0 ≤ c ≤ 100000 → 1 ≤ p ≤ 100 → c ≠ 1000 * p →
  ltb (percentage c 100000) (as_f64 p) = (c <? 1000 * p) ∧
  ltb (as_f64 p) (percentage c 100000) = (1000 * p <? c).
Proof.
  intros Hc Hp Hne. destruct p as [|q|q]; [lia| |lia]. pose proof (digits_bounds q) as Hq.
  pose proof (digits_le q 7 ltac:(lia)) as Hd. set (d := Zpos (digits2_pos q)) in *.
  pose proof (as_f64_normal (Zpos q) d ltac:(lia) Hq) as Hx.
  destruct (decide (c = 0)) as [->|Hc0].
  { rewrite (proj2 (Z.ltb_lt _ _)), (proj2 (Z.ltb_ge _ _)) by lia. destruct Hx as [_ ->]. by vm_compute. }
  destruct (percent_normal c) as (m & e & Hn & He & Hb); [lia|].
  unfold ltb. rewrite (ltb_normal _ _ _ _ _ _ 200 Hn Hx), (ltb_normal _ _ _ _ _ _ 200 Hx Hn) by lia.
  replace (Zpos q * 2 ^ (53 - d) * 2 ^ (d - 53 + 200)) with (Zpos q * 2 ^ 200)
    by (rewrite <- Z.mul_assoc, <- Z.pow_add_r by lia; do 2 f_equal; lia).
  split; lia.
Qed.

Lemma percent_above_15 c : 0 ≤ c ≤ 100000 →
  ltb (as_f64 15) (percentage c 100000) = (15000 <? c).
Proof.
  intros Hc. destruct (decide (c = 15000)) as [->|Hne]; [by vm_compute|].
  by apply (percent_compare c 15).
Qed.

Lemma percent_below_25 c : 0 ≤ c ≤ 100000 →
  ltb (percentage c 100000) (as_f64 25) = (c <? 25000).
Proof.
  intros Hc. destruct (decide (c = 25000)) as [->|Hne]; [by vm_compute|].
  by apply (percent_compare c 25).
Qed.
(** [n as f64 / n as f64 * 100.0] and [0 as f64 / n as f64 * 100.0] *)
Lemma all_of_them n : 0 < n < 2 ^ 53 → mul (div (as_f64 n) (as_f64 n)) (as_f64 100) = as_f64 100.
Proof. intros (m & e & ->)%as_f64_finite. rewrite div_self. by vm_compute. Qed.
Lemma none_of_them n : 0 < n < 2 ^ 53 → mul (div (as_f64 0) (as_f64 n)) (as_f64 100) = zero.
Proof. intros (m & e & ->)%as_f64_finite. by vm_compute. Qed.
End lemmas.

(** ** Examples *)

Section examples.
Import Float64.

Example format_third : format_fixed 2 (mul (div (as_f64 1) (as_f64 3)) (as_f64 100)) = "33.33"%string.
Proof. by vm_compute. Qed.
Example format_tie : format_fixed 0 (div (as_f64 5) (as_f64 2)) = "2"%string ∧
  format_fixed 1 (as_secs_f64 1250000000) = "1.2"%string.
Proof. by vm_compute. Qed.
Example format_nan : format_fixed 0 (div (as_f64 0) (as_f64 0)) = "NaN"%string.
Proof. by vm_compute. Qed.
Example format_small : format_fixed 2 (div (as_f64 1) (as_f64 100)) = "0.01"%string.
Proof. by vm_compute. Qed.
End examples.
