(* ===== verification/Demo.v ===== *)
(** * The load tool

    Models [tools/demo/src/main.rs]: the metrics its workers share, the requests
    they draw, their loops and the totals of the report.  The draws of the random
    generator, the clock and what the network answers are arguments. *)

From Stdlib Require Import Sorting.Sorted.
From stdpp Require Import sorting.
From S2P Require Import Prelude Machine Text Common Store Parser Encoder RespServer NodeService.
Local Open Scope Z_scope.
Local Open Scope outcome_scope.

Module Demo.
Import Parser.

(** *** Metrics: three atomic counters and a vector behind a mutex *)

Record LoadMetrics := mkLoadMetrics {
  total_ops : Z;
  successful_ops : Z;
  failed_ops : Z;
  latencies_us : list Z;
}.

Definition new : LoadMetrics := mkLoadMetrics 0 0 0 [].

(** The atomic steps on the metrics. *)
Inductive event := IncTotal | IncSuccessful | IncFailed | PushLatency (latency_us : Z).

Definition apply_event (m : LoadMetrics) (e : event) : LoadMetrics :=
  match e with
  | IncTotal => mkLoadMetrics (u64_add (total_ops m) 1) (successful_ops m) (failed_ops m) (latencies_us m)
  | IncSuccessful => mkLoadMetrics (total_ops m) (u64_add (successful_ops m) 1) (failed_ops m) (latencies_us m)
  | IncFailed => mkLoadMetrics (total_ops m) (successful_ops m) (u64_add (failed_ops m) 1) (latencies_us m)
  | PushLatency l => mkLoadMetrics (total_ops m) (successful_ops m) (failed_ops m) (latencies_us m ++ [l])
  end.

(** What each method does, step by step. *)
Definition record_success (_latency_us : Z) : list event := [IncTotal; IncSuccessful].
Definition record_failure : list event := [IncTotal; IncFailed].
Definition record_latency (latency_us : Z) : list event := [PushLatency latency_us].

(** [latencies[i]] *)
Definition index (l : list Z) (i : Z) : outcome Z :=
  match l !! Z.to_nat i with
  | Some x => Returns x
  | None => Panics "index out of bounds"
  end.

(** [sort_unstable] of integers is the sorted vector. *)
Definition compute_percentiles (m : LoadMetrics) : outcome ((Z * Z * Z) * LoadMetrics) :=
  match latencies_us m with
  | [] => Returns ((0, 0, 0), m)
  | latencies =>
      let sorted := merge_sort Z.le latencies in
      let len := Z.of_nat (length sorted) in
      let! p50 := index sorted (as_u64 (len * 50) / 100) in
      let! p99 := index sorted (as_u64 (len * 99) / 100) in
      match last sorted with
      | Some max => Returns ((p50, p99, max),
                             mkLoadMetrics (total_ops m) (successful_ops m) (failed_ops m) sorted)
      | None => Panics "called `Option::unwrap()` on a `None` value"
      end
  end.

Definition summary (m : LoadMetrics) : Z * Z * Z := (total_ops m, successful_ops m, failed_ops m).

(** *** What a worker draws *)

Record Draw := mkDraw { key_index : Z; op_type : Z; value_u64 : Z }.

Definition display (prefix : string) (n : Z) : string := prefix +:+ of_bytes (int_to_string n).

(** [rng.gen_range(0..key_space)] panics on an empty range. *)
Definition draw_key (key_space : Z) (d : Draw) : outcome string :=
  if key_space <=? 0 then Panics "cannot sample empty range"
  else Returns (display "key_" (key_index d)).

Inductive Request :=
  | Set_ (req : NodeService.SetRequest)
  | Get_ (req : NodeService.GetRequest)
  | Delete_ (req : NodeService.DeleteRequest).

(** The request of one iteration of [grpc_worker]. *)
Definition grpc_request (key_space : Z) (d : Draw) : outcome Request :=
  let! key := draw_key key_space d in
  Returns
    (if op_type d <? 50 then
       Set_ (NodeService.mkSetRequest key (as_bytes (display "value_" (value_u64 d))) (Some 60000))
     else if op_type d <? 90 then Get_ (NodeService.mkGetRequest key)
     else Delete_ (NodeService.mkDeleteRequest key)).

(** The bytes of one iteration of [resp_worker]. *)
Definition resp_command (key_space : Z) (d : Draw) : outcome bytes :=
  let! key := draw_key key_space d in
  let len s := int_to_string (buf_len (as_bytes s)) in
  Returns
    (if op_type d <? 50 then
       let value := display "value_" (value_u64 d) in
       as_bytes "*3" ++ CRLF ++ as_bytes "$3" ++ CRLF ++ as_bytes "SET" ++ CRLF ++
       as_bytes "$" ++ len key ++ CRLF ++ as_bytes key ++ CRLF ++
       as_bytes "$" ++ len value ++ CRLF ++ as_bytes value ++ CRLF
     else if op_type d <? 90 then
       as_bytes "*2" ++ CRLF ++ as_bytes "$3" ++ CRLF ++ as_bytes "GET" ++ CRLF ++
       as_bytes "$" ++ len key ++ CRLF ++ as_bytes key ++ CRLF
     else
       as_bytes "*2" ++ CRLF ++ as_bytes "$3" ++ CRLF ++ as_bytes "DEL" ++ CRLF ++
       as_bytes "$" ++ len key ++ CRLF ++ as_bytes key ++ CRLF).

(** *** The loops *)

(** Recording the result of one operation. *)
Definition record (ok : bool) (latency_us : Z) : list event :=
  if ok then record_success latency_us ++ record_latency latency_us else record_failure.

(** What the socket does with one command: the write, then one read. *)
Inductive Io := WriteFails | ReadFails | ReadReturns (n : Z).
Definition io_ok (io : Io) : bool :=
  match io with WriteFails | ReadFails => false | ReadReturns _ => true end.

(** An iteration: the time since the start when it is considered, its draw, what
    comes of it and how long that takes. *)
Record Iteration (R : Type) := mkIteration {
  elapsed : Duration; draw : Draw; result : R; latency : Z }.
Arguments mkIteration {R}. Arguments elapsed {R}. Arguments draw {R}.
Arguments result {R}. Arguments latency {R}.

(** [while start.elapsed() < duration]: the bytes written, and the steps on the
    metrics.  A panic of the worker leaves the steps it had made. *)
Fixpoint resp_loop (key_space : Z) (duration : Duration) (its : list (Iteration Io))
    : outcome (list bytes) * list event :=
  match its with
  | [] => (Returns [], [])
  | it :: its' =>
      if elapsed it <? duration then
        match resp_command key_space (draw it) with
        | Returns cmd =>
            let '(cmds, es) := resp_loop key_space duration its' in
            (outcome_map (cons cmd) cmds, record (io_ok (result it)) (latency it) ++ es)
        | Panics msg => (Panics msg, [])
        | OutOfFuel => (OutOfFuel, [])
        end
      else (Returns [], [])
  end.

Fixpoint grpc_loop (key_space : Z) (duration : Duration) (its : list (Iteration bool))
    : outcome (list Request) * list event :=
  match its with
  | [] => (Returns [], [])
  | it :: its' =>
      if elapsed it <? duration then
        match grpc_request key_space (draw it) with
        | Returns req =>
            let '(reqs, es) := grpc_loop key_space duration its' in
            (outcome_map (cons req) reqs, record (result it) (latency it) ++ es)
        | Panics msg => (Panics msg, [])
        | OutOfFuel => (OutOfFuel, [])
        end
      else (Returns [], [])
  end.

(** [resp_worker], [grpc_worker]: without a connection, nothing is recorded. *)
Definition resp_worker (connects : bool) (key_space : Z) (duration : Duration)
    (its : list (Iteration Io)) : list event :=
  if connects then (resp_loop key_space duration its).2 else [].
Definition grpc_worker (uri_ok connects : bool) (key_space : Z) (duration : Duration)
    (its : list (Iteration bool)) : list event :=
  if uri_ok && connects then (grpc_loop key_space duration its).2 else [].

(** *** The report *)

Definition grpc_workers (workers : Z) : Z := workers / 2.
Definition resp_workers (workers : Z) : Z := workers - grpc_workers workers.

(** The totals of both kinds of workers. *)
Definition totals (grpc_metrics resp_metrics : LoadMetrics) : Z * Z * Z :=
  let '(grpc_total, grpc_success, grpc_failed) := summary grpc_metrics in
  let '(resp_total, resp_success, resp_failed) := summary resp_metrics in
  (u64_add grpc_total resp_total, u64_add grpc_success resp_success,
   u64_add grpc_failed resp_failed).

(** [duration_secs / rounds as u64] *)
Definition chaos_interval (duration_secs rounds : Z) : outcome Z :=
  if rounds =? 0 then Panics "attempt to divide by zero" else Returns (duration_secs / rounds).

(** The exit status of [demo run]. *)
Definition exit_code (grpc_metrics resp_metrics : LoadMetrics) : Z :=
  if 0 <? (totals grpc_metrics resp_metrics).2 then 1 else 0.

(** ** Specifications *)

(** What an iteration of [resp_worker] asks of a node's store, and the answer. *)
Definition intended (now : Instant) (d : Draw) (st : CacheStore.CacheStore)
    : bytes * CacheStore.CacheStore :=
  let key := display "key_" (key_index d) in
  if op_type d <? 50 then
    (Encoder.encode_simple_string "OK",
     CacheStore.with_data st (<[key := CacheStore.mkCacheEntry
       (as_bytes (display "value_" (value_u64 d))) None]> (CacheStore.data st)))
  else if op_type d <? 90 then
    match CacheStore.get now key st with
    | (Some v, st') => (Encoder.encode_bulk_string v, st')
    | (None, st') => (Encoder.encode_null, st')
    end
  else
    let '(deleted, st') := CacheStore.delete key st in
    (Encoder.encode_integer (if deleted then 1 else 0), st').

Fixpoint serve (env : RespServer.Env) (k : nat) (ds : list Draw) (st : CacheStore.CacheStore)
    : list bytes * CacheStore.CacheStore :=
  match ds with
  | [] => ([], st)
  | d :: ds' =>
      let '(response, st1) := intended (RespServer.clock env k 0%nat) d (RespServer.others env k st) in
      let '(responses, st2) := serve env (S k) ds' st1 in
      (response :: responses, st2)
  end.

(** The draws of the iterations that are run. *)
Fixpoint drawn {R} (duration : Duration) (its : list (Iteration R)) : list Draw :=
  match its with
  | [] => []
  | it :: its' => if elapsed it <? duration then draw it :: drawn duration its' else []
  end.

Definition draw_ok (key_space : Z) (d : Draw) : Prop :=
  0 ≤ key_index d < key_space ∧ 0 ≤ op_type d < 100 ∧ is_u64 (value_u64 d).

(** The operations a worker has performed: whether each succeeded, and its latency. *)
Fixpoint performed {R} (ok : R → bool) (duration : Duration) (its : list (Iteration R))
    : list (bool * Z) :=
  match its with
  | [] => []
  | it :: its' =>
      if elapsed it <? duration then (ok (result it), latency it) :: performed ok duration its' else []
  end.

Definition steps_of (ops : list (bool * Z)) : list event := concat ((λ o, record o.1 o.2) <$> ops).

(** How many elements are at most, and at least, [x]. *)
Definition count_le (l : list Z) (x : Z) : Z := Z.of_nat (length (List.filter (λ y, y <=? x) l)).
Definition count_ge (l : list Z) (x : Z) : Z := Z.of_nat (length (List.filter (λ y, x <=? y) l)).

(** The number of events of a kind. *)
Definition count (p : event → bool) (es : list event) : Z := Z.of_nat (length (List.filter p es)).
Definition is_total (e : event) : bool := match e with IncTotal => true | _ => false end.
Definition is_successful (e : event) : bool := match e with IncSuccessful => true | _ => false end.
Definition is_failed (e : event) : bool := match e with IncFailed => true | _ => false end.
Definition pushed (e : event) : option Z := match e with PushLatency l => Some l | _ => None end.
End Demo.

(** ** Lemmas: the commands on the wire *)

Section wire.
Context `{UnicodeUpper} `{RespLayout}.
Import Parser Encoder RespServer Demo.

(** The values the bytes of a command stand for. *)
Definition command_of (d : Draw) : list string :=
  if op_type d <? 50 then ["SET"; display "key_" (key_index d); display "value_" (value_u64 d)]%string
  else if op_type d <? 90 then ["GET"; display "key_" (key_index d)]%string
  else ["DEL"; display "key_" (key_index d)]%string.

Lemma encode_command parts : encode_item (command parts) =
  as_bytes "*" ++ int_to_string (Z.of_nat (length parts)) ++ CRLF ++
  concat ((λ s, encode_bulk_string (as_bytes s)) <$> parts).
Proof.
  unfold command. rewrite encode_item_Array. unfold encode_array. rewrite length_fmap.
  cbn [as_bytes String.list_ascii_of_string app]. do 3 f_equal.
  induction parts as [|p parts IH]; [done|]. rewrite !fmap_cons. cbn [concat]. by f_equal.
Qed.

Lemma resp_command_encodes key_space d : 0 ≤ key_index d < key_space →
  resp_command key_space d = Returns (encode_item (command (command_of d))).
Proof.
  intros Hk. unfold resp_command, draw_key. rewrite (proj2 (Z.leb_gt _ _)) by lia.
  cbn [outcome_bind]. f_equal. rewrite encode_command. unfold command_of.
  destruct (op_type d <? 50); [|destruct (op_type d <? 90)]; rewrite ?fmap_cons;
    cbn [length concat fmap list_fmap]; unfold encode_bulk_string;
    cbn [as_bytes String.list_ascii_of_string app]; rewrite ?app_nil_r;
    repeat (rewrite <- app_assoc; cbn [app]); reflexivity.
Qed.

Lemma push_digits_length fuel : ∀ n acc,
  (length (push_digits fuel n acc) ≤ fuel + length acc)%nat.
Proof.
  induction fuel as [|f IH]; intros n acc; simpl; [lia|]. destruct (n <? 10); simpl; [lia|].
  etransitivity; [apply IH|]. simpl. lia.
Qed.

Lemma display_length prefix n : is_u64 n →
  buf_len (as_bytes (display prefix n)) ≤ buf_len (as_bytes prefix) + 65.
Proof.
  intros Hn. unfold display. rewrite as_bytes_app, as_bytes_of_bytes, buf_len_app.
  unfold int_to_string. unfold is_u64 in Hn. rewrite (proj2 (Z.ltb_ge _ _)) by lia.
  unfold nat_digits, buf_len. pose proof (push_digits_length (S (Z.to_nat (Z.log2 n))) n []).
  simpl length in *. pose proof (Z.log2_nonneg n).
  pose proof (Z.log2_le_mono n u64_max ltac:(lia)) as Hl. change (Z.log2 u64_max) with 63 in Hl. lia.
Qed.

Lemma display_utf8 prefix n : Forall (λ c, is_ascii c = true) (as_bytes prefix) →
  from_utf8 (as_bytes (display prefix n)) = inr (display prefix n).
Proof.
  intros Hp. unfold display. rewrite <- (of_bytes_as_bytes (prefix +:+ _)) at 2.
  apply from_utf8_ascii. rewrite as_bytes_app, as_bytes_of_bytes. apply Forall_app. split; [done|].
  eapply Forall_impl; [apply int_to_string_numeral|]. apply is_numeral_ascii.
Qed.

Lemma command_wire key_space d : 3 * size_of_RespValue ≤ isize_max → key_space ≤ u64_max →
  draw_ok key_space d → wire_value (command (command_of d)).
Proof.
  intros Hsize Hks (Hk & _ & Hv). pose proof size_of_RespValue_ge.
  assert (∀ p n, is_u64 n → buf_len (as_bytes p) ≤ 10 →
    wire_value (BulkString (as_bytes (display p n)))) as Hd.
  { intros p n Hn Hp. pose proof (display_length p n Hn). simpl. machine_unfold. lia. }
  assert (is_u64 (key_index d)) as Hki by (unfold is_u64; lia).
  unfold command. apply wire_Array. unfold command_of.
  destruct (op_type d <? 50); [|destruct (op_type d <? 90)]; rewrite ?fmap_cons;
    cbn [length fmap list_fmap]; (split; [nia|]); repeat constructor;
    try (by apply Hd); by vm_compute.
Qed.

Lemma framed_encoded vs : Forall wire_value vs → framed (concat (encode_item <$> vs)) vs [].
Proof.
  induction 1 as [|v vs Hv _ IH]; [apply framed_empty|]. rewrite fmap_cons. cbn [concat].
  eapply framed_value; [apply parse_encoded; [done|rewrite length_app; lia]|].
  unfold buf_len. rewrite Nat2Z.id. by rewrite drop_app_length.
Qed.

(** A node does what the command is meant to. *)
Lemma handle_intended (clk : nat → Z) d st :
  handle_command clk (command (command_of d)) st = Returns (intended (clk 0%nat) d st).
Proof.
  assert (∀ n, extract_str (BulkString (as_bytes (display "key_" n))) = Some (display "key_" n)) as Hkey.
  { intros n. unfold extract_str. by rewrite display_utf8 by by repeat constructor. }
  unfold command, command_of, intended.
  destruct (op_type d <? 50); [|destruct (op_type d <? 90)]; rewrite !fmap_cons;
    cbn [fmap list_fmap].
  - rewrite (handle_named clk _ "SET") by by vm_compute. cbn [dispatch].
    unfold dispatch. cbn [String.eqb Ascii.eqb Bool.eqb]. unfold cmd_set. rewrite Hkey.
    cbn [extract_bytes set_options]. unfold CacheStore.set. by cbn [CacheStore.expiry_of outcome_bind].
  - rewrite (handle_named clk _ "GET") by by vm_compute.
    unfold dispatch. cbn [String.eqb Ascii.eqb Bool.eqb]. unfold cmd_get. rewrite Hkey.
    by destruct (CacheStore.get _ _ _) as [[v|] st'].
  - rewrite (handle_named clk _ "DEL") by by vm_compute.
    unfold dispatch. cbn [String.eqb Ascii.eqb Bool.eqb]. unfold cmd_del. cbn [foldl].
    unfold del_arg. rewrite Hkey. by destruct (CacheStore.delete _ _) as [[] st'].
Qed.

Lemma exec_serve env ds : ∀ k st,
  exec env k ((λ d, command (command_of d)) <$> ds) st = Returns (serve env k ds st).
Proof.
  induction ds as [|d ds IH]; intros k st; [done|]. rewrite fmap_cons. cbn [exec serve].
  rewrite handle_intended. cbn [outcome_bind].
  destruct (intended _ d _) as [response st1]. rewrite IH. cbn [outcome_bind].
  by destruct (serve env (S k) ds st1).
Qed.

Lemma resp_loop_commands key_space duration its : Forall (draw_ok key_space) (drawn duration its) →
  (resp_loop key_space duration its).1 =
  Returns ((λ d, encode_item (command (command_of d))) <$> drawn duration its).
Proof.
  induction its as [|it its IH]; [done|]. cbn [resp_loop drawn].
  destruct (elapsed it <? duration); [|done]. intros Hd. inversion Hd as [|? ? [Hk _] Hd']; subst.
  rewrite resp_command_encodes by done. specialize (IH Hd').
  destruct (resp_loop key_space duration its) as [cmds es]. simpl in IH. subst cmds. done.
Qed.
End wire.

(** ** Properties: the RESP load *)

Section wire_properties.
Context `{UnicodeUpper} `{RespLayout}.
Import Parser Encoder RespServer Demo.

(** Further: the load a RESP worker generates is the load a node serves: for every run
    of a worker, the bytes it writes are executed by the connection handler of a
    node exactly as the operations it drew, one answer each, and nothing of the
    stream is left over or refused. *)
Theorem resp_load_is_served (env : Env) (key_space duration : Z) (its : list (Iteration Io))
    (st : CacheStore.CacheStore) :
  3 * size_of_RespValue ≤ isize_max → key_space ≤ u64_max →
  Forall (draw_ok key_space) (drawn duration its) → (∀ k, write_ok env k = true) →
  ∃ cmds, (resp_loop key_space duration its).1 = Returns cmds ∧
    let '(responses, st') := serve env 0 (drawn duration its) st in
    handle_connection env (ReadBytes <$> cmds) (mkConn [] st []) =
      Returns (Open, mkConn [] st' responses).
Proof.
  intros Hsize Hks Hd Hw. eexists. split; [by apply resp_loop_commands|].
  pose proof (exec_serve env (drawn duration its) 0 st) as He.
  destruct (serve env 0 (drawn duration its) st) as [responses st'].
  assert (∀ f : Draw → RespValue, (λ d, encode_item (f d)) <$> drawn duration its =
    encode_item <$> (f <$> drawn duration its)) as Hf by (intros f; by rewrite <- list_fmap_compose).
  rewrite Hf, (handle_connection_framed env _ [] st []
    ((λ d, command (command_of d)) <$> drawn duration its) []); try done.
  - cbn [length]. rewrite He. by cbn [outcome_bind app].
  - apply framed_encoded, Forall_fmap. eapply Forall_impl; [exact Hd|].
    intros d Hdr. by eapply command_wire.
  - apply Forall_fmap, Forall_true. intros v Hnil. simpl in Hnil.
    pose proof (encode_item_length v) as Hl. rewrite Hnil in Hl. simpl in Hl. lia.
Qed.
End wire_properties.

(** ** Lemmas: metrics *)

Section metrics.
Import Demo.

Lemma foldl_apply_event es : ∀ m, is_u64 (total_ops m) → is_u64 (successful_ops m) → is_u64 (failed_ops m) →
  foldl apply_event m es = mkLoadMetrics
    (as_u64 (total_ops m + count is_total es)) (as_u64 (successful_ops m + count is_successful es))
    (as_u64 (failed_ops m + count is_failed es)) (latencies_us m ++ omap pushed es).
Proof.
  assert (∀ a, is_u64 a → as_u64 (a + 0) = a) as Hz.
  { intros a Ha. unfold as_u64. rewrite Z.add_0_r. apply Z.mod_small. machine_unfold. lia. }
  assert (∀ a b, as_u64 (u64_add a 1 + b) = as_u64 (a + (1 + b))) as Ha.
  { intros a b. unfold as_u64, u64_add. rewrite Z.add_mod_idemp_l by done. f_equal. lia. }
  assert (∀ p e es', count p (e :: es') = (if p e then 1 else 0) + count p es') as Hc.
  { intros p e es'. unfold count. cbn [List.filter]. destruct (p e); cbn [length]; lia. }
  assert (∀ a, is_u64 (u64_add a 1)) as Hr.
  { intros a. unfold u64_add. pose proof (Z.mod_pos_bound (a + 1) u64_modulus eq_refl).
    machine_unfold. lia. }
  induction es as [|e es IH]; intros m Ht Hs Hf.
  { cbn [foldl]. unfold count. simpl. rewrite !Hz, app_nil_r by done. by destruct m. }
  cbn [foldl]. rewrite IH by (destruct e; simpl; auto). rewrite !Hc.
  destruct e; simpl; rewrite ?Ha, ?Z.add_0_l, <- ?app_assoc; done.
Qed.

Lemma resp_loop_steps key_space duration its : 0 < key_space →
  (resp_loop key_space duration its).2 = steps_of (performed io_ok duration its).
Proof.
  intros Hk. induction its as [|it its IH]; [done|]. cbn [resp_loop performed].
  destruct (elapsed it <? duration); [|done]. unfold resp_command, draw_key.
  rewrite (proj2 (Z.leb_gt _ _)) by lia. cbn [outcome_bind].
  unfold steps_of in *. rewrite fmap_cons. cbn [concat fst snd].
  destruct (resp_loop key_space duration its) as [cmds es]. simpl in *. by rewrite IH.
Qed.

Lemma grpc_loop_steps key_space duration its : 0 < key_space →
  (grpc_loop key_space duration its).2 = steps_of (performed (λ b, b) duration its).
Proof.
  intros Hk. induction its as [|it its IH]; [done|]. cbn [grpc_loop performed].
  destruct (elapsed it <? duration); [|done]. unfold grpc_request, draw_key.
  rewrite (proj2 (Z.leb_gt _ _)) by lia. cbn [outcome_bind].
  unfold steps_of in *. rewrite fmap_cons. cbn [concat fst snd].
  destruct (grpc_loop key_space duration its) as [cmds es]. simpl in *. by rewrite IH.
Qed.

Lemma steps_of_app o1 o2 : steps_of (o1 ++ o2) = steps_of o1 ++ steps_of o2.
Proof. unfold steps_of. by rewrite fmap_app, concat_app. Qed.

Lemma steps_of_concat l : concat (steps_of <$> l) = steps_of (concat l).
Proof. induction l as [|o l IH]; [done|]. rewrite fmap_cons. cbn [concat]. by rewrite IH, steps_of_app. Qed.

Lemma steps_of_counts ops :
  count is_total (steps_of ops) = Z.of_nat (length ops) ∧
  count is_successful (steps_of ops) = Z.of_nat (length (List.filter fst ops)) ∧
  count is_failed (steps_of ops) = Z.of_nat (length (List.filter (λ o, negb o.1) ops)) ∧
  omap pushed (steps_of ops) = (List.filter fst ops).*2.
Proof.
  induction ops as [|[ok l] ops (IH1 & IH2 & IH3 & IH4)]; [done|].
  unfold steps_of, count in *. rewrite fmap_cons. cbn [concat]. cbn [fst snd List.filter].
  destruct ok; cbn [record record_success record_latency record_failure app]; cbn; 
    rewrite ?IH4; repeat split; lia || done.
Qed.

(** The metrics after the steps of some operations, in any order. *)
Lemma metrics_of_steps es ops : es ≡ₚ steps_of ops →
  foldl apply_event new es = mkLoadMetrics
    (as_u64 (Z.of_nat (length ops))) (as_u64 (Z.of_nat (length (List.filter fst ops))))
    (as_u64 (Z.of_nat (length (List.filter (λ o, negb o.1) ops)))) (omap pushed es).
Proof.
  intros Hes. destruct (steps_of_counts ops) as (Ht & Hsu & Hf & _).
  rewrite foldl_apply_event by by compute. simpl. rewrite <- Ht, <- Hsu, <- Hf.
  unfold count. by rewrite !(filterb_perm _ _ _ Hes).
Qed.

(** A sorted list is cut in two by each of its elements. *)
Lemma sorted_index (s : list Z) (i : nat) (x : Z) : StronglySorted Z.le s → s !! i = Some x →
  (S i ≤ length (List.filter (λ y, Z.leb y x) s))%nat ∧
  (length s - i ≤ length (List.filter (λ y, Z.leb x y) s))%nat.
Proof.
  intros Hs Hx. pose proof (list_elem_of_split_length s i x Hx) as (l1 & l2 & -> & ->).
  rewrite !List.filter_app, !length_app. cbn [List.filter]. rewrite Z.leb_refl.
  apply StronglySorted_app in Hs as (H1 & _ & [_ H2]%StronglySorted_inv).
  rewrite Forall_forall in H2. split.
  - rewrite (filterb_all _ l1); [simpl; lia|]. intros y Hy. apply Z.leb_le, H1; [done|by left].
  - rewrite (filterb_all _ l2); [simpl; lia|]. intros y Hy. by apply Z.leb_le, H2.
Qed.

Lemma sorted_le (s : list Z) (i j : nat) (x y : Z) : StronglySorted Z.le s →
  s !! i = Some x → s !! j = Some y → (i ≤ j)%nat → x ≤ y.
Proof.
  intros Hs. revert i j. induction Hs as [|z s Hs IH Hz]; intros i j Hi Hj Hij; [done|].
  rewrite Forall_forall in Hz. destruct i as [|i], j as [|j]; simplify_eq/=; try lia.
  - apply Hz. by eapply list_elem_of_lookup_2.
  - apply (IH i j); auto with lia.
Qed.

(** The figures depend on the latencies up to their order. *)
Lemma percentiles_perm m m' : latencies_us m ≡ₚ latencies_us m' →
  outcome_map fst (compute_percentiles m) = outcome_map fst (compute_percentiles m').
Proof.
  intros Hp. assert (merge_sort Z.le (latencies_us m) = merge_sort Z.le (latencies_us m')) as Hs.
  { apply (StronglySorted_unique Z.le); [apply (StronglySorted_merge_sort Z.le)..|].
    by rewrite !merge_sort_Permutation. }
  unfold compute_percentiles.
  destruct (latencies_us m) as [|x l] eqn:E; destruct (latencies_us m') as [|x' l'] eqn:E'.
  - done.
  - by apply Permutation_nil_l in Hp.
  - by apply Permutation_nil_r in Hp.
  - rewrite Hs. set (s := merge_sort Z.le (x' :: l')).
    destruct (index s _) as [p50| |]; [|done..]. destruct (index s _) as [p99| |]; [|done..].
    cbn [outcome_bind]. by destruct (last s).
Qed.

(** The position of a quantile: it is in range, and cuts the latencies as it should. *)
Lemma quantile (l : list Z) (q : Z) : l ≠ [] → 0 ≤ q < 100 → 100 * Z.of_nat (length l) ≤ u64_max →
  let sorted := merge_sort Z.le l in
  let i := as_u64 (Z.of_nat (length sorted) * q) / 100 in
  ∃ x, sorted !! Z.to_nat i = Some x ∧ i = Z.of_nat (length l) * q / 100 ∧ x ∈ l ∧
    q * Z.of_nat (length l) < 100 * count_le l x ∧
    (100 - q) * Z.of_nat (length l) ≤ 100 * count_ge l x.
Proof.
  intros Hne Hq Hlen sorted i. assert (sorted ≡ₚ l) as Hperm by apply merge_sort_Permutation.
  assert (length sorted = length l) as Hn by by rewrite Hperm.
  assert (StronglySorted Z.le sorted) as Hs by apply (StronglySorted_merge_sort Z.le).
  assert (0 < length l)%nat by (destruct l; [done|simpl; lia]).
  assert (i = Z.of_nat (length l) * q / 100) as Hi.
  { unfold i. rewrite Hn. f_equal. unfold as_u64. apply Z.mod_small. machine_unfold. nia. }
  assert (100 * i ≤ Z.of_nat (length l) * q < 100 * (i + 1)) as Hb.
  { rewrite Hi. pose proof (Z.div_mod (Z.of_nat (length l) * q) 100 ltac:(lia)).
    pose proof (Z.mod_pos_bound (Z.of_nat (length l) * q) 100 ltac:(lia)). lia. }
  assert (0 ≤ i) by nia.
  destruct (lookup_lt_is_Some_2 sorted (Z.to_nat i)) as [x Hx]; [nia|]. exists x.
  destruct (sorted_index sorted (Z.to_nat i) x Hs Hx) as [Hle Hge].
  rewrite (filterb_perm _ _ _ Hperm) in Hle. rewrite (filterb_perm _ _ _ Hperm), Hn in Hge.
  unfold count_le, count_ge. split; [done|]. split; [done|].
  split; [rewrite <- Hperm; by eapply list_elem_of_lookup_2|]. nia.
Qed.
End metrics.

(** ** Properties: the metrics *)

Section metrics_properties.
Import Demo.

(** C39: the figures of the report are what they say: for any recorded latencies,
    the three figures are latencies that occurred, in order; more than 50 percent
    (99 percent) of them are at most p50 (p99), at least 50 percent (1 percent) are
    at least it, and none is above max. *)
Theorem percentiles_correct (m : LoadMetrics) :
  latencies_us m ≠ [] → 100 * Z.of_nat (length (latencies_us m)) ≤ u64_max →
  let l := latencies_us m in
  let n := Z.of_nat (length l) in
  ∃ p50 p99 max sorted,
    compute_percentiles m = Returns ((p50, p99, max),
      mkLoadMetrics (total_ops m) (successful_ops m) (failed_ops m) sorted) ∧
    sorted ≡ₚ l ∧ [p50; p99; max] ⊆ l ∧ p50 ≤ p99 ≤ max ∧ (∀ x, x ∈ l → x ≤ max) ∧
    50 * n < 100 * count_le l p50 ∧ 50 * n ≤ 100 * count_ge l p50 ∧
    99 * n < 100 * count_le l p99 ∧ 1 * n ≤ 100 * count_ge l p99.
Proof.
  unfold compute_percentiles, index. destruct (latencies_us m) as [|y l'] eqn:El; [done|].
  generalize (y :: l'). clear El. cbv zeta. intros l Hne Hlen. set (n := Z.of_nat (length l)).
  destruct (quantile l 50 Hne ltac:(lia) Hlen) as (p50 & H50 & Hi50 & Hin50 & Hc50 & Hg50).
  destruct (quantile l 99 Hne ltac:(lia) Hlen) as (p99 & H99 & Hi99 & Hin99 & Hc99 & Hg99).
  set (sorted := merge_sort Z.le l) in *.
  assert (sorted ≡ₚ l) as Hperm by apply merge_sort_Permutation.
  assert (StronglySorted Z.le sorted) as Hs by apply (StronglySorted_merge_sort Z.le).
  destruct (last sorted) as [max|] eqn:Hmax;
    [|apply last_None in Hmax; rewrite Hmax in Hperm; by apply Permutation_nil_l in Hperm].
  exists p50, p99, max, sorted. pose proof Hmax as Hmaxi. rewrite last_lookup in Hmaxi.
  assert (∀ i x, sorted !! i = Some x → x ≤ max) as Hall.
  { intros i x Hx. apply (sorted_le sorted i (pred (length sorted))); try done.
    apply lookup_lt_Some in Hx. lia. }
  split; [|split; [done|split; [|split; [split; [|by eapply Hall]|split]]]].
  - rewrite H50. cbn [outcome_bind]. rewrite H99. cbn [outcome_bind]. done.
  - assert (max ∈ l) by (rewrite <- Hperm; by eapply list_elem_of_lookup_2).
    intros x Hx. rewrite !elem_of_cons, elem_of_nil in Hx. naive_solver.
  - apply (sorted_le sorted _ _ _ _ Hs H50 H99). rewrite Hi50, Hi99.
    apply Z2Nat.inj_le; [apply Z.div_pos; lia..|]. apply Z.div_le_mono; lia.
  - intros x Hx. rewrite <- Hperm in Hx. apply list_elem_of_lookup_1 in Hx as [i Hi]. by eapply Hall.
  - repeat split; done || lia.
Qed.

(** Further: the counters need no lock: however the atomic steps of the RESP workers
    interleave, the report counts every performed operation once, as successful or
    as failed, keeps the latencies of the successful ones, and its percentiles are
    those of running the workers one after the other. *)
Theorem metrics_any_interleaving (key_space duration : Z) (runs : list (list (Iteration Io)))
    (es : list event) :
  0 < key_space →
  es ≡ₚ concat ((λ its, (resp_loop key_space duration its).2) <$> runs) →
  let ops := concat (performed io_ok duration <$> runs) in
  let m := foldl apply_event new es in
  summary m = (as_u64 (Z.of_nat (length ops)),
               as_u64 (Z.of_nat (length (List.filter fst ops))),
               as_u64 (Z.of_nat (length (List.filter (λ o, negb o.1) ops)))) ∧
  latencies_us m ≡ₚ (List.filter fst ops).*2 ∧
  outcome_map fst (compute_percentiles m) =
    outcome_map fst (compute_percentiles (mkLoadMetrics 0 0 0 (List.filter fst ops).*2)).
Proof.
  intros Hk Hperm ops m.
  assert (es ≡ₚ steps_of ops) as Hes.
  { rewrite Hperm. unfold ops. rewrite <- steps_of_concat, <- list_fmap_compose.
    erewrite list_fmap_ext; [done|]. intros i its _. by apply resp_loop_steps. }
  destruct (steps_of_counts ops) as (_ & _ & _ & Hl).
  assert (m = _) as Hm by exact (metrics_of_steps es ops Hes).
  assert (omap pushed es ≡ₚ (List.filter fst ops).*2) as Hlat by by rewrite <- Hl, Hes.
  rewrite Hm. split; [done|]. split; [done|]. apply percentiles_perm; done.
Qed.

(** Further: the verdict of a run looks at recorded failures only, and a read of any
    length, 0 bytes of a closed connection included, is recorded as a success: a run
    against a server that answers nothing but the end of its stream, or that no
    worker reaches, reports no failure and exits with 0. *)
Theorem dead_cluster_passes (key_space duration : Z) (runs : list (list (Iteration Io)))
    (es : list event) :
  0 < key_space →
  es ≡ₚ concat ((λ its, (resp_loop key_space duration its).2) <$> runs) →
  Forall (Forall (λ it, result it = ReadReturns 0)) runs →
  exit_code new (foldl apply_event new es) = 0 ∧
  (∀ its, exit_code new (foldl apply_event new (resp_worker false key_space duration its)) = 0).
Proof.
  intros Hk Hperm Hall. split; [|done].
  assert (es ≡ₚ steps_of (concat (performed io_ok duration <$> runs))) as Hes.
  { rewrite Hperm, <- steps_of_concat, <- list_fmap_compose.
    erewrite list_fmap_ext; [done|]. intros i its _. by apply resp_loop_steps. }
  destruct (steps_of_counts (concat (performed io_ok duration <$> runs))) as (_ & _ & Hf & _).
  assert (List.filter (λ o : bool * Z, negb o.1) (concat (performed io_ok duration <$> runs)) = [])
    as Hnil.
  { clear -Hall. induction Hall as [|its runs Hits _ IH]; [done|]. rewrite fmap_cons. cbn [concat].
    rewrite List.filter_app, IH, app_nil_r. induction Hits as [|it its Hit _ IHits]; [done|].
    cbn [performed]. destruct (elapsed it <? duration); [|done]. simpl. by rewrite Hit. }
  rewrite foldl_apply_event by by compute. unfold exit_code, totals, summary.
  rewrite Hnil in Hf. unfold count in *. simpl in Hf. cbn [failed_ops new snd].
  assert (length (List.filter is_failed es) = 0%nat) as ->; [|done].
  rewrite (filterb_perm _ _ _ Hes). lia.
Qed.
End metrics_properties.

(** ** Witnesses *)

Section witnesses.
#[local] Existing Instance ex_upper.
Import Parser RespServer Demo.

Definition ex_draw (op : Z) : Draw := mkDraw 3 op 42.
Definition ex_run (io : Io) : list (Iteration Io) :=
  [mkIteration 0 (ex_draw 10) io 7; mkIteration 5 (ex_draw 60) io 9; mkIteration 10 (ex_draw 95) io 3].
#[local] Existing Instance ex_layout.

Lemma ex_draws_ok : Forall (draw_ok 10) (drawn 10 (ex_run (ReadReturns 5))).
Proof. by repeat (constructor; [repeat split; by compute|]). Qed.

Lemma resp_load_is_served_witness : ∃ cmds st',
  (resp_loop 10 10 (ex_run (ReadReturns 5))).1 = Returns cmds ∧
  handle_connection ex_env (ReadBytes <$> cmds) (mkConn [] ex_store []) =
    Returns (Open, mkConn [] st'
      [Encoder.encode_simple_string "OK"; Encoder.encode_bulk_string (as_bytes "value_42")]).
Proof.
  destruct (resp_load_is_served ex_env 10 10 (ex_run (ReadReturns 5)) ex_store) as (cmds & Hc & Hs).
  - by compute.
  - by compute.
  - exact ex_draws_ok.
  - done.
  - exists cmds, (serve ex_env 0 (drawn 10 (ex_run (ReadReturns 5))) ex_store).2.
    split; [exact Hc|]. exact Hs.
Defined.

Lemma percentiles_correct_witness : ∃ p50 p99 max m',
  compute_percentiles (mkLoadMetrics 3 3 0 [7; 3; 9]) = Returns ((p50, p99, max), m') ∧
  p50 ≤ p99 ≤ max.
Proof.
  destruct (percentiles_correct (mkLoadMetrics 3 3 0 [7; 3; 9]))
    as (p50 & p99 & max & sorted & Hc & _ & _ & Ho & _); [discriminate|by compute|].
  exists p50, p99, max. eexists. split; [exact Hc|exact Ho].
Defined.

Definition ex_events : list event :=
  [IncTotal; IncTotal; IncFailed; IncSuccessful; PushLatency 7; IncTotal; IncTotal; IncFailed;
   PushLatency 9; IncSuccessful].
Definition ex_runs : list (list (Iteration Io)) :=
  [[mkIteration 0 (ex_draw 10) (ReadReturns 5) 7; mkIteration 1 (ex_draw 10) ReadFails 1];
   [mkIteration 0 (ex_draw 10) WriteFails 1; mkIteration 2 (ex_draw 95) (ReadReturns 5) 9]].
Lemma ex_events_perm : ex_events ≡ₚ concat ((λ its, (resp_loop 10 10 its).2) <$> ex_runs).
Proof.
  change (concat _) with ([IncTotal; IncSuccessful; PushLatency 7; IncTotal; IncFailed; IncTotal;
    IncFailed; IncTotal; IncSuccessful; PushLatency 9]).
  unfold ex_events. solve_Permutation.
Qed.

Lemma metrics_any_interleaving_witness :
  summary (foldl apply_event new ex_events) = (4, 2, 2) ∧
  outcome_map fst (compute_percentiles (foldl apply_event new ex_events)) = Returns (9, 9, 9).
Proof.
  destruct (metrics_any_interleaving 10 10 ex_runs ex_events) as (Hs & _ & Hp);
    [reflexivity|exact ex_events_perm|].
  split; [exact Hs|exact Hp].
Defined.

Lemma dead_cluster_passes_witness :
  exit_code new (foldl apply_event new (resp_loop 10 10 (ex_run (ReadReturns 0))).2) = 0.
Proof.
  apply (dead_cluster_passes 10 10 [ex_run (ReadReturns 0)]).
  - reflexivity.
  - reflexivity.
  - repeat constructor.
Defined.
End witnesses.
