(* ===== verification/DemoRun.v ===== *)
(** * What the load tool runs

    Models the rest of [tools/demo/src/main.rs]: the commands, what they start, wait
    for and print, the report and the exit status.  A run is the list of its effects
    and how it ends.  What the workers meet, the order in which their steps reach the
    shared metrics, the clock, the standard input and the file system are arguments;
    the workers themselves are those of [Demo]. *)

From stdpp Require Import sorting.
From S2P Require Import Prelude Machine Text Common Float64 Demo.
Local Open Scope Z_scope.

Module DemoRun.
Import Float64 Demo.

(** *** Effects *)

Record Report := mkReport {
  duration_secs : f64; nodes_killed : Z; report_workers : Z;
  report_total : Z; report_successful : Z; report_failed : Z; success_rate : f64;
  latency_grpc : Z * Z * Z; latency_resp : Z * Z * Z;
}.

Inductive Effect :=
  | Println (line : string)
  | Eprintln (line : string)
  | SpawnGrpc (addr : string) (key_space : Z) (duration : Duration)
  | SpawnResp (addr : string) (key_space : Z) (duration : Duration)
  | JoinWorkers
  | ReadLine
  | Sleep (d : Duration)
  | WriteFile (filename : string) (report : Report).

Inductive Ending (A : Type) := Done (a : A) | Panicked (msg : string) | Exited (code : Z).
Arguments Done {A} a. Arguments Panicked {A} msg. Arguments Exited {A} code.

Definition Run (A : Type) : Type := list Effect * Ending A.
Definition ret {A} (a : A) : Run A := ([], Done a).
Definition perform (es : list Effect) : Run unit := (es, Done tt).
Definition exit {A} (code : Z) : Run A := ([], Exited code).
Definition lift {A} (o : outcome A) : Run A :=
  ([], match o with
       | Returns a => Done a
       | Panics msg => Panicked msg
       | OutOfFuel => Panicked "out of fuel"
       end).
Definition bind {A B} (m : Run A) (k : A → Run B) : Run B :=
  match m with
  | (es, Done a) => (es ++ (k a).1, (k a).2)
  | (es, Panicked msg) => (es, Panicked msg)
  | (es, Exited code) => (es, Exited code)
  end.
Notation "'run!' x ':=' m 'in' k" := (bind m (λ x, k))
  (at level 10, x pattern, m at level 100, k at level 200).
Notation "'do!' m 'in' k" := (bind m (λ _, k)) (at level 10, m at level 100, k at level 200).

(** [for x in l { body(x) }] *)
Fixpoint for_each {A} (body : A → Run unit) (l : list A) : Run unit :=
  match l with
  | [] => ret tt
  | x :: l' => do! body x in for_each body l'
  end.

(** The exit status of the process: a panic of [main] is 101. *)
Definition status {A} (r : Run A) : Z :=
  match r.2 with Done _ => 0 | Panicked _ => 101 | Exited code => code end.

(** *** Text *)

Fixpoint text (l : list string) : string :=
  match l with [] => EmptyString | s :: l' => s +:+ text l' end.
Definition dec (n : Z) : string := of_bytes (int_to_string n).
Definition nl : string := String "010" EmptyString.
Definition rule : string := "═══════════════════════════════════════════════".
Definition thin : string := "───────────────────────────────────────────────".

(** *** The workers *)

(** What the workers of a load meet, and in which order their steps are made. *)
Record Workload := mkWorkload {
  grpc_fate : nat → bool * bool * list (Iteration bool);
  resp_fate : nat → bool * list (Iteration Io);
  grpc_schedule : list nat;
  resp_schedule : list nat;
}.

(** One step of the task the schedule names, as long as it goes on; then the rest. *)
Fixpoint interleave {A} (schedule : list nat) (tasks : list (list A)) : list A :=
  match schedule with
  | [] => concat tasks
  | i :: schedule' =>
      match tasks !! i with
      | Some (x :: rest) => x :: interleave schedule' (<[i := rest]> tasks)
      | _ => interleave schedule' tasks
      end
  end.

(** The metrics when all workers have ended. *)
Definition load_metrics (w : Workload) (n_grpc n_resp key_space : Z) (duration : Duration)
    : LoadMetrics * LoadMetrics :=
  let grpc i := let '(uri_ok, connects, its) := grpc_fate w i in
                grpc_worker uri_ok connects key_space duration its in
  let resp i := let '(connects, its) := resp_fate w i in
                resp_worker connects key_space duration its in
  (foldl apply_event new (interleave (grpc_schedule w) (grpc <$> seq 0 (Z.to_nat n_grpc))),
   foldl apply_event new (interleave (resp_schedule w) (resp <$> seq 0 (Z.to_nat n_resp)))).

Definition spawn_workers (router_grpc router_resp : string) (n_grpc n_resp key_space : Z)
    (duration : Duration) : Run unit :=
  perform (replicate (Z.to_nat n_grpc) (SpawnGrpc router_grpc key_space duration) ++
           replicate (Z.to_nat n_resp) (SpawnResp router_resp key_space duration)).

(** [if total_ops > 0 { (total_success as f64 / total_ops as f64) * 100.0 } else { 0.0 }] *)
Definition rate (total_success total_ops : Z) : f64 :=
  if 0 <? total_ops then mul (div (as_f64 total_success) (as_f64 total_ops)) (as_f64 100)
  else zero.

Definition latency_line (prefix : string) (l : Z * Z * Z) : Effect :=
  let '(p50, p99, max) := l in
  Println (text [prefix; "p50="; dec p50; "μs  p99="; dec p99; "μs  max="; dec max; "μs"]).

(** The rate as the reports print it, and what they print for the failures. *)
Definition percent (r : f64) : string := format_fixed 2 r.
Definition rest (r : f64) : f64 := sub (as_f64 100) r.

(** *** The commands *)

Definition run_load_test (w : Workload) (router_grpc router_resp : string)
    (workers duration_secs key_space : Z) : Run unit :=
  let duration := from_secs duration_secs in
  let n_grpc := grpc_workers workers in
  let n_resp := resp_workers workers in
  do! spawn_workers router_grpc router_resp n_grpc n_resp key_space duration in
  do! perform [JoinWorkers] in
  let '(grpc_metrics, resp_metrics) := load_metrics w n_grpc n_resp key_space duration in
  run! (grpc_latency, _) := lift (compute_percentiles grpc_metrics) in
  run! (resp_latency, _) := lift (compute_percentiles resp_metrics) in
  let '(total, success, failed) := totals grpc_metrics resp_metrics in
  let ops_per_sec := div (as_f64 total) (as_f64 duration_secs) in
  let success_rate := rate success total in
  perform
    [Println (text [nl; rule]); Println "Load Test Summary"; Println rule;
     Println (text ["Duration:        "; dec duration_secs; "s"]);
     Println (text ["Workers:         "; dec workers; " ("; dec n_grpc; " gRPC + "; dec n_resp; " RESP)"]);
     Println thin;
     Println (text ["Total ops:       "; dec total]);
     Println (text ["Successful:      "; dec success; "  ("; percent success_rate; "%)"]);
     Println (text ["Failed:          "; dec failed; "  ("; percent (rest success_rate); "%)"]);
     Println (text ["Throughput:      "; format_fixed 0 ops_per_sec; " ops/sec"]);
     Println thin;
     latency_line "Latency (gRPC):  " grpc_latency; latency_line "Latency (RESP):  " resp_latency;
     Println (text [rule; nl])].

(** Round [round], counted from 1; [stdin] is the error of reading a line, if any. *)
Definition chaos_round (stdin : nat → option string) (rounds kill_interval_secs : Z) (round : nat)
    : Run unit :=
  do! perform
    [Println (text ["Round "; dec (Z.of_nat round); "/"; dec rounds]);
     Println "  1. Identify a running node";
     Println "  2. Kill the node process (Ctrl-C or kill command)";
     Println "  3. Wait for gossip to detect failure (~5s)";
     Println "  4. Restart the node with --seed-nodes";
     Println "  5. Observe rebalance and recovery"; Println EmptyString;
     Println "Press Enter when ready to continue to next round..."; ReadLine] in
  do! (match stdin round with
       | Some e => lift (Panics (text ["called `Result::unwrap()` on an `Err` value: "; e]))
       | None => ret tt
       end) in
  perform [Println (text ["  → Sleeping for "; dec kill_interval_secs; " seconds..."; nl]);
           Sleep (from_secs kill_interval_secs)].

Definition run_chaos_test (stdin : nat → option string) (rounds kill_interval_secs : Z) : Run unit :=
  do! perform
    [Println (text [nl; rule]); Println "Chaos Engine — Manual Node Kill Test"; Println rule;
     Println "This tool simulates chaos by instructing you to";
     Println "manually kill and restart nodes."; Println EmptyString;
     Println "Setup: Ensure your cluster is running before starting.";
     Println (text [thin; nl])] in
  do! for_each (chaos_round stdin rounds kill_interval_secs) (seq 1 (Z.to_nat rounds)) in
  perform
    [Println rule; Println "Chaos rounds complete!";
     Println "Check your cluster logs to verify recovery."; Println (text [rule; nl])].

(** What a combined run meets: its two loads, the time the main one takes, the seconds
    since the epoch (or the error), and the file system. *)
Record RunEnv := mkRunEnv {
  warm_up : Workload;
  main_load : Workload;
  main_elapsed : Duration;
  unix_secs : string + Z;
  to_string_pretty_ok : bool;
  write_error : option string;
}.

Definition combined_round (interval : Duration) (rounds : Z) (round : nat) : Run unit :=
  perform [Println (text ["Chaos Round "; dec (Z.of_nat round); "/"; dec rounds]);
           Println "  → Kill a node now, then restart it";
           Println "  → Load continues in background..."; Sleep interval; Println EmptyString].

Definition summary_lines (workers rounds : Z) (r : Report) : list Effect :=
  [Println (text [nl; rule]); Println "Self-Healing Cache — Chaos Run Summary"; Println rule;
   Println (text ["Duration:          "; format_fixed 1 (duration_secs r); "s"]);
   Println (text ["Nodes killed:      "; dec rounds; " (across "; dec rounds; " rounds)"]);
   Println (text ["Load workers:      "; dec workers; " ("; dec (grpc_workers workers); " gRPC + ";
     dec (resp_workers workers); " RESP)"]);
   Println thin;
   Println (text ["Total ops:         "; dec (report_total r)]);
   Println (text ["Successful:        "; dec (report_successful r); "  ("; percent (success_rate r); "%)"]);
   Println (text ["Hard failures:     "; dec (report_failed r); "  ("; percent (rest (success_rate r)); "%)"]);
   Println "Retried+recovered: 0      (0.00%)"; Println thin;
   latency_line "Latency (gRPC):    " (latency_grpc r);
   latency_line "Latency (RESP):    " (latency_resp r);
   Println thin; Println "Node recovery times (avg): N/A (manual test)"; Println (text [rule; nl])].

(** The file of the report. *)
Definition save_report (env : RunEnv) (r : Report) : Run unit :=
  match unix_secs env with
  | inl e => lift (Panics (text ["called `Result::unwrap()` on an `Err` value: "; e]))
  | inr secs =>
      let filename := text ["chaos_report_"; dec secs; ".json"] in
      if to_string_pretty_ok env then
        perform (WriteFile filename r ::
          match write_error env with
          | Some e => [Eprintln (text ["Failed to write report: "; e])]
          | None => [Println (text ["Report saved to "; filename])]
          end)
      else ret tt
  end.

(** From the start of the workers to the report. *)
Definition main_test (env : RunEnv) (router_grpc router_resp : string)
    (workers duration_secs rounds : Z) : Run Report :=
  let n_grpc := grpc_workers workers in
  let n_resp := resp_workers workers in
  let duration := from_secs duration_secs in
  do! spawn_workers router_grpc router_resp n_grpc n_resp 1000 duration in
  run! interval := lift (chaos_interval duration_secs rounds) in
  do! for_each (combined_round (from_secs interval) rounds) (seq 1 (Z.to_nat rounds)) in
  do! perform [JoinWorkers] in
  let '(grpc_metrics, resp_metrics) := load_metrics (main_load env) n_grpc n_resp 1000 duration in
  let '(total, success, failed) := totals grpc_metrics resp_metrics in
  run! (grpc_latency, _) := lift (compute_percentiles grpc_metrics) in
  run! (resp_latency, _) := lift (compute_percentiles resp_metrics) in
  ret (mkReport (as_secs_f64 (main_elapsed env)) rounds workers total success failed
         (rate success total) grpc_latency resp_latency).

Definition run_combined_test (env : RunEnv) (router_grpc router_resp : string)
    (workers duration_secs rounds : Z) : Run unit :=
  do! perform
    [Println (text [nl; rule]); Println "Self-Healing Cache — Combined Chaos Run"; Println rule;
     Println "This will run load workers while you perform chaos.";
     Println "Follow the prompts to kill/restart nodes during load."; Println (text [thin; nl]);
     Println "Warm-up: Running 5s load test..."] in
  do! run_load_test (warm_up env) router_grpc router_resp (workers / 2) 5 1000 in
  do! perform [Println (text [nl; rule]);
               Println (text ["Starting main test: "; dec rounds; " rounds"]);
               Println (text [rule; nl])] in
  run! report := main_test env router_grpc router_resp workers duration_secs rounds in
  do! perform (summary_lines workers rounds report) in
  do! save_report env report in
  if 0 <? report_failed report then exit 1 else ret tt.

Inductive Commands :=
  | Load (router_grpc router_resp : string) (workers duration_secs key_space : Z)
  | Chaos (rounds kill_interval_secs : Z)
  | Run_ (router_grpc router_resp : string) (workers duration_secs rounds : Z).

Definition main (stdin : nat → option string) (env : RunEnv) (command : Commands) : Run unit :=
  match command with
  | Load router_grpc router_resp workers duration_secs key_space =>
      run_load_test (main_load env) router_grpc router_resp workers duration_secs key_space
  | Chaos rounds kill_interval_secs => run_chaos_test stdin rounds kill_interval_secs
  | Run_ router_grpc router_resp workers duration_secs rounds =>
      run_combined_test env router_grpc router_resp workers duration_secs rounds
  end.
End DemoRun.

(** ** Specifications *)

Module DemoRunSpec.
Import Demo DemoRun.

(** The operations the workers perform, those that reached the server. *)
Definition grpc_ops (w : Workload) (n : Z) (duration : Duration) : list (bool * Z) :=
  concat ((λ i, let '(uri_ok, connects, its) := grpc_fate w i in
                if uri_ok && connects then performed (λ b, b) duration its else [])
            <$> seq 0 (Z.to_nat n)).
Definition resp_ops (w : Workload) (n : Z) (duration : Duration) : list (bool * Z) :=
  concat ((λ i, let '(connects, its) := resp_fate w i in
                if connects : bool then performed io_ok duration its else [])
            <$> seq 0 (Z.to_nat n)).
Definition load_ops (w : Workload) (workers : Z) (duration : Duration) : list (bool * Z) :=
  grpc_ops w (grpc_workers workers) duration ++ resp_ops w (resp_workers workers) duration.

Definition succeeded (ops : list (bool * Z)) : list (bool * Z) := List.filter fst ops.
Definition failed (ops : list (bool * Z)) : list (bool * Z) := List.filter (λ o, negb o.1) ops.

(** What the main task waits for, and the reports it writes. *)
Definition pauses (es : list Effect) : list Effect :=
  List.filter (λ e, match e with ReadLine | Sleep _ | JoinWorkers => true | _ => false end) es.
Definition saved (es : list Effect) : list Report :=
  omap (λ e, match e with WriteFile _ r => Some r | _ => None end) es.
End DemoRunSpec.

(** ** Lemmas *)

Section lemmas.
Import Demo DemoRun DemoRunSpec.

(** Whatever the schedule, the steps of the tasks are made, each once. *)
Lemma interleave_perm {A} schedule : ∀ tasks : list (list A), interleave schedule tasks ≡ₚ concat tasks.
Proof.
  induction schedule as [|i schedule IH]; intros tasks; [done|]. cbn [interleave].
  destruct (tasks !! i) as [[|x rest]|] eqn:Hi; [apply IH| |apply IH].
  rewrite IH. apply list_elem_of_split_length in Hi as (l1 & l2 & -> & ->).
  rewrite insert_app_r_alt by lia. rewrite Nat.sub_diag. cbn [insert list_insert].
  rewrite !concat_app. cbn [concat]. by rewrite Permutation_middle.
Qed.

Lemma compute_percentiles_returns m : ∃ r m', compute_percentiles m = Returns (r, m').
Proof.
  unfold compute_percentiles. destruct (latencies_us m) as [|x l]; [by eexists _, _|].
  set (sorted := merge_sort Z.le (x :: l)).
  assert (length sorted = S (length l)) as Hl
    by (apply (Permutation_length (l' := x :: l)), merge_sort_Permutation).
  assert (∀ q, 0 ≤ q < 100 → ∃ y, index sorted (as_u64 (Z.of_nat (length sorted) * q) / 100) = Returns y) as Hq.
  { intros q Hq. unfold index.
    pose proof (Z.mod_le (Z.of_nat (length sorted) * q) u64_modulus ltac:(lia) eq_refl) as Hm.
    pose proof (Z.mod_pos_bound (Z.of_nat (length sorted) * q) u64_modulus eq_refl) as Hp.
    unfold as_u64. set (z := (_ * q) mod _) in *.
    pose proof (Z.div_le_upper_bound z 100 (Z.of_nat (length sorted) - 1) ltac:(lia)) as Hd.
    pose proof (Z.div_pos z 100 ltac:(lia) ltac:(lia)).
    pose proof (Z.mul_div_le z 100 ltac:(lia)).
    destruct (lookup_lt_is_Some_2 sorted (Z.to_nat (z / 100))) as [y ->]; [|by eexists]. nia. }
  destruct (Hq 50 ltac:(lia)) as [p50 ->]. cbn [outcome_bind].
  destruct (Hq 99 ltac:(lia)) as [p99 ->]. cbn [outcome_bind].
  destruct (last sorted) as [mx|] eqn:Hlast; [by eexists _, _|].
  apply last_None in Hlast. rewrite Hlast in Hl. done.
Qed.

Lemma grpc_worker_steps uri_ok connects ks d its : 0 < ks →
  grpc_worker uri_ok connects ks d its =
  steps_of (if uri_ok && connects then performed (λ b, b) d its else []).
Proof. intros Hk. unfold grpc_worker. destruct (_ && _); [by apply grpc_loop_steps|done]. Qed.
Lemma resp_worker_steps connects ks d its : 0 < ks →
  resp_worker connects ks d its = steps_of (if connects then performed io_ok d its else []).
Proof. intros Hk. unfold resp_worker. destruct connects; [by apply resp_loop_steps|done]. Qed.

Lemma tasks_steps (f : nat → list event) (ops : nat → list (bool * Z)) schedule l :
  (∀ i, f i = steps_of (ops i)) → interleave schedule (f <$> l) ≡ₚ steps_of (concat (ops <$> l)).
Proof.
  intros Hf. rewrite interleave_perm, <- steps_of_concat, <- list_fmap_compose.
  erewrite list_fmap_ext; [done|]. intros i x _. apply Hf.
Qed.

(** The totals of a load count every operation once. *)
Lemma load_totals w workers ks d : 0 < ks →
  let '(grpc_metrics, resp_metrics) :=
    load_metrics w (grpc_workers workers) (resp_workers workers) ks d in
  let ops := load_ops w workers d in
  totals grpc_metrics resp_metrics =
    (as_u64 (Z.of_nat (length ops)), as_u64 (Z.of_nat (length (succeeded ops))),
     as_u64 (Z.of_nat (length (failed ops)))).
Proof.
  intros Hk. unfold load_metrics.
  rewrite (metrics_of_steps _ (grpc_ops w (grpc_workers workers) d))
    by (apply tasks_steps; intros i; destruct (grpc_fate w i) as [[u c] its]; by apply grpc_worker_steps).
  rewrite (metrics_of_steps _ (resp_ops w (resp_workers workers) d))
    by (apply tasks_steps; intros i; destruct (resp_fate w i) as [c its]; by apply resp_worker_steps).
  unfold totals, summary, load_ops, succeeded, failed, u64_add, as_u64. simpl.
  rewrite !List.filter_app, !length_app, !Nat2Z.inj_add, <- !Z.add_mod by done. done.
Qed.

Lemma bind_perform {B} es (k : unit → Run B) : bind (perform es) k = (es ++ (k tt).1, (k tt).2).
Proof. done. Qed.
Lemma bind_lift {A B} (a : A) o (k : A → Run B) : o = Returns a → bind (lift o) k = k a.
Proof. intros ->. unfold bind, lift. by destruct (k a). Qed.

Lemma for_each_perform {A} (f : A → list Effect) l :
  for_each (λ x, perform (f x)) l = perform (concat (f <$> l)).
Proof.
  induction l as [|x l IH]; [done|]. cbn [for_each]. rewrite bind_perform, IH. done.
Qed.

Lemma for_each_fails {A} (body : A → Run unit) l1 x l2 es es' msg :
  for_each body l1 = (es, Done tt) → body x = (es', Panicked msg) →
  for_each body (l1 ++ x :: l2) = (es ++ es', Panicked msg).
Proof.
  revert es. induction l1 as [|y l1 IH]; intros es H1 H2; cbn [app for_each] in *.
  - injection H1 as <-. rewrite H2. done.
  - destruct (body y) as [esy [[]|msg'|code]]; cbn [bind] in *; try discriminate H1.
    destruct (for_each body l1) as [es1 r1]. injection H1 as <- ->.
    rewrite (IH es1 eq_refl H2). cbn [fst snd]. by rewrite app_assoc.
Qed.

Lemma pauses_app es es' : pauses (es ++ es') = pauses es ++ pauses es'.
Proof. apply List.filter_app. Qed.
Lemma saved_app es es' : saved (es ++ es') = saved es ++ saved es'.
Proof. apply omap_app. Qed.

Lemma pauses_rounds {A} (f : A → list Effect) ps l : (∀ x, pauses (f x) = ps) →
  pauses (concat (f <$> l)) = concat (replicate (length l) ps).
Proof.
  intros Hf. induction l as [|x l IH]; [done|]. rewrite fmap_cons. cbn [concat length replicate].
  by rewrite pauses_app, Hf, IH.
Qed.
Lemma saved_rounds {A} (f : A → list Effect) l : (∀ x, saved (f x) = []) →
  saved (concat (f <$> l)) = [].
Proof.
  intros Hf. induction l as [|x l IH]; [done|]. rewrite fmap_cons. cbn [concat].
  by rewrite saved_app, Hf, IH.
Qed.

Lemma spawn_quiet g r a b ks d : ∃ es, spawn_workers g r a b ks d = perform es ∧
  pauses es = [] ∧ saved es = [].
Proof.
  eexists. split; [done|]. rewrite pauses_app, saved_app.
  assert (∀ n e, pauses [e] = [] → saved [e] = [] → pauses (replicate n e) = [] ∧ saved (replicate n e) = []) as Hr.
  { intros n e Hp Hs. induction n as [|n [IHp IHs]]; [done|]. cbn [replicate].
    change (e :: ?l) with ([e] ++ l). by rewrite pauses_app, saved_app, Hp, Hs, IHp, IHs. }
  destruct (Hr (Z.to_nat a) (SpawnGrpc g ks d) eq_refl eq_refl) as [-> ->].
  destruct (Hr (Z.to_nat b) (SpawnResp r ks d) eq_refl eq_refl) as [-> ->]. done.
Qed.

Lemma latency_line_quiet p l : pauses [latency_line p l] = [] ∧ saved [latency_line p l] = [].
Proof. by destruct l as [[? ?] ?]. Qed.

(** A load test ends, and says what its metrics are. *)
Lemma load_test_lines w g r workers secs ks :
  let '(grpc_metrics, resp_metrics) :=
    load_metrics w (grpc_workers workers) (resp_workers workers) ks (from_secs secs) in
  let '(total, success, failed) := totals grpc_metrics resp_metrics in
  ∃ es, run_load_test w g r workers secs ks = (es, Done tt) ∧
    pauses es = [JoinWorkers] ∧ saved es = [] ∧
    Println (text ["Successful:      "; dec success; "  ("; percent (rate success total); "%)"]) ∈ es ∧
    Println (text ["Failed:          "; dec failed; "  ("; percent (rest (rate success total)); "%)"]) ∈ es.
Proof.
  unfold run_load_test. destruct (load_metrics _ _ _ _ _) as [gm rm].
  destruct (compute_percentiles_returns gm) as (lg & ? & ->).
  destruct (compute_percentiles_returns rm) as (lr & ? & ->).
  destruct (totals gm rm) as [[t s] f].
  destruct (spawn_quiet g r (grpc_workers workers) (resp_workers workers) ks (from_secs secs))
    as (es & -> & Hp & Hs).
  rewrite !bind_perform, !(bind_lift _ _ _ eq_refl). eexists. split; [reflexivity|].
  cbn [perform fst snd].
  destruct lg as [[? ?] ?], lr as [[? ?] ?].
  rewrite pauses_app, saved_app, Hp, Hs. split; [done|]. split; [done|].
  split; apply elem_of_app; right; cbn [app]; rewrite !elem_of_cons; tauto.
Qed.

(** The main test of a combined run, when there are rounds. *)
Lemma main_test_done env g r workers secs rounds : 0 < rounds →
  ∃ es report, main_test env g r workers secs rounds = (es, Done report) ∧
    pauses es = replicate (Z.to_nat rounds) (Sleep (from_secs (secs / rounds))) ++ [JoinWorkers] ∧
    saved es = [] ∧ nodes_killed report = rounds ∧
    success_rate report = rate (report_successful report) (report_total report) ∧
    let '(gm, rm) :=
      load_metrics (main_load env) (grpc_workers workers) (resp_workers workers) 1000 (from_secs secs) in
    (report_total report, report_successful report, report_failed report) = totals gm rm.
Proof.
  intros Hr. unfold main_test, chaos_interval. rewrite (proj2 (Z.eqb_neq _ _)) by lia.
  destruct (spawn_quiet g r (grpc_workers workers) (resp_workers workers) 1000 (from_secs secs))
    as (es & -> & Hp & Hs).
  destruct (load_metrics _ _ _ _ _) as [gm rm]. destruct (totals gm rm) as [[t s] f].
  destruct (compute_percentiles_returns gm) as (lg & ? & ->).
  destruct (compute_percentiles_returns rm) as (lr & ? & ->).
  rewrite bind_perform, (bind_lift _ _ _ eq_refl). unfold combined_round. rewrite for_each_perform.
  rewrite !bind_perform, !(bind_lift _ _ _ eq_refl).
  eexists _, _. split; [reflexivity|]. cbn [ret fst snd].
  rewrite !pauses_app, !saved_app, Hp, Hs, (pauses_rounds _ [Sleep (from_secs (secs / rounds))]) by done.
  rewrite saved_rounds, length_seq by done.
  split; [|done]. cbn [app]. f_equal. induction (Z.to_nat rounds); [done|]. cbn [replicate concat app]. by f_equal.
Qed.

(** A combined run, up to its report. *)
Lemma combined_run env g r workers secs rounds secs_now : 0 < rounds → unix_secs env = inr secs_now →
  let '(gm, rm) :=
    load_metrics (main_load env) (grpc_workers workers) (resp_workers workers) 1000 (from_secs secs) in
  ∃ es report, run_combined_test env g r workers secs rounds =
      (es, if 0 <? (totals gm rm).2 then Exited 1 else Done tt) ∧
    pauses es = JoinWorkers :: replicate (Z.to_nat rounds) (Sleep (from_secs (secs / rounds))) ++ [JoinWorkers] ∧
    saved es = (if to_string_pretty_ok env then [report] else []) ∧ nodes_killed report = rounds ∧
    success_rate report = rate (report_successful report) (report_total report) ∧
    (report_total report, report_successful report, report_failed report) = totals gm rm.
Proof.
  intros Hr Hnow. unfold run_combined_test.
  destruct (main_test_done env g r workers secs rounds Hr) as (es2 & report & -> & Hp2 & Hs2 & Hk & Hrate & Htot).
  pose proof (load_test_lines (warm_up env) g r (workers / 2) 5 1000) as Hw.
  destruct (load_metrics (warm_up env) _ _ _ _) as [gmw rmw]. destruct (totals gmw rmw) as [[? ?] ?].
  destruct Hw as (es1 & -> & Hp1 & Hs1 & _).
  destruct (load_metrics (main_load env) _ _ _ _) as [gm rm].
  destruct (totals gm rm) as [[t s] f]. injection Htot as <- <- <-. cbn [bind perform fst snd].
  assert (∃ es3, save_report env report = perform es3 ∧ pauses es3 = [] ∧
    saved es3 = if to_string_pretty_ok env then [report] else []) as (es3 & -> & Hp3 & Hs3).
  { unfold save_report. rewrite Hnow. destruct (to_string_pretty_ok env); [|by exists []].
    eexists. split; [reflexivity|]. by destruct (write_error env). }
  assert (pauses (summary_lines workers rounds report) = [] ∧ saved (summary_lines workers rounds report) = [])
    as [Hp4 Hs4].
  { unfold summary_lines. by destruct (latency_grpc report) as [[? ?] ?], (latency_resp report) as [[? ?] ?]. }
  destruct (0 <? report_failed report); (eexists _, report; split; [reflexivity|]; cbn [bind perform fst snd ret exit];
    rewrite !pauses_app, !saved_app, Hp1, Hp2, Hp3, Hp4, Hs1, Hs2, Hs3, Hs4; cbn [pauses saved List.filter omap list_omap app];
    rewrite ?app_nil_r; done).
Qed.
End lemmas.

(** ** Properties *)

Section properties.
Import Demo DemoRun DemoRunSpec.

(** Further: the verdict of a combined run: whatever the order in which the workers' steps
    reach the metrics, and whatever came of the warm-up, the report counts every
    operation that the workers of the main test performed once, as successful or
    failed; it is the only one saved; and the exit status is 1 exactly when one of
    these operations failed, 0 otherwise. *)
Theorem run_verdict (env : RunEnv) (router_grpc router_resp : string)
    (workers secs rounds secs_now : Z) :
  0 < rounds → unix_secs env = inr secs_now →
  let ops := load_ops (main_load env) workers (from_secs secs) in
  Z.of_nat (length ops) ≤ u64_max →
  let run := run_combined_test env router_grpc router_resp workers secs rounds in
  status run = (if existsb (λ o, negb o.1) ops then 1 else 0) ∧
  ∃ report, saved run.1 = (if to_string_pretty_ok env then [report] else []) ∧
    report_total report = Z.of_nat (length ops) ∧
    report_successful report = Z.of_nat (length (succeeded ops)) ∧
    report_failed report = Z.of_nat (length (failed ops)) ∧
    report_total report = report_successful report + report_failed report ∧
    success_rate report = rate (report_successful report) (report_total report).
Proof.
  intros Hr Hnow ops Hlen run. unfold run.
  pose proof (combined_run env router_grpc router_resp workers secs rounds secs_now Hr Hnow) as Hrun.
  pose proof (load_totals (main_load env) workers 1000 (from_secs secs) eq_refl) as Ht.
  destruct (load_metrics _ _ _ _ _) as [gm rm]. cbv zeta in Ht. fold ops in Ht.
  assert (length (succeeded ops) + length (failed ops) = length ops)%nat as Hsum.
  { unfold succeeded, failed. clear. induction ops as [|[[] l] ops IH]; [done|..]; cbn; lia. }
  unfold as_u64 in Ht. rewrite !Z.mod_small in Ht by (machine_unfold; lia).
  destruct Hrun as (es & report & -> & _ & Hsv & _ & Hrate & Htot). rewrite Ht in *.
  injection Htot as Htt Hts Htf. split.
  - unfold status, failed. cbn [snd]. rewrite existsb_filter.
    by destruct (List.filter (λ o : bool * Z, negb o.1) ops).
  - exists report. rewrite Htt, Hts, Htf in *. repeat split; done || lia.
Qed.

(** Further: the percentages of a load test: when every operation succeeded it prints 100.00%
    and 0.00%, when none did 0.00% and 100.00%; but when none was performed, because
    no worker reached the server, it also prints "0.00%" for the successful and
    "100.00%" for the failed ones, of which there are 0. *)
Theorem printed_percentages (w : Workload) (router_grpc router_resp : string)
    (workers secs key_space : Z) :
  0 < key_space →
  let ops := load_ops w workers (from_secs secs) in
  let n := Z.of_nat (length ops) in
  n < 2 ^ 53 →
  let es := (run_load_test w router_grpc router_resp workers secs key_space).1 in
  let prints s p f q := Println (text ["Successful:      "; dec s; "  ("; p; "%)"]) ∈ es ∧
                        Println (text ["Failed:          "; dec f; "  ("; q; "%)"]) ∈ es in
  status (run_load_test w router_grpc router_resp workers secs key_space) = 0 ∧
  (ops ≠ [] → failed ops = [] → prints n "100.00"%string 0 "0.00"%string) ∧
  (ops ≠ [] → succeeded ops = [] → prints 0 "0.00"%string n "100.00"%string) ∧
  (ops = [] → prints 0 "0.00"%string 0 "100.00"%string).
Proof.
  intros Hk ops n Hn. pose proof (load_test_lines w router_grpc router_resp workers secs key_space) as Hl.
  pose proof (load_totals w workers key_space (from_secs secs) Hk) as Ht.
  destruct (load_metrics _ _ _ _ _) as [gm rm]. cbv zeta in Ht. fold ops n in Ht. rewrite Ht in Hl.
  assert (length (succeeded ops) + length (failed ops) = length ops)%nat as Hsum.
  { unfold succeeded, failed. clear. induction ops as [|[[] l] ops IH]; [done|..]; cbn; lia. }
  unfold as_u64 in Hl. rewrite !Z.mod_small in Hl by (machine_unfold; lia).
  destruct Hl as (es & -> & _ & _ & Hs & Hf). cbn [fst]. cbv zeta. split; [done|].
  assert (∀ s f p q, Z.of_nat (length (succeeded ops)) = s → Z.of_nat (length (failed ops)) = f →
    percent (rate s n) = p → percent (rest (rate s n)) = q →
    Println (text ["Successful:      "; dec s; "  ("; p; "%)"]) ∈ es ∧
    Println (text ["Failed:          "; dec f; "  ("; q; "%)"]) ∈ es) as Hprint.
  { intros s f p q <- <- <- <-. by split. }
  assert (ops ≠ [] → 0 < n < 2 ^ 53) as Hpos by (intros; destruct ops; [done|cbn in *; lia]).
  unfold rate in Hprint. split; [|split].
  - intros Hne Hnil. specialize (Hpos Hne). rewrite Hnil in Hsum. cbn in Hsum.
    apply Hprint; [lia|by rewrite Hnil|..];
      rewrite (proj2 (Z.ltb_lt _ _)), all_of_them by lia; by vm_compute.
  - intros Hne Hnil. specialize (Hpos Hne). rewrite Hnil in Hsum. cbn in Hsum.
    apply Hprint; [by rewrite Hnil|lia|..];
      rewrite (proj2 (Z.ltb_lt _ _)), none_of_them by lia; by vm_compute.
  - intros Hnil. unfold n in *. rewrite Hnil in *. apply Hprint; by vm_compute.
Qed.

(** Further: the chaos rounds of a combined run fall within the load: the main task waits for
    the warm-up, sleeps once per round, in all for no longer than the workers of the
    main test work and less than a second per round shorter, and waits for them. *)
Theorem rounds_within_load (env : RunEnv) (router_grpc router_resp : string)
    (workers secs rounds secs_now : Z) :
  0 < rounds → unix_secs env = inr secs_now →
  let interval := from_secs (secs / rounds) in
  pauses (run_combined_test env router_grpc router_resp workers secs rounds).1 =
    JoinWorkers :: replicate (Z.to_nat rounds) (Sleep interval) ++ [JoinWorkers] ∧
  rounds * interval ≤ from_secs secs < rounds * (interval + from_secs 1).
Proof.
  intros Hr Hnow interval.
  pose proof (combined_run env router_grpc router_resp workers secs rounds secs_now Hr Hnow) as Hrun.
  destruct (load_metrics _ _ _ _ _) as [gm rm]. destruct Hrun as (es & report & -> & Hp & _).
  split; [done|]. unfold interval, from_secs, nanos_per_sec.
  pose proof (Z.div_mod secs rounds ltac:(lia)). pose proof (Z.mod_pos_bound secs rounds Hr). nia.
Qed.

(** Further: a combined run with no rounds panics when the interval is computed: the warm-up
    has run by then and the workers of the main test have been started, but nobody
    waits for them, and there is no report. *)
Theorem no_rounds_panics (env : RunEnv) (router_grpc router_resp : string) (workers secs : Z) :
  let run := run_combined_test env router_grpc router_resp workers secs 0 in
  status run = 101 ∧ run.2 = Panicked "attempt to divide by zero" ∧
  pauses run.1 = [JoinWorkers] ∧ saved run.1 = [] ∧
  ∃ before, run.1 = before ++
    (spawn_workers router_grpc router_resp (grpc_workers workers) (resp_workers workers) 1000
       (from_secs secs)).1.
Proof.
  unfold run_combined_test, main_test.
  pose proof (load_test_lines (warm_up env) router_grpc router_resp (workers / 2) 5 1000) as Hw.
  destruct (load_metrics (warm_up env) _ _ _ _) as [gmw rmw]. destruct (totals gmw rmw) as [[? ?] ?].
  destruct Hw as (es1 & -> & Hp1 & Hs1 & _).
  destruct (spawn_quiet router_grpc router_resp (grpc_workers workers) (resp_workers workers) 1000
    (from_secs secs)) as (es & -> & Hp & Hs).
  change (chaos_interval secs 0) with (@Panics Z "attempt to divide by zero").
  cbn [bind perform lift fst snd status]. split; [done|]. split; [done|].
  rewrite !pauses_app, !saved_app, Hp1, Hs1, Hp, Hs. split; [done|]. split; [done|].
  rewrite app_nil_r, !app_assoc. by eexists.
Qed.

(** Further: a chaos session asks and waits in turn: each round reads a line and then sleeps;
    it ends after its rounds, or panics at the first line it cannot read. *)
Theorem chaos_session (stdin : nat → option string) (rounds secs : Z) :
  let run := run_chaos_test stdin rounds secs in
  let turn := [ReadLine; Sleep (from_secs secs)] in
  ((∀ i, (1 ≤ i ≤ Z.to_nat rounds)%nat → stdin i = None) →
     run.2 = Done tt ∧ pauses run.1 = concat (replicate (Z.to_nat rounds) turn)) ∧
  (∀ k e, (1 ≤ k ≤ Z.to_nat rounds)%nat → (∀ i, (1 ≤ i < k)%nat → stdin i = None) → stdin k = Some e →
     status run = 101 ∧ pauses run.1 = concat (replicate (k - 1) turn) ++ [ReadLine]).
Proof.
  set (ask round := chaos_round (λ _, None) rounds secs round).
  assert (∀ l, Forall (λ i, stdin i = None) l → for_each (chaos_round stdin rounds secs) l =
    perform (concat ((λ i, (ask i).1) <$> l))) as Hok.
  { intros l Hl. rewrite <- for_each_perform. induction Hl as [|i l Hi Hl IH]; [done|].
    cbn [for_each]. rewrite IH. unfold chaos_round. by rewrite Hi. }
  unfold run_chaos_test. split.
  - intros Hi. rewrite Hok; [|apply Forall_forall; intros i Hin%elem_of_seq; apply Hi; lia].
    rewrite !bind_perform. cbn [fst snd perform]. split; [done|].
    rewrite !pauses_app, (pauses_rounds _ [ReadLine; Sleep (from_secs secs)]), length_seq by done.
    cbn [pauses List.filter app]. by rewrite app_nil_r.
  - intros k e Hk Hi He.
    assert (seq 1 (Z.to_nat rounds) = seq 1 (k - 1) ++ k :: seq (S k) (Z.to_nat rounds - k)) as ->.
    { change (k :: seq (S k) (Z.to_nat rounds - k)) with (seq k (S (Z.to_nat rounds - k))).
      assert (k = 1 + (k - 1))%nat as Hkk by lia. rewrite Hkk at 2. rewrite <- seq_app. f_equal. lia. }
    erewrite (for_each_fails _ _ k); [|apply Hok, Forall_forall; intros i Hin%elem_of_seq; apply Hi; lia|
      unfold chaos_round; rewrite He; reflexivity].
    cbn [bind perform fst snd status]. split; [done|].
    rewrite !pauses_app, (pauses_rounds _ [ReadLine; Sleep (from_secs secs)]), length_seq by done. done.
Qed.
End properties.

(** ** Witnesses: one worker of each kind, of which one operation fails *)

Section witnesses.
Import Demo DemoRun DemoRunSpec.

Definition ex_draw_of (op : Z) : Draw := mkDraw 3 op 42.
Definition ex_load (ok connects : bool) : Workload :=
  mkWorkload (λ _, (true, connects, [mkIteration 0 (ex_draw_of 10) ok 7]))
    (λ _, (connects, [mkIteration 0 (ex_draw_of 60) (ReadReturns 5) 9])) [0%nat] [].
Definition ex_run_env : RunEnv :=
  mkRunEnv (ex_load true false) (ex_load false true) (from_secs 6) (inr 1700000000) true None.

Lemma run_verdict_witness : status (run_combined_test ex_run_env "r:6000" "r:6001" 2 6 3) = 1.
Proof.
  refine (proj1 (run_verdict ex_run_env "r:6000" "r:6001" 2 6 3 1700000000 _ _ _)).
  - reflexivity.
  - reflexivity.
  - vm_compute. discriminate.
Defined.

Lemma printed_percentages_witness :
  Println "Failed:          0  (100.00%)" ∈
    (run_load_test (ex_load true false) "r:6000" "r:6001" 2 6 100).1.
Proof.
  destruct (printed_percentages (ex_load true false) "r:6000" "r:6001" 2 6 100)
    as (_ & _ & _ & H); [reflexivity|vm_compute; reflexivity|].
  exact (proj2 (H eq_refl)).
Defined.

Lemma rounds_within_load_witness :
  pauses (run_combined_test ex_run_env "r:6000" "r:6001" 2 7 2).1 =
    [JoinWorkers; Sleep (from_secs 3); Sleep (from_secs 3); JoinWorkers].
Proof.
  exact (proj1 (rounds_within_load ex_run_env "r:6000" "r:6001" 2 7 2 1700000000 eq_refl eq_refl)).
Defined.
End witnesses.
