(* ===== verification/Restart.v ===== *)
(** * A node that restarts under its old identifier

    [--id] lets a node come back as who it was, but the table it starts with knows
    nothing of before ([MembershipTable::new]: incarnation 0, Joining).  What happens
    depends on what its peers hold of it: nothing, as long as they think it alive;
    when they suspect it, their suspicion ends its joining. *)

From S2P Require Import Prelude Machine Text Common Store Membership Gossip NodeService.
Local Open Scope Z_scope.

Module Restart.
Import MembershipTable Gossip.

Section restart.
Context `{UuidLib} `{HashIter}.

(** A full exchange of two nodes, begun by the first or by the second. *)
Record Encounter := mkEncounter {
  first_asks : bool;
  asker_clock : nat → Z;
  answerer_env : Env;
  asker_env : Env;
}.
Definition encounter (m : Encounter) (ab : MembershipTable * MembershipTable)
    : MembershipTable * MembershipTable :=
  if first_asks m then full_exchange (asker_clock m) (answerer_env m) (asker_env m) ab.1 ab.2
  else let '(b, a) := full_exchange (asker_clock m) (answerer_env m) (asker_env m) ab.2 ab.1 in (a, b).
Definition encounters (ms : list Encounter) (ab : MembershipTable * MembershipTable)
    : MembershipTable * MembershipTable := foldl (λ ab m, encounter m ab) ab ms.
End restart.
End Restart.

(** ** Lemmas *)

Section lemmas.
Context `{UuidLib} `{HashIter}.
Import MembershipTable Gossip Restart.

(** Two nodes of which the first is held for alive by the second, at least as new as
    it holds itself. *)
Record unnoticed (i : NodeId) (a b : MembershipTable) (va : Version) (n : Z) : Prop := {
  un_a : wf a; un_b : wf b; un_id : local_id a = i; un_ne : local_id b ≠ i;
  un_va : version a i = Some va; un_vb : version b i = Some (n, Alive);
}.

Lemma self_without_suspicion clock t rs i v : local_id t = i → version t i = Some v →
  suspicions i rs = [] → version (merge clock rs t) i = Some v.
Proof.
  intros <- Hv Hs. unfold version in *. apply fmap_Some in Hv as (e & He & ->).
  by rewrite (merge_self _ _ _ _ He), Hs.
Qed.

Lemma encounter_unnoticed i a b va n m : (va = (n, Alive) ∨ newer va (n, Alive)) →
  unnoticed i a b va n → unnoticed i (encounter m (a, b)).1 (encounter m (a, b)).2 va n.
Proof.
  intros Hle [Ha Hb Hi Hne Hva Hvb]. subst i.
  assert (∀ o1 o2, o1 = Some (n, Alive) → o2 = Some va → vsup o1 o2 = Some (n, Alive)) as Hsup.
  { intros o1 o2 -> ->. cbn. unfold vmax. destruct Hle as [->|Hle]; [by case_decide|]. case_decide as Hn; [|done].
    exfalso. apply (newer_irrefl va). by eapply newer_trans. }
  unfold encounter. destruct (first_asks m); cbn [fst snd].
  - pose proof (full_exchange_wf (asker_clock m) (answerer_env m) (asker_env m) a b Ha Hb) as Hwf.
    pose proof (full_exchange_version (asker_clock m) (answerer_env m) (asker_env m) a b (local_id a) Ha Hb) as Hv.
    pose proof (full_exchange_self (asker_clock m) (answerer_env m) (asker_env m) a b va.1 va.2 Ha Hb) as Hself.
    destruct (full_exchange _ _ _ a b) as [a' b']. destruct Hwf as (? & ? & Hla & Hlb), Hv as [Hv _].
    specialize (Hv (not_eq_sym Hne)). rewrite (Hsup _ _ Hvb Hva) in Hv.
    destruct va as [va1 va2].
    specialize (Hself Hva). rewrite Hv in Hself. split; cbn [fst snd]; rewrite ?Hla, ?Hlb; done.
  - pose proof (full_exchange_wf (asker_clock m) (answerer_env m) (asker_env m) b a Hb Ha) as Hwf.
    pose proof (full_exchange_version (asker_clock m) (answerer_env m) (asker_env m) b a (local_id a) Hb Ha) as Hv.
    rewrite full_exchange_eq in *. cbv zeta in *. cbn [fst snd] in *.
    destruct Hwf as (? & ? & Hlb & Hla), Hv as [_ Hv]. specialize (Hv (not_eq_sym Hne)).
    assert (version (touch (touch_clock (answerer_env m)) (local_id b)
      (merge (merge_clock (answerer_env m)) (view b) a)) (local_id a) = Some va) as Hva'.
    { rewrite touch_version. apply self_without_suspicion; [done|done|].
      rewrite view_suspicions by done. by rewrite Hvb. }
    rewrite (Hsup _ _ Hvb Hva') in Hv.
    split; cbn [fst snd]; rewrite ?Hla, ?Hlb; done.
Qed.

Lemma encounters_unnoticed i va n ms : (va = (n, Alive) ∨ newer va (n, Alive)) → ∀ a b,
  unnoticed i a b va n → unnoticed i (encounters ms (a, b)).1 (encounters ms (a, b)).2 va n.
Proof.
  intros Hle. induction ms as [|m ms IH]; intros a b Hu; [done|].
  cbn [encounters foldl]. pose proof (encounter_unnoticed i a b va n m Hle Hu) as Hm.
  destruct (encounter m (a, b)) as [a' b']. by apply IH.
Qed.

Lemma new_version now i seeds : version (new now i seeds) i =
  Some (0, if decide (seeds = []) then Alive else Joining).
Proof. unfold version. by rewrite new_self. Qed.

Lemma joining_version t i : local_id t = i → ∀ n s, version t i = Some (n, s) →
  is_self_joining t = bool_decide (s = Joining).
Proof.
  intros <- n s. unfold version, is_self_joining.
  destruct (members t !! local_id t) as [e|]; [|done]. by intros [= _ <-].
Qed.

Lemma alive_version t i n s : version t i = Some (n, s) → is_alive i t = bool_decide (s = Alive).
Proof.
  unfold version, is_alive. destruct (members t !! i) as [e|]; [|done]. by intros [= _ <-].
Qed.

Lemma mark_self_alive_version t i n s : local_id t = i → version t i = Some (n, s) →
  version (mark_self_alive t) i = Some (u64_add n 1, Alive).
Proof.
  intros <- Hv. unfold version, mark_self_alive in *.
  apply fmap_Some in Hv as (e & He & [= -> ->]). rewrite He. simpl. by rewrite lookup_insert_eq.
Qed.

Lemma set_unavailable now req node : is_self_joining (NodeService.membership_table node) = true →
  NodeService.set now req node = Returns (inl (NodeService.Unavailable "node is joining"), node).
Proof. intros Hj. unfold NodeService.set, NodeService.joining. by rewrite Hj. Qed.

(** The node that started again and a peer that thinks it alive. *)
Lemma new_unnoticed now i seeds b n : seeds ≠ [] → wf b → local_id b ≠ i →
  version b i = Some (n, Alive) → unnoticed i (new now i seeds) b (0, Joining) n.
Proof.
  intros Hs Hb Hne Hv. split; [apply table_new_wf|done|done|done| |done].
  rewrite new_version. by case_decide.
Qed.
End lemmas.

(** ** Properties *)

Section properties.
Context `{UuidLib} `{HashIter}.
Import MembershipTable Gossip Restart.

(** C36: a quick restart goes unnoticed: a node that starts again under the identifier
    by which a peer holds it for alive keeps joining, and refuses every write, while
    the peer, whatever exchanges the two have, goes on holding it for alive at the old
    incarnation, so it goes on being routed to.  And unless the old incarnation is 0,
    the news that it has finished joining is not taken in either. *)
Theorem restart_unnoticed (now : Z) (i : NodeId) (seeds : list NodeInfo) (b : MembershipTable)
    (n : Z) (ms ms' : list Encounter) :
  seeds ≠ [] → wf b → local_id b ≠ i → version b i = Some (n, Alive) →
  let '(a1, b1) := encounters ms (new now i seeds, b) in
  let '(a2, b2) := encounters ms' (mark_self_alive a1, b1) in
  version b1 i = Some (n, Alive) ∧ is_alive i b1 = true ∧
  version a1 i = Some (0, Joining) ∧
  (∀ node now' req, NodeService.membership_table node = a1 →
     NodeService.set now' req node = Returns (inl (NodeService.Unavailable "node is joining"), node)) ∧
  (1 ≤ n → version b2 i = Some (n, Alive) ∧ version a2 i = Some (1, Alive)).
Proof.
  intros Hs Hb Hne Hv. apply version_u64 in Hv as Hn; [|done].
  assert (newer (0, Joining) (n, Alive)) as Hle.
  { unfold newer. simpl. machine_unfold. destruct (decide (n = 0)) as [->|]; [right; lia|left; lia]. }
  pose proof (encounters_unnoticed i (0, Joining) n ms (or_intror Hle) _ _
    (new_unnoticed now i seeds b n Hs Hb Hne Hv)) as Hu.
  destruct (encounters ms (new now i seeds, b)) as [a1 b1]. cbn [fst snd] in Hu.
  destruct Hu as [Ha1 Hb1 Hi Hne1 Hva Hvb].
  assert (1 ≤ n → unnoticed i (mark_self_alive a1) b1 (1, Alive) n) as Hu'.
  { intros _. split; [by apply mark_self_alive_wf| done | | done | | done].
    - by rewrite (table_step_local_id _ _ (step_mark_self_alive a1)).
    - by rewrite (mark_self_alive_version _ _ _ _ Hi Hva). }
  pose proof (λ Hn1 Hle1, encounters_unnoticed i (1, Alive) n ms' Hle1 _ _ (Hu' Hn1)) as Hm.
  destruct (encounters ms' (mark_self_alive a1, b1)) as [a2 b2]. cbn [fst snd] in Hm.
  rewrite (alive_version _ _ _ _ Hvb). split; [done|]. split; [done|]. split; [done|]. split.
  - intros node now' req <-. apply set_unavailable. by rewrite (joining_version _ _ Hi _ _ Hva).
  - intros Hn1. destruct (Hm Hn1) as [_ _ _ _ Ha2 Hb2]; [|done].
    destruct (decide (n = 1)) as [->|]; [by left|right; left; simpl; lia].
Qed.

(** Further: a slow restart cuts the joining short: when a peer already suspects the node or
    holds it for dead, the first exchange that the restarted node begins makes it refute
    the claim, which also ends its joining: it accepts writes at once, though nothing has
    been transferred to it; and by the second exchange the peer holds it for alive. *)
Theorem restart_cuts_joining (m1 m2 : Encounter) (now : Z) (i : NodeId) (seeds : list NodeInfo)
    (b : MembershipTable) (n : Z) (s : MemberStatus) :
  seeds ≠ [] → wf b → local_id b ≠ i →
  version b i = Some (n, s) → s = Suspect ∨ s = Dead → n < u64_max →
  first_asks m1 = true → first_asks m2 = true →
  let '(a1, b1) := encounter m1 (new now i seeds, b) in
  let '(a2, b2) := encounter m2 (a1, b1) in
  is_self_joining (new now i seeds) = true ∧ is_self_joining a1 = false ∧
  version a1 i = Some (n + 1, Alive) ∧ is_alive i b1 = false ∧
  version b2 i = Some (n + 1, Alive) ∧ is_alive i b2 = true.
Proof.
  intros Hs Hb Hne Hv Hst Hn H1 H2. apply version_u64 in Hv as Hnu; [|done].
  assert (version (new now i seeds) i = Some (0, Joining)) as Hva by (rewrite new_version; by case_decide).
  rewrite (joining_version _ _ (eq_refl : local_id (new now i seeds) = i) _ _ Hva).
  unfold encounter. rewrite H1, H2. cbn [fst snd].
  pose proof (table_new_wf now i seeds) as Ha.
  pose proof (full_exchange_wf (asker_clock m1) (answerer_env m1) (asker_env m1) _ b Ha Hb) as Hwf.
  pose proof (full_exchange_version (asker_clock m1) (answerer_env m1) (asker_env m1) _ b i Ha Hb) as Hver.
  pose proof (full_exchange_self (asker_clock m1) (answerer_env m1) (asker_env m1) _ b _ _ Ha Hb Hva) as Hself.
  cbn [local_id new] in *.
  destruct (full_exchange (asker_clock m1) (answerer_env m1) (asker_env m1) (new now i seeds) b) as [a1 b1].
  destruct Hwf as (Ha1 & Hb1 & Hla & Hlb), Hver as [Hver _]. specialize (Hver (not_eq_sym Hne)).
  assert (version b1 i = Some (n, s)) as Hvb1.
  { rewrite Hver, Hv, Hva. cbn. unfold vmax, newer. simpl. rewrite decide_False; [done|].
    machine_unfold. destruct Hst as [-> | ->]; simpl; lia. }
  assert (version a1 i = Some (n + 1, Alive)) as Hva1.
  { rewrite Hself, Hvb1, <- (u64_add_small n 1) by (machine_unfold; lia).
    machine_unfold. destruct Hst as [-> | ->]; by rewrite decide_True by lia. }
  pose proof (exchange_agreed (asker_clock m2) (answerer_env m2) (asker_env m2) a1 b1 (n + 1) Alive
    Ha1 Hb1) as Hag.
  rewrite Hla, Hlb, Hvb1 in Hag.
  destruct (full_exchange (asker_clock m2) (answerer_env m2) (asker_env m2) a1 b1) as [a2 b2].
  destruct Hag as [_ Hvb2]; [done|done|by left|right; left; simpl; lia|].
  rewrite (joining_version _ _ Hla _ _ Hva1), (alive_version _ _ _ _ Hvb1), (alive_version _ _ _ _ Hvb2).
  repeat split; try done. apply bool_decide_eq_false. by destruct Hst as [-> | ->].
Qed.
End properties.

(** ** Witnesses: the peer [b], which node [a] meets again *)

Section witnesses.
#[local] Existing Instance Examples.string_uuid.
#[local] Existing Instance Examples.sorted_iter.
Import MembershipTable Gossip Restart.

Definition ex_encounter : Encounter := mkEncounter true (λ _, 0) ex_env ex_env.
Definition ex_b_alive : MembershipTable :=
  merge (λ _, 0) [(ex_id "a", "a:5001"%string, Alive, 1)] ex_b.

Lemma ex_b_alive_wf : wf ex_b_alive.
Proof.
  apply merge_wf; [apply table_new_wf|]. intros r Hr. apply list_elem_of_singleton in Hr as ->. by compute.
Qed.

Lemma restart_unnoticed_witness :
  let '(a1, b1) := encounters [ex_encounter] (ex_a, ex_b_alive) in
  let '(a2, b2) := encounters [ex_encounter] (mark_self_alive a1, b1) in
  is_alive (ex_id "a") b1 = true ∧ version a1 (ex_id "a") = Some (0, Joining) ∧
  version b2 (ex_id "a") = Some (1, Alive).
Proof.
  pose proof (restart_unnoticed 0 (ex_id "a") [mkNodeInfo (ex_id "p") "b:5001"] ex_b_alive 1
    [ex_encounter] [ex_encounter] ltac:(discriminate) ex_b_alive_wf ltac:(vm_compute; discriminate)
    ltac:(vm_compute; reflexivity)) as H.
  change (new 0 (ex_id "a") _) with ex_a in H.
  destruct (encounters [ex_encounter] (ex_a, ex_b_alive)) as [a1 b1].
  destruct (encounters [ex_encounter] (mark_self_alive a1, b1)) as [a2 b2].
  destruct H as (_ & H1 & H2 & _ & H3). split; [exact H1|]. split; [exact H2|].
  apply H3. lia.
Defined.

Lemma restart_cuts_joining_witness :
  let '(a1, b1) := encounter ex_encounter (ex_a, ex_b_suspects) in
  let '(a2, b2) := encounter ex_encounter (a1, b1) in
  is_self_joining ex_a = true ∧ is_self_joining a1 = false ∧
  version a1 (ex_id "a") = Some (3, Alive) ∧ is_alive (ex_id "a") b1 = false ∧
  version b2 (ex_id "a") = Some (3, Alive) ∧ is_alive (ex_id "a") b2 = true.
Proof.
  apply (restart_cuts_joining ex_encounter ex_encounter 0 (ex_id "a") [mkNodeInfo (ex_id "p") "b:5001"]
    ex_b_suspects 2 Dead).
  - discriminate.
  - exact ex_b_suspects_wf.
  - vm_compute. discriminate.
  - vm_compute. reflexivity.
  - by right.
  - by compute.
  - reflexivity.
  - reflexivity.
Defined.
End witnesses.
