(* ===== verification/Testing.v ===== *)
(** * What tests are made of

    The assertions, literals and clocks of the [#[test]] functions of the program,
    which [RespTests], [NodeTests] and [RouterTests] run in the model.  A test
    returns, or panics where an assertion fails. *)

From S2P Require Import Prelude Machine Text Common.
Local Open Scope Z_scope.
Local Open Scope outcome_scope.

Module Testing.
Definition assert (b : bool) : outcome unit :=
  if b then Returns () else Panics "assertion failed".
Definition unwrap {A} (o : option A) : outcome A :=
  match o with Some a => Returns a | None => Panics "called `Option::unwrap()` on a `None` value" end.
Definition panic {A} (msg : string) : outcome A := Panics msg.

(** A byte string literal whose lines end in [\r\n]. *)
Definition lines (ls : list string) : bytes := concat ((λ s, as_bytes s ++ CRLF) <$> ls).

(** [String::from_utf8_lossy]: what is not UTF-8 becomes U+FFFD. *)
Definition replacement : bytes := [byte_of 239; byte_of 191; byte_of 189].
Fixpoint lossy (fuel : nat) (l : bytes) : bytes :=
  match fuel, l with
  | S f, _ :: _ =>
      match utf8_step l with
      | inr n => take n l ++ lossy f (drop n l)
      | inl (Some n) => replacement ++ lossy f (drop n l)
      | inl None => replacement
      end
  | _, _ => []
  end.
Definition from_utf8_lossy (b : bytes) : string := of_bytes (lossy (length b) b).

Definition starts_with (prefix s : string) : bool := String.prefix prefix s.
Definition contains (needle s : string) : bool := bool_decide (is_Some (String.index 0 needle s)).

(** *** Time

    A test that reads the clock and sleeps.  Its state is the number of readings and
    sleeps so far and the time; [pace k] is the time that passes up to the [k]-th of
    them, besides what is slept. *)
Section timed.
Context (pace : nat → Duration).

Definition timed (A : Type) : Type := nat * Instant → outcome (A * (nat * Instant)).
Definition ret {A} (a : A) : timed A := λ s, Returns (a, s).
Definition bind {A B} (m : timed A) (f : A → timed B) : timed B :=
  λ s, let! (a, s') := m s in f a s'.
Definition lift {A} (o : outcome A) : timed A := λ s, let! a := o in Returns (a, s).
Definition Instant_now : timed Instant :=
  λ '(k, t), let t' := t + pace k in Returns (t', (S k, t')).
Definition sleep (d : Duration) : timed unit := λ '(k, t), Returns ((), (S k, t + d + pace k)).
(** A test started at time [t]. *)
Definition run {A} (t : Instant) (m : timed A) : outcome A :=
  let! (a, _) := m (0%nat, t) in Returns a.
End timed.

(** What a test that goes on from time [t] ends with: it returns, with a result and at a
    time that satisfy [Q]. *)
Definition wp {A} (m : timed A) (t : Instant) (Q : A → Instant → Prop) : Prop :=
  ∀ k, ∃ a k' t', m (k, t) = Returns (a, (k', t')) ∧ Q a t'.

(** A pace at which every access takes at most a millisecond. *)
Definition prompt (pace : nat → Z) : Prop := ∀ k, 0 ≤ pace k ≤ from_millis 1.

(** All of a list of tests. *)
Definition all_pass (tests : list (outcome unit)) : Prop := Forall (eq (Returns ())) tests.
End Testing.

(** ** An example of a hash function

    It spreads like a hash should, and is quick to evaluate. *)

Definition mix_hash (b : bytes) : Z :=
  as_u64 (fold_left (λ h c, 31 * h + byte_val c) b 7 * 11400714819323198485).
Lemma mix_hash_range b : is_u64 (mix_hash b).
Proof. apply as_u64_range. Qed.
Definition mix_xxh3 : Xxh3 := {| xxh3_64 := mix_hash; xxh3_64_range := mix_hash_range |}.

(** ** Lemmas *)

Section wp.
Import Testing.

Lemma wp_ret {A} (a : A) t (Q : A → Z → Prop) : Q a t → wp (ret a) t Q.
Proof. intros HQ k. by exists a, k, t. Qed.

Lemma wp_bind {A B} (m : timed A) (f : A → timed B) t Q :
  wp m t (λ a t', wp (f a) t' Q) → wp (bind m f) t Q.
Proof.
  intros Hm k. destruct (Hm k) as (a & k1 & t1 & Ha & Hf).
  destruct (Hf k1) as (b & k2 & t2 & Hb & HQ). exists b, k2, t2.
  unfold bind. by rewrite Ha.
Qed.

Lemma wp_lift {A} (o : outcome A) a t (Q : A → Z → Prop) : o = Returns a → Q a t → wp (lift o) t Q.
Proof. intros -> HQ k. by exists a, k, t. Qed.

Lemma wp_assert b t (Q : unit → Z → Prop) : b = true → Q () t → wp (lift (assert b)) t Q.
Proof. intros -> HQ. by eapply wp_lift. Qed.

Lemma wp_now pace t (Q : Z → Z → Prop) : prompt pace →
  (∀ t', t ≤ t' ≤ t + from_millis 1 → Q t' t') → wp (Instant_now pace) t Q.
Proof.
  intros Hp HQ k. exists (t + pace k), (S k), (t + pace k). split; [done|].
  apply HQ. specialize (Hp k). lia.
Qed.

Lemma wp_sleep pace d t (Q : unit → Z → Prop) : prompt pace →
  (∀ t', t + d ≤ t' ≤ t + d + from_millis 1 → Q () t') → wp (sleep pace d) t Q.
Proof.
  intros Hp HQ k. exists (), (S k), (t + d + pace k). split; [done|].
  apply HQ. specialize (Hp k). lia.
Qed.

Lemma wp_mono {A} (m : timed A) t (Q Q' : A → Z → Prop) :
  wp m t Q → (∀ a t', Q a t' → Q' a t') → wp m t Q'.
Proof. intros Hm HQ k. destruct (Hm k) as (a & k' & t' & Ha & Hq). exists a, k', t'. auto. Qed.

Lemma wp_run {A} (m : timed A) t (Q : A → Z → Prop) : wp m t Q → ∃ a t', run t m = Returns a ∧ Q a t'.
Proof.
  intros Hm. destruct (Hm 0%nat) as (a & k & t' & Ha & HQ). exists a, t'. unfold run. by rewrite Ha.
Qed.
End wp.

Notation "'let*' x ':=' m 'in' k" := (Testing.bind m (λ x, k))
  (at level 200, x pattern, right associativity) : outcome_scope.
