(* ===== verification/RespTests.v ===== *)
(** * The unit tests of the RESP modules

    The [#[test]] functions of [crates/node/src/resp/parser.rs], [encoder.rs] and
    [server.rs], run in the model: a test returns, or panics where an assertion
    fails.  They check the definitions of [Parser], [Encoder] and [RespServer]
    against what the authors of the program expect of it. *)

From S2P Require Import Prelude Machine Text Store Parser Encoder RespServer Testing.
Local Open Scope Z_scope.
Local Open Scope outcome_scope.

(** ** parser.rs *)

Module ParserTests.
Import Parser Testing.

Section parser_tests.
Context `{RespLayout}.

Definition test_parse_simple_string : outcome unit :=
  let input := lines ["+OK"] in
  let! r := parse_resp input in
  match r with
  | Complete (SimpleString s) consumed =>
      let! _ := assert (s =? "OK")%string in assert (consumed =? 5)
  | _ => panic "expected SimpleString"
  end.

Definition test_parse_error : outcome unit :=
  let input := lines ["-ERR test"] in
  let! r := parse_resp input in
  match r with
  | Complete (Error s) consumed =>
      let! _ := assert (s =? "ERR test")%string in assert (consumed =? 11)
  | _ => panic "expected Error"
  end.

Definition test_parse_integer : outcome unit :=
  let input := lines [":42"] in
  let! r := parse_resp input in
  match r with
  | Complete (Integer n) consumed => let! _ := assert (n =? 42) in assert (consumed =? 5)
  | _ => panic "expected Integer"
  end.

Definition test_parse_negative_integer : outcome unit :=
  let input := lines [":-1"] in
  let! r := parse_resp input in
  match r with
  | Complete (Integer n) _ => assert (n =? -1)
  | _ => panic "expected Integer(-1)"
  end.

Definition test_parse_bulk_string : outcome unit :=
  let input := lines ["$5"; "hello"] in
  let! r := parse_resp input in
  match r with
  | Complete (BulkString data) consumed =>
      let! _ := assert (bool_decide (data = as_bytes "hello")) in assert (consumed =? 11)
  | _ => panic "expected BulkString"
  end.

Definition test_parse_empty_bulk_string : outcome unit :=
  let input := lines ["$0"; ""] in
  let! r := parse_resp input in
  match r with
  | Complete (BulkString data) consumed =>
      let! _ := assert (bool_decide (data = [])) in assert (consumed =? 6)
  | _ => panic "expected empty BulkString"
  end.

Definition test_parse_null_bulk : outcome unit :=
  let input := lines ["$-1"] in
  let! r := parse_resp input in
  match r with
  | Complete Null consumed => assert (consumed =? 5)
  | _ => panic "expected Null"
  end.

Definition test_parse_null_array : outcome unit :=
  let input := lines ["*-1"] in
  let! r := parse_resp input in
  match r with
  | Complete Null consumed => assert (consumed =? 5)
  | _ => panic "expected Null array"
  end.

Definition test_parse_empty_array : outcome unit :=
  let input := lines ["*0"] in
  let! r := parse_resp input in
  match r with
  | Complete (Array items) consumed =>
      let! _ := assert (match items with [] => true | _ => false end) in assert (consumed =? 4)
  | _ => panic "expected empty Array"
  end.

(** [assert_eq!(v, RespValue::BulkString(..))] and the like *)
Definition is_bulk (data : bytes) (v : option RespValue) : bool :=
  match v with Some (BulkString d) => bool_decide (d = data) | _ => false end.
Definition is_integer (n : Z) (v : option RespValue) : bool :=
  match v with Some (Integer m) => m =? n | _ => false end.

Definition test_parse_get_command : outcome unit :=
  let input := lines ["*2"; "$3"; "GET"; "$3"; "foo"] in
  let! r := parse_resp input in
  match r with
  | Complete (Array items) _ =>
      let! _ := assert (length items =? 2)%nat in
      let! _ := assert (is_bulk (as_bytes "GET") (items !! 0%nat)) in
      assert (is_bulk (as_bytes "foo") (items !! 1%nat))
  | _ => panic "expected Array"
  end.

(** The closure of the [map], over all the items. *)
Fixpoint bulk_strings (items : list RespValue) : outcome (list string) :=
  match items with
  | [] => Returns []
  | BulkString d :: items' =>
      let! strs := bulk_strings items' in Returns (from_utf8_lossy d :: strs)
  | _ => panic "expected BulkString"
  end.

Definition test_parse_set_command_with_ex : outcome unit :=
  let input := lines ["*5"; "$3"; "SET"; "$3"; "foo"; "$3"; "bar"; "$2"; "EX"; "$2"; "60"] in
  let! r := parse_resp input in
  match r with
  | Complete (Array items) _ =>
      let! _ := assert (length items =? 5)%nat in
      let! strs := bulk_strings items in
      assert (bool_decide (strs = ["SET"; "foo"; "bar"; "EX"; "60"]%string))
  | _ => panic "expected Array"
  end.

Definition expect_incomplete (input : bytes) : outcome unit :=
  let! r := parse_resp input in
  match r with Incomplete => Returns () | _ => panic "expected Incomplete" end.

Definition test_parse_incomplete_simple_string : outcome unit :=
  expect_incomplete (as_bytes "+OK").
Definition test_parse_incomplete_bulk_string : outcome unit :=
  expect_incomplete (lines ["$5"] ++ as_bytes "hel").
Definition test_parse_incomplete_array : outcome unit :=
  expect_incomplete (lines ["*2"; "$3"; "GET"]).
Definition test_parse_empty_buffer : outcome unit := expect_incomplete (as_bytes "").

Definition test_parse_mixed_types_array : outcome unit :=
  let input := lines ["*2"; "$3"; "foo"; ":100"] in
  let! r := parse_resp input in
  match r with
  | Complete (Array items) _ =>
      let! _ := assert (length items =? 2)%nat in
      let! _ := assert (is_bulk (as_bytes "foo") (items !! 0%nat)) in
      assert (is_integer 100 (items !! 1%nat))
  | _ => panic "expected Array"
  end.

Definition test_bytes_consumed_exact : outcome unit :=
  let input := lines ["+OK"; "+NO"] in
  let! r := parse_resp input in
  match r with
  | Complete (SimpleString s) consumed =>
      let! _ := assert (s =? "OK")%string in
      let! _ := assert (consumed =? 5) in
      let! rest := slice_from input consumed in
      let! r2 := parse_resp rest in
      match r2 with
      | Complete (SimpleString s2) _ => assert (s2 =? "NO")%string
      | _ => panic "expected second SimpleString"
      end
  | _ => panic "expected SimpleString"
  end.

Definition tests : list (outcome unit) := [
  test_parse_simple_string; test_parse_error; test_parse_integer; test_parse_negative_integer;
  test_parse_bulk_string; test_parse_empty_bulk_string; test_parse_null_bulk; test_parse_null_array;
  test_parse_empty_array; test_parse_get_command; test_parse_set_command_with_ex;
  test_parse_incomplete_simple_string; test_parse_incomplete_bulk_string;
  test_parse_incomplete_array; test_parse_empty_buffer; test_parse_mixed_types_array;
  test_bytes_consumed_exact ].
End parser_tests.
End ParserTests.

(** ** encoder.rs *)

Module EncoderTests.
Import Parser Encoder Testing.

Definition test_encode_simple_string : outcome unit :=
  assert (bool_decide (encode_simple_string "OK" = lines ["+OK"])).
Definition test_encode_error : outcome unit :=
  assert (bool_decide (encode_error "ERR something" = lines ["-ERR something"])).
Definition test_encode_integer : outcome unit :=
  let! _ := assert (bool_decide (encode_integer 42 = lines [":42"])) in
  let! _ := assert (bool_decide (encode_integer (-1) = lines [":-1"])) in
  assert (bool_decide (encode_integer 0 = lines [":0"])).
Definition test_encode_bulk_string : outcome unit :=
  let! _ := assert (bool_decide (encode_bulk_string (as_bytes "hello") = lines ["$5"; "hello"])) in
  assert (bool_decide (encode_bulk_string (as_bytes "") = lines ["$0"; ""])).
Definition test_encode_null : outcome unit := assert (bool_decide (encode_null = lines ["$-1"])).
Definition test_encode_array : outcome unit :=
  let items := [BulkString (as_bytes "GET"); BulkString (as_bytes "foo")] in
  let encoded := encode_array items in
  assert (bool_decide (encoded = lines ["*2"; "$3"; "GET"; "$3"; "foo"])).
Definition test_encode_empty_array : outcome unit :=
  let items : list RespValue := [] in
  let encoded := encode_array items in
  assert (bool_decide (encoded = lines ["*0"])).

Definition tests : list (outcome unit) := [
  test_encode_simple_string; test_encode_error; test_encode_integer; test_encode_bulk_string;
  test_encode_null; test_encode_array; test_encode_empty_array ].
End EncoderTests.

(** ** server.rs

    [clock i j] is the [j]-th time read by the [i]-th command of a test, and
    [created] the time at which its store was made. *)

Module ServerTests.
Import Parser Encoder RespServer Testing.

Definition make_store (created : Z) : CacheStore.CacheStore := CacheStore.new created.
Definition array (parts : list string) : RespValue :=
  Array ((λ s, BulkString (as_bytes s)) <$> parts).

Section server_tests.
Context `{UnicodeUpper} (created : Z) (clock : nat → nat → Z).

(** [assert_eq!(resp, ..)] *)
Definition assert_resp (resp : bytes) (expected : list string) : outcome unit :=
  assert (bool_decide (resp = lines expected)).

Definition test_ping : outcome unit :=
  let store := make_store created in
  let cmd := array ["PING"] in
  let! (resp, _) := handle_command (clock 0%nat) cmd store in
  assert_resp resp ["+PONG"].

Definition test_ping_with_message : outcome unit :=
  let store := make_store created in
  let cmd := array ["PING"; "hello"] in
  let! (resp, _) := handle_command (clock 0%nat) cmd store in
  assert_resp resp ["$5"; "hello"].

Definition test_set_and_get : outcome unit :=
  let store := make_store created in
  let set_cmd := array ["SET"; "mykey"; "myvalue"] in
  let! (resp, store) := handle_command (clock 0%nat) set_cmd store in
  let! _ := assert_resp resp ["+OK"] in
  let get_cmd := array ["GET"; "mykey"] in
  let! (resp, _) := handle_command (clock 1%nat) get_cmd store in
  assert_resp resp ["$7"; "myvalue"].

Definition test_set_with_ex : outcome unit :=
  let store := make_store created in
  let set_cmd := array ["SET"; "k"; "v"; "EX"; "10"] in
  let! (resp, store) := handle_command (clock 0%nat) set_cmd store in
  let! _ := assert_resp resp ["+OK"] in
  let ttl_cmd := array ["TTL"; "k"] in
  let! (resp, _) := handle_command (clock 1%nat) ttl_cmd store in
  let resp_str := from_utf8_lossy resp in
  assert (starts_with ":" resp_str).

Definition test_set_with_px : outcome unit :=
  let store := make_store created in
  let set_cmd := array ["SET"; "k"; "v"; "PX"; "5000"] in
  let! (resp, _) := handle_command (clock 0%nat) set_cmd store in
  assert_resp resp ["+OK"].

Definition test_get_missing : outcome unit :=
  let store := make_store created in
  let get_cmd := array ["GET"; "nokey"] in
  let! (resp, _) := handle_command (clock 0%nat) get_cmd store in
  assert_resp resp ["$-1"].

Definition test_del_existing : outcome unit :=
  let store := make_store created in
  let! (_, store) := handle_command (clock 0%nat) (array ["SET"; "k"; "v"]) store in
  let! (resp, store) := handle_command (clock 1%nat) (array ["DEL"; "k"]) store in
  let! _ := assert_resp resp [":1"] in
  let! (resp, _) := handle_command (clock 2%nat) (array ["GET"; "k"]) store in
  assert_resp resp ["$-1"].

Definition test_del_missing : outcome unit :=
  let store := make_store created in
  let! (resp, _) := handle_command (clock 0%nat) (array ["DEL"; "nokey"]) store in
  assert_resp resp [":0"].

Definition test_exists : outcome unit :=
  let store := make_store created in
  let! (_, store) := handle_command (clock 0%nat) (array ["SET"; "k"; "v"]) store in
  let! (resp, store) := handle_command (clock 1%nat) (array ["EXISTS"; "k"]) store in
  let! _ := assert_resp resp [":1"] in
  let! (resp, _) := handle_command (clock 2%nat) (array ["EXISTS"; "nokey"]) store in
  assert_resp resp [":0"].

Definition test_ttl_no_key : outcome unit :=
  let store := make_store created in
  let! (resp, _) := handle_command (clock 0%nat) (array ["TTL"; "nokey"]) store in
  assert_resp resp [":-2"].

Definition test_ttl_no_expiry : outcome unit :=
  let store := make_store created in
  let! (_, store) := handle_command (clock 0%nat) (array ["SET"; "k"; "v"]) store in
  let! (resp, _) := handle_command (clock 1%nat) (array ["TTL"; "k"]) store in
  assert_resp resp [":-1"].

Definition test_expire : outcome unit :=
  let store := make_store created in
  let! (_, store) := handle_command (clock 0%nat) (array ["SET"; "k"; "v"]) store in
  let! (resp, store) := handle_command (clock 1%nat) (array ["EXPIRE"; "k"; "60"]) store in
  let! _ := assert_resp resp [":1"] in
  let! (resp, _) := handle_command (clock 2%nat) (array ["TTL"; "k"]) store in
  let resp_str := from_utf8_lossy resp in
  assert (starts_with ":" resp_str).

Definition test_expire_missing_key : outcome unit :=
  let store := make_store created in
  let! (resp, _) := handle_command (clock 0%nat) (array ["EXPIRE"; "nokey"; "60"]) store in
  assert_resp resp [":0"].

Definition test_unknown_command : outcome unit :=
  let store := make_store created in
  let! (resp, _) := handle_command (clock 0%nat) (array ["FOOBAR"]) store in
  assert_resp resp ["-ERR unknown command"].

Definition test_case_insensitive : outcome unit :=
  let store := make_store created in
  let! (_, store) := handle_command (clock 0%nat) (array ["set"; "k"; "v"]) store in
  let! (resp, _) := handle_command (clock 1%nat) (array ["get"; "k"]) store in
  assert_resp resp ["$1"; "v"].

Definition test_wrong_arg_count : outcome unit :=
  let store := make_store created in
  let! (resp, _) := handle_command (clock 0%nat) (array ["SET"; "only_key"]) store in
  assert (contains "wrong number of arguments" (from_utf8_lossy resp)).

Definition test_echo : outcome unit :=
  let store := make_store created in
  let! (resp, _) := handle_command (clock 0%nat) (array ["ECHO"; "hello"]) store in
  assert_resp resp ["$5"; "hello"].

Definition tests : list (outcome unit) := [
  test_ping; test_ping_with_message; test_set_and_get; test_set_with_ex; test_set_with_px;
  test_get_missing; test_del_existing; test_del_missing; test_exists; test_ttl_no_key;
  test_ttl_no_expiry; test_expire; test_expire_missing_key; test_unknown_command;
  test_case_insensitive; test_wrong_arg_count; test_echo ].
End server_tests.
End ServerTests.

(** ** Lemmas *)

Section lemmas.
Import Parser Encoder RespServer Testing ServerTests.

(** A number is printed as digits after the colon, whatever it is. *)
Lemma encode_integer_colon n : starts_with ":" (from_utf8_lossy (encode_integer n)) = true.
Proof.
  unfold encode_integer, starts_with, from_utf8_lossy. cbn [length lossy utf8_step].
  change (byte_val ":"%char <? 128) with true. cbn [app take drop].
  generalize (take 0 (int_to_string n ++ CRLF) ++ lossy (length (int_to_string n ++ CRLF))
    (drop 0 (int_to_string n ++ CRLF))). by intros [|c l].
Qed.

(** The remaining time of a key is a number. *)
Lemma ttl_is_integer `{UnicodeUpper} clock store : ∃ n st,
  handle_command clock (array ["TTL"; "k"]) store = Returns (encode_integer n, st).
Proof.
  change (∃ n st, Returns (cmd_ttl clock [BulkString (as_bytes "TTL"); BulkString (as_bytes "k")] store) =
    Returns (encode_integer n, st)).
  unfold cmd_ttl. change (extract_str (BulkString (as_bytes "k"))) with (Some "k"%string). cbv iota.
  destruct (CacheStore.exists_ _ _ _) as [[] st]; cbn [negb]; [|by eauto].
  destruct (CacheStore.ttl _ _ _); by eauto.
Qed.

Lemma ttl_starts_with_colon `{UnicodeUpper} clock store :
  (let! (resp, _) := handle_command clock (array ["TTL"; "k"]) store in
   let resp_str := from_utf8_lossy resp in assert (starts_with ":" resp_str)) = Returns ().
Proof.
  destruct (ttl_is_integer clock store) as (n & st & ->). cbn [outcome_bind].
  by rewrite encode_integer_colon.
Qed.
Lemma assert_resp_refl expected : assert_resp (lines expected) expected = Returns ().
Proof. unfold assert_resp. by rewrite bool_decide_eq_true_2. Qed.

Lemma set_plain `{UnicodeUpper} clock store : ∃ st,
  handle_command clock (array ["SET"; "k"; "v"]) store = Returns (lines ["+OK"], st) ∧
  CacheStore.data st !! "k" = Some (CacheStore.mkCacheEntry (as_bytes "v") None).
Proof.
  exists (CacheStore.with_data store
    (<["k" := CacheStore.mkCacheEntry (as_bytes "v") None]> (CacheStore.data store))).
  split; [reflexivity|]. apply lookup_insert_eq.
Qed.

(** The commands with a time that the tests use, one step of the clock each. *)
Lemma set_with_time `{UnicodeUpper} clock store opt n d :
  (opt = "EX" ∧ n = "10" ∧ d = from_secs 10 ∨ opt = "PX" ∧ n = "5000" ∧ d = from_millis 5000)%string →
  clock 0%nat + d < instant_limit →
  ∃ st, handle_command clock (array ["SET"; "k"; "v"; opt; n]) store = Returns (lines ["+OK"], st).
Proof.
  intros Ho Hd.
  assert (handle_command clock (array ["SET"; "k"; "v"; opt; n]) store =
    let! st := CacheStore.set (clock 0%nat) "k" (as_bytes "v") (Some d) store in
    Returns (encode_simple_string "OK", st)) as ->.
  { destruct Ho as [(-> & -> & ->)|(-> & -> & ->)]; reflexivity. }
  unfold CacheStore.set, CacheStore.expiry_of, instant_add. rewrite (proj2 (Z.ltb_lt _ _)) by done.
  cbn [outcome_bind]. eexists. reflexivity.
Qed.

Lemma expire_present `{UnicodeUpper} clock store e :
  CacheStore.data store !! "k" = Some e → clock 0%nat + from_secs 60 < instant_limit →
  ∃ st, handle_command clock (array ["EXPIRE"; "k"; "60"]) store = Returns (lines [":1"], st).
Proof.
  intros He Hd.
  assert (handle_command clock (array ["EXPIRE"; "k"; "60"]) store =
    let! (ok, st) := CacheStore.expire (clock 0%nat) "k" (from_secs 60) store in
    Returns (encode_integer (if ok then 1 else 0), st)) as -> by reflexivity.
  unfold CacheStore.expire. rewrite He. unfold instant_add. rewrite (proj2 (Z.ltb_lt _ _)) by done.
  cbn [outcome_bind]. eexists. reflexivity.
Qed.
(** The tests with an expiry: the times they add to stay below the end of time. *)
Lemma expiry_tests `{UnicodeUpper} created clock :
  (∀ i j, clock i j + from_secs 60 < instant_limit) →
  test_set_with_ex created clock = Returns () ∧ test_set_with_px created clock = Returns () ∧
  test_expire created clock = Returns ().
Proof.
  intros Hc.
  assert (∀ i d, 0 ≤ d ≤ from_secs 60 → clock i 0%nat + d < instant_limit) as Hd.
  { intros i d Hd. specialize (Hc i 0%nat). lia. }
  unfold test_set_with_ex, test_set_with_px, test_expire. split; [|split].
  - edestruct (set_with_time (clock 0%nat) (make_store created) "EX" "10" (from_secs 10))
      as (st & ->); [by left|by apply Hd|].
    cbn [outcome_bind]. rewrite assert_resp_refl. cbn [outcome_bind]. apply ttl_starts_with_colon.
  - edestruct (set_with_time (clock 0%nat) (make_store created) "PX" "5000" (from_millis 5000))
      as (st & ->); [by right|by apply Hd|].
    cbn [outcome_bind]. apply assert_resp_refl.
  - edestruct (set_plain (clock 0%nat) (make_store created)) as (st & -> & Hst).
    cbn [outcome_bind].
    edestruct (expire_present (clock 1%nat) st) as (st' & ->); [done|by apply Hd|].
    cbn [outcome_bind]. rewrite assert_resp_refl. cbn [outcome_bind]. apply ttl_starts_with_colon.
Qed.
End lemmas.

(** ** Properties *)

Section properties.
Context `{UnicodeUpper}.
Import Testing.

(** Further: the unit tests of the RESP modules pass in the model: the parser's and the
    encoder's, and the commands' at every pace of the clock that stays 60 s below the
    end of time. *)
Theorem resp_unit_tests (created : Z) (clock : nat → nat → Z) :
  (∀ i j, clock i j + from_secs 60 < instant_limit) →
  all_pass (@ParserTests.tests ex_layout) ∧ all_pass EncoderTests.tests ∧
  all_pass (ServerTests.tests created clock).
Proof.
  intros Hc. split; [|split].
  - unfold all_pass, ParserTests.tests. repeat constructor; vm_compute; reflexivity.
  - unfold all_pass, EncoderTests.tests. repeat constructor; vm_compute; reflexivity.
  - destruct (expiry_tests created clock Hc) as (Hex & Hpx & Hexp).
    unfold all_pass, ServerTests.tests. rewrite Hex, Hpx, Hexp.
    repeat (apply Forall_cons_2; [vm_compute; reflexivity|]). constructor.
Qed.
End properties.

(** ** Witnesses *)

Section witnesses.
Import Testing.

Lemma resp_unit_tests_witness :
  all_pass (@ParserTests.tests ex_layout) ∧ all_pass EncoderTests.tests ∧
  all_pass (@ServerTests.tests ex_upper 0 (λ _ _, from_secs 1)).
Proof.
  apply (@resp_unit_tests ex_upper 0 (λ _ _, from_secs 1)).
  intros _ _. vm_compute. reflexivity.
Defined.
End witnesses.
