(* ===== verification/NodeTests.v ===== *)
(** * The unit tests of the node

    The [#[test]] functions of [crates/node/src/cache/store.rs],
    [crates/node/src/gossip/state.rs] and [crates/node/src/rebalance/mod.rs], run in
    the model.  The tests of the store run at any pace of the machine. *)

From S2P Require Import Prelude Machine Text Common BTree Ring Store Membership NodeService Rebalance Testing.
Local Open Scope Z_scope.
Local Open Scope outcome_scope.

(** ** store.rs *)

Module StoreTests.
Import Testing.

Section store_tests.
Context `{HashIter} (pace : nat → Z).

(** The operations of the store, each at the time it runs at. *)
Definition new : timed CacheStore.CacheStore :=
  let* now := Instant_now pace in ret (CacheStore.new now).
Definition set (key : string) (v : bytes) (ttl : option Z) (st : CacheStore.CacheStore)
    : timed CacheStore.CacheStore :=
  let* now := Instant_now pace in lift (CacheStore.set now key v ttl st).
Definition get (key : string) (st : CacheStore.CacheStore)
    : timed (option bytes * CacheStore.CacheStore) :=
  let* now := Instant_now pace in ret (CacheStore.get now key st).
Definition delete (key : string) (st : CacheStore.CacheStore)
    : timed (bool * CacheStore.CacheStore) := ret (CacheStore.delete key st).
Definition check_exists (key : string) (st : CacheStore.CacheStore)
    : timed (bool * CacheStore.CacheStore) :=
  let* now := Instant_now pace in ret (CacheStore.exists_ now key st).
Definition do_expire (key : string) (d : Z) (st : CacheStore.CacheStore)
    : timed (bool * CacheStore.CacheStore) :=
  let* now := Instant_now pace in lift (CacheStore.expire now key d st).
Definition read_ttl (key : string) (st : CacheStore.CacheStore) : timed (option Z) :=
  let* now := Instant_now pace in ret (CacheStore.ttl now key st).
Definition read_entries (st : CacheStore.CacheStore)
    : timed (list (string * bytes * option Z)) :=
  let* now := Instant_now pace in ret (CacheStore.entries_for_transfer now st).
Definition do_set_from_transfer (key : string) (v : bytes) (remaining_ms : option Z)
    (st : CacheStore.CacheStore) : timed CacheStore.CacheStore :=
  let* now := Instant_now pace in lift (CacheStore.set_from_transfer now key v remaining_ms st).

Definition is_some {A} (o : option A) : bool := match o with Some _ => true | None => false end.
Definition is_none {A} (o : option A) : bool := negb (is_some o).

Definition test_set_get_roundtrip : timed unit :=
  let* store := new in
  let* store := set "hello" (as_bytes "world") None store in
  let* (r, _) := get "hello" store in
  let* val := lift (unwrap r) in
  lift (assert (bool_decide (val = as_bytes "world"))).

Definition test_get_nonexistent : timed unit :=
  let* store := new in
  let* (r, _) := get "missing" store in
  lift (assert (is_none r)).

Definition test_delete_removes_key : timed unit :=
  let* store := new in
  let* store := set "key" (as_bytes "val") None store in
  let* (b, store) := delete "key" store in
  let* _ := lift (assert b) in
  let* (r, _) := get "key" store in
  lift (assert (is_none r)).

Definition test_ttl_expiry : timed unit :=
  let* store := new in
  let* store := set "ttl_key" (as_bytes "ttl_val") (Some (from_millis 50)) store in
  let* (r, store) := get "ttl_key" store in
  let* _ := lift (assert (is_some r)) in
  let* _ := sleep pace (from_millis 100) in
  let* (r, _) := get "ttl_key" store in
  lift (assert (is_none r)).

Definition test_no_ttl : timed unit :=
  let* store := new in
  let* store := set "persist" (as_bytes "forever") None store in
  let* _ := sleep pace (from_millis 50) in
  let* (r, _) := get "persist" store in
  lift (assert (is_some r)).

Definition test_overwrite : timed unit :=
  let* store := new in
  let* store := set "key" (as_bytes "v1") None store in
  let* store := set "key" (as_bytes "v2") None store in
  let* (r, _) := get "key" store in
  let* val := lift (unwrap r) in
  lift (assert (bool_decide (val = as_bytes "v2"))).

Definition test_exists : timed unit :=
  let* store := new in
  let* store := set "e" (as_bytes "x") None store in
  let* (b, store) := check_exists "e" store in
  let* _ := lift (assert b) in
  let* (_, store) := delete "e" store in
  let* (b, _) := check_exists "e" store in
  lift (assert (negb b)).

Definition test_expire : timed unit :=
  let* store := new in
  let* store := set "exp" (as_bytes "val") None store in
  let* (b, store) := do_expire "exp" (from_millis 50) store in
  let* _ := lift (assert b) in
  let* (b, store) := check_exists "exp" store in
  let* _ := lift (assert b) in
  let* _ := sleep pace (from_millis 100) in
  let* (b, _) := check_exists "exp" store in
  lift (assert (negb b)).

Definition test_ttl_remaining : timed unit :=
  let* store := new in
  let* store := set "ttl_rem" (as_bytes "val") (Some (from_secs 1)) store in
  let* r := read_ttl "ttl_rem" store in
  let* remaining := lift (unwrap r) in
  let* _ := lift (assert (from_millis 900 <? remaining)) in
  lift (assert (remaining <=? from_secs 1)).

(** The checks of the loop over the entries. *)
Fixpoint check_entries (entries : list (string * bytes * option Z)) : outcome unit :=
  match entries with
  | [] => Returns ()
  | (key, _, expires_at_ms) :: entries' =>
      let! _ :=
        if (key =? "no_ttl")%string then assert (is_none expires_at_ms)
        else if (key =? "with_ttl")%string then
          let! ms := unwrap expires_at_ms in
          assert ((59000 <? ms) && (ms <=? 60000))
        else Returns () in
      check_entries entries'
  end.

(** [keys.contains(..)] *)
Definition keys_contains (key : string) (keys : list string) : bool :=
  existsb (String.eqb key) keys.

Definition test_entries_for_transfer : timed unit :=
  let* store := new in
  let* store := set "no_ttl" (as_bytes "v1") None store in
  let* store := set "with_ttl" (as_bytes "v2") (Some (from_secs 60)) store in
  let* store := set "expired" (as_bytes "v3") (Some (from_millis 1)) store in
  let* _ := sleep pace (from_millis 10) in
  let* entries := read_entries store in
  let* _ := lift (assert (length entries =? 2)%nat) in
  let keys := (λ e, e.1.1) <$> entries in
  let* _ := lift (assert (keys_contains "no_ttl" keys)) in
  let* _ := lift (assert (keys_contains "with_ttl" keys)) in
  let* _ := lift (assert (negb (keys_contains "expired" keys))) in
  lift (check_entries entries).

Definition test_set_from_transfer_with_ttl : timed unit :=
  let* store := new in
  let* store := do_set_from_transfer "transferred" (as_bytes "data") (Some 5000) store in
  let* (r, store) := get "transferred" store in
  let* val := lift (unwrap r) in
  let* _ := lift (assert (bool_decide (val = as_bytes "data"))) in
  let* r := read_ttl "transferred" store in
  let* remaining := lift (unwrap r) in
  let* _ := lift (assert (from_millis 4000 <? remaining)) in
  lift (assert (remaining <=? from_millis 5000)).

Definition test_set_from_transfer_no_ttl : timed unit :=
  let* store := new in
  let* store := do_set_from_transfer "permanent" (as_bytes "data") None store in
  let* (r, store) := get "permanent" store in
  let* _ := lift (assert (is_some r)) in
  let* r := read_ttl "permanent" store in
  lift (assert (is_none r)).

Definition test_set_from_transfer_expired_skipped : timed unit :=
  let* store := new in
  let* store := do_set_from_transfer "already_dead" (as_bytes "data") (Some 0) store in
  let* (r, _) := get "already_dead" store in
  lift (assert (is_none r)).

Definition test_epoch_conversion : timed unit :=
  let* store := new in
  let* now := Instant_now pace in
  let ms := CacheStore.instant_to_epoch_ms store now in
  let* back := lift (CacheStore.epoch_ms_to_instant store ms) in
  let diff := saturating_duration_since back now in
  lift (assert (diff <? from_millis 10)).

Definition tests : list (timed unit) := [
  test_set_get_roundtrip; test_get_nonexistent; test_delete_removes_key; test_ttl_expiry;
  test_no_ttl; test_overwrite; test_exists; test_expire; test_ttl_remaining;
  test_entries_for_transfer; test_set_from_transfer_with_ttl; test_set_from_transfer_no_ttl;
  test_set_from_transfer_expired_skipped; test_epoch_conversion ].
End store_tests.
End StoreTests.

(** ** state.rs

    [clock] gives the times the tests read; the tests do not look at them. *)

Module MembershipTests.
Import Testing MembershipTable.

Section membership_tests.
Context `{UuidLib} `{HashIter} (clock : nat → Z).

Definition parse (s : string) : outcome NodeId := unwrap (NodeId_parse s).
Definition id1 : string := "11111111-1111-1111-1111-111111111111".
Definition id2 : string := "22222222-2222-2222-2222-222222222222".
Definition id3 : string := "33333333-3333-3333-3333-333333333333".
Definition id4 : string := "44444444-4444-4444-4444-444444444444".

Definition new (local_id : NodeId) (seeds : list NodeInfo) : MembershipTable :=
  MembershipTable.new (clock 0%nat) local_id seeds.
Definition do_merge (rs : list RemoteEntry) (t : MembershipTable) : MembershipTable :=
  MembershipTable.merge clock rs t.
Definition count {A} (l : list A) (n : nat) : outcome unit := assert (length l =? n)%nat.

(** The seeds most tests begin with. *)
Definition two_seeds (local_id peer_id : NodeId) : list NodeInfo :=
  [mkNodeInfo local_id "127.0.0.1:5001"; mkNodeInfo peer_id "127.0.0.1:5002"].

Definition test_membership_initial : outcome unit :=
  let! local_id := parse id1 in
  let! peer := parse id2 in
  let table := new local_id (two_seeds local_id peer) in
  let! _ := assert (is_self_joining table) in
  let! _ := assert (is_alive peer table) in
  let! _ := count (alive_peers table) 1 in
  count (all_members table) 2.

Definition test_mark_suspect : outcome unit :=
  let! local_id := parse id1 in
  let! peer_id := parse id2 in
  let table := new local_id (two_seeds local_id peer_id) in
  let (b, table) := mark_suspect peer_id table in
  let! _ := assert b in
  let! _ := assert (negb (is_alive peer_id table)) in
  let (b, table) := mark_suspect peer_id table in
  assert (negb b).

Definition test_mark_dead : outcome unit :=
  let! local_id := parse id1 in
  let! peer_id := parse id2 in
  let table := new local_id (two_seeds local_id peer_id) in
  let (b, table) := mark_dead peer_id table in
  let! _ := assert b in
  let! _ := assert (negb (is_alive peer_id table)) in
  let! _ := count (dead_nodes table) 1 in
  let (b, table) := mark_dead peer_id table in
  assert (negb b).

Definition test_refutation : outcome unit :=
  let! local_id := parse id1 in
  let! peer_id := parse id2 in
  let table := new local_id (two_seeds local_id peer_id) in
  let table := do_merge [(local_id, "127.0.0.1:5001"%string, Suspect, 0)] table in
  let! _ := assert (is_alive local_id table) in
  let! _ := assert (local_incarnation table =? 1) in
  let table := do_merge [(local_id, "127.0.0.1:5001"%string, Dead, 1)] table in
  let! _ := assert (is_alive local_id table) in
  assert (local_incarnation table =? 2).

Definition test_merge_higher_incarnation : outcome unit :=
  let! local_id := parse id1 in
  let! peer_id := parse id2 in
  let table := new local_id (two_seeds local_id peer_id) in
  let table := do_merge [(peer_id, "127.0.0.1:5002"%string, Dead, 5)] table in
  let! _ := assert (negb (is_alive peer_id table)) in
  count (dead_nodes table) 1.

Definition test_merge_dead_wins : outcome unit :=
  let! local_id := parse id1 in
  let! peer_id := parse id2 in
  let table := new local_id (two_seeds local_id peer_id) in
  let table := do_merge [(peer_id, "127.0.0.1:5002"%string, Dead, 0)] table in
  let! _ := assert (negb (is_alive peer_id table)) in
  let! _ := count (dead_nodes table) 1 in
  let! local_id2 := parse id3 in
  let! peer_id2 := parse id4 in
  let table2 := new local_id2
    [mkNodeInfo local_id2 "127.0.0.1:5003"; mkNodeInfo peer_id2 "127.0.0.1:5004"] in
  let table2 := do_merge [(peer_id2, "127.0.0.1:5004"%string, Suspect, 0)] table2 in
  let! _ := assert (negb (is_alive peer_id2 table2)) in
  count (dead_nodes table2) 0.

Definition test_merge_joining_precedence : outcome unit :=
  let! local_id := parse id1 in
  let! peer_id := parse id2 in
  let table := new local_id [mkNodeInfo local_id "127.0.0.1:5001"] in
  let table := do_merge [(peer_id, "127.0.0.1:5002"%string, Joining, 0)] table in
  let table := do_merge [(peer_id, "127.0.0.1:5002"%string, Alive, 0)] table in
  let! _ := assert (is_alive peer_id table) in
  let! peer_id2 := parse id3 in
  let table := do_merge [(peer_id2, "127.0.0.1:5003"%string, Joining, 0)] table in
  let table := do_merge [(peer_id2, "127.0.0.1:5003"%string, Dead, 0)] table in
  let! _ := count (dead_nodes table) 1 in
  let! peer_id3 := parse id4 in
  let table := do_merge [(peer_id3, "127.0.0.1:5004"%string, Joining, 0)] table in
  let table := do_merge [(peer_id3, "127.0.0.1:5004"%string, Suspect, 0)] table in
  assert (negb (is_alive peer_id3 table)).

Definition test_routable_peers_excludes_joining : outcome unit :=
  let! local_id := parse id1 in
  let! peer_id1 := parse id2 in
  let! peer_id2 := parse id3 in
  let table := new local_id [mkNodeInfo local_id "127.0.0.1:5001"] in
  let table := do_merge [(peer_id1, "127.0.0.1:5002"%string, Alive, 0);
                      (peer_id2, "127.0.0.1:5003"%string, Joining, 0)] table in
  let! _ := count (alive_peers table) 2 in
  let routable := routable_peers table in
  let! _ := count routable 1 in
  let! first := unwrap (routable !! 0%nat) in
  assert (bool_decide (id (info first) = peer_id1)).

Definition test_joining_node_startup : outcome unit :=
  let! local_id := parse id1 in
  let! peer_id := parse id2 in
  let table := new local_id [mkNodeInfo peer_id "127.0.0.1:5002"] in
  let! _ := assert (is_self_joining table) in
  let table := mark_self_alive table in
  let! _ := assert (negb (is_self_joining table)) in
  let! _ := assert (is_alive local_id table) in
  assert (local_incarnation table =? 1).

Definition test_standalone_node_startup : outcome unit :=
  let! local_id := parse id1 in
  let table := new local_id [] in
  let! _ := assert (negb (is_self_joining table)) in
  assert (is_alive local_id table).

Definition tests : list (outcome unit) := [
  test_membership_initial; test_mark_suspect; test_mark_dead; test_refutation;
  test_merge_higher_incarnation; test_merge_dead_wins; test_merge_joining_precedence;
  test_routable_peers_excludes_joining; test_joining_node_startup; test_standalone_node_startup ].
End membership_tests.
End MembershipTests.

(** ** rebalance/mod.rs

    The random identifiers of a test are arguments, and so are the address the test
    server listens at and the times [during] (counted from the start) at which the
    rebalance takes its steps; it takes [total]. *)

Module RebalanceTests.
Import Testing NodeService Rebalance.

Section rebalance_tests.
Context `{UuidLib} `{Xxh3} `{HashIter} (pace : nat → Z) (during : nat → Z) (total : Z).
Context (server_id source_id target_id : NodeId) (addr : string).

Definition node_id_dec (i j : NodeId) : bool := bool_decide (i = j).

(** A standalone node, as the test server and as the node that rebalances. *)
Definition node (i : NodeId) : timed Node :=
  let* store := StoreTests.new pace in
  let* now := Instant_now pace in
  ret (mkNode store (MembershipTable.new now i []) ∅).
Definition start_test_server : timed Node :=
  let* n := node server_id in
  let* _ := sleep pace (from_millis 50) in
  ret n.

Definition set (key : string) (v : bytes) (ttl : option Z) (n : Node) : timed Node :=
  let* st := StoreTests.set pace key v ttl (store n) in ret (with_store n st).

(** The test server answers a [TransferKeys] call; nobody listens elsewhere. *)
Definition network (t : Z) (source : Node) (k : nat) (a : string) : string + list StreamItem :=
  if decide (a = addr) then
    inr (Chunk <$> transfer_keys (t + during k) (mkTransferRequest (NodeId_to_string target_id) []) source)
  else inl "transport error".

Definition do_rebalance (source : Node) (peers : list NodeInfo) (ring : HashRing.HashRing) (target : Node)
    : timed (Z * Node) := λ '(k, t),
  let env := mkEnv (λ j, t + during j) (λ _ n, n) (network t source) in
  let! (count, (_, target)) := Rebalance.rebalance env target_id peers ring (0%nat, target) in
  Returns ((count, target), (k, t + total)).

Definition two_nodes : HashRing.HashRing :=
  HashRing.add_node (HashRing.add_node HashRing.new (mkNodeInfo source_id addr))
    (mkNodeInfo target_id "127.0.0.1:0").

(** The loop over the keys at the end of the first test. *)
Fixpoint check_keys (ring : HashRing.HashRing) (target : Node) (keys : list string) : timed unit :=
  match keys with
  | [] => ret ()
  | key :: keys' =>
      let* _ :=
        match HashRing.get_node ring key with
        | Some owner =>
            if node_id_dec (id owner) target_id then
              let* (r, _) := StoreTests.get pace key (store target) in
              let* val := lift (unwrap r) in
              lift (assert (bool_decide (val =
                as_bytes ("val_" +:+ String.substring 4 (String.length key - 4) key))))
            else ret ()
        | None => ret ()
        end in
      check_keys ring target keys'
  end.

Definition test_transfer_keys_streaming : timed unit :=
  let* source := start_test_server in
  let* source := set "key_a" (as_bytes "val_a") None source in
  let* source := set "key_b" (as_bytes "val_b") (Some (from_secs 300)) source in
  let* source := set "key_expired" (as_bytes "x") (Some (from_millis 1)) source in
  let* _ := sleep pace (from_millis 10) in
  let ring := two_nodes in
  let* target := node target_id in
  let peers := [mkNodeInfo source_id addr] in
  let* (count, target) := do_rebalance source peers ring target in
  let* _ := lift (assert (count <=? 2)) in
  check_keys ring target ["key_a"; "key_b"]%string.

Definition test_transfer_preserves_ttl : timed unit :=
  let* source := start_test_server in
  let* source := set "ttl_key" (as_bytes "data") (Some (from_secs 60)) source in
  let ring := two_nodes in
  let* owner := lift (unwrap (HashRing.get_node ring "ttl_key")) in
  if negb (node_id_dec (id owner) target_id) then ret ()
  else
    let* target := node target_id in
    let peers := [mkNodeInfo source_id addr] in
    let* (_, target) := do_rebalance source peers ring target in
    let* r := StoreTests.read_ttl pace "ttl_key" (store target) in
    let* remaining := lift (unwrap r) in
    let* _ := lift (assert (from_secs 55 <? remaining)) in
    lift (assert (remaining <=? from_secs 60)).

Definition tests : list (timed unit) := [test_transfer_keys_streaming; test_transfer_preserves_ttl].
End rebalance_tests.
End RebalanceTests.

(** ** Lemmas *)

#[local] Transparent gmap_empty.

(** A start in the first half of the range of the clock. *)
Definition early (t : Z) : Prop := 0 ≤ t < from_secs (2 ^ 62).

(** Evaluates a test up to the comparisons of times, and decides those. *)
Ltac time_numbers := cbv [from_secs from_millis nanos_per_sec nanos_per_milli instant_limit
  i64_max saturating_duration_since CacheStore.epoch CacheStore.new].
Ltac decide_time l1 l2 := first [rewrite l1 by (time_numbers; lia) | rewrite l2 by (time_numbers; lia)].
Ltac times :=
  repeat match goal with
  | |- context [?a <=? ?b] => decide_time (proj2 (Z.leb_le a b)) (proj2 (Z.leb_gt a b))
  | |- context [?a <? ?b] => decide_time (proj2 (Z.ltb_lt a b)) (proj2 (Z.ltb_ge a b))
  end.
Ltac head_eval := match goal with |- ?l = ?r =>
  let l' := eval lazy head beta iota zeta delta -[Z.add Z.sub Z.leb Z.ltb Z.max Z.div Z.mul as_u64
    from_secs from_millis as_secs as_millis instant_limit hash_iter
    RebalanceTests.do_rebalance RebalanceTests.node_id_dec] in l in change (l' = r) end.
(** The same, up to the reads of the target of a rebalance. *)
Ltac head_eval_reads := match goal with |- ?l = ?r =>
  let l' := eval lazy head beta iota zeta delta -[Z.add Z.sub Z.leb Z.ltb Z.max Z.div Z.mul as_u64
    from_secs from_millis as_secs as_millis instant_limit RebalanceTests.node_id_dec
    CacheStore.ttl CacheStore.get] in l in change (l' = r) end.
Ltac run_test := head_eval; repeat (progress times; head_eval); try reflexivity.
Ltac start_test Hp :=
  pose proof (Hp 0%nat); pose proof (Hp 1%nat); pose proof (Hp 2%nat); pose proof (Hp 3%nat);
  pose proof (Hp 4%nat); pose proof (Hp 5%nat); pose proof (Hp 6%nat); pose proof (Hp 7%nat);
  pose proof (Hp 8%nat); pose proof (Hp 9%nat); pose proof (Hp 10%nat);
  clear Hp; cbv [from_secs from_millis nanos_per_sec nanos_per_milli] in *.

Section lemmas.
Import Testing StoreTests.

Lemma epoch_ms pace t : prompt pace →
  CacheStore.instant_to_epoch_ms (CacheStore.new t) (t + pace 1%nat) = pace 1%nat / 1000000.
Proof.
  intros Hp. specialize (Hp 1%nat). unfold from_millis, nanos_per_milli in Hp.
  unfold CacheStore.instant_to_epoch_ms, checked_duration_since. cbn [CacheStore.new CacheStore.epoch].
  times. replace (t + pace 1%nat - t) with (pace 1%nat) by lia.
  unfold as_millis, nanos_per_milli. apply as_u64_small. machine_unfold.
  pose proof (Z.div_pos (pace 1%nat) 1000000). pose proof (Z.div_le_upper_bound (pace 1%nat) 1000000 1). lia.
Qed.

Lemma epoch_conversion pace t : prompt pace → early t → run t (test_epoch_conversion pace) = Returns ().
Proof.
  intros Hp Ht. pose proof (epoch_ms pace (t + pace 0%nat) Hp) as Hms.
  unfold prompt, early in *. start_test Hp.
  pose proof (Z.mul_div_le (pace 1%nat) 1000000). pose proof (Z.div_pos (pace 1%nat) 1000000).
  unfold test_epoch_conversion. head_eval. rewrite Hms. run_test.
Qed.

(** The entries of the transfer test, in any order the table may give them in. *)
Lemma hash_iter_three `{HashIter} {V} k1 k2 k3 (v1 v2 v3 : V) (m : gmap string V) :
  m = <[k3 := v3]> (<[k2 := v2]> (<[k1 := v1]> ∅)) → NoDup [k3; k2; k1] →
  hash_iter m ∈ permutations [(k3, v3); (k2, v2); (k1, v1)].
Proof.
  intros -> Hnd. apply permutations_Permutation. rewrite hash_iter_perm.
  rewrite !NoDup_cons in Hnd. destruct Hnd as (H3 & H2 & _ & _).
  rewrite !map_to_list_insert; rewrite ?map_to_list_empty; [done|..];
    rewrite ?lookup_insert_ne, ?lookup_empty; set_solver.
Qed.

Lemma millis_between lo hi d : 0 ≤ lo → hi ≤ u64_max → lo * 1000000 ≤ d ≤ hi * 1000000 →
  lo ≤ as_u64 (as_millis d) ≤ hi.
Proof.
  intros Hlo Hhi Hd. unfold as_millis, nanos_per_milli.
  pose proof (Z.div_le_mono (lo * 1000000) d 1000000).
  pose proof (Z.div_le_mono d (hi * 1000000) 1000000). rewrite Z.div_mul in * by lia.
  rewrite as_u64_small; machine_unfold; lia.
Qed.

Lemma remaining_ms a b : 59001 * 1000000 ≤ a - b ≤ 60000 * 1000000 →
  59000 < as_u64 (as_millis (Z.max 0 (a - b))) ≤ 60000.
Proof.
  intros Hd. rewrite Z.max_r by lia.
  pose proof (millis_between 59001 60000 (a - b) ltac:(lia) ltac:(done) Hd). lia.
Qed.

Lemma entries_for_transfer_test `{HashIter} pace t : prompt pace → early t →
  run t (test_entries_for_transfer pace) = Returns ().
Proof.
  intros Hp Ht. unfold prompt, early in *. start_test Hp. unfold test_entries_for_transfer. run_test.
  match goal with |- context [hash_iter ?m] =>
    assert (hash_iter m ∈ permutations [
      ("expired"%string, CacheStore.mkCacheEntry (as_bytes "v3") (Some (t + pace 0%nat + pace 1%nat + pace 2%nat + pace 3%nat + from_millis 1)));
      ("with_ttl"%string, CacheStore.mkCacheEntry (as_bytes "v2") (Some (t + pace 0%nat + pace 1%nat + pace 2%nat + from_secs 60)));
      ("no_ttl"%string, CacheStore.mkCacheEntry (as_bytes "v1") None)]) as Hin
      by (apply hash_iter_three; [reflexivity|by apply (bool_decide_unpack _); vm_compute]);
    generalize dependent (hash_iter m) end.
  intros l Hin. cbn in Hin. repeat apply elem_of_cons in Hin as [->|Hin]; [..|by apply elem_of_nil in Hin].
  all: run_test; cbv beta.
  all: match goal with |- context [as_u64 ?x] =>
    assert (59000 < as_u64 x ≤ 60000) as Hms by (time_numbers; apply remaining_ms; lia);
    generalize dependent (as_u64 x) end; intros ms Hms; run_test.
Qed.

Lemma store_tests `{HashIter} pace t : prompt pace → early t →
  Forall (λ m, run t m = Returns ()) (tests pace).
Proof.
  intros Hp Ht. pose proof (entries_for_transfer_test pace t Hp Ht).
  pose proof (epoch_conversion pace t Hp Ht).
  unfold prompt, early in *. start_test Hp. unfold tests.
  repeat (apply Forall_cons_2; [first [assumption|by run_test]|]). apply Forall_nil_2.
Qed.

End lemmas.

(** *** The rebalance tests *)

Section rebalance_lemmas.
Context `{UuidLib} `{Xxh3} `{HashIter} (pace : nat → Z) (during : nat → Z) (total : Z).
Context (server_id source_id target_id : NodeId) (addr : string).
Import Testing NodeService Rebalance RebalanceTests.
Hypothesis distinct : source_id ≠ target_id.
Hypothesis takes : ∀ j, 0 ≤ during j ≤ total.
Hypothesis soon : total ≤ from_secs 1.

Lemma one_peer_rebalance source target ring k t : 0 ≤ t < from_secs (2 ^ 61) →
  ∃ c target',
    do_rebalance during total target_id addr source [mkNodeInfo source_id addr] ring target (k, t) =
      Returns ((c, target'), (k, t + total)) ∧
    c = Z.of_nat (length (List.filter (λ c, owned target_id ring (chunk_key c))
      (transfer_keys (t + during 0%nat) (mkTransferRequest (NodeId_to_string target_id) []) source))) ∧
    ∀ j e, CacheStore.view (t + during 0%nat) (store source) !! j = Some e →
      owned target_id ring j = true → ∃ m, CacheStore.data (store target') !! j =
        received (t + during m) (mkTransferChunk j (CacheStore.value e)
          ((λ x, as_u64 (as_millis (x - (t + during 0%nat)))) <$> CacheStore.expires_at e))
          (CacheStore.data (store target) !! j).
Proof.
  intros Ht. unfold do_rebalance. set (env := mkEnv _ _ _).
  assert (clocks_ok env) as Hck.
  { intros j. specialize (takes j). cbn [clock env]. time_unfold. machine_unfold. lia. }
  destruct (pull_keys_exact env target_id ring addr (t + during 0%nat)
    (mkTransferRequest (NodeId_to_string target_id) []) source target 0 (λ _ _, eq_refl) Hck)
    as (k' & n' & Hr & _ & _ & Hd).
  { cbn. unfold network. by rewrite decide_True. }
  unfold Rebalance.rebalance. cbn [rebalance_loop id Common.addr]. rewrite decide_False by done.
  rewrite Hr. cbn [outcome_bind rebalance_loop]. eexists _, n'. split; [reflexivity|].
  split; [by rewrite Z.add_0_l|]. intros j e He Ho. specialize (Hd j). rewrite He, Ho in Hd. exact Hd.
Qed.

Lemma received_ms lo hi now key v x t0 old : 1 ≤ lo → hi ≤ u64_max →
  lo * 1000000 ≤ x - t0 ≤ hi * 1000000 → ∃ ms, lo ≤ ms ≤ hi ∧
  received now (mkTransferChunk key v ((λ x, as_u64 (as_millis (x - t0))) <$> Some x)) old =
    Some (CacheStore.mkCacheEntry v (Some (now + from_millis ms))).
Proof.
  intros Hlo Hhi Hd. exists (as_u64 (as_millis (x - t0))).
  assert (lo ≤ as_u64 (as_millis (x - t0)) ≤ hi) as Hms by (apply millis_between; [lia|done|done]).
  split; [done|]. cbn [received fmap option_fmap option_map chunk_expires_at_ms chunk_value].
  destruct (as_u64 (as_millis (x - t0))); [lia|done|lia].
Qed.

Lemma view_Some now st key e : CacheStore.data st !! key = Some e → CacheStore.live now e = true →
  CacheStore.view now st !! key = Some e.
Proof. intros Hk Hl. unfold CacheStore.view, CacheStore.purge. by rewrite map_lookup_filter_Some. Qed.

Lemma two_nodes_get key : ∃ o, HashRing.get_node (two_nodes source_id target_id addr) key = Some o.
Proof.
  destruct (HashRing.get_node (two_nodes source_id target_id addr) key) as [o|] eqn:E; [by exists o|].
  exfalso. unfold two_nodes in *. set (r := HashRing.add_node HashRing.new _) in *.
  assert (HashRing.wf r) as Hr by apply HashRing.add_node_wf, HashRing.new_wf.
  set (m := mkNodeInfo target_id _) in *.
  assert ((HashRing.hash_vnode (id m) 0, id m) ∈ HashRing.ring (HashRing.add_node r m)) as Hin.
  { apply HashRing.elem_of_add_node; [done|]. left. split; [done|]. exists 0%nat. split; [|done].
    unfold r, HashRing.new, HashRing.DEFAULT_VNODE_COUNT. simpl. lia. }
  assert (HashRing.ring (HashRing.add_node r m) = []) as Hnil.
  { apply (HashRing.owner_None _ key); [by apply HashRing.add_node_wf|]. unfold HashRing.owner. by rewrite E. }
  rewrite Hnil in Hin. by apply elem_of_nil in Hin.
Qed.

Lemma transfer_ttl_passes t : prompt pace → 0 ≤ t < from_secs (2 ^ 60) →
  run t (test_transfer_preserves_ttl pace during total server_id source_id target_id addr) = Returns ().
Proof.
  intros Hp Ht. unfold prompt in *. start_test Hp. unfold test_transfer_preserves_ttl.
  destruct (two_nodes_get "ttl_key") as [o Ho]. rewrite Ho.
  assert (node_id_dec (id o) target_id = bool_decide (id o = target_id)) as Hdec by done.
  head_eval; repeat (progress times; head_eval). rewrite Hdec. case_bool_decide as Hid; [|by run_test].
  run_test.
  match goal with |- context [do_rebalance _ _ _ _ ?src _ ?ring ?tgt (?k, ?t')] =>
    destruct (one_peer_rebalance src tgt ring k t') as (c & target' & Hr & _ & Hd) end.
  { time_numbers. lia. }
  rewrite Hr.
  edestruct (Hd "ttl_key"%string) as [m Hm].
  { apply view_Some; [reflexivity|]. cbn [CacheStore.live CacheStore.expires_at].
    pose proof (takes 0%nat).
    times. reflexivity. }
  { unfold owned. rewrite Ho. apply bool_decide_eq_true_2. cbn. by rewrite Hid. }
  cbn [CacheStore.expires_at CacheStore.value] in Hm.
  edestruct (received_ms 58000 60000) as (ms & Hms & Hrec); [lia|done| |rewrite Hrec in Hm].
  { time_numbers. pose proof (takes 0%nat). lia. }
  head_eval_reads. unfold CacheStore.ttl. rewrite Hm. cbv [from_millis nanos_per_milli] in *.
  pose proof (takes m). run_test.
Qed.

Lemma transfer_keys_length now req src ks :
  (∀ key e, CacheStore.view now (store src) !! key = Some e → key ∈ ks) →
  (length (transfer_keys now req src) ≤ length ks)%nat.
Proof.
  intros Hks. rewrite <- (length_fmap chunk_key). apply submseteq_length, NoDup_submseteq.
  - apply transfer_keys_NoDup.
  - intros key (c & -> & (e & He & _)%elem_of_transfer_keys)%list_elem_of_fmap. by eapply Hks.
Qed.

(** The value the first test expects under a key. *)
Definition expected (key : string) : bytes :=
  as_bytes ("val_" +:+ String.substring 4 (String.length key - 4) key).

(** The checks pass where every owned key holds the expected value until [T]. *)
Lemma check_keys_pass ring target T keys : prompt pace →
  (∀ key, key ∈ keys → owned target_id ring key = true → ∃ e,
     CacheStore.data (store target) !! key = Some e ∧ CacheStore.value e = expected key ∧
     ∀ x, CacheStore.expires_at e = Some x → T ≤ x) →
  ∀ k t, t + Z.of_nat (length keys) * from_millis 1 < T →
  ∃ s, check_keys pace target_id ring target keys (k, t) = Returns ((), s).
Proof.
  intros Hp. induction keys as [|key keys IH]; intros Hkeys k t Ht; [by eexists|].
  assert (∀ k t, t + Z.of_nat (length keys) * from_millis 1 < T →
    ∃ s, check_keys pace target_id ring target keys (k, t) = Returns ((), s)) as IH'.
  { apply IH. intros key' Hin. apply Hkeys. by right. }
  cbn [length] in Ht. rewrite Nat2Z.inj_succ in Ht. pose proof (Hp k) as Hk.
  assert (0 ≤ from_millis 1) by done.
  specialize (Hkeys key ltac:(by left)). unfold owned in Hkeys. cbn [check_keys]. unfold bind at 1.
  destruct (HashRing.get_node ring key) as [o|]; [|cbn; apply IH'; lia].
  unfold node_id_dec. destruct (decide (id o = target_id)) as [Ho|Ho];
    [rewrite (bool_decide_eq_true_2 (id o = target_id)) by done
    |rewrite bool_decide_eq_false_2 by done; cbn; apply IH'; lia].
  destruct Hkeys as (e & He & Hv & Hx).
  { apply bool_decide_eq_true_2. cbn. by rewrite Ho. }
  assert (CacheStore.get (t + pace k) key (store target) = (Some (expected key), store target)) as Hg.
  { unfold CacheStore.get, CacheStore.get_lookup, CacheStore.expired. rewrite He, Hv.
    destruct (CacheStore.expires_at e) as [x|]; [|done]. specialize (Hx x eq_refl).
    by rewrite (proj2 (Z.leb_gt _ _)) by lia. }
  unfold StoreTests.get, bind, Instant_now, ret, lift. cbn [outcome_bind]. rewrite Hg.
  cbn [outcome_bind unwrap]. rewrite bool_decide_eq_true_2 by done. cbn. apply IH'. lia.
Qed.

Lemma transfer_keys_streaming t : prompt pace → 0 ≤ t < from_secs (2 ^ 60) →
  run t (test_transfer_keys_streaming pace during total server_id source_id target_id addr) = Returns ().
Proof.
  intros Hp Ht. pose proof Hp as Hp'. unfold prompt in Hp. start_test Hp.
  unfold test_transfer_keys_streaming. run_test.
  match goal with |- context [do_rebalance _ _ _ _ ?src _ ?ring ?tgt (?k, ?t')] =>
    assert (∃ b x, CacheStore.data (store src) =
        <["key_expired" := CacheStore.mkCacheEntry (as_bytes "x") (Some x)]>
          (<["key_b" := CacheStore.mkCacheEntry (as_bytes "val_b") (Some b)]>
            (<["key_a" := CacheStore.mkCacheEntry (as_bytes "val_a") None]> ∅)) ∧
        x ≤ t' ∧ 299 * 1000 * 1000000 ≤ b - t' ≤ 300 * 1000 * 1000000 ∧
        0 ≤ t' < from_secs (2 ^ 61)) as (b & x & Hsrc & Hx & Hb & HT)
      by (eexists _, _; split; [reflexivity|time_numbers; lia]);
    generalize dependent src; intros source Hsrc; generalize tgt; intros target;
    generalize dependent t'; intros T Hx Hb HT;
    destruct (one_peer_rebalance source target ring k T HT) as (c & target' & Hr & Hc & Hd) end.
  rewrite Hr. pose proof (takes 0%nat) as H0d.
  assert (CacheStore.view (T + during 0%nat) (store source) !! "key_a" =
    Some (CacheStore.mkCacheEntry (as_bytes "val_a") None)) as Ha.
  { apply view_Some; [by rewrite Hsrc|done]. }
  assert (CacheStore.view (T + during 0%nat) (store source) !! "key_b" =
    Some (CacheStore.mkCacheEntry (as_bytes "val_b") (Some b))) as Hvb.
  { apply view_Some; [by rewrite Hsrc|]. cbn. by rewrite (proj2 (Z.ltb_lt _ _)) by lia. }
  assert (c ≤ 2) as Hc2.
  { rewrite Hc. etrans; [apply Nat2Z.inj_le, filter_length_le|].
    apply (Nat2Z.inj_le _ 2), (transfer_keys_length _ _ _ ["key_a"; "key_b"]%string).
    intros key e. unfold CacheStore.view, CacheStore.purge. rewrite map_lookup_filter_Some, Hsrc.
    intros [Hk Hl]. rewrite !lookup_insert_Some, lookup_empty in Hk.
    destruct Hk as [[<- <-]|[_ [[<- _]|[_ [[<- _]|[_ [=]]]]]]]; [|set_solver..].
    exfalso. cbn in Hl. apply Z.ltb_lt in Hl. lia. }
  edestruct (check_keys_pass (two_nodes source_id target_id addr) target' (T + 200 * 1000 * 1000000)
    ["key_a"; "key_b"]%string Hp') with (k := 9%nat) (t := T + total) as [s Hs].
  { intros key [->|[->|[]%elem_of_nil]%elem_of_cons]%elem_of_cons Ho.
    - destruct (Hd _ _ Ha Ho) as [m Hm]. eexists. split; [exact Hm|]. split; [reflexivity|done].
    - destruct (Hd _ _ Hvb Ho) as [m Hm].
      edestruct (received_ms 298000 300000) as (ms & Hms & Hrec); [lia|done| |].
      2: { cbn [CacheStore.expires_at CacheStore.value] in Hm. rewrite Hrec in Hm.
        eexists. split; [exact Hm|]. split; [reflexivity|]. intros x' [= <-].
        pose proof (takes m). time_numbers. lia. }
      lia. }
  { time_numbers. cbn [length]. lia. }
  head_eval_reads. rewrite (proj2 (Z.leb_le _ _)) by done. cbv beta iota zeta. rewrite Hs. reflexivity.
Qed.

End rebalance_lemmas.

(** ** Properties *)

Section properties.
Context `{HashIter}.
Import Testing.

(** Further: the unit tests of the store and of the rebalancer pass in the model at every
    pace of the machine at which an access takes at most 1 ms and a rebalance at most
    1 s, whatever the hash function, the random identifiers and the order in which
    tables are read; so do those of the membership table (on identifiers that are
    their text), whatever the clock. *)
Theorem node_unit_tests `{UuidLib} `{Xxh3} (pace during clock : nat → Z) (total t : Z)
    (server_id source_id target_id : NodeId) (addr : string) :
  prompt pace → 0 ≤ t < from_secs (2 ^ 60) → source_id ≠ target_id →
  (∀ j, 0 ≤ during j ≤ total) → total ≤ from_secs 1 →
  Forall (λ m, run t m = Returns ()) (StoreTests.tests pace) ∧
  Forall (λ m, run t m = Returns ())
    (RebalanceTests.tests pace during total server_id source_id target_id addr) ∧
  all_pass (@MembershipTests.tests Examples.string_uuid Examples.sorted_iter clock).
Proof.
  intros Hp Ht Hne Hd Htot. split; [|split].
  - apply store_tests; [done|]. unfold early. time_unfold. lia.
  - apply Forall_cons_2; [by apply transfer_keys_streaming|].
    apply Forall_singleton. by apply transfer_ttl_passes.
  - unfold all_pass, MembershipTests.tests.
    repeat (apply Forall_cons_2; [vm_compute; reflexivity|]). apply Forall_nil_2.
Qed.
End properties.

(** ** Witnesses *)

Section witnesses.
#[local] Existing Instance Examples.string_uuid.
#[local] Existing Instance Examples.poly_xxh3.
#[local] Existing Instance Examples.sorted_iter.
Import Testing.

Lemma node_unit_tests_witness :
  Forall (λ m, run 0 m = Returns ()) (StoreTests.tests (λ _, 1000)) ∧
  all_pass (@MembershipTests.tests Examples.string_uuid Examples.sorted_iter (λ _, 0)).
Proof.
  destruct (node_unit_tests (λ _, 1000) (λ j, Z.of_nat (j `min` 5)) (λ _, 0) (from_millis 3) 0
    (mkNodeId (H := Examples.string_uuid) "s") (mkNodeId (H := Examples.string_uuid) "a")
    (mkNodeId (H := Examples.string_uuid) "b") "127.0.0.1:7000") as (Hs & _ & Hm).
  - intros k. by compute.
  - by compute.
  - discriminate.
  - intros j. time_unfold. lia.
  - by compute.
  - split; [exact Hs|exact Hm].
Defined.
End witnesses.
