(* ===== verification/RouterTests.v ===== *)
(** * The unit tests of the ring and of the health monitor

    The [#[test]] functions of [crates/common/src/hashring.rs] and
    [crates/router/src/health/mod.rs], run in the model.  Whether the two tests that
    measure how evenly 100,000 keys are spread pass depends on the hash function; what
    they find out about it is [balance_tests_exact]. *)

From S2P Require Import Prelude Machine Text Common BTree Ring Health Float64 Testing.
Local Open Scope Z_scope.
Local Open Scope outcome_scope.

(** ** hashring.rs *)

Module RingTests.
Import Testing HashRing.

Section ring_tests.
Context `{UuidLib} `{Xxh3} (new_v4 : nat → Uuid).

(** [make_node], with the [k]-th random identifier *)
Definition make_node (k : nat) (name : string) : NodeInfo :=
  mkNodeInfo (mkNodeId (new_v4 k)) ("127.0.0.1:" +:+ name).

(** The five nodes of the tests, and the ring of them. *)
Definition five_nodes : list NodeInfo :=
  (λ i, make_node i ("500" +:+ of_bytes (int_to_string (Z.of_nat i)))) <$> seq 0 5.
Definition five_ring : HashRing := foldl add_node HashRing.new five_nodes.

Definition total : Z := 100000.
Definition key (i : Z) : string := "key-" +:+ of_bytes (int_to_string i).

(** The loop that counts keys; [counts] is the hash table. *)
Fixpoint count_keys (ring : HashRing) (idxs : list Z) (counts : gmap string Z)
    : outcome (gmap string Z) :=
  match idxs with
  | [] => Returns counts
  | i :: idxs =>
      let! node := unwrap (get_node ring (key i)) in
      count_keys ring idxs (<[addr node := default 0 (counts !! addr node) + 1]> counts)
  end.

(** The loop of assertions, [>] being false of what cannot be compared *)
Fixpoint check_counts (counts : list (string * Z)) : outcome unit :=
  match counts with
  | [] => Returns ()
  | (_, count) :: counts =>
      let pct := Float64.percentage count total in
      let! _ := assert (Float64.ltb (Float64.as_f64 15) pct && Float64.ltb pct (Float64.as_f64 25)) in
      check_counts counts
  end.

Definition test_distribution_is_even `{HashIter} : outcome unit :=
  let! counts := count_keys five_ring (seqZ 0 total) ∅ in
  check_counts (hash_iter counts).

(** The keys with the nodes they are on *)
Fixpoint map_keys (ring : HashRing) (idxs : list Z) : outcome (list (string * NodeId)) :=
  match idxs with
  | [] => Returns []
  | i :: idxs =>
      let! node := unwrap (get_node ring (key i)) in
      let! rest := map_keys ring idxs in
      Returns ((key i, id node) :: rest)
  end.

(** The loop that counts the keys that moved *)
Fixpoint count_moved (ring : HashRing) (before : list (string * NodeId)) (moved : Z) : outcome Z :=
  match before with
  | [] => Returns moved
  | (key, old_node_id) :: before =>
      let! node := unwrap (get_node ring key) in
      count_moved ring before (if decide (old_node_id = id node) then moved else moved + 1)
  end.

Definition test_add_node_minimal_reshuffle : outcome unit :=
  let! before := map_keys five_ring (seqZ 0 total) in
  let ring := add_node five_ring (make_node 5 "5005") in
  let! moved := count_moved ring before 0 in
  assert (Float64.ltb (Float64.percentage moved 100000) (Float64.as_f64 25)).

Definition test_preference_list_distinct_nodes : outcome unit :=
  let ring := foldl (λ ring i, add_node ring (make_node i ("500" +:+ of_bytes (int_to_string (Z.of_nat i)))))
                HashRing.new (seq 0 5) in
  let prefs := get_preference_list ring "test-key" 3 in
  let! _ := assert (length prefs =? 3)%nat in
  let ids : gset NodeId := list_to_set (id <$> prefs) in
  assert (size ids =? 3)%nat.

Definition test_remove_node : outcome unit :=
  let ring := HashRing.new in
  let node := make_node 0 "5001" in
  let ring := add_node ring node in
  let! _ := assert (contains_node ring (id node)) in
  let ring := remove_node ring (id node) in
  assert (negb (contains_node ring (id node))).

Definition test_empty_ring : outcome unit :=
  let ring := HashRing.new in
  assert (match get_node ring "any-key" with None => true | Some _ => false end).

(** How many of the keys of the tests the [k]-th node owns. *)
Definition owned (ring : HashRing) (k : nat) (idxs : list Z) : Z :=
  Z.of_nat (length (List.filter
    (λ i, bool_decide (owner ring (key i) = Some (mkNodeId (new_v4 k)))) idxs)).

(** The tests that do not measure the hash function. *)
Definition tests : list (outcome unit) :=
  [test_preference_list_distinct_nodes; test_remove_node; test_empty_ring].
End ring_tests.
End RingTests.

(** ** health/mod.rs

    [clock] gives the time of each report, the identifiers are the random ones. *)

Module HealthTests.
Import Testing HealthMonitor.

Section health_tests.
Context `{UuidLib} `{HashIter} (clock : nat → Z) (node_id node2 : NodeId).

(** [assert_eq!(health.get(&node_id), Some(&h))] *)
Definition assert_health (h : NodeHealth) (monitor : HealthMonitor) : outcome unit :=
  let health := all_health monitor in
  assert (bool_decide (health !! node_id = Some h)).

Definition test_mark_alive : outcome unit :=
  let monitor := new in
  let monitor := mark_alive (clock 0%nat) node_id monitor in
  let! _ := assert (is_alive node_id monitor) in
  assert_health Alive monitor.

Definition test_mark_joining : outcome unit :=
  let monitor := new in
  let monitor := mark_joining (clock 0%nat) node_id monitor in
  let! _ := assert (negb (is_alive node_id monitor)) in
  assert_health Joining monitor.

Definition test_joining_to_alive_transition : outcome unit :=
  let monitor := new in
  let monitor := mark_joining (clock 0%nat) node_id monitor in
  let! _ := assert (negb (is_alive node_id monitor)) in
  let monitor := mark_alive (clock 1%nat) node_id monitor in
  assert (is_alive node_id monitor).

Definition test_record_failure_escalation : outcome unit :=
  let monitor := with_failure_threshold new 3 in
  let monitor := mark_alive (clock 0%nat) node_id monitor in
  let! _ := assert (is_alive node_id monitor) in
  let monitor := record_failure (clock 1%nat) node_id monitor in
  let! _ := assert (is_alive node_id monitor) in
  let! _ := assert_health Suspect monitor in
  let monitor := record_failure (clock 2%nat) node_id monitor in
  let monitor := record_failure (clock 3%nat) node_id monitor in
  let! _ := assert (negb (is_alive node_id monitor)) in
  assert_health Dead monitor.

Definition test_unknown_node_assumed_alive : outcome unit :=
  let monitor := new in
  assert (is_alive node_id monitor).

Definition test_dead_nodes_list : outcome unit :=
  let monitor := with_failure_threshold new 2 in
  let node1 := node_id in
  let monitor := mark_alive (clock 0%nat) node1 monitor in
  let monitor := mark_alive (clock 1%nat) node2 monitor in
  let monitor := record_failure (clock 2%nat) node1 monitor in
  let monitor := record_failure (clock 3%nat) node1 monitor in
  let monitor := record_failure (clock 4%nat) node1 monitor in
  let dead := dead_nodes monitor in
  let! _ := assert (length dead =? 1)%nat in
  let! _ := assert (bool_decide (node1 ∈ dead)) in
  assert (negb (bool_decide (node2 ∈ dead))).

Definition tests : list (outcome unit) := [
  test_mark_alive; test_mark_joining; test_joining_to_alive_transition;
  test_record_failure_escalation; test_unknown_node_assumed_alive; test_dead_nodes_list ].
End health_tests.
End HealthTests.

(** ** Lemmas *)

(** *** The balance of a ring *)

Section balance.
Context `{UuidLib} `{Xxh3} `{HashIter} (new_v4 : nat → Uuid).
Context (Hdistinct : ∀ j k, (j < 6)%nat → (k < 6)%nat → new_v4 j = new_v4 k → j = k).
Import Testing HashRing RingTests.

Lemma foldl_add_nodes ns : ∀ r, wf r →
  wf (foldl add_node r ns) ∧ nodes (foldl add_node r ns) = nodes r ++ ns ∧
  vnode_count (foldl add_node r ns) = vnode_count r.
Proof.
  induction ns as [|n ns IH]; intros r Hr; cbn [foldl]; [by rewrite app_nil_r|].
  destruct (IH (add_node r n)) as (? & -> & ->); [by apply add_node_wf|].
  cbn. by rewrite <- app_assoc.
Qed.

Lemma five_ring_wf : wf (five_ring new_v4).
Proof. by apply foldl_add_nodes, new_wf. Qed.
Lemma five_ring_nodes : nodes (five_ring new_v4) = five_nodes new_v4.
Proof. by apply foldl_add_nodes, new_wf. Qed.

Lemma add_node_nonempty r n : wf r → (0 < vnode_count r)%nat → ring (add_node r n) ≠ [].
Proof.
  intros Hr Hv Hnil. pose proof (elem_of_add_node r n (hash_vnode (id n) 0) (id n) Hr) as [_ Hin].
  rewrite Hnil in Hin. apply (not_elem_of_nil (hash_vnode (id n) 0, id n)), Hin. left. eauto.
Qed.

Lemma get_node_known r k : wf r → ring r ≠ [] → ∃ n, get_node r k = Some n ∧ n ∈ nodes r.
Proof.
  intros Hr Hne. pose proof (owner_None r k Hr) as Ho. unfold owner in Ho.
  destruct (get_node r k) as [n|] eqn:E; [|by destruct Hne; apply Ho]. exists n. split; [done|].
  rewrite get_node_first_entry in E. destruct (first_entry _ _); [|done].
  by apply find_node_Some in E as [? _].
Qed.

(** The number of keys on nodes with an address *)
Definition at_address (r : HashRing) (a : string) (idxs : list Z) : Z :=
  Z.of_nat (length (List.filter (λ i, bool_decide (addr <$> get_node r (key i) = Some a)) idxs)).

Lemma count_keys_exact r idxs : wf r → ring r ≠ [] → ∀ counts,
  (∀ a v, counts !! a = Some v → 0 < v) →
  ∃ counts', count_keys r idxs counts = Returns counts' ∧
    ∀ a v, counts' !! a = Some v ↔ v = default 0 (counts !! a) + at_address r a idxs ∧ 0 < v.
Proof.
  intros Hr Hne. induction idxs as [|i idxs IH]; intros counts Hpos; cbn [count_keys].
  - exists counts. split; [done|]. intros a v. unfold at_address. cbn. rewrite Z.add_0_r. split.
    + intros Hv. split; [by rewrite Hv|by eapply Hpos].
    + destruct (counts !! a) eqn:E; cbn; intros [-> ?]; [done|lia].
  - destruct (get_node_known r (key i) Hr Hne) as (n & Hn & _). rewrite Hn. cbn [unwrap outcome_bind].
    destruct (IH (<[addr n:=default 0 (counts !! addr n) + 1]> counts)) as (counts' & -> & Hc).
    { intros a v. destruct (decide (a = addr n)) as [->|Hna].
      - rewrite lookup_insert_eq. intros [= <-].
        destruct (counts !! addr n) eqn:E; cbn; [apply Hpos in E|]; lia.
      - rewrite lookup_insert_ne by done. apply Hpos. }
    exists counts'. split; [done|]. intros a v. rewrite Hc. unfold at_address. cbn [List.filter].
    rewrite Hn. cbn [fmap option_fmap option_map].
    destruct (decide (a = addr n)) as [->|Hna].
    + rewrite lookup_insert_eq, bool_decide_eq_true_2 by done. cbn [length].
      rewrite Nat2Z.inj_succ. cbn. lia.
    + rewrite lookup_insert_ne, bool_decide_eq_false_2 by congruence. done.
Qed.

Lemma check_counts_all counts : check_counts counts =
  assert (forallb (λ e, Float64.ltb (Float64.as_f64 15) (Float64.percentage e.2 total) &&
                        Float64.ltb (Float64.percentage e.2 total) (Float64.as_f64 25)) counts).
Proof.
  induction counts as [|[a v] counts IH]; [done|]. cbn [check_counts forallb snd].
  destruct (_ && _); [exact IH|done].
Qed.

(** Keys that moved are the keys of the new node. *)
Lemma count_moved_exact r n idxs : wf r → ring r ≠ [] → (0 < vnode_count r)%nat →
  (∀ m, m ∈ nodes r → id m ≠ id n) →
  ∃ before, map_keys r idxs = Returns before ∧ ∀ moved,
    count_moved (add_node r n) before moved = Returns (moved + Z.of_nat (length (List.filter
      (λ i, bool_decide (owner (add_node r n) (key i) = Some (id n))) idxs))).
Proof.
  intros Hr Hne Hv Hnew. induction idxs as [|i idxs (before & Hb & IH)]; cbn [map_keys].
  { exists []. split; [done|]. intros moved. cbn. by rewrite Z.add_0_r. }
  destruct (get_node_known r (key i) Hr Hne) as (m & Hm & Hin).
  destruct (get_node_known (add_node r n) (key i)) as (m' & Hm' & _);
    [by apply add_node_wf|by apply add_node_nonempty|].
  rewrite Hm, Hb. cbn [unwrap outcome_bind]. eexists. split; [done|]. intros moved.
  cbn [count_moved List.filter]. rewrite Hm'. cbn [unwrap outcome_bind]. rewrite IH.
  pose proof (owner_add_node r n (key i) Hr) as Ho. unfold owner in *. rewrite Hm, Hm' in *.
  cbn [fmap option_fmap option_map] in *. pose proof (Hnew m Hin).
  case_decide; case_bool_decide; cbn [length]; [congruence|done|f_equal; lia|].
  destruct Ho; congruence.
Qed.

Lemma elem_of_five_nodes n : n ∈ five_nodes new_v4 ↔
  ∃ k, (k < 5)%nat ∧ n = make_node new_v4 k ("500" +:+ of_bytes (int_to_string (Z.of_nat k))).
Proof.
  unfold five_nodes. rewrite list_elem_of_fmap. setoid_rewrite elem_of_seq.
  split; intros (k & ? & ?); exists k; split; (done || lia).
Qed.

Lemma five_addresses j k : (j < 5)%nat → (k < 5)%nat →
  "127.0.0.1:" +:+ ("500" +:+ of_bytes (int_to_string (Z.of_nat j))) =
  "127.0.0.1:" +:+ ("500" +:+ of_bytes (int_to_string (Z.of_nat k))) → j = k.
Proof.
  intros Hj Hk Heq.
  assert (NoDup ((λ k, "127.0.0.1:" +:+ ("500" +:+ of_bytes (int_to_string (Z.of_nat k)))) <$> seq 0 5)) as Hnd
    by (by eapply bool_decide_unpack; vm_compute).
  eapply NoDup_lookup; [exact Hnd|..]; rewrite list_lookup_fmap, lookup_seq_lt by done; cbn [fmap option_fmap option_map].
  - done.
  - cbn. by rewrite Heq.
Qed.

Lemma five_ring_nonempty : ring (five_ring new_v4) ≠ [].
Proof.
  unfold five_ring, five_nodes. cbn [seq fmap list_fmap foldl].
  apply add_node_nonempty; [|change (0 < 150)%nat; lia]. do 4 apply add_node_wf. apply new_wf.
Qed.

(** Where a key of the tests is *)
Lemma five_ring_lookup i : ∃ k, (k < 5)%nat ∧ get_node (five_ring new_v4) (key i) =
  Some (make_node new_v4 k ("500" +:+ of_bytes (int_to_string (Z.of_nat k)))).
Proof.
  destruct (get_node_known (five_ring new_v4) (key i) five_ring_wf five_ring_nonempty) as (n & -> & Hn).
  rewrite five_ring_nodes, elem_of_five_nodes in Hn. naive_solver.
Qed.

Lemma at_address_owned k idxs : (k < 5)%nat →
  at_address (five_ring new_v4) ("127.0.0.1:" +:+ ("500" +:+ of_bytes (int_to_string (Z.of_nat k)))) idxs =
  owned new_v4 (five_ring new_v4) k idxs.
Proof.
  intros Hk. unfold at_address, owned. do 2 f_equal. apply List.filter_ext. intros i.
  destruct (five_ring_lookup i) as (j & Hj & Hg). unfold owner. rewrite Hg. cbn.
  apply bool_decide_ext. split.
  - intros Heq%(inj Some)%five_addresses; [by subst|done..].
  - intros [= Heq]. apply Hdistinct in Heq as ->; [done|lia..].
Qed.

(** Every key is on one of the five nodes. *)
Lemma owned_total idxs :
  let o k := owned new_v4 (five_ring new_v4) k idxs in
  o 0%nat + o 1%nat + o 2%nat + o 3%nat + o 4%nat = Z.of_nat (length idxs).
Proof.
  induction idxs as [|i idxs IH]; [done|]. unfold owned in *. cbn [List.filter length].
  destruct (five_ring_lookup i) as (j & Hj & Hg).
  assert (∀ k, (k < 5)%nat → bool_decide (owner (five_ring new_v4) (key i) = Some (mkNodeId (new_v4 k)))
    = bool_decide (j = k)) as Hk.
  { intros k Hk. unfold owner. rewrite Hg. cbn. apply bool_decide_ext. split; [|by intros ->].
    intros [= Heq]. apply Hdistinct; (done || lia). }
  rewrite !Hk by lia. clear Hk Hg.
  repeat case_bool_decide; cbn [length]; lia.
Qed.

Lemma owned_range r k idxs : Z.of_nat (length idxs) = 100000 → 0 ≤ owned new_v4 r k idxs ≤ 100000.
Proof.
  intros Hl. unfold owned. pose proof (List.filter_length_le
    (λ i, bool_decide (owner r (key i) = Some (mkNodeId (new_v4 k)))) idxs). lia.
Qed.

(** What [count_keys] leaves in the table: the nodes that own keys, with their number. *)
Lemma counted idxs : ∃ counts, count_keys (five_ring new_v4) idxs ∅ = Returns counts ∧
  ∀ v, (∃ a, (a, v) ∈ hash_iter counts) ↔
    ∃ k, (k < 5)%nat ∧ v = owned new_v4 (five_ring new_v4) k idxs ∧ 0 < v.
Proof.
  destruct (count_keys_exact (five_ring new_v4) idxs five_ring_wf five_ring_nonempty ∅)
    as (counts & -> & Hc); [by intros ?? ?%lookup_empty_Some|].
  exists counts. split; [done|]. intros v. setoid_rewrite elem_of_hash_iter. setoid_rewrite Hc.
  setoid_rewrite lookup_empty. cbn [default from_option]. split.
  - intros (a & -> & Hpos). unfold at_address in Hpos.
    destruct (List.filter _ _) as [|i l] eqn:E; [done|].
    assert (i ∈ i :: l) as Hi by by left. rewrite <- E in Hi. apply elem_of_filterb in Hi as [Ha _].
    destruct (five_ring_lookup i) as (k & Hk & Hg). rewrite Hg in Ha. apply bool_decide_eq_true_1 in Ha.
    apply (inj Some) in Ha. unfold make_node in Ha. cbn [addr] in Ha. exists k. split; [done|].
    rewrite <- at_address_owned, Ha by done. unfold at_address. by rewrite E.
  - intros (k & Hk & -> & Hpos). eexists. rewrite (at_address_owned k) by done. done.
Qed.

Lemma percentage_even v : 0 ≤ v ≤ 100000 →
  Float64.ltb (Float64.as_f64 15) (Float64.percentage v total) &&
  Float64.ltb (Float64.percentage v total) (Float64.as_f64 25) = (15000 <? v) && (v <? 25000).
Proof.
  intros Hv. unfold total. by rewrite percent_above_15, percent_below_25.
Qed.

Lemma distribution_test idxs : Z.of_nat (length idxs) = 100000 →
  (let! counts := count_keys (five_ring new_v4) idxs ∅ in check_counts (hash_iter counts)) =
  assert (forallb (λ k, (15000 <? owned new_v4 (five_ring new_v4) k idxs) &&
                        (owned new_v4 (five_ring new_v4) k idxs <? 25000)) (seq 0 5)).
Proof.
  intros Hlen. destruct (counted idxs) as (counts & -> & Hc). cbn [outcome_bind].
  rewrite check_counts_all. f_equal. apply eq_bool_prop_intro.
  rewrite !Is_true_true, !forallb_forall. split.
  - intros Hall.
    assert (∀ k, (k < 5)%nat → let o := owned new_v4 (five_ring new_v4) k idxs in
      0 < o → (15000 <? o) && (o <? 25000) = true) as Hk.
    { intros k Hk o Ho. rewrite <- percentage_even by (by apply owned_range).
      destruct (proj2 (Hc o)) as [a Ha]; [by exists k|].
      apply (Hall (a, o)). by apply list_elem_of_In. }
    pose proof (owned_total idxs) as Hsum. cbn zeta in *. rewrite Hlen in Hsum.
    pose proof (Hk 0%nat ltac:(lia)); pose proof (Hk 1%nat ltac:(lia)); pose proof (Hk 2%nat ltac:(lia));
      pose proof (Hk 3%nat ltac:(lia)); pose proof (Hk 4%nat ltac:(lia)).
    intros k Hin%in_seq. apply Hk; [lia|].
    do 5 (destruct k as [|k]; [lia|]). lia.
  - intros Hall [a v] Hin%list_elem_of_In. destruct (proj1 (Hc v)) as (k & Hk & -> & _); [by exists a|].
    cbn [snd]. rewrite percentage_even by (by apply owned_range). apply Hall, in_seq. lia.
Qed.

Lemma reshuffle_test idxs : Z.of_nat (length idxs) = 100000 →
  (let! before := map_keys (five_ring new_v4) idxs in
   let! moved := count_moved (add_node (five_ring new_v4) (make_node new_v4 5 "5005")) before 0 in
   assert (Float64.ltb (Float64.percentage moved 100000) (Float64.as_f64 25))) =
  assert (owned new_v4 (add_node (five_ring new_v4) (make_node new_v4 5 "5005")) 5 idxs <? 25000).
Proof.
  intros Hlen.
  destruct (count_moved_exact (five_ring new_v4) (make_node new_v4 5 "5005") idxs)
    as (before & -> & Hm).
  - apply five_ring_wf.
  - apply five_ring_nonempty.
  - change (0 < 150)%nat. lia.
  - intros m. rewrite five_ring_nodes, elem_of_five_nodes. intros (k & Hk & ->) [= Heq].
    apply Hdistinct in Heq; lia.
  - cbn [outcome_bind]. rewrite Hm. cbn [outcome_bind]. rewrite Z.add_0_l.
    f_equal. apply percent_below_25, (owned_range _ 5 _ Hlen).
Qed.
End balance.

Section lemmas.
Context `{UuidLib} `{HashIter}.
Import Testing HealthMonitor HealthTests.

(** The entry a monitor has of a node after a report of it, or of another node. *)
Lemma put_self m i e : nodes (put m i e) !! i = Some e.
Proof. apply lookup_insert_eq. Qed.
Lemma put_other m i j e : i ≠ j → nodes (put m i e) !! j = nodes m !! j.
Proof. apply lookup_insert_ne. Qed.

Lemma dead_singleton m i :
  (∀ k, (∃ e, nodes m !! k = Some e ∧ health e = Dead) ↔ k = i) → dead_nodes m = [i].
Proof.
  intros Hk. apply Permutation_singleton_r, NoDup_Permutation.
  - unfold dead_nodes. apply NoDup_fmap_fst.
    + intros k e e' [_ He]%elem_of_filterb [_ He']%elem_of_filterb.
      apply elem_of_hash_iter in He, He'. congruence.
    + apply NoDup_filterb. eapply NoDup_fmap_1, hash_iter_NoDup_fst.
  - apply NoDup_singleton.
  - intros k. rewrite list_elem_of_singleton, <- Hk. unfold dead_nodes.
    rewrite list_elem_of_fmap. setoid_rewrite elem_of_filterb. split.
    + intros ([k' e] & -> & Hd & He%elem_of_hash_iter). exists e. by bool_facts.
    + intros (e & He & Hd). exists (k, e). split; [done|]. split; [|by apply elem_of_hash_iter].
      by apply bool_decide_eq_true_2.
Qed.

Ltac health :=
  unfold record_failure, mark_alive, mark_joining, is_alive, assert_health, all_health;
  rewrite ?lookup_fmap; repeat first
  [ rewrite put_self | rewrite put_other by done
  | progress cbn [outcome_bind assert negb failure_threshold put with_failure_threshold new
      HealthMonitor.health consecutive_failures andb fmap option_fmap option_map]
  | rewrite bool_decide_eq_true_2 by done | rewrite bool_decide_eq_false_2 by done ].

Lemma health_tests_pass clock i j : i ≠ j → all_pass (tests clock i j).
Proof.
  intros Hij. unfold all_pass, tests.
  repeat (apply Forall_cons_2; [symmetry|]); [..|apply Forall_nil_2].
  - unfold test_mark_alive. health. done.
  - unfold test_mark_joining. health. done.
  - unfold test_joining_to_alive_transition. health. done.
  - unfold test_record_failure_escalation. health. vm_compute. reflexivity.
  - unfold test_unknown_node_assumed_alive, is_alive. cbn. by rewrite lookup_empty.
  - unfold test_dead_nodes_list. match goal with |- context [dead_nodes ?m] => set (mon := m) end.
    assert (dead_nodes mon = [i]) as ->.
    { apply dead_singleton. intros k. unfold mon. unfold record_failure, mark_alive.
      destruct (decide (k = i)) as [->|Hk]; [|destruct (decide (k = j)) as [->|Hkj]].
      + health. vm_compute. naive_solver.
      + health. vm_compute. naive_solver.
      + health. change (nodes _ !! k) with ((∅ : gmap NodeId NodeHealthEntry) !! k).
        rewrite lookup_empty. naive_solver. }
    cbn. rewrite bool_decide_eq_true_2 by by left. cbn.
    by rewrite bool_decide_eq_false_2 by by intros ->%list_elem_of_singleton.
Qed.
End lemmas.

(** ** Properties *)

Section properties.
Import Testing.

(** Further: the tests of the balance of the ring find out exactly what they mean to, whatever
    the hash function, for distinct identifiers: the first passes if and only if each of
    the five nodes owns more than 15,000 and fewer than 25,000 of the 100,000 keys (also
    a node that owns none, which the test does not see, makes it fail: the others cannot
    all stay below a quarter), the second if and only if the sixth node takes over fewer
    than 25,000 of them.  No lookup fails, and no rounding changes a result. *)
Theorem balance_tests_exact `{UuidLib} `{Xxh3} `{HashIter} (new_v4 : nat → Uuid) :
  (∀ j k, (j < 6)%nat → (k < 6)%nat → new_v4 j = new_v4 k → j = k) →
  let five := RingTests.five_ring new_v4 in
  let six := HashRing.add_node five (RingTests.make_node new_v4 5 "5005") in
  let keys := seqZ 0 RingTests.total in
  RingTests.test_distribution_is_even new_v4 =
    assert (forallb (λ k, (15000 <? RingTests.owned new_v4 five k keys) &&
                          (RingTests.owned new_v4 five k keys <? 25000)) (seq 0 5)) ∧
  RingTests.test_add_node_minimal_reshuffle new_v4 =
    assert (RingTests.owned new_v4 six 5 keys <? 25000).
Proof.
  intros Hdistinct five six keys.
  assert (Z.of_nat (length keys) = 100000) as Hlen
    by (unfold keys; rewrite length_seqZ; exact (Z2Nat.id 100000 ltac:(lia))).
  split; [by apply distribution_test|by apply reshuffle_test].
Qed.

(** Further: the unit tests of the health monitor pass in the model for all identifiers,
    all clocks and all orders of tables; those of the ring that do not measure its
    balance pass on an example of a hash function (three replicas among five nodes
    need virtual nodes that do not all collide). *)
Theorem router_unit_tests `{UuidLib} `{HashIter} (clock : nat → Z) (node1 node2 : NodeId) :
  node1 ≠ node2 →
  all_pass (HealthTests.tests clock node1 node2) ∧
  all_pass (@RingTests.tests Examples.string_uuid mix_xxh3
    (λ k, of_bytes (int_to_string (Z.of_nat k)))).
Proof.
  intros Hne. split; [by apply health_tests_pass|]. unfold all_pass, RingTests.tests.
  repeat (apply Forall_cons_2; [vm_compute; reflexivity|]). apply Forall_nil_2.
Qed.
End properties.

(** ** Witnesses *)

Section witnesses.
#[local] Existing Instance Examples.string_uuid.
#[local] Existing Instance Examples.sorted_iter.
Import Testing.

Lemma balance_tests_exact_witness :
  let new_v4 := (λ k, of_bytes (int_to_string (Z.of_nat k))) : nat → @Uuid Examples.string_uuid in
  @RingTests.test_add_node_minimal_reshuffle Examples.string_uuid mix_xxh3 new_v4 =
  assert (@RingTests.owned Examples.string_uuid mix_xxh3 new_v4
    (@HashRing.add_node Examples.string_uuid mix_xxh3 (@RingTests.five_ring Examples.string_uuid mix_xxh3 new_v4)
      (RingTests.make_node new_v4 5 "5005")) 5 (seqZ 0 RingTests.total) <? 25000).
Proof.
  apply (@balance_tests_exact Examples.string_uuid mix_xxh3 Examples.sorted_iter).
  intros j k Hj Hk Heq.
  do 6 (destruct j as [|j]; [do 6 (destruct k as [|k]; [done|]); lia|]). lia.
Defined.

Lemma router_unit_tests_witness :
  all_pass (HealthTests.tests (λ k, Z.of_nat k)
    (mkNodeId (H := Examples.string_uuid) "a") (mkNodeId (H := Examples.string_uuid) "b")).
Proof. apply router_unit_tests. discriminate. Defined.
End witnesses.
