(* ===== verification/IntegrationTest.v ===== *)
(** * The integration test: a node joins while keys are deleted

    [test_full_join_recover_cycle] of [crates/node/tests/integration_join.rs], run in
    the model: nodes A and B stand alone, 200 keys are written to A, C joins through
    both, five keys are deleted at A meanwhile, and C must end up Alive, with values
    and times to live as they were written, and known to A.

    What the test leaves to chance are arguments: the identifiers, the pace of the
    machine, how long the rebalance takes, how many of the deletes A has handled when
    it serves C, and whether the first write to C comes before or after C has joined.

    This is one family of schedules, not every execution: the gossip loops and the
    sweepers that the test starts are left out, but for one message of C that reaches A
    before the last assertion. *)

From S2P Require Import Prelude Machine Text Common BTree Ring Store Membership Gossip NodeService Rebalance Testing.
Local Open Scope Z_scope.
Local Open Scope outcome_scope.

Module IntegrationTest.
Import Testing NodeService.

(** [format!("key_{:03}", i)], [format!("value_{:03}", i)] *)
Definition pad3 (i : nat) : string :=
  let s := int_to_string (Z.of_nat i) in of_bytes (replicate (3 - length s) "0"%char ++ s).
Definition key_name (i : nat) : string := "key_" +:+ pad3 i.
Definition value_of (i : nat) : bytes := as_bytes ("value_" +:+ pad3 i).

Definition keys_to_delete : list string :=
  ["key_010"; "key_050"; "key_100"; "key_150"; "key_199"]%string.

Section integration_test.
Context `{UuidLib} `{Xxh3} `{HashIter}.

Record Chances := mkChances {
  pace : nat → Z;
  during : nat → Z;          (** when the rebalance takes its steps, from its start *)
  total : Z;                 (** how long it takes *)
  node_a_id : NodeId; node_b_id : NodeId; node_c_id : NodeId;
  seed_a_id : NodeId; seed_b_id : NodeId;
  addr_a : string; addr_b : string;
  deleted_first : nat;       (** the deletes A has handled when it serves C *)
  early_write : bool;        (** the first write reaches C while it is joining *)
  polls : nat;               (** the polls until C is seen not to be joining *)
  exchange_env : Gossip.Env; (** what A reads when it handles the message of C *)
  message_clock : nat → Z;   (** what C reads when it builds it *)
}.

Context (ch : Chances).

(** The node, its store and table, and whether it joins; its servers are up after the
    sleep. *)
Definition start_node_server (node_id : NodeId) (seed_nodes : list NodeInfo) : timed (Node * bool) :=
  let* created := Instant_now (pace ch) in
  let is_joining := negb (bool_decide (seed_nodes = [])) in
  let* now := Instant_now (pace ch) in
  let n := mkNode (CacheStore.new created) (MembershipTable.new now node_id seed_nodes) ∅ in
  let* _ := sleep (pace ch) (from_millis 100) in
  ret (n, is_joining).

(** [client.set(..).await], [client.delete(..).await.unwrap()] *)
Definition client_set (req : SetRequest) (n : Node) : timed ((Status + SetResponse) * Node) :=
  let* now := Instant_now (pace ch) in lift (set now req n).
Definition client_delete (key : string) (n : Node) : outcome Node :=
  match delete (mkDeleteRequest key) n with
  | (inr _, n') => Returns n'
  | (inl _, _) => panic "called `Result::unwrap()` on an `Err` value"
  end.
Fixpoint delete_keys (keys : list string) (n : Node) : outcome Node :=
  match keys with
  | [] => Returns n
  | key :: keys' => let! n' := client_delete key n in delete_keys keys' n'
  end.

(** The loop that writes the keys to A. *)
Fixpoint write_keys (idxs : list nat) (a : Node) : timed Node :=
  match idxs with
  | [] => ret a
  | i :: idxs' =>
      let* (r, a) := client_set (mkSetRequest (key_name i) (value_of i) (Some 60000)) a in
      match r with
      | inr _ => write_keys idxs' a
      | inl _ => lift (panic "called `Result::unwrap()` on an `Err` value")
      end
  end.

(** The first write to C, which C refuses while it is joining. *)
Definition try_write (c : Node) : timed Node :=
  let* (r, c) := client_set (mkSetRequest "test_write" (as_bytes "data") None) c in
  match r with
  | inr _ => ret c
  | inl (Unavailable _) => ret c
  | inl _ => lift (panic "assertion failed")
  end.

(** What C reaches at an address, when the rebalance began at [t]. *)
Definition network (t : Z) (a b : Node) (k : nat) (addr : string) : string + list Rebalance.StreamItem :=
  let req := mkTransferRequest (NodeId_to_string (node_c_id ch)) [] in
  if decide (addr = addr_a ch) then inr (Rebalance.Chunk <$> transfer_keys (t + during ch k) req a)
  else if decide (addr = addr_b ch) then
    inr (Rebalance.Chunk <$> transfer_keys (t + during ch k) req b)
  else inl "transport error".

(** The task that rebalances C. *)
Definition rebalance_c (a b c : Node) : timed Node := λ '(k, t),
  let env := Rebalance.mkEnv (λ j, t + during ch j) (λ _ n, n) (network t a b) in
  let! (_, (_, c)) := Rebalance.wait_and_rebalance 0 env (node_c_id ch) (0%nat, c) in
  Returns (c, (k, t + total ch)).

(** [store_c.get(key)] *)
Definition store_get (key : string) (c : Node) : timed (option bytes * Node) :=
  let* now := Instant_now (pace ch) in
  let '(r, st) := CacheStore.get now key (store c) in
  ret (r, with_store c st).

(** The look at the deleted keys, which asserts nothing. *)
Fixpoint look_at (keys : list string) (c : Node) : timed Node :=
  match keys with
  | [] => ret c
  | key :: keys' => let* (_, c) := store_get key c in look_at keys' c
  end.

(** The loop that counts what was transferred, and what of it is right. *)
Fixpoint count_keys (idxs : list nat) (transferred_count correct_values : nat) (c : Node)
    : timed (nat * nat * Node) :=
  match idxs with
  | [] => ret (transferred_count, correct_values, c)
  | i :: idxs' =>
      if bool_decide (key_name i ∈ keys_to_delete) then
        count_keys idxs' transferred_count correct_values c
      else
        let* (r, c) := store_get (key_name i) c in
        match r with
        | Some value =>
            count_keys idxs' (S transferred_count)
              (if bool_decide (value = value_of i) then S correct_values else correct_values) c
        | None => count_keys idxs' transferred_count correct_values c
        end
  end.

(** The check of the time left to some key C holds. *)
Definition check_ttl (c : Node) : timed unit :=
  let* now := Instant_now (pace ch) in
  match CacheStore.entries_for_transfer now (store c) with
  | [] => ret ()
  | (key, _, _) :: _ =>
      let* now := Instant_now (pace ch) in
      match CacheStore.ttl now key (store c) with
      | None => ret ()
      | Some remaining =>
          let* _ := lift (assert (from_secs 50 <? remaining)) in
          lift (assert (remaining <=? from_secs 60))
      end
  end.

(** C's gossip reaches A. *)
Definition gossip_to_a (c a : Node) : Node :=
  with_table a (Gossip.gossip_exchange (exchange_env ch)
    (Gossip.build_gossip_message (message_clock ch) (membership_table c)) (membership_table a)).1.

(** The test from where C has been seen not to be joining. *)
Definition check_joined (a c : Node) : timed unit :=
  let* (set_result, c) := client_set (mkSetRequest "after_join" (as_bytes "works") None) c in
  let* _ := lift (assert (match set_result with inr _ => true | inl _ => false end)) in
  let* c := look_at keys_to_delete c in
  let* (counts, c) := count_keys (seq 0 200) 0 0 c in
  let '(transferred_count, correct_values) := counts in
  let* _ := lift (assert (0 <? transferred_count)%nat) in
  let* _ := lift (assert (transferred_count =? correct_values)%nat) in
  let* _ := check_ttl c in
  let* _ := sleep (pace ch) (from_secs 2) in
  let a := gossip_to_a c a in
  lift (assert (MembershipTable.is_alive (node_c_id ch) (membership_table a))).

(** The test from where C has been seen to be joining. *)
Definition join_and_check (a b c : Node) : timed unit :=
  let* c := if early_write ch then try_write c else ret c in
  let* a := lift (delete_keys (take (deleted_first ch) keys_to_delete) a) in
  let* c := rebalance_c a b c in
  let* c := if early_write ch then ret c else try_write c in
  let* a := lift (delete_keys (drop (deleted_first ch) keys_to_delete) a) in
  let* _ := sleep (pace ch) (from_millis 100 * Z.of_nat (polls ch)) in
  check_joined a c.

Definition test_full_join_recover_cycle : timed unit :=
  let* (a, _) := start_node_server (node_a_id ch) [] in
  let* (b, _) := start_node_server (node_b_id ch) [] in
  let* _ := sleep (pace ch) (from_millis 200) in
  let* a := write_keys (seq 0 200) a in
  let seed_nodes := [mkNodeInfo (seed_a_id ch) (addr_a ch); mkNodeInfo (seed_b_id ch) (addr_b ch)] in
  let* (c, was_joining) := start_node_server (node_c_id ch) seed_nodes in
  let* _ := lift (assert was_joining) in
  join_and_check a b c.

(** What the test counts on: distinct identifiers and addresses, a machine that is not
    slow, and a ring that gives C at least one of the keys that stay. *)
Record expected : Prop := {
  quick : prompt (pace ch);
  takes : ∀ j, 0 ≤ during ch j ≤ total ch;
  soon : total ch ≤ from_secs 1;
  few_polls : (polls ch ≤ 50)%nat;
  a_not_c : node_a_id ch ≠ node_c_id ch;
  seed_a_not_c : seed_a_id ch ≠ node_c_id ch;
  seed_b_not_c : seed_b_id ch ≠ node_c_id ch;
  seeds_differ : seed_a_id ch ≠ seed_b_id ch;
  addrs_differ : addr_a ch ≠ addr_b ch;
  some_key : ∀ peers, peers ≡ₚ [mkNodeInfo (seed_a_id ch) (addr_a ch); mkNodeInfo (seed_b_id ch) (addr_b ch)] →
    ∃ i, (i < 200)%nat ∧ key_name i ∉ keys_to_delete ∧
      Rebalance.owned (node_c_id ch) (Rebalance.rebalance_ring (node_c_id ch) "" peers) (key_name i) = true;
}.
End integration_test.
End IntegrationTest.

(** ** Lemmas *)

(** Nanoseconds. *)
Ltac nanos := cbv [from_secs from_millis nanos_per_sec nanos_per_milli] in *.

Section lemmas.
Context `{UuidLib} `{Xxh3} `{HashIter}.
Import Testing NodeService IntegrationTest.

(** *** The names of the keys *)

Lemma key_names_NoDup : NoDup (key_name <$> seq 0 200).
Proof. apply (bool_decide_unpack _). vm_compute. exact I. Qed.

Lemma key_name_inj i j : (i < 200)%nat → (j < 200)%nat → key_name i = key_name j → i = j.
Proof.
  intros Hi Hj Hk. apply (NoDup_lookup _ i j (key_name i) key_names_NoDup).
  - rewrite list_lookup_fmap, lookup_seq_lt by done. done.
  - rewrite list_lookup_fmap, lookup_seq_lt by done. simpl. congruence.
Qed.

(** *** What the nodes hold

    Keys of the test under their values, which expire between [lo] and [hi]. *)
Definition holds (lo hi : Z) (k : string) (e : CacheStore.CacheEntry) : Prop :=
  ∃ i x, (i < 200)%nat ∧ k = key_name i ∧ e = CacheStore.mkCacheEntry (value_of i) (Some x) ∧ lo ≤ x ≤ hi.
Definition written (lo hi : Z) (n : Node) : Prop :=
  ∀ k e, CacheStore.data (store n) !! k = Some e → holds lo hi k e.
(** Besides, other keys without expiry. *)
Definition mixed (lo hi : Z) (n : Node) : Prop :=
  ∀ k e, CacheStore.data (store n) !! k = Some e →
    holds lo hi k e ∨ (CacheStore.expires_at e = None ∧ ∀ i, k ≠ key_name i).

Lemma holds_weaken lo hi lo' hi' k e : lo' ≤ lo → hi ≤ hi' → holds lo hi k e → holds lo' hi' k e.
Proof. intros ? ? (i & x & ? & ? & ? & ?). exists i, x. repeat split; try done; lia. Qed.

(** *** Writing and deleting at A *)

Context (ch : Chances).
Hypothesis quick : prompt (pace ch).

Lemma set_with_ttl now key v ms n : joining n = false → now + from_millis ms < instant_limit →
  set now (mkSetRequest key v (Some ms)) n = Returns (inr (mkSetResponse true),
    with_store n (CacheStore.with_data (store n)
      (<[key := CacheStore.mkCacheEntry v (Some (now + from_millis ms))]> (CacheStore.data (store n))))).
Proof.
  intros Hj Hl. unfold set, CacheStore.set. rewrite Hj. cbn. unfold instant_add.
  by rewrite (proj2 (Z.ltb_lt _ _)).
Qed.

Lemma set_without_ttl now key v n : joining n = false →
  set now (mkSetRequest key v None) n = Returns (inr (mkSetResponse true),
    with_store n (CacheStore.with_data (store n)
      (<[key := CacheStore.mkCacheEntry v None]> (CacheStore.data (store n))))).
Proof. intros Hj. unfold set, CacheStore.set. by rewrite Hj. Qed.

Lemma write_keys_wp lo idxs : ∀ a t Q,
  Forall (λ i, (i < 200)%nat) idxs → joining a = false → 0 ≤ t →
  t + Z.of_nat (length idxs) * 1000000 < from_secs (2 ^ 61) →
  lo ≤ t + from_secs 60 → written lo (t + from_secs 60) a →
  (∀ a' t', t ≤ t' ≤ t + Z.of_nat (length idxs) * 1000000 →
     membership_table a' = membership_table a → written lo (t' + from_secs 60) a' →
     (∀ i, i ∈ idxs → is_Some (CacheStore.data (store a') !! key_name i)) →
     (∀ k, is_Some (CacheStore.data (store a) !! k) → is_Some (CacheStore.data (store a') !! k)) →
     Q a' t') →
  wp (write_keys ch idxs a) t Q.
Proof.
  induction idxs as [|i idxs IH]; intros a t Q Hidx Hj Ht Hlim Hlo Hw HQ.
  { apply wp_ret, HQ; [lia|done|done| |done]. by intros i ?%elem_of_nil. }
  apply Forall_cons in Hidx as [Hi Hidx]. cbn [length] in *. rewrite Nat2Z.inj_succ in *.
  cbn [write_keys]. apply wp_bind. unfold client_set. apply wp_bind, wp_now; [done|]. intros now Hnow.
  change (from_millis 1) with 1000000 in Hnow.
  eapply wp_lift.
  { apply set_with_ttl; [done|]. unfold instant_limit. nanos. machine_unfold. lia. }
  change (from_millis 60000) with (from_secs 60). apply IH; [done|exact Hj|lia|lia|lia| |].
  - intros k e. cbn. intros [[<- <-]|[_ Hk]]%lookup_insert_Some.
    + exists i, (now + from_secs 60). repeat split; try done; lia.
    + apply Hw in Hk. revert Hk. apply holds_weaken; lia.
  - intros a' t' Ht' Htab Hw' Hin Hkeep. apply HQ; [lia|done|done| |].
    + intros j [->|Hj']%elem_of_cons; [|by apply Hin]. apply Hkeep. cbn. rewrite lookup_insert_eq. eauto.
    + intros k Hk. apply Hkeep. cbn. rewrite lookup_insert_is_Some'. by right.
Qed.

Lemma delete_keys_spec keys : ∀ n, joining n = false → ∃ n', delete_keys keys n = Returns n' ∧
  membership_table n' = membership_table n ∧
  ∀ k, CacheStore.data (store n') !! k =
    if decide (k ∈ keys) then None else CacheStore.data (store n) !! k.
Proof.
  induction keys as [|key keys IH]; intros n Hj.
  { exists n. split; [done|]. split; [done|]. intros k. rewrite decide_False; [done|]. by apply not_elem_of_nil. }
  cbn [delete_keys]. unfold client_delete, delete. rewrite Hj. cbn [delete_key].
  destruct (CacheStore.delete key (store n)) as [b st] eqn:E. cbn [outcome_bind].
  destruct (IH (with_store n st) Hj) as (n' & -> & Ht & Hd). exists n'. split; [done|]. split; [done|].
  intros k. rewrite Hd. unfold CacheStore.delete in E. injection E as _ <-. cbn.
  destruct (decide (k ∈ keys)) as [Hk|Hk]; [by rewrite decide_True by by right|].
  destruct (decide (k = key)) as [->|Hne].
  - by rewrite decide_True, lookup_delete_eq by by left.
  - rewrite lookup_delete_ne by done. rewrite decide_False; [done|]. by intros [?|?]%elem_of_cons.
Qed.

(** *** The rebalance of C *)

Definition seeds : list NodeInfo :=
  [mkNodeInfo (seed_a_id ch) (addr_a ch); mkNodeInfo (seed_b_id ch) (addr_b ch)].
Hypothesis seed_a_c : seed_a_id ch ≠ node_c_id ch.
Hypothesis seed_b_c : seed_b_id ch ≠ node_c_id ch.
Hypothesis seed_a_b : seed_a_id ch ≠ seed_b_id ch.
Hypothesis addrs : addr_a ch ≠ addr_b ch.
Hypothesis takes : ∀ j, 0 ≤ during ch j ≤ total ch.
Hypothesis soon : total ch ≤ from_secs 1.

Lemma routable_NoDup t : MembershipTable.wf t →
  NoDup ((λ e, id (MembershipTable.info e)) <$> MembershipTable.routable_peers t).
Proof.
  intros Hwf. unfold MembershipTable.routable_peers.
  set (l := List.filter _ (hash_iter (MembershipTable.members t))).
  assert (∀ i e, (i, e) ∈ l → MembershipTable.members t !! i = Some e) as Hl.
  { intros i e [_ Hin]%elem_of_filterb. by apply elem_of_hash_iter. }
  assert (NoDup l.*1) as Hnd.
  { apply NoDup_fmap_fst.
    - intros i e e' He He'. apply Hl in He, He'. congruence.
    - apply NoDup_filterb. eapply NoDup_fmap_1, hash_iter_NoDup_fst. }
  replace ((λ e, id (MembershipTable.info e)) <$> l.*2) with l.*1; [done|].
  clearbody l. clear Hnd. induction l as [|[i e] l IH]; [done|]. rewrite !fmap_cons. f_equal.
  - symmetry. eapply MembershipTable.wf_entry; [done|]. apply Hl. by left.
  - apply IH. intros j e' Hin. apply Hl. by right.
Qed.

Lemma seeds_routable now :
  MembershipTable.info <$> MembershipTable.routable_peers (MembershipTable.new now (node_c_id ch) seeds)
  ≡ₚ seeds.
Proof.
  set (t := MembershipTable.new _ _ _).
  assert (MembershipTable.wf t) as Hwf by apply table_new_wf.
  apply NoDup_Permutation.
  - eapply (NoDup_fmap_1 id). rewrite <- list_fmap_compose.
    by apply routable_NoDup.
  - repeat constructor; try by intros ?%elem_of_nil. intros ?%list_elem_of_singleton. congruence.
  - intros x. rewrite list_elem_of_fmap. setoid_rewrite elem_of_routable_peers; [|done]. split.
    + intros (e & -> & Hi & He & _). apply new_lookup in He as [[? _]|(_ & n & Hn & _ & ->)]; [done|]. done.
    + intros Hx. assert (id x ≠ node_c_id ch) as Hxc.
      { apply elem_of_cons in Hx as [->|Hx]; [done|]. by apply list_elem_of_singleton in Hx as ->. }
      destruct (new_lookup_is_Some now (node_c_id ch) seeds (id x)) as [e He]; [right; eauto|].
      apply new_lookup in He as Hc. destruct Hc as [[? _]|(_ & n & Hn & Hid & ->)]; [done|].
      assert (n = x) as ->.
      { revert Hx Hn. unfold seeds. rewrite !elem_of_cons, !elem_of_nil.
        intros [->|[->|[]]] [->|[->|[]]]; done || (simpl in Hid; congruence). }
      exists (MembershipTable.mkMemberEntry x MembershipTable.Alive 0 now). done.
Qed.

(** What C receives is what A holds, to expire within the duration of the rebalance of
    when it would. *)
Lemma received_holds lo hi t k m j e old : (lo ≤ hi)%Z → t + 2000000000 ≤ lo → hi - t < 2 ^ 62 →
  holds lo hi j e → ∃ e', Rebalance.received (t + during ch m) (mkTransferChunk j (CacheStore.value e)
    ((λ x, as_u64 (as_millis (x - (t + during ch k)))) <$> CacheStore.expires_at e)) old = Some e' ∧
  holds (lo - 2000000000) (hi + total ch) j e'.
Proof.
  intros Hle Hlo Hhi (i & x & Hi & -> & -> & Hx). pose proof (takes m). pose proof (takes k). nanos.
  assert (as_u64 (as_millis (x - (t + during ch k))) = (x - (t + during ch k)) / 1000000) as Hms.
  { unfold as_millis, nanos_per_milli. apply as_u64_small. machine_unfold.
    split; [apply Z.div_pos; lia|]. apply Z.div_le_upper_bound; lia. }
  pose proof (Z.mul_div_le (x - (t + during ch k)) 1000000 ltac:(lia)) as Hdiv.
  pose proof (Z.mod_pos_bound (x - (t + during ch k)) 1000000 ltac:(lia)) as Hmod.
  pose proof (Z.div_mod (x - (t + during ch k)) 1000000 ltac:(lia)) as Heq.
  unfold Rebalance.received. cbn [chunk_expires_at_ms chunk_value CacheStore.value
    CacheStore.expires_at fmap option_fmap option_map]. rewrite Hms.
  set (ms := _ / 1000000) in *.
  assert (0 < ms) as Hpos by lia.
  exists (CacheStore.mkCacheEntry (value_of i) (Some (t + during ch m + from_millis ms))).
  split; [destruct ms; [lia|done|lia]|].
  exists i, (t + during ch m + from_millis ms). repeat split; [done|nanos; lia..].
Qed.

Lemma holds_live lo hi now k e : now < lo → holds lo hi k e → CacheStore.live now e = true.
Proof. intros Hn (i & x & _ & _ & -> & Hx). cbn. apply Z.ltb_lt. lia. Qed.

Definition env_c (t : Z) (a b : Node) : Rebalance.Env :=
  Rebalance.mkEnv (λ j, t + during ch j) (λ _ n, n) (network ch t a b).
(** The window of expiries of what C receives. *)
Definition received_window (lo hi : Z) (k : string) (e : CacheStore.CacheEntry) : Prop :=
  holds (lo - 2000000000) (hi + total ch) k e.

Lemma pull_source lo hi t a b src addr0 ring k n :
  0 ≤ t < from_secs (2 ^ 61) → t + 2000000000 ≤ lo → lo ≤ hi → hi - t < 2 ^ 62 →
  (addr0 = addr_a ch ∧ src = a ∨ addr0 = addr_b ch ∧ src = b) → written lo hi src →
  ∃ count k' n',
    Rebalance.pull_keys_from (env_c t a b) (node_c_id ch) addr0 ring (k, n) = Returns (inr count, (k', n')) ∧
    membership_table n' = membership_table n ∧ tombstones n' = tombstones n ∧
    ∀ j, if bool_decide (is_Some (CacheStore.data (store src) !! j)) && Rebalance.owned (node_c_id ch) ring j
         then ∃ e, CacheStore.data (store n') !! j = Some e ∧ received_window lo hi j e
         else CacheStore.data (store n') !! j = CacheStore.data (store n) !! j.
Proof.
  intros Ht Hlo Hle Hhi Hsrc Hw.
  assert (Rebalance.clocks_ok (env_c t a b)) as Hck.
  { intros j. pose proof (takes j). cbn. time_unfold. machine_unfold. lia. }
  destruct (pull_keys_exact (env_c t a b) (node_c_id ch) ring addr0 (t + during ch k)
    (mkTransferRequest (NodeId_to_string (node_c_id ch)) []) src n k (λ _ _, eq_refl) Hck)
    as (k' & n' & Hr & Ht' & Hts & Hd).
  { cbn. unfold network. destruct Hsrc as [[-> ->]|[-> ->]]; [by rewrite decide_True|].
    rewrite decide_False by done. by rewrite decide_True. }
  eexists _, k', n'. split; [exact Hr|]. split; [done|]. split; [done|]. intros j. specialize (Hd j).
  assert (CacheStore.view (t + during ch k) (store src) !! j = CacheStore.data (store src) !! j) as Hv.
  { apply view_lookup_live. intros e He. apply Hw in He. revert He. apply holds_live.
    pose proof (takes k). nanos. lia. }
  rewrite Hv in Hd. destruct (CacheStore.data (store src) !! j) as [e|] eqn:E; [|done].
  rewrite bool_decide_eq_true_2 by eauto. cbn [andb]. destruct (owned _ ring j); [|done].
  destruct Hd as [m Hm].
  destruct (received_holds lo hi t k m j e (CacheStore.data (store n) !! j) Hle Hlo Hhi (Hw j e E)) as (e' & He' & Hh).
  exists e'. split; [|exact Hh]. exact (eq_trans Hm He').
Qed.

(** Pulling from both, in either order, [b] holding nothing. *)
Definition pulled (lo hi : Z) (a : Node) (ring : HashRing.HashRing) (c : Node) : Prop :=
  ∀ j, if bool_decide (is_Some (CacheStore.data (store a) !! j)) && Rebalance.owned (node_c_id ch) ring j
       then ∃ e, CacheStore.data (store c) !! j = Some e ∧ received_window lo hi j e
       else CacheStore.data (store c) !! j = None.

Lemma rebalance_both lo hi t a b c ring peers k :
  0 ≤ t < from_secs (2 ^ 61) → t + 2000000000 ≤ lo → lo ≤ hi → hi - t < 2 ^ 62 →
  written lo hi a → CacheStore.data (store b) = ∅ → CacheStore.data (store c) = ∅ → peers ≡ₚ seeds →
  ∃ count k' c', Rebalance.rebalance (env_c t a b) (node_c_id ch) peers ring (k, c) =
    Returns (count, (k', c')) ∧ membership_table c' = membership_table c ∧ tombstones c' = tombstones c ∧
    pulled lo hi a ring c'.
Proof.
  intros Ht Hlo Hle Hhi Hw Hb Hc Hperm.
  assert (written lo hi b) as Hwb by (intros j e; rewrite Hb; by rewrite lookup_empty).
  assert (∀ j, bool_decide (is_Some (CacheStore.data (store b) !! j)) = false) as Hnone.
  { intros j. rewrite Hb, lookup_empty. apply bool_decide_eq_false_2. by intros [? [=]]. }
  unfold Rebalance.rebalance.
  apply symmetry, Permutation_length_2_inv in Hperm as [->| ->];
    cbn [Rebalance.rebalance_loop id addr].
  - rewrite decide_False by done. destruct (pull_source lo hi t a b a (addr_a ch) ring k c Ht Hlo Hle Hhi) as
      (n1 & k1 & c1 & -> & Ht1 & Hts1 & Hd1); [by left|done|].
    cbn [outcome_bind]. rewrite decide_False by done.
    destruct (pull_source lo hi t a b b (addr_b ch) ring k1 c1 Ht Hlo Hle Hhi) as
      (n2 & k2 & c2 & -> & Ht2 & Hts2 & Hd2); [by right|done|]. cbn [outcome_bind].
    eexists _, k2, c2. split; [reflexivity|]. split; [congruence|]. split; [congruence|].
    intros j. specialize (Hd1 j). specialize (Hd2 j).
    rewrite Hnone in Hd2.
    cbn [andb] in Hd2. rewrite Hd2. rewrite Hc, lookup_empty in Hd1. exact Hd1.
  - rewrite decide_False by done. destruct (pull_source lo hi t a b b (addr_b ch) ring k c Ht Hlo Hle Hhi) as
      (n2 & k2 & c2 & -> & Ht2 & Hts2 & Hd2); [by right|done|].
    cbn [outcome_bind]. rewrite decide_False by done.
    destruct (pull_source lo hi t a b a (addr_a ch) ring k2 c2 Ht Hlo Hle Hhi) as
      (n1 & k1 & c1 & -> & Ht1 & Hts1 & Hd1); [by left|done|]. cbn [outcome_bind].
    eexists _, k1, c1. split; [reflexivity|]. split; [congruence|]. split; [congruence|].
    intros j. specialize (Hd1 j). specialize (Hd2 j).
    rewrite Hnone in Hd2.
    cbn [andb] in Hd2. rewrite Hd2, Hc, lookup_empty in Hd1. exact Hd1.
Qed.

Lemma rebalance_c_spec lo hi t now a b c k :
  0 ≤ t < from_secs (2 ^ 61) → t + 2000000000 ≤ lo → lo ≤ hi → hi - t < 2 ^ 62 →
  written lo hi a → CacheStore.data (store b) = ∅ → CacheStore.data (store c) = ∅ → tombstones c = ∅ →
  membership_table c = MembershipTable.new now (node_c_id ch) seeds →
  ∃ peers c', peers ≡ₚ seeds ∧ rebalance_c ch a b c (k, t) = Returns (c', (k, t + total ch)) ∧
    membership_table c' = MembershipTable.mark_self_alive (membership_table c) ∧
    pulled lo hi a (Rebalance.rebalance_ring (node_c_id ch) "" peers) c'.
Proof.
  intros Ht Hlo Hle Hhi Hw Hb Hc Htomb Htab.
  set (peers := MembershipTable.info <$> MembershipTable.routable_peers (membership_table c)).
  assert (peers ≡ₚ seeds) as Hperm by (unfold peers; rewrite Htab; apply seeds_routable).
  exists peers.
  destruct (rebalance_both lo hi t a b c (Rebalance.rebalance_ring (node_c_id ch) "" peers) peers 2 Ht Hlo Hle
    Hhi Hw Hb Hc Hperm) as (count & k' & c1 & Hr & Ht1 & Hts1 & Hd1).
  assert (MembershipTable.local_addr (membership_table c) = "") as Haddr.
  { rewrite Htab. apply new_local_addr. intros n Hn. unfold seeds in Hn.
    apply elem_of_cons in Hn as [->|Hn]; [done|]. by apply list_elem_of_singleton in Hn as ->. }
  unfold rebalance_c, Rebalance.wait_and_rebalance. fold (env_c t a b).
  assert (Rebalance.wait_for_peers 0 (env_c t a b) (0%nat, c) = Returns (0%nat, c)) as ->.
  { cbn [Rebalance.wait_for_peers]. destruct (MembershipTable.routable_peers (membership_table c)) eqn:E; [|done].
    exfalso. by apply Permutation_nil_l in Hperm. }
  cbn [outcome_bind Rebalance.others env_c]. fold peers. rewrite Haddr.
  fold (env_c t a b). rewrite Hr. cbn [outcome_bind].
  rewrite Hts1, Htomb, elements_empty. cbn [Rebalance.apply_tombstones outcome_bind].
  eexists. split; [done|]. split; [reflexivity|]. split; [cbn; by rewrite Ht1|]. exact Hd1.
Qed.

(** *** Looking at C *)

Lemma store_get_wp lo hi key c t Q : mixed lo hi c → t + 1000000 < lo →
  (∀ t', t ≤ t' ≤ t + 1000000 → Q (CacheStore.value <$> CacheStore.data (store c) !! key, c) t') →
  wp (store_get ch key c) t Q.
Proof.
  intros Hm Ht HQ. unfold store_get. apply wp_bind, wp_now; [done|]. intros now Hnow.
  change (from_millis 1) with 1000000 in Hnow.
  assert (CacheStore.get now key (store c) =
    (CacheStore.value <$> CacheStore.data (store c) !! key, store c)) as ->.
  { unfold CacheStore.get, CacheStore.get_lookup.
    destruct (CacheStore.data (store c) !! key) as [e|] eqn:E; [|done].
    assert (CacheStore.expired now e = false) as ->; [|done].
    unfold CacheStore.expired. apply Hm in E as [(i & x & _ & _ & -> & Hx)|[-> _]]; [|done].
    cbn. apply Z.leb_gt. lia. }
  assert (with_store c (store c) = c) as -> by by destruct c. apply wp_ret, HQ. lia.
Qed.

Lemma look_at_wp lo hi keys c : mixed lo hi c → ∀ t Q,
  t + Z.of_nat (length keys) * 1000000 < lo →
  (∀ t', t ≤ t' ≤ t + Z.of_nat (length keys) * 1000000 → Q c t') → wp (look_at ch keys c) t Q.
Proof.
  intros Hm. induction keys as [|key keys IH]; intros t Q Ht HQ; cbn [look_at length] in *.
  { apply wp_ret, HQ. lia. }
  rewrite Nat2Z.inj_succ in *.
  apply wp_bind. eapply store_get_wp; [done|lia|]. intros t1 Ht1. cbv beta iota.
  apply IH; [lia|]. intros t2 Ht2. apply HQ. lia.
Qed.

Lemma count_keys_wp lo hi c : mixed lo hi c → ∀ idxs n m t Q,
  Forall (λ i, (i < 200)%nat) idxs → t + Z.of_nat (length idxs) * 1000000 < lo →
  (∀ d t', t ≤ t' ≤ t + Z.of_nat (length idxs) * 1000000 →
     (∀ i, i ∈ idxs → key_name i ∉ keys_to_delete →
        is_Some (CacheStore.data (store c) !! key_name i) → (0 < d)%nat) →
     Q (d + n, d + m, c)%nat t') →
  wp (count_keys ch idxs n m c) t Q.
Proof.
  intros Hm. induction idxs as [|i idxs IH]; intros n m t Q Hi Ht HQ; cbn [length] in *.
  { apply wp_ret, (HQ 0%nat); [lia|]. by intros i ?%elem_of_nil. }
  rewrite Nat2Z.inj_succ in *. apply Forall_cons in Hi as [Hi Hidx].
  cbn [count_keys]. case_bool_decide as Hdel.
  { apply IH; [done|lia|]. intros d t' Ht' Hd. apply HQ; [lia|].
    intros j [->|Hj]%elem_of_cons Hn Hs; [done|by eapply Hd]. }
  apply wp_bind. eapply store_get_wp; [done|lia|]. intros t1 Ht1. cbv beta iota.
  destruct (CacheStore.data (store c) !! key_name i) as [e|] eqn:E; cbn [fmap option_fmap option_map].
  - assert (CacheStore.value e = value_of i) as Hv.
    { apply Hm in E as [(j & x & Hj & Hk & -> & _)|[_ Hne]]; [|by destruct (Hne i)].
      apply key_name_inj in Hk as ->; done. }
    rewrite Hv, bool_decide_eq_true_2 by done.
    apply IH; [done|lia|]. intros d t' Ht' Hd.
    replace (d + S n)%nat with (S d + n)%nat by lia. replace (d + S m)%nat with (S d + m)%nat by lia.
    apply HQ; [lia|]. intros; lia.
  - apply IH; [done|lia|]. intros d t' Ht' Hd. apply HQ; [lia|].
    intros j [->|Hj]%elem_of_cons Hn Hs; [|by eapply Hd]. rewrite E in Hs. by destruct Hs.
Qed.

Lemma check_ttl_wp lo hi c t Q : mixed lo hi c →
  t + 2000000 + from_secs 50 < lo → hi ≤ t + from_secs 60 →
  (∀ t', t ≤ t' ≤ t + 2000000 → Q () t') → wp (check_ttl ch c) t Q.
Proof.
  intros Hm Hlo Hhi HQ. nanos. unfold check_ttl.
  apply wp_bind, wp_now; [done|]. intros t1 Ht1. change (from_millis 1) with 1000000 in Ht1.
  destruct (CacheStore.entries_for_transfer t1 (store c)) as [|[[key v] r] l] eqn:E.
  { apply wp_ret, HQ. lia. }
  assert ((key, v, r) ∈ CacheStore.entries_for_transfer t1 (store c)) as Hin by (rewrite E; by left).
  apply elem_of_transfer in Hin as (e & [Hk _]%lookup_purge & _).
  apply wp_bind, wp_now; [done|]. intros t2 Ht2. change (from_millis 1) with 1000000 in Ht2.
  unfold CacheStore.ttl. rewrite Hk. apply Hm in Hk as [(i & x & _ & _ & -> & Hx)|[-> _]];
    [|apply wp_ret, HQ; lia]. cbn [CacheStore.expires_at].
  rewrite (proj2 (Z.ltb_lt _ _)) by lia.
  apply wp_bind, wp_assert; [apply Z.ltb_lt; nanos; lia|].
  apply wp_assert; [apply Z.leb_le; nanos; lia|]. apply HQ. lia.
Qed.

(** *** The steps of the test *)

Lemma start_wp i ns t Q :
  (∀ created now t', t ≤ t' ≤ t + 103000000 →
     Q (mkNode (CacheStore.new created) (MembershipTable.new now i ns) ∅, negb (bool_decide (ns = []))) t') →
  wp (start_node_server ch i ns) t Q.
Proof.
  intros HQ. unfold start_node_server. apply wp_bind, wp_now; [done|]. intros t1 Ht1.
  apply wp_bind, wp_now; [done|]. intros t2 Ht2. apply wp_bind, wp_sleep; [done|]. intros t3 Ht3.
  apply wp_ret, HQ. nanos. lia.
Qed.

(** A write without TTL of a key that is none of the 200. *)
Lemma mixed_insert lo hi key v c : (∀ i, key ≠ key_name i) → mixed lo hi c →
  mixed lo hi (with_store c (CacheStore.with_data (store c)
    (<[key := CacheStore.mkCacheEntry v None]> (CacheStore.data (store c))))) ∧
  ∀ i, CacheStore.data (store (with_store c (CacheStore.with_data (store c)
    (<[key := CacheStore.mkCacheEntry v None]> (CacheStore.data (store c)))))) !! key_name i =
    CacheStore.data (store c) !! key_name i.
Proof.
  intros Hk Hm. split.
  - intros k e. cbn. intros [[<- <-]|[_ He]]%lookup_insert_Some; [by right|by apply Hm].
  - intros i. cbn. by rewrite lookup_insert_ne.
Qed.

Lemma client_set_wp lo hi key v c t Q : joining c = false → (∀ i, key ≠ key_name i) → mixed lo hi c →
  (∀ c' t', t ≤ t' ≤ t + 1000000 → membership_table c' = membership_table c → mixed lo hi c' →
     (∀ i, CacheStore.data (store c') !! key_name i = CacheStore.data (store c) !! key_name i) →
     Q (inr (mkSetResponse true), c') t') →
  wp (client_set ch (mkSetRequest key v None) c) t Q.
Proof.
  intros Hj Hk Hm HQ. unfold client_set. apply wp_bind, wp_now; [done|]. intros now Hnow.
  change (from_millis 1) with 1000000 in Hnow. eapply wp_lift; [by apply set_without_ttl|].
  destruct (mixed_insert lo hi key v c Hk Hm) as [Hm' Hd]. by apply HQ.
Qed.

Lemma try_write_joining c t (Q : Node → Z → Prop) : joining c = true →
  (∀ t', t ≤ t' ≤ t + 1000000 → Q c t') → wp (try_write ch c) t Q.
Proof.
  intros Hj HQ. unfold try_write, client_set. apply wp_bind, wp_bind, wp_now; [done|]. intros now Hnow.
  eapply wp_lift; [unfold set; by rewrite Hj|]. apply wp_ret, HQ. exact Hnow.
Qed.

Lemma not_key_name i : "test_write"%string ≠ key_name i ∧ "after_join"%string ≠ key_name i.
Proof. by split. Qed.

Lemma gossip_to_a_alive a c now now' : node_a_id ch ≠ node_c_id ch →
  membership_table a = MembershipTable.new now (node_a_id ch) [] →
  membership_table c = MembershipTable.mark_self_alive (MembershipTable.new now' (node_c_id ch) seeds) →
  MembershipTable.is_alive (node_c_id ch) (membership_table (gossip_to_a ch c a)) = true.
Proof.
  intros Hne Ha Hc. unfold gossip_to_a, Gossip.gossip_exchange. cbn [membership_table with_table fst].
  rewrite entries_of_build. set (u := membership_table c). 
  assert (MembershipTable.wf u) as Hwf by (unfold u; rewrite Hc; apply mark_self_alive_wf, table_new_wf).
  assert (MembershipTable.version u (node_c_id ch) = Some (1, MembershipTable.Alive)) as Hv.
  { unfold u. rewrite Hc. unfold MembershipTable.mark_self_alive.
    change (MembershipTable.local_id _) with (node_c_id ch). rewrite new_self.
    rewrite version_set_entry, decide_True by done. done. }
  set (t1 := MembershipTable.merge _ _ _).
  assert (MembershipTable.version t1 (node_c_id ch) = Some (1, MembershipTable.Alive)) as Hv1.
  { unfold t1. rewrite merge_view_version; [|done|by rewrite Ha]. rewrite Hv, Ha.
    unfold MembershipTable.version, MembershipTable.new. cbn. by rewrite lookup_singleton_ne. }
  assert (∀ t, MembershipTable.version t (node_c_id ch) = Some (1, MembershipTable.Alive) →
    MembershipTable.is_alive (node_c_id ch) t = true) as Hal.
  { intros t. unfold MembershipTable.version, MembershipTable.is_alive.
    destruct (MembershipTable.members t !! node_c_id ch) as [e|]; [|done]. cbn. intros [= _ ->]. done. }
  apply Hal. destruct (NodeId_parse _); [by rewrite touch_version|done].
Qed.

Lemma joining_new st now i ns ts :
  joining (mkNode st (MembershipTable.new now i ns) ts) = negb (bool_decide (ns = [])).
Proof.
  unfold joining, MembershipTable.is_self_joining. cbn [membership_table].
  change (MembershipTable.local_id _) with i. rewrite new_self. cbn.
  case_decide as Hs; [by rewrite Hs|]. by rewrite (bool_decide_eq_false_2 (ns = [])).
Qed.

Lemma joining_of n now i ns : membership_table n = MembershipTable.new now i ns →
  joining n = negb (bool_decide (ns = [])).
Proof. intros Ht. unfold joining. rewrite Ht. apply (joining_new (store n) now i ns (tombstones n)). Qed.

Lemma joined c now ns : membership_table c = MembershipTable.mark_self_alive (MembershipTable.new now (node_c_id ch) ns) →
  joining c = false.
Proof.
  intros Hc. unfold joining. rewrite Hc. apply mark_self_alive_alive, table_new_wf.
Qed.

Lemma try_write_joined lo hi c t (Q : Node → Z → Prop) : joining c = false → mixed lo hi c →
  (∀ c' t', t ≤ t' ≤ t + 1000000 → membership_table c' = membership_table c → mixed lo hi c' →
     (∀ i, CacheStore.data (store c') !! key_name i = CacheStore.data (store c) !! key_name i) → Q c' t') →
  wp (try_write ch c) t Q.
Proof.
  intros Hj Hm HQ. unfold try_write. apply wp_bind. eapply client_set_wp; [done|apply not_key_name|done|].
  intros c' t' Ht' Htab Hm' Hd. apply wp_ret. by apply HQ.
Qed.

Lemma pulled_mixed lo hi a ring c : pulled lo hi a ring c →
  mixed (lo - 2000000000) (hi + total ch) c.
Proof.
  intros Hp k e He. specialize (Hp k).
  destruct (bool_decide (is_Some (CacheStore.data (store a) !! k)) && Rebalance.owned (node_c_id ch) ring k);
    [|congruence].
  destruct Hp as (e' & He' & Hw). left. rewrite He in He'. injection He' as ->. exact Hw.
Qed.

(** From where C has joined, with some key that stays. *)
Lemma check_joined_wp lo hi na nc i a c t (Q : unit → Z → Prop) :
  node_a_id ch ≠ node_c_id ch → (i < 200)%nat → key_name i ∉ keys_to_delete → mixed lo hi c →
  membership_table a = MembershipTable.new na (node_a_id ch) [] →
  membership_table c = MembershipTable.mark_self_alive (MembershipTable.new nc (node_c_id ch) seeds) →
  is_Some (CacheStore.data (store c) !! key_name i) →
  t + 51 * 1000000000 < lo → hi ≤ t + 60 * 1000000000 → (∀ t', Q () t') →
  wp (check_joined ch a c) t Q.
Proof.
  intros Hac Hi Hdel Hm Hta Htc Hs Hlo Hhi HQ. unfold check_joined.
  apply wp_bind. eapply client_set_wp; [by eapply joined|apply not_key_name|exact Hm|].
  intros c3 t10 Ht10 Htc3 Hm3 Hd3. apply wp_bind, wp_assert; [done|].
  apply wp_bind, (look_at_wp _ _ keys_to_delete c3 Hm3).
  { cbn [keys_to_delete length]. lia. }
  intros t11 Ht11. cbn [keys_to_delete length] in Ht11.
  apply wp_bind, (count_keys_wp _ _ c3 Hm3).
  { apply Forall_seq. lia. }
  { cbn [seq length]. lia. }
  intros d t12 Ht12 Hd. change (Z.of_nat (length (seq 0 200))) with 200 in Ht12. cbv beta iota.
  assert (0 < d)%nat as Hd0.
  { apply (Hd i); [apply elem_of_seq; lia|done|]. by rewrite Hd3. }
  apply wp_bind, wp_assert; [apply Nat.ltb_lt; lia|].
  apply wp_bind, wp_assert; [apply Nat.eqb_refl|].
  apply wp_bind, (check_ttl_wp _ _ c3 t12 _ Hm3); nanos; [lia|lia|].
  intros t13 Ht13. apply wp_bind, wp_sleep; [done|]. intros t14 _.
  apply wp_assert; [|apply HQ].
  apply (gossip_to_a_alive a c3 na nc Hac); [done|]. by rewrite Htc3.
Qed.

(** From a written A, an empty C, and not long after the writes. *)
Lemma join_and_check_wp lo hi na cc nc a b c0 t (Q : unit → Z → Prop) :
  (polls ch ≤ 50)%nat → node_a_id ch ≠ node_c_id ch →
  (∀ peers, peers ≡ₚ seeds → ∃ i, (i < 200)%nat ∧ key_name i ∉ keys_to_delete ∧
     Rebalance.owned (node_c_id ch) (Rebalance.rebalance_ring (node_c_id ch) "" peers) (key_name i) = true) →
  membership_table a = MembershipTable.new na (node_a_id ch) [] →
  written lo hi a → (∀ i, (i < 200)%nat → is_Some (CacheStore.data (store a) !! key_name i)) →
  c0 = mkNode (CacheStore.new cc) (MembershipTable.new nc (node_c_id ch) seeds) ∅ →
  CacheStore.data (store b) = ∅ → 0 ≤ t < from_secs (2 ^ 60) + from_secs 2 →
  t + 59500000000 ≤ lo → lo ≤ hi → hi ≤ t + 60000000000 → (∀ t', Q () t') →
  wp (join_and_check ch a b c0) t Q.
Proof.
  intros Hpolls Hac Hkey Hta Hwa Hina Hc0 Hb Ht Hlo Hle Hhi HQ.
  assert (0 ≤ total ch ≤ 1000000000) as Htot by (pose proof (takes 0%nat); nanos; lia).
  assert (joining c0 = true) as Hj0 by (rewrite (joining_of c0 nc (node_c_id ch) seeds); [done|by rewrite Hc0]).
  unfold join_and_check.
  apply wp_bind, (wp_mono _ _ (λ c t', c = c0 ∧ t ≤ t' ≤ t + 1000000)).
  { destruct (early_write ch); [by apply try_write_joining|]. apply wp_ret. split; [done|lia]. }
  intros ? t6 [-> Ht6].
  pose proof (joining_of a _ _ _ Hta : joining a = false) as Hja.
  destruct (delete_keys_spec (take (deleted_first ch) keys_to_delete) a Hja) as (a1 & Ha1 & Hta1 & Hda1).
  apply wp_bind. eapply wp_lift; [exact Ha1|].
  assert (written lo hi a1) as Hw1.
  { intros k e He. rewrite Hda1 in He. case_decide; [done|]. apply Hwa in He. exact He. }
  apply wp_bind. apply (wp_mono _ _ (λ c t', t' = t6 + total ch ∧ ∃ peers, peers ≡ₚ seeds ∧
    membership_table c = MembershipTable.mark_self_alive (membership_table c0) ∧
    pulled lo hi a1 (Rebalance.rebalance_ring (node_c_id ch) "" peers) c)).
  { intros k. destruct (rebalance_c_spec lo hi t6 nc a1 b c0 k) as (peers & c1 & Hperm & Hr & Htc & Hp); [nanos; lia|lia|lia|lia|try done; by subst c0..|].
    exists c1, k, (t6 + total ch). split; [exact Hr|]. split; [done|]. eauto. }
  intros c1 t7 (-> & peers & Hperm & Htc1 & Hp).
  assert (joining c1 = false) as Hj1 by (apply (joined c1 nc seeds); by rewrite Htc1, Hc0).
  pose proof (pulled_mixed _ _ _ _ _ Hp) as Hm1.
  destruct (Hkey peers Hperm) as (i & Hi & Hdel & Ho).
  assert (is_Some (CacheStore.data (store c1) !! key_name i)) as Hs1.
  { specialize (Hp (key_name i)). rewrite Ho, andb_true_r, bool_decide_eq_true_2 in Hp.
    - destruct Hp as (e & He & _). eauto.
    - rewrite Hda1, decide_False; [apply Hina; lia|].
      intros Hin. apply Hdel. by eapply subseteq_take. }
  (* the first write, when it is late, and the other deletes *)
  apply wp_bind, (wp_mono _ _ (λ c t', t6 + total ch ≤ t' ≤ t6 + total ch + 1000000 ∧
    membership_table c = membership_table c1 ∧ mixed (lo - 2000000000) (hi + total ch) c ∧
    ∀ i, CacheStore.data (store c) !! key_name i = CacheStore.data (store c1) !! key_name i)).
  { destruct (early_write ch); [apply wp_ret; repeat split; done || lia|].
    eapply try_write_joined; [done..|]. intros c2 t8 Ht8 Ht2' Hm2 Hd2. done. }
  intros c2 t8 (Ht8 & Htc2 & Hm2 & Hd2).
  pose proof (joining_of a1 _ _ _ (eq_trans Hta1 Hta) : joining a1 = false) as Hja1.
  destruct (delete_keys_spec (drop (deleted_first ch) keys_to_delete) a1 Hja1) as (a2 & Ha2 & Hta2 & _).
  apply wp_bind. eapply wp_lift; [exact Ha2|].
  apply wp_bind, wp_sleep; [done|]. intros t9 Ht9. nanos.
  apply (check_joined_wp (lo - 2000000000) (hi + total ch) na nc i); try done.
  - by rewrite Hta2, Hta1.
  - by rewrite Htc2, Htc1, Hc0.
  - by rewrite Hd2.
  - lia.
  - lia.
Qed.
End lemmas.

(** ** Properties *)

Section properties.
Context `{UuidLib} `{Xxh3} `{HashIter}.
Import Testing NodeService IntegrationTest.

(** Further: the integration test passes in the model, on the schedules modelled: whatever
    the identifiers, the hash function, the order of the tables, however many of the
    deletes A has handled when it serves C, and whether the first write reaches C while it
    is joining (C refuses it then) or after, all assertions hold, provided that the machine
    is quick ([expected]: no access takes more than 1 ms, the rebalance no more than 1 s,
    and C is seen to have joined by the 50th poll), that the ring C makes up gives it some
    key that stays, and that a gossip message of C has reached A by the end. *)
Theorem integration_test (ch : Chances) (t : Z) :
  expected ch → 0 ≤ t < from_secs (2 ^ 60) →
  run t (test_full_join_recover_cycle ch) = Returns ().
Proof.
  intros [Hq Htakes Hsoon Hpolls Hac Hsac Hsbc Hsab Hab Hkey] Ht.
  assert (0 ≤ total ch ≤ 1000000000) as Htot by (pose proof (Htakes 0%nat); nanos; lia).
  cut (wp (test_full_join_recover_cycle ch) t (λ _ _, True)).
  { intros Hw. apply wp_run in Hw as ([] & t' & Hr & _). done. }
  unfold test_full_join_recover_cycle.
  apply wp_bind, start_wp; [done|]. intros ca na t1 Ht1.
  apply wp_bind, start_wp; [done|]. intros cb nb t2 Ht2.
  apply wp_bind, wp_sleep; [done|]. intros t3 Ht3. nanos.
  apply wp_bind, (write_keys_wp ch Hq (t3 + from_secs 60)); nanos.
  { apply Forall_seq. lia. }
  { apply joining_new. }
  { lia. }
  { cbn [length seq]. lia. }
  { lia. }
  { intros k e. change (CacheStore.data _) with (∅ : gmap string CacheStore.CacheEntry).
    by rewrite lookup_empty. }
  intros a t4 Ht4 Hta Hwa Hina _. change (Z.of_nat (length (seq 0 200))) with 200 in Ht4.
  apply wp_bind, start_wp; [done|]. intros cc nc t5 Ht5. cbv beta iota.
  apply wp_bind, wp_assert; [done|].
  apply (join_and_check_wp ch Hq Hsac Hsbc Hsab Hab Htakes Hsoon (t3 + 60 * 1000000000)
    (t4 + 60 * 1000000000) na cc nc); try done; try (nanos; lia).
  intros i Hi. apply Hina, elem_of_seq. lia.
Qed.
End properties.

(** ** Witnesses *)

Section witnesses.
#[local] Existing Instance Examples.string_uuid.
#[local] Existing Instance Examples.sorted_iter.
Import Testing NodeService IntegrationTest.

#[local] Existing Instance mix_xxh3.

Definition ex_ch : Chances :=
  mkChances (λ _, 1000) (λ j, Z.of_nat j `min` 5) 7 (ex_id "a") (ex_id "b") (ex_id "c") (ex_id "sa") (ex_id "sb")
    "h:1" "h:2" 2 true 3 (Gossip.mkEnv (λ _, 0) 0 (λ _, 0) (λ _, ""%string)) (λ _, 0).

(** A key of the list of the test that stays and is C's. *)
Definition ex_kept (peers : list NodeInfo) : bool :=
  let ring := Rebalance.rebalance_ring (node_c_id ex_ch) "" peers in
  existsb (λ i, negb (bool_decide (key_name i ∈ keys_to_delete)) &&
    Rebalance.owned (node_c_id ex_ch) ring (key_name i)) (seq 0 200).

Lemma ex_kept_key peers : ex_kept peers = true → ∃ i, (i < 200)%nat ∧ key_name i ∉ keys_to_delete ∧
  Rebalance.owned (node_c_id ex_ch) (Rebalance.rebalance_ring (node_c_id ex_ch) "" peers) (key_name i) = true.
Proof.
  intros (i & Hi & Hk)%existsb_exists. apply andb_true_iff in Hk as [Hd Ho]. exists i.
  apply in_seq in Hi. split; [lia|]. split; [|done]. by apply negb_true_iff, bool_decide_eq_false in Hd.
Qed.

Lemma ex_expected : expected ex_ch.
Proof.
  split; try (apply (bool_decide_unpack _); vm_compute; exact I).
  - intros k. by compute.
  - intros j. cbn [during total ex_ch]. lia.
  - intros peers Hp. apply ex_kept_key.
    apply symmetry, Permutation_length_2_inv in Hp as [->| ->]; vm_compute; reflexivity.
Qed.

Lemma integration_test_witness : run 0 (test_full_join_recover_cycle ex_ch) = Returns ().
Proof. apply (integration_test ex_ch 0 ex_expected). by compute. Defined.
End witnesses.
